(** * A shallow embedding of the WebRTC voice-bot media pipeline

    The development follows the JavaScript sources of the server:

    - [StateMachine]      : server/state-machine.js
    - [Buf]               : the part of Node's [Buffer] the pipeline uses
    - [Double]            : the rounding of JavaScript's numbers
    - [AudioProcessor]    : server/audio-processor.js (the frame normalizer)
    - [FakeSTT]           : server/fake-stt.js (VAD and recognizer)
    - [Abort]             : [AbortController] and [AbortSignal]
    - [FakeTTS]           : server/fake-tts.js (the synthesizer)
    - [PerformanceLogger] : server/performance-logger.js
    - [Session]           : server/session-manager.js (the session controller)
    - [Server]            : the audio callback of server/index.js
    - [SessionManager]    : server/session-manager.js (the session manager)
      and the metrics route of server/index.js
    - [WebRTCAudioHandler] : server/webrtc-audio-handler.js
    - [Producer], [TestAudio] : the loops that drive the generator and the
      recognizer (session-manager.js, fake-tts.js, test-audio.js)

    Conventions.  A call that throws is modelled by [None].  JavaScript
    numbers are modelled by integers ([Z]) and rationals ([Q]).  The
    resampler, whose interpolation depends on the rounding of IEEE doubles,
    rounds every operation to the nearest double ([Double.round]).
    Elsewhere byte offsets, sizes, frame counts, sums of samples and means
    are computed exactly, which is what the doubles of the source give for
    blocks and texts of any realistic size.  An integer argument stands
    for the double of that value.  The sine wave of the synthesizer is
    kept abstract ([FakeTTS.Sine]).  Wall clock readings ([Date.now()])
    are inputs or come from a clock in the world.  Output on the console
    is not modelled.

    The definitions come first, then the statements and their proofs. *)

From Stdlib Require Import ZArith List String Ascii Bool Lia Sorted.
From Stdlib Require Import QArith Qround Qminmax Qpower Qabs Lqa.
From stdpp Require Import base list relations.
Import ListNotations.

Set Default Proof Using "Type".

(** * server/state-machine.js *)

Module StateMachine.

(** [SessionState]: the five string constants. *)
Inductive SessionState : Set :=
| IDLE | LISTENING | PROCESSING | SPEAKING | INTERRUPTED.

Definition state_eqb (a b : SessionState) : bool :=
  match a, b with
  | IDLE, IDLE | LISTENING, LISTENING | PROCESSING, PROCESSING
  | SPEAKING, SPEAKING | INTERRUPTED, INTERRUPTED => true
  | _, _ => false
  end.

(** The [metadata] argument of [transition]: the three shapes the session
    controller passes, and the default [{}].  A [text] of [None] is
    [undefined]. *)
Inductive Metadata : Set :=
| MdNone
| MdText (text : option string)
| MdTimestamp (timestamp : Z)
| MdReason (reason : string).

(** One entry of [this.history]. *)
Record Transition : Set := mkTransition {
  from : SessionState;
  to : SessionState;
  timestamp : Z;
  metadata : Metadata
}.

(** The mutable fields of a [StateMachine].  [listeners] holds the
    subscribers added by [onStateChange]; each is identified by a number
    and [transition] reports which of them it notified. *)
Record t : Set := mk {
  state : SessionState;
  history : list Transition;
  listeners : list nat
}.

(** [constructor]. *)
Definition new : t := mk IDLE [] [].

(** The table inside [isValidTransition]. *)
Definition validTransitions (s : SessionState) : list SessionState :=
  match s with
  | IDLE => [LISTENING]
  | LISTENING => [PROCESSING; IDLE]
  | PROCESSING => [SPEAKING; LISTENING; IDLE]
  | SPEAKING => [INTERRUPTED; LISTENING; IDLE]
  | INTERRUPTED => [LISTENING; IDLE]
  end.

(** [Array.prototype.includes]. *)
Definition includes (x : SessionState) (l : list SessionState) : bool :=
  existsb (state_eqb x) l.

(** [isValidTransition(from, to)]. *)
Definition isValidTransition (from to : SessionState) : bool :=
  includes to (validTransitions from) || false.

(** What a call of [transition] produces besides the new machine: the
    boolean it returns and the listeners it called, in order. *)
Record Outcome : Set := mkOutcome {
  ok : bool;
  notified : list (nat * Transition);
  machine : t
}.

(** [transition(newState, metadata)]; [now] is the value of [Date.now()]. *)
Definition transition (newState : SessionState) (md : Metadata) (now : Z)
    (m : t) : Outcome :=
  let oldState := state m in
  if negb (isValidTransition oldState newState) then
    mkOutcome false [] m
  else
    let tr := mkTransition oldState newState now md in
    mkOutcome true
      (map (fun l => (l, tr)) (listeners m))
      (mk newState (history m ++ [tr]) (listeners m)).

Definition getState (m : t) : SessionState := state m.
Definition is_ (s : SessionState) (m : t) : bool := state_eqb (state m) s.
Definition getHistory (m : t) : list Transition := history m.

(** [reset()]: the only caller of [transition] inside the class. *)
Definition reset (now : Z) (m : t) : t :=
  machine (transition IDLE (MdReason "reset") now m).

(** The table of valid transitions as the specification prints it
    (section 4.5), one row per pair. *)
Definition spec_table : list (SessionState * SessionState) :=
  [ (IDLE, LISTENING);
    (LISTENING, PROCESSING); (LISTENING, IDLE);
    (PROCESSING, SPEAKING); (PROCESSING, LISTENING); (PROCESSING, IDLE);
    (SPEAKING, INTERRUPTED); (SPEAKING, LISTENING); (SPEAKING, IDLE);
    (INTERRUPTED, LISTENING); (INTERRUPTED, IDLE) ].

Definition in_spec_table (s t : SessionState) : bool :=
  existsb (fun p => state_eqb (fst p) s && state_eqb (snd p) t) spec_table.

(** [onStateChange(listener)]: the listener is appended to
    [this.listeners]; the function handed back to the caller is
    [unsubscribe listener]. *)
Definition onStateChange (listener : nat) (m : t) : t :=
  mk (state m) (history m) (listeners m ++ [listener]).

(** The function [onStateChange] returns: it keeps the listeners [l] with
    [l !== listener]. *)
Definition unsubscribe (listener : nat) (m : t) : t :=
  mk (state m) (history m)
     (List.filter (fun l => negb (Nat.eqb l listener)) (listeners m)).

End StateMachine.

(** * Node's [Buffer], as far as the pipeline uses it *)

Module Buf.

(** A buffer is its sequence of bytes, each in [0, 255]. *)
Abbreviation t := (list Z).

Definition length (b : t) : Z := Z.of_nat (List.length b).

(** A JavaScript number used as an index or a size is an integer when it
    equals its own floor. *)
Definition is_integer (x : Q) : bool := Qeq_bool x (inject_Z (Qfloor x)).

(** [Buffer.alloc(size)]: throws unless [0 <= size]; a fractional size is
    truncated by the underlying [Uint8Array]; the bytes are zero. *)
Definition alloc (size : Q) : option t :=
  if Qle_bool 0 size then Some (repeat 0%Z (Z.to_nat (Qfloor size)))
  else None.

(** [buf[offset]]: [undefined] (here [None]) outside the buffer and at a
    fractional index. *)
Definition get (b : t) (offset : Q) : option Z :=
  if is_integer offset && Qle_bool 0 offset
  then b !! Z.to_nat (Qfloor offset)
  else None.

(** [buf.readInt16LE(offset)]: reads [first = buf[offset]] and
    [last = buf[offset + 1]], throws when one of them is [undefined], and
    returns [first + last * 2 ** 8] sign-extended from bit 15. *)
Definition readInt16LE (b : t) (offset : Q) : option Z :=
  match get b offset, get b (offset + 1) with
  | Some first, Some last =>
      let val := (first + last * 2 ^ 8)%Z in
      Some (if Z.testbit val 15 then val - 65536 else val)%Z
  | _, _ => None
  end.

(** [buf.writeInt16LE(value, offset)]: throws when [value] is outside
    [-32768, 32767] or when [offset] or [offset + 1] is outside the
    buffer; otherwise stores the low byte, then [value >>> 8], each
    reduced to a byte by the typed array. *)
Definition writeInt16LE (value : Z) (offset : Z) (b : t) : option t :=
  if ((-32768 <=? value) && (value <=? 32767)
      && (0 <=? offset) && (offset + 1 <? length b))%Z
  then Some (<[Z.to_nat (offset + 1) := Z.land (Z.shiftr value 8) 255]>
               (<[Z.to_nat offset := Z.land value 255]> b))
  else None.

(** [Buffer.concat([a, b])]. *)
Definition concat (a b : t) : t := a ++ b.

(** [buf.slice(0, n)] and [buf.slice(n)] for [0 <= n]. *)
Definition slice_to (n : nat) (b : t) : t := take n b.
Definition slice_from (n : nat) (b : t) : t := drop n b.

End Buf.

(** [Math.round]: the nearest integer, ties towards positive infinity. *)
Definition Math_round (x : Q) : Z := Qfloor (x + (1 # 2)).

(** A small error monad: [None] is a thrown exception. *)
Definition bindo {A B : Type} (x : option A) (f : A -> option B) : option B :=
  match x with
  | Some a => f a
  | None => None
  end.

Notation "'do' x <- c1 ; c2" := (bindo c1 (fun x => c2))
  (at level 10, x name, c1 at level 100, c2 at level 200).
Notation "'do' ' pat <- c1 ; c2" :=
  (bindo c1 (fun x => match x with pat => c2 end))
  (at level 10, pat pattern, c1 at level 100, c2 at level 200).

(** * IEEE 754 binary64: the rounding of JavaScript's arithmetic *)

Module Double.

(** [floor (log2 (n / d))] for positive [n] and [d]. *)
Definition exponent (n d : Z) : Z :=
  let k := (Z.log2 n - Z.log2 d)%Z in
  if (0 <=? k)%Z
  then (if (n <? d * 2 ^ k)%Z then k - 1 else k)%Z
  else (if (n * 2 ^ (- k) <? d)%Z then k - 1 else k)%Z.

(** The integer nearest to [n / d] for positive [d], the even one when two
    are as near. *)
Definition nearestEven (n d : Z) : Z :=
  let f := (n / d)%Z in
  match (2 * (n mod d) ?= d)%Z with
  | Lt => f
  | Gt => (f + 1)%Z
  | Eq => if Z.even f then f else (f + 1)%Z
  end.

(** The exponent of the spacing of the doubles around a positive
    rational [x]: [e - 52] where [2 ^ e <= x < 2 ^ (e + 1)], and [-1074]
    for [x] below [2 ^ -1022]. *)
Definition spacing (x : Q) : Z :=
  (Z.max (exponent (Qnum x) (Zpos (Qden x))) (-1022) - 52)%Z.

(** The integer nearest to [x / 2 ^ k], ties to even. *)
Definition steps (x : Q) (k : Z) : Z :=
  if (0 <=? k)%Z
  then nearestEven (Qnum x) (Zpos (Qden x) * 2 ^ k)
  else nearestEven (Qnum x * 2 ^ (- k)) (Zpos (Qden x)).

(** The double nearest to a positive rational, ties to even. *)
Definition roundPos (x : Q) : Q :=
  let k := spacing x in
  Qred (inject_Z (steps x k) * 2 ^ k).

(** The double nearest to a rational.  A result of magnitude [2 ^ 1024]
    stands for an infinity: see [isFinite]. *)
Definition round (x : Q) : Q :=
  let y := Qred x in
  match Qnum y with
  | Z0 => 0
  | Zpos _ => roundPos y
  | Zneg _ => - roundPos (- y)
  end.

(** Whether a rounded value is a finite double. *)
Definition isFinite (x : Q) : bool :=
  negb (Qle_bool (inject_Z (2 ^ 1024)) (Qabs x)).

End Double.

(** * server/audio-processor.js: the frame normalizer *)

Module AudioProcessor.

Definition targetSampleRate : Z := 16000.
Definition targetChannels : Z := 1.
Definition frameDuration : Z := 20.
(** [(targetSampleRate * frameDuration) / 1000], 320 samples. *)
Definition frameSize : Z := (targetSampleRate * frameDuration) / 1000.
(** [frameSize * 2], 640 bytes. *)
Definition bytesPerFrame : Z := frameSize * 2.

(** The only mutable field: the residual [this.buffer]. *)
Record t : Set := mk { buffer : Buf.t }.

(** [constructor]: [Buffer.alloc(0)]. *)
Definition new : t := mk [].

(** The body of the loop of [simpleResample], run for [n] more values of
    [i] starting at [i].  The index [i * inputRate / outputRate], the
    fraction and the interpolation are computed in doubles: every product,
    quotient, sum and difference is rounded.  When [i * inputRate] is
    infinite or [outputRate] is 0, [srcIndex] is infinite or [NaN] and
    [readInt16LE] throws. *)
Fixpoint resampleLoop (input : Buf.t) (inputSamples : Q)
    (inputRate outputRate : Z) (n : nat) (i : Z) (output : Buf.t)
    : option Buf.t :=
  match n with
  | O => Some output
  | S n' =>
      let product := Double.round (inject_Z i * inject_Z inputRate)%Q in
      if negb (Double.isFinite product) || (outputRate =? 0)%Z then None else
      let srcIndex := Double.round (product / inject_Z outputRate)%Q in
      let srcIndexFloor := Qfloor srcIndex in
      let srcIndexCeil :=
        Qmin (inject_Z (srcIndexFloor + 1)) (inputSamples - 1)%Q in
      let fraction := Double.round (srcIndex - inject_Z srcIndexFloor)%Q in
      do sample1 <- Buf.readInt16LE input (inject_Z srcIndexFloor * 2)%Q;
      do sample2 <- Buf.readInt16LE input (srcIndexCeil * 2)%Q;
      let interpolated :=
        Math_round
          (Double.round
             (inject_Z sample1
              + Double.round (inject_Z (sample2 - sample1) * fraction))%Q) in
      do output' <- Buf.writeInt16LE interpolated (i * 2) output;
      resampleLoop input inputSamples inputRate outputRate n' (i + 1) output'
  end.

(** [simpleResample(input, inputRate, outputRate)].  The number of output
    samples is the floor of a product and a quotient of doubles.  With
    [inputRate = 0], or when [inputSamples * outputRate] is infinite, it
    is infinite or [NaN] and [Buffer.alloc] throws. *)
Definition simpleResample (input : Buf.t) (inputRate outputRate : Z)
    : option Buf.t :=
  let inputSamples := (inject_Z (Buf.length input) / 2)%Q in
  if (inputRate =? 0)%Z then None else
  let product := Double.round (inputSamples * inject_Z outputRate)%Q in
  if negb (Double.isFinite product) then None else
  let outputSamples :=
    Qfloor (Double.round (product / inject_Z inputRate)%Q) in
  do output <- Buf.alloc (inject_Z outputSamples * 2)%Q;
  resampleLoop input inputSamples inputRate outputRate
    (Z.to_nat outputSamples) 0 output.

(** The inner loop of [convertToMono]: adds [channels - ch] samples of
    frame [i], starting at channel [ch]. *)
Fixpoint sumChannels (input : Buf.t) (channels : Z) (i : Z) (n : nat)
    (ch : Z) (sum : Z) : option Z :=
  match n with
  | O => Some sum
  | S n' =>
      do s <- Buf.readInt16LE input (inject_Z ((i * channels + ch) * 2));
      sumChannels input channels i n' (ch + 1) (sum + s)
  end.

(** The outer loop of [convertToMono], run for [n] more values of [i]. *)
Fixpoint monoLoop (input : Buf.t) (channels : Z) (n : nat) (i : Z)
    (output : Buf.t) : option Buf.t :=
  match n with
  | O => Some output
  | S n' =>
      do sum <- sumChannels input channels i (Z.to_nat channels) 0 0;
      do output' <-
        Buf.writeInt16LE (Math_round (inject_Z sum / inject_Z channels)%Q)
          (i * 2) output;
      monoLoop input channels n' (i + 1) output'
  end.

(** [convertToMono(input, channels)], called with [channels > 1].
    [sampleCount] need not be an integer: [Buffer.alloc] truncates the
    size and the loop runs for every integer [i < sampleCount]. *)
Definition convertToMono (input : Buf.t) (channels : Z) : option Buf.t :=
  let sampleCount := (inject_Z (Buf.length input) / inject_Z (2 * channels))%Q in
  do output <- Buf.alloc (sampleCount * 2)%Q;
  monoLoop input channels (Z.to_nat (Qceiling sampleCount)) 0 output.

(** The [while] loop of [processAudioData]: [fuel] bounds the number of
    iterations, and [List.length buffer] is always enough since every
    iteration removes [bytesPerFrame] bytes. *)
Fixpoint extractFrames (fuel : nat) (buffer : Buf.t) : list Buf.t * Buf.t :=
  match fuel with
  | O => ([], buffer)
  | S fuel' =>
      if (bytesPerFrame <=? Buf.length buffer)%Z then
        let frame := Buf.slice_to (Z.to_nat bytesPerFrame) buffer in
        let '(frames, rest) :=
          extractFrames fuel' (Buf.slice_from (Z.to_nat bytesPerFrame) buffer) in
        (frame :: frames, rest)
      else ([], buffer)
  end.

(** The two conversion steps at the head of [processAudioData]. *)
Definition convert (audioData : Buf.t) (sourceSampleRate sourceChannels : Z)
    : option Buf.t :=
  do processedData <-
    (if negb (sourceSampleRate =? targetSampleRate)%Z
     then simpleResample audioData sourceSampleRate targetSampleRate
     else Some audioData);
  if (1 <? sourceChannels)%Z
  then convertToMono processedData sourceChannels
  else Some processedData.

(** [processAudioData(audioData, sourceSampleRate, sourceChannels)]:
    the frames returned and the processor afterwards.  An exception leaves
    the processor as it was, since it is thrown before [this.buffer] is
    assigned. *)
Definition processAudioData (audioData : Buf.t)
    (sourceSampleRate sourceChannels : Z) (p : t)
    : option (list Buf.t * t) :=
  do processedData <- convert audioData sourceSampleRate sourceChannels;
  let buffer := Buf.concat (buffer p) processedData in
  let '(frames, rest) := extractFrames (List.length buffer) buffer in
  Some (frames, mk rest).

(** [clearBuffer()]. *)
Definition clearBuffer (p : t) : t := mk [].

End AudioProcessor.

(** * server/fake-stt.js: voice activity detection and the recognizer *)

Module FakeSTT.

(** The non-negative number [Math.sqrt(x)] is represented by [x]: for
    [0 <= t], [Math.sqrt(x) > t] holds exactly when [x > t * t].  Where
    JavaScript computes [NaN] (an empty buffer, [0 / 0]) the model has
    [0]; both compare as not greater than a positive threshold. *)
Record Rms : Set := mkRms { square : Q }.

(** [rms > threshold]. *)
Definition exceeds (rms : Rms) (threshold : Q) : bool :=
  negb (Qle_bool (square rms) (threshold * threshold)).

Definition VOICE_THRESHOLD : Q := 2 # 100.
Definition VOICE_START_FRAMES : Z := 25.
Definition SILENCE_END_FRAMES : Z := 15.

Definition responses : list string :=
  [ "hello"; "how are you"; "what's the weather"; "tell me a joke";
    "goodbye" ]%string.

Record t : Set := mk {
  isProcessing : bool;
  voiceBuffer : list Buf.t;
  silenceFrames : Z;
  voiceFrames : Z;
  partialText : string;
  responseIndex : Z
}.

(** [constructor]. *)
Definition new : t := mk false [] 0 0 "" 0.

(** The loop of [calculateRMS], run for [n] more values of [i].  The sum
    is kept in lowest terms ([Qred]), which does not change its value. *)
Fixpoint rmsLoop (pcmData : Buf.t) (n : nat) (i : Z) (sum : Q) : option Q :=
  match n with
  | O => Some sum
  | S n' =>
      do s <- Buf.readInt16LE pcmData (inject_Z (i * 2));
      let sample := (inject_Z s / 32768)%Q in
      rmsLoop pcmData n' (i + 1) (Qred (sum + sample * sample))
  end.

(** [calculateRMS(pcmData)]. *)
Definition calculateRMS (pcmData : Buf.t) : option Rms :=
  let sampleCount := (inject_Z (Buf.length pcmData) / 2)%Q in
  do sum <- rmsLoop pcmData (Z.to_nat (Qceiling sampleCount)) 0 0;
  Some (mkRms (sum / sampleCount)).

(** [getNextResponse()]: [None] is [undefined]. *)
Definition getNextResponse (s : t) : option string :=
  if (responseIndex s <? 0)%Z then None
  else responses !! Z.to_nat (responseIndex s).

(** [str.substring(0, n)]: a negative [n] counts as [0], an [n] beyond the
    end as the length. *)
Definition substring0 (n : Z) (str : string) : string :=
  String.substring 0 (Z.to_nat n) str.

(** [reset()]. *)
Definition reset (s : t) : t :=
  mk false [] 0 0 "" (responseIndex s).

Inductive ResultType : Set := partial | final.

(** The object [processFrame] returns; [text] is [None] when it is
    [undefined]. *)
Record Result : Set := mkResult {
  type : ResultType;
  text : option string;
  timestamp : Z
}.

(** The rest of [processFrame] once [hasVoice] is known.  [now] is the
    value of [Date.now()].  The outer [None] is an exception (calling
    [substring] on [undefined]). *)
Definition processVoice (hasVoice : bool) (now : Z) (s : t)
    : option (option Result * t) :=
  if hasVoice then
    let s1 := mk (isProcessing s) (voiceBuffer s) 0 (voiceFrames s + 1)
                 (partialText s) (responseIndex s) in
    if (voiceFrames s1 =? VOICE_START_FRAMES)%Z && negb (isProcessing s1) then
      do full <- getNextResponse s1;
      let txt := substring0 3 full in
      Some (Some (mkResult partial (Some txt) now),
            mk true (voiceBuffer s1) (silenceFrames s1) (voiceFrames s1)
               txt (responseIndex s1))
    else if isProcessing s1 && (Z.rem (voiceFrames s1) 10 =? 0)%Z then
      do fullText <- getNextResponse s1;
      let progress :=
        Z.min (voiceFrames s1 - VOICE_START_FRAMES)
              (Z.of_nat (String.length fullText)) in
      let txt := substring0 progress fullText in
      Some (Some (mkResult partial (Some txt) now),
            mk (isProcessing s1) (voiceBuffer s1) (silenceFrames s1)
               (voiceFrames s1) txt (responseIndex s1))
    else Some (None, s1)
  else
    if isProcessing s then
      let s1 := mk (isProcessing s) (voiceBuffer s) (silenceFrames s + 1)
                   (voiceFrames s) (partialText s) (responseIndex s) in
      if (SILENCE_END_FRAMES <=? silenceFrames s1)%Z then
        let finalText := getNextResponse s1 in
        let s2 := mk (isProcessing s1) (voiceBuffer s1) (silenceFrames s1)
                     (voiceFrames s1) (partialText s1)
                     (Z.rem (responseIndex s1 + 1)
                            (Z.of_nat (List.length responses))) in
        Some (Some (mkResult final finalText now), reset s2)
      else Some (None, s1)
    else Some (None, s).

(** [processFrame(audioFrame)]. *)
Definition processFrame (audioFrame : Buf.t) (now : Z) (s : t)
    : option (option Result * t) :=
  do rms <- calculateRMS audioFrame;
  let hasVoice := exceeds rms VOICE_THRESHOLD in
  processVoice hasVoice now s.

(** [getState()]. *)
Definition getState (s : t) : bool * Z * Z * string :=
  (isProcessing s, voiceFrames s, silenceFrames s, partialText s).

End FakeSTT.

(** * [AbortController] and [AbortSignal]

    Controllers are allocated in a store and named by their index; the
    entry is the [aborted] flag of the controller's signal.  Two holders of
    the same index see the same flag. *)

Module Abort.

Abbreviation Store := (list bool).

(** [new AbortController()]. *)
Definition create (st : Store) : nat * Store := (List.length st, st ++ [false]).

(** [controller.abort()]. *)
Definition abort (h : nat) (st : Store) : Store := <[h := true]> st.

(** [signal.aborted]. *)
Definition aborted (h : nat) (st : Store) : bool := default false (st !! h).

End Abort.

(** [str.split(sep)] for a one-character separator: the pieces between the
    occurrences of [sep]; never empty. *)
Fixpoint split (sep : ascii) (str : string) : list string :=
  match str with
  | EmptyString => [EmptyString]
  | String c rest =>
      if Ascii.eqb c sep then EmptyString :: split sep rest
      else match split sep rest with
           | w :: ws => String c w :: ws
           | [] => [String c EmptyString]
           end
  end.

(** * server/fake-tts.js: the synthesizer *)

Module FakeTTS.

(** The floating-point part of [generateFrame] is kept abstract: a phase
    value, the sample [Math.floor(Math.sin(phase) * 0.7 * 32767)] it
    gives, and the phase after [phase += angularFrequency] with the wrap
    at [2 * Math.PI].  Since [Math.sin] stays within [-1, 1], the sample
    stays within [-22937, 22936]. *)
Class Sine : Type := {
  Phase : Type;
  phase_zero : Phase;
  intSample : Phase -> Z;
  advance : Z -> Phase -> Phase;
  intSample_range : forall p, (-22937 <= intSample p <= 22936)%Z
}.

Definition sampleRate : Z := 16000.
Definition channels : Z := 1.
Definition bitsPerSample : Z := 16.
Definition frameSize : Z := 320.
Definition frameDurationMs : Z := 20.
Definition baseFrequency : Z := 440.

Section WithSine.
Context {sine : Sine}.

(** The mutable field [this.phase]. *)
Record t : Type := mk { phase : Phase }.

(** [constructor]. *)
Definition new : t := mk phase_zero.

(** [reset()]. *)
Definition reset (s : t) : t := mk phase_zero.

(** The loop of [generateFrame], run for [n] more values of [i]. *)
Fixpoint frameLoop (frequency : Z) (n : nat) (i : Z) (buffer : Buf.t)
    (s : t) : option (Buf.t * t) :=
  match n with
  | O => Some (buffer, s)
  | S n' =>
      do buffer' <- Buf.writeInt16LE (intSample (phase s)) (i * 2) buffer;
      frameLoop frequency n' (i + 1) buffer' (mk (advance frequency (phase s)))
  end.

(** [generateFrame(frequency)]. *)
Definition generateFrame (frequency : Z) (s : t) : option (Buf.t * t) :=
  do buffer <- Buf.alloc (inject_Z (frameSize * 2));
  frameLoop frequency (Z.to_nat frameSize) 0 buffer s.

(** The locals of a running [generateAudioStream]. *)
Record Locals : Set := mkLocals {
  totalFrames : Z;
  frequency : Z;
  frameIndex : Z
}.

(** [totalFrames] as [generateAudioStream] computes it from [text]. *)
Definition computeTotalFrames (text : string) : Z :=
  let wordsPerSecond := 3%Z in
  let words := Z.of_nat (List.length (split " " text)) in
  let durationSeconds := Qmax 2 (inject_Z words / inject_Z wordsPerSecond) in
  Qfloor (durationSeconds * 1000 / inject_Z frameDurationMs).

(** [frequency] as [generateAudioStream] computes it from [text]. *)
Definition computeFrequency (text : string) : Z :=
  baseFrequency + Z.rem (Z.of_nat (String.length text) * 10) 200.

(** The async generator object [generateAudioStream(text, signal)]
    returns, by the place where it is suspended. *)
Inductive Generator : Set :=
| SuspendedStart (text : string)
| AwaitingDelay (l : Locals) (pcmFrame : Buf.t)
| SuspendedYield (l : Locals)
| Completed.

(** What the consumer's pending [next()] has received so far. *)
Inductive Reply : Set :=
| Pending
| Value (pcmFrame : Buf.t)
| Done.

(** From the loop test to the next suspension: the test
    [frameIndex < totalFrames], the check of [signal?.aborted], then
    [generateFrame] and the start of [this.delay].  [aborted] is the
    value of [signal?.aborted] at that moment. *)
Definition loopHead (aborted : bool) (l : Locals) (s : t)
    : option (Generator * Reply * t) :=
  if (frameIndex l <? totalFrames l)%Z then
    if aborted then Some (Completed, Done, s)
    else
      do '(pcmFrame, s') <- generateFrame (frequency l) s;
      Some (AwaitingDelay l pcmFrame, Pending, s')
  else Some (Completed, Done, s).

(** The consumer calls [next()]. *)
Definition next (aborted : bool) (g : Generator) (s : t)
    : option (Generator * Reply * t) :=
  match g with
  | SuspendedStart text =>
      loopHead aborted
        (mkLocals (computeTotalFrames text) (computeFrequency text) 0) s
  | SuspendedYield l =>
      loopHead aborted
        (mkLocals (totalFrames l) (frequency l) (frameIndex l + 1)) s
  | AwaitingDelay l f => Some (g, Pending, s)
  | Completed => Some (Completed, Done, s)
  end.

(** The timer of [this.delay] fires: the generator reaches [yield]. *)
Definition delayElapsed (g : Generator) : Generator * Reply :=
  match g with
  | AwaitingDelay l pcmFrame => (SuspendedYield l, Value pcmFrame)
  | _ => (g, Pending)
  end.

(** The consumer leaves its [for await] loop early: [return()]. *)
Definition return_ (g : Generator) : Generator := Completed.

(** [getFormat()]. *)
Definition getFormat : Z * Z * Z * Z * Z :=
  (sampleRate, channels, bitsPerSample, frameSize, frameDurationMs).

End WithSine.

End FakeTTS.

(** * server/performance-logger.js *)

Module PerformanceLogger.

(** The event names the server logs. *)
Inductive EventType : Set :=
| session_start | webrtc_connected | stt_partial | stt_final | tts_start
| tts_first_chunk | tts_complete | barge_in | session_close.

(** The [data] object of an event: the fields the server sets. *)
Record Data : Set := mkData {
  d_text : option string;
  d_latency : option Z;
  d_connectionTime : option Z
}.

Definition noData : Data := mkData None None None.
Definition textData (s : string) : Data := mkData (Some s) None None.
Definition latencyData (l : Z) : Data := mkData None (Some l) None.

Record Log : Set := mkLog {
  eventType : EventType;
  timestamp : Z;
  data : Data
}.

(** [this.metrics].  An entry of [bargeInLatencies] is [data.latency] as
    it was passed, [None] when the event had no latency ([undefined]); an
    entry of [sttLatencies] is a number other than 0. *)
Record Metrics : Set := mkMetrics {
  webrtcConnectionTime : option Z;
  sttLatencies : list Z;
  ttsStreamingStartTime : option Z;
  bargeInLatencies : list (option Z)
}.

Record t : Set := mk { logs : list Log; metrics : Metrics }.

(** [constructor]. *)
Definition new : t := mk [] (mkMetrics None [] None []).

(** [updateMetrics(eventType, data)]. *)
Definition updateMetrics (ty : EventType) (d : Data) (m : Metrics) : Metrics :=
  match ty with
  | webrtc_connected =>
      mkMetrics (d_connectionTime d) (sttLatencies m)
        (ttsStreamingStartTime m) (bargeInLatencies m)
  | stt_final =>
      match d_latency d with
      | Some l =>
          if (l =? 0)%Z then m
          else mkMetrics (webrtcConnectionTime m) (sttLatencies m ++ [l])
                 (ttsStreamingStartTime m) (bargeInLatencies m)
      | None => m
      end
  | tts_first_chunk =>
      mkMetrics (webrtcConnectionTime m) (sttLatencies m) (d_latency d)
        (bargeInLatencies m)
  | barge_in =>
      mkMetrics (webrtcConnectionTime m) (sttLatencies m)
        (ttsStreamingStartTime m) (bargeInLatencies m ++ [d_latency d])
  | _ => m
  end.

(** [logEvent(eventType, data)]; [now] is the value of [Date.now()]. *)
Definition logEvent (ty : EventType) (d : Data) (now : Z) (l : t) : t :=
  mk (logs l ++ [mkLog ty now d]) (updateMetrics ty d (metrics l)).

Definition getLogs (l : t) : list Log := logs l.

(** The sum of [array.reduce((sum, val) => sum + val, 0)]: [None] is
    [NaN], the sum once an entry is [undefined]. *)
Definition sumOf (array : list (option Z)) : option Z :=
  fold_left (fun sum val =>
               match sum, val with
               | Some x, Some y => Some (x + y)%Z
               | _, _ => None
               end) array (Some 0%Z).

(** [calculateAverage(array)]; [None] is [NaN]. *)
Definition calculateAverage (array : list (option Z)) : option Q :=
  if (List.length array =? 0)%nat then Some 0%Q
  else option_map
         (fun sum => inject_Z sum / inject_Z (Z.of_nat (List.length array)))%Q
         (sumOf array).

(** [Math.max(...array, 0)]: the largest of the entries and 0, [NaN]
    ([None]) when an entry is [undefined]. *)
Definition maxOf (array : list (option Z)) : option Z :=
  fold_right (fun val acc =>
                match val, acc with
                | Some x, Some y => Some (Z.max x y)
                | _, _ => None
                end) (Some 0%Z) array.

(** What [getMetrics()] adds to the fields of [this.metrics]. *)
Record Summary : Set := mkSummary {
  summaryMetrics : Metrics;
  avgSttLatency : option Q;
  avgBargeInLatency : option Q;
  maxBargeInLatency : option Z;
  bargeInCount : Z
}.

(** [getMetrics()]. *)
Definition getMetrics (l : t) : Summary :=
  mkSummary (metrics l)
    (calculateAverage (map Some (sttLatencies (metrics l))))
    (calculateAverage (bargeInLatencies (metrics l)))
    (maxOf (bargeInLatencies (metrics l)))
    (Z.of_nat (List.length (bargeInLatencies (metrics l)))).

End PerformanceLogger.

(** * server/session-manager.js: the session controller *)

Module Session.

Import StateMachine.

(** What the controller does to its components and to the outside, in
    program order. *)
Inductive Effect : Set :=
| Transitioned (from to : SessionState)
| Rejected (from to : SessionState)
| Allocated (h : nat)
| Aborted (h : nat)
| Flushed
| TtsReset
| SttReset
| Logged (ty : PerformanceLogger.EventType)
| Sent (pcmData : Buf.t)
| NoHandler
| PeerClosed
| AudioProcessing (on : bool).

Section WithSine.
Context {sine : FakeTTS.Sine}.

(** A call of [generateResponse] that is suspended in its [for await]
    loop: the generator it drains and its locals. *)
Record Task : Type := mkTask {
  generator : FakeTTS.Generator;
  abortSignal : nat;
  ttsStartTime : Z;
  firstChunk : bool;
  chunkCount : Z
}.

(** The fields of a [Session].  [peerConnection] and [audioHandler] say
    whether the reference is non-null; [currentTTSStream] is never
    assigned and is left out. *)
Record t : Type := mk {
  stateMachine : StateMachine.t;
  stt : FakeSTT.t;
  tts : FakeTTS.t;
  logger : PerformanceLogger.t;
  ttsAbortController : option nat;
  audioBuffer : list Buf.t;
  isProcessingAudio : bool;
  peerConnection : bool;
  audioHandler : bool
}.

(** The session together with what surrounds it: the store of abort
    controllers, the clock ([Date.now()] returns [clock ticks] and
    advances [ticks]), the effects so far, and the suspended
    [generateResponse] calls. *)
Record World : Type := mkWorld {
  self : t;
  signals : Abort.Store;
  clock : nat -> Z;
  ticks : nat;
  trace : list Effect;
  tasks : list Task
}.

(** [constructor]. *)
Definition new (peerConnection audioHandler : bool) : t :=
  mk StateMachine.new FakeSTT.new FakeTTS.new PerformanceLogger.new
     None [] false peerConnection audioHandler.

Definition newWorld (peerConnection audioHandler : bool)
    (clock : nat -> Z) : World :=
  mkWorld (new peerConnection audioHandler) [] clock 0 [] [].

(** Computations over the world; [None] is a thrown exception. *)
Definition M (A : Type) : Type := World -> option (A * World).

Definition ret {A} (a : A) : M A := fun w => Some (a, w).
Definition bind {A B} (m : M A) (f : A -> M B) : M B :=
  fun w => match m w with
           | Some (a, w') => f a w'
           | None => None
           end.
Definition throw {A} : M A := fun _ => None.
Definition lift {A} (o : option A) : M A :=
  fun w => match o with Some a => Some (a, w) | None => None end.
Definition get : M t := fun w => Some (self w, w).
Definition modify (f : t -> t) : M unit :=
  fun w => Some (tt, mkWorld (f (self w)) (signals w) (clock w) (ticks w)
                       (trace w) (tasks w)).
Definition emit (e : Effect) : M unit :=
  fun w => Some (tt, mkWorld (self w) (signals w) (clock w) (ticks w)
                       (trace w ++ [e]) (tasks w)).
(** [Date.now()]. *)
Definition now : M Z :=
  fun w => Some (clock w (ticks w),
                 mkWorld (self w) (signals w) (clock w) (S (ticks w))
                   (trace w) (tasks w)).

Notation "x <- c1 ;; c2" := (bind c1 (fun x => c2))
  (at level 100, c1 at next level, right associativity).
Notation "c1 ;; c2" := (bind c1 (fun _ => c2))
  (at level 100, right associativity).

Definition set_stateMachine (x : StateMachine.t) (s : t) : t :=
  mk x (stt s) (tts s) (logger s) (ttsAbortController s) (audioBuffer s)
     (isProcessingAudio s) (peerConnection s) (audioHandler s).
Definition set_stt (x : FakeSTT.t) (s : t) : t :=
  mk (stateMachine s) x (tts s) (logger s) (ttsAbortController s)
     (audioBuffer s) (isProcessingAudio s) (peerConnection s)
     (audioHandler s).
Definition set_tts (x : FakeTTS.t) (s : t) : t :=
  mk (stateMachine s) (stt s) x (logger s) (ttsAbortController s)
     (audioBuffer s) (isProcessingAudio s) (peerConnection s)
     (audioHandler s).
Definition set_logger (x : PerformanceLogger.t) (s : t) : t :=
  mk (stateMachine s) (stt s) (tts s) x (ttsAbortController s)
     (audioBuffer s) (isProcessingAudio s) (peerConnection s)
     (audioHandler s).
Definition set_ttsAbortController (x : option nat) (s : t) : t :=
  mk (stateMachine s) (stt s) (tts s) (logger s) x (audioBuffer s)
     (isProcessingAudio s) (peerConnection s) (audioHandler s).
Definition set_audioBuffer (x : list Buf.t) (s : t) : t :=
  mk (stateMachine s) (stt s) (tts s) (logger s) (ttsAbortController s) x
     (isProcessingAudio s) (peerConnection s) (audioHandler s).
Definition set_isProcessingAudio (x : bool) (s : t) : t :=
  mk (stateMachine s) (stt s) (tts s) (logger s) (ttsAbortController s)
     (audioBuffer s) x (peerConnection s) (audioHandler s).

(** [this.logger.logEvent(ty, data)]. *)
Definition logEvent (ty : PerformanceLogger.EventType)
    (d : PerformanceLogger.Data) : M unit :=
  n <- now ;;
  modify (fun s => set_logger (PerformanceLogger.logEvent ty d n (logger s)) s) ;;
  emit (Logged ty).

(** [this.stateMachine.transition(newState, metadata)].  The clock is
    read only when the transition is valid. *)
Definition transition (newState : SessionState) (md : Metadata) : M bool :=
  s <- get ;;
  let oldState := state (stateMachine s) in
  if isValidTransition oldState newState then
    n <- now ;;
    modify (set_stateMachine
              (machine (StateMachine.transition newState md n (stateMachine s)))) ;;
    emit (Transitioned oldState newState) ;;
    ret true
  else
    emit (Rejected oldState newState) ;;
    ret false.

(** [new AbortController()]. *)
Definition newAbortController : M nat :=
  fun w =>
    let '(h, st) := Abort.create (signals w) in
    Some (h, mkWorld (self w) st (clock w) (ticks w)
               (trace w ++ [Allocated h]) (tasks w)).

(** [controller.abort()]. *)
Definition abort (h : nat) : M unit :=
  fun w => Some (tt, mkWorld (self w) (Abort.abort h (signals w)) (clock w)
                       (ticks w) (trace w ++ [Aborted h]) (tasks w)).

(** [signal.aborted]. *)
Definition aborted (h : nat) : M bool :=
  fun w => Some (Abort.aborted h (signals w), w).

Definition pushTask (k : Task) : M unit :=
  fun w => Some (tt, mkWorld (self w) (signals w) (clock w) (ticks w)
                       (trace w) (tasks w ++ [k])).

(** [startAudioProcessing()]. *)
Definition startAudioProcessing : M unit :=
  modify (set_isProcessingAudio true) ;;
  emit (AudioProcessing true).

(** [start()]. *)
Definition start : M unit :=
  logEvent PerformanceLogger.session_start PerformanceLogger.noData ;;
  _ <- transition LISTENING MdNone ;;
  startAudioProcessing.

(** [sendAudioToBrowser(pcmData)]. *)
Definition sendAudioToBrowser (pcmData : Buf.t) : M unit :=
  s <- get ;;
  if negb (audioHandler s) then emit NoHandler
  else emit (Sent pcmData).

(** The end of [generateResponse] after the loop finished normally. *)
Definition finishedSpeaking : M unit :=
  logEvent PerformanceLogger.tts_complete PerformanceLogger.noData ;;
  _ <- transition LISTENING MdNone ;;
  modify (fun s => set_tts (FakeTTS.reset (tts s)) s) ;;
  emit TtsReset.

(** The [for await] loop of [generateResponse] asks the generator for
    its next chunk.  An exception of the generator is caught by the
    [catch] clause, which only logs it. *)
Definition requestChunk (k : Task) : M unit :=
  s <- get ;;
  a <- aborted (abortSignal k) ;;
  match FakeTTS.next a (generator k) (tts s) with
  | None => ret tt
  | Some (g', reply, tts') =>
      modify (set_tts tts') ;;
      match reply with
      | FakeTTS.Done => finishedSpeaking
      | _ =>
          pushTask (mkTask g' (abortSignal k) (ttsStartTime k)
                      (firstChunk k) (chunkCount k))
      end
  end.

(** The body of the [for await] loop for one chunk, then the next
    request. *)
Definition consumeChunk (k : Task) (pcmChunk : Buf.t) : M unit :=
  (if firstChunk k then
     n <- now ;;
     let latency := (n - ttsStartTime k)%Z in
     logEvent PerformanceLogger.tts_first_chunk
       (PerformanceLogger.latencyData latency)
   else ret tt) ;;
  let k' := mkTask (generator k) (abortSignal k) (ttsStartTime k) false
              (chunkCount k + 1) in
  sendAudioToBrowser pcmChunk ;;
  a <- aborted (abortSignal k') ;;
  if a then ret tt
  else requestChunk k'.

(** The delay timer of the [i]-th suspended [generateResponse] call
    fires: its generator yields and the loop body runs. *)
Definition timerFired (i : nat) : M unit :=
  fun w =>
    match tasks w !! i with
    | None => Some (tt, w)
    | Some k =>
        let w' := mkWorld (self w) (signals w) (clock w) (ticks w)
                    (trace w) (delete i (tasks w)) in
        match FakeTTS.delayElapsed (generator k) with
        | (g', FakeTTS.Value pcmChunk) =>
            consumeChunk
              (mkTask g' (abortSignal k) (ttsStartTime k) (firstChunk k)
                 (chunkCount k)) pcmChunk w'
        | _ => Some (tt, w)
        end
    end.

(** The template literal [`${x}`] of a string that may be [undefined]. *)
Definition interpolate (x : option string) : string :=
  match x with Some s => s | None => "undefined" end.

(** [generateResponse(userText)] up to its first suspension. *)
Definition generateResponse (userText : option string) : M unit :=
  let botResponse := ("You said: " ++ interpolate userText)%string in
  logEvent PerformanceLogger.tts_start (PerformanceLogger.textData botResponse) ;;
  _ <- transition SPEAKING (MdText (Some botResponse)) ;;
  h <- newAbortController ;;
  modify (set_ttsAbortController (Some h)) ;;
  ttsStartTime <- now ;;
  requestChunk (mkTask (FakeTTS.SuspendedStart botResponse) h ttsStartTime true 0).

(** [handleBargeIn()]. *)
Definition handleBargeIn : M unit :=
  bargeInStart <- now ;;
  _ <- transition INTERRUPTED (MdTimestamp bargeInStart) ;;
  s <- get ;;
  match ttsAbortController s with
  | Some h =>
      abort h ;;
      h' <- newAbortController ;;
      modify (set_ttsAbortController (Some h'))
  | None => ret tt
  end ;;
  modify (set_audioBuffer []) ;;
  emit Flushed ;;
  modify (fun s => set_tts (FakeTTS.reset (tts s)) s) ;;
  emit TtsReset ;;
  _ <- transition LISTENING MdNone ;;
  modify (fun s => set_stt (FakeSTT.reset (stt s)) s) ;;
  emit SttReset ;;
  n <- now ;;
  let bargeInLatency := (n - bargeInStart)%Z in
  logEvent PerformanceLogger.barge_in (PerformanceLogger.latencyData bargeInLatency).

(** [processAudioFrame(audioFrame)].  [stt.processFrame] reads the
    clock only when it returns an event. *)
Definition processAudioFrame (audioFrame : Buf.t) : M unit :=
  s <- get ;;
  if is_ SPEAKING (stateMachine s) then
    rms <- lift (FakeSTT.calculateRMS audioFrame) ;;
    if FakeSTT.exceeds rms FakeSTT.VOICE_THRESHOLD then handleBargeIn
    else ret tt
  else if negb (is_ LISTENING (stateMachine s)) then ret tt
  else
    fun w =>
      let n := clock w (ticks w) in
      match FakeSTT.processFrame audioFrame n (stt s) with
      | None => None
      | Some (None, stt') =>
          Some (tt, mkWorld (set_stt stt' (self w)) (signals w) (clock w)
                      (ticks w) (trace w) (tasks w))
      | Some (Some result, stt') =>
          let w1 := mkWorld (set_stt stt' (self w)) (signals w) (clock w)
                      (S (ticks w)) (trace w) (tasks w) in
          let d := PerformanceLogger.mkData (FakeSTT.text result) None None in
          match FakeSTT.type result with
          | FakeSTT.partial =>
              logEvent PerformanceLogger.stt_partial d w1
          | FakeSTT.final =>
              (logEvent PerformanceLogger.stt_final d ;;
               _ <- transition PROCESSING (MdText (FakeSTT.text result)) ;;
               generateResponse (FakeSTT.text result)) w1
          end
      end.

(** [close()]. *)
Definition close : M unit :=
  s <- get ;;
  match ttsAbortController s with
  | Some h => abort h
  | None => ret tt
  end ;;
  (if peerConnection s then emit PeerClosed else ret tt) ;;
  modify (set_isProcessingAudio false) ;;
  emit (AudioProcessing false) ;;
  logEvent PerformanceLogger.session_close PerformanceLogger.noData.

(** [getMetrics()], without the session id. *)
Definition getMetrics (w : World)
    : SessionState * list Transition * list PerformanceLogger.Log :=
  (StateMachine.getState (stateMachine (self w)),
   StateMachine.getHistory (stateMachine (self w)),
   PerformanceLogger.getLogs (logger (self w))).

End WithSine.

End Session.

(** * server/index.js: the audio sink callback of one connection *)

Module Server.

Section WithSine.
Context {sine : FakeTTS.Sine}.

(** The variables of the connection closure that the callback uses. *)
Record Connection : Type := mk {
  session : option Session.World;
  audioProcessor : AudioProcessor.t
}.

(** [frames.forEach(frame => session.processAudioFrame(frame))]: a call
    that throws only rejects its own promise, the loop goes on. *)
Definition forEachFrame (frames : list Buf.t) (w : Session.World)
    : Session.World :=
  fold_left
    (fun w frame =>
       match Session.processAudioFrame frame w with
       | Some (_, w') => w'
       | None => w
       end)
    frames w.

(** The callback passed to [attachAudioSink]: [pcmBuffer] holds the
    bytes of the [Int16Array] of samples. *)
Definition onAudioData (pcmBuffer : Buf.t) (sampleRate channelCount : Z)
    (c : Connection) : option Connection :=
  match session c with
  | None => Some c
  | Some w =>
      if negb (Session.isProcessingAudio (Session.self w)) then Some c
      else
        do '(frames, p) <-
          AudioProcessor.processAudioData pcmBuffer sampleRate channelCount
            (audioProcessor c);
        Some (mk (Some (forEachFrame frames w)) p)
  end.

End WithSine.

End Server.

(** * The synthesizer's generator and its consumer

    [generateAudioStream] is driven by a consumer: the consumer calls
    [next()], the generator runs up to its delay, the timer fires and the
    generator yields.  JavaScript runs one piece of code at a time, so the
    signal can be aborted only between two such steps. *)

Module Producer.

Section WithSine.
Context {sine : FakeTTS.Sine}.

(** [Step] lets the generator run to its next suspension ([next()] if
    it waits for the consumer, the timer if it waits in [delay]);
    [Trip] is [controller.abort()]. *)
Inductive Event : Set := Step | Trip.

(** What can be observed of a run. *)
Inductive Obs : Set :=
| Generated (pcmFrame : Buf.t)
| Emitted (pcmFrame : Buf.t)
| Tripped
| Ended.

Record State : Type := mk {
  generator : FakeTTS.Generator;
  tts : FakeTTS.t;
  aborted : bool
}.

(** The generator created by [generateAudioStream(text, signal)] with a
    fresh signal. *)
Definition init (text : string) (s : FakeTTS.t) : State :=
  mk (FakeTTS.SuspendedStart text) s false.

Definition step (e : Event) (st : State) : option (list Obs * State) :=
  match e with
  | Trip => Some ([Tripped], mk (generator st) (tts st) true)
  | Step =>
      match generator st with
      | FakeTTS.Completed => Some ([], st)
      | FakeTTS.AwaitingDelay _ _ =>
          match FakeTTS.delayElapsed (generator st) with
          | (g', FakeTTS.Value pcmFrame) =>
              Some ([Emitted pcmFrame], mk g' (tts st) (aborted st))
          | (g', _) => Some ([], mk g' (tts st) (aborted st))
          end
      | _ =>
          do '(g', _, s') <- FakeTTS.next (aborted st) (generator st) (tts st);
          Some (match g' with
                | FakeTTS.AwaitingDelay _ pcmFrame => [Generated pcmFrame]
                | FakeTTS.Completed => [Ended]
                | _ => []
                end,
                mk g' s' (aborted st))
      end
  end.

Fixpoint run (es : list Event) (st : State) : option (list Obs * State) :=
  match es with
  | [] => Some ([], st)
  | e :: es' =>
      do '(o, st') <- step e st;
      do '(os, st'') <- run es' st';
      Some (o ++ os, st'')
  end.

Definition is_emitted (o : Obs) : bool :=
  match o with Emitted _ => true | _ => false end.
Definition is_generated (o : Obs) : bool :=
  match o with Generated _ => true | _ => false end.

End WithSine.

End Producer.

(** * src/test-audio.js: the two loops that drive the components *)

Module TestAudio.

(** The [for await] loop over [tts.generateAudioStream(text, signal)]
    with a controller nobody aborts (also the loop of
    [generateCompleteAudio]): [fuel] bounds the number of chunks
    requested. *)
Fixpoint collect {sine : FakeTTS.Sine} (fuel : nat) (g : FakeTTS.Generator)
    (s : FakeTTS.t) (audioChunks : list Buf.t)
    : option (list Buf.t * FakeTTS.t) :=
  match fuel with
  | O => None
  | S fuel' =>
      do '(g1, reply, s1) <- FakeTTS.next false g s;
      match reply with
      | FakeTTS.Done => Some (audioChunks, s1)
      | _ =>
          match FakeTTS.delayElapsed g1 with
          | (g2, FakeTTS.Value chunk) =>
              collect fuel' g2 s1 (audioChunks ++ [chunk])
          | (_, _) => None
          end
      end
  end.

(** The chunks of a whole reply; one request more than [totalFrames]
    ends the loop. *)
Definition audioChunksOf {sine : FakeTTS.Sine} (text : string)
    (s : FakeTTS.t) : option (list Buf.t * FakeTTS.t) :=
  collect (S (Z.to_nat (FakeTTS.computeTotalFrames text)))
    (FakeTTS.SuspendedStart text) s [].

(** The loop over [stt.processFrame(frame)], collecting the results that
    are not [null]; [clock i] is the time at the [i]-th frame. *)
Fixpoint transcribe (frames : list Buf.t) (clock : nat -> Z) (i : nat)
    (s : FakeSTT.t) : option (list FakeSTT.Result * FakeSTT.t) :=
  match frames with
  | [] => Some ([], s)
  | frame :: frames' =>
      do '(result, s1) <- FakeSTT.processFrame frame (clock i) s;
      do '(results, s2) <- transcribe frames' clock (S i) s1;
      Some (match result with
            | Some r => r :: results
            | None => results
            end, s2)
  end.

End TestAudio.

(** * The statements of the specification that are compared with the code *)

Module Spec.

(** Section 4.3: [ceil(duration_ms / 20)] frames for a reply of [w]
    words lasting [max(2, w / 3)] seconds. *)
Definition frameCount (w : Z) : Z :=
  Qceiling (Qmax 2 (inject_Z w / 3) * 1000 / 20).

(** Section 8, invariant 1: the number of frames a push emits. *)
Definition framesEmitted (residual resampled : Z) : Z :=
  (residual + resampled) / 640.

End Spec.

(** A concrete wave for running the synthesizer: a square wave between the
    two extreme samples, the phase being the number of samples produced. *)
#[export] Instance squareSine : FakeTTS.Sine := {|
  FakeTTS.Phase := Z;
  FakeTTS.phase_zero := 0%Z;
  FakeTTS.intSample := fun p => if Z.even p then 22936%Z else (-22937)%Z;
  FakeTTS.advance := fun _ p => (p + 1)%Z;
  FakeTTS.intSample_range := ltac:(abstract (intros p; cbv beta; destruct (Z.even p); lia))
|}.

(** * Predicates and inputs used in the statements *)

(** A list of frames and a residual that is shorter than a frame. *)
Definition framed (frames : list Buf.t) (rest : Buf.t) : Prop :=
  Forall (fun f => List.length f = 640%nat) frames /\
  (List.length rest < 640)%nat.

(** A block of [n] bytes counting up from 0 (modulo 256). *)
Definition ramp (n : nat) : Buf.t := map (fun i => Z.of_nat (i mod 256)) (seq 0 n).

(** Five stereo sample pairs of 16-bit PCM: 20 bytes. *)
Definition stereoBlock : Buf.t := ramp 20.

(** The value of [hasVoice] in [processFrame]; [None] when [calculateRMS]
    throws. *)
Definition hasVoice (audioFrame : Buf.t) : option bool :=
  option_map (fun rms => FakeSTT.exceeds rms FakeSTT.VOICE_THRESHOLD)
    (FakeSTT.calculateRMS audioFrame).

(** A frame of 320 samples of value 4096 (RMS 0.125), and one of silence. *)
Definition voicedFrame : Buf.t := List.concat (repeat [0; 16]%Z 320).
Definition silentFrame : Buf.t := repeat 0%Z 640.

(** The length of the text of a transcript event. *)
Definition textLength (r : FakeSTT.Result) : nat :=
  match FakeSTT.text r with
  | Some p => String.length p
  | None => 0
  end.

(** [r] is a partial transcript whose text is a prefix of [full]. *)
Definition isPartialOf (full : string) (r : FakeSTT.Result) : Prop :=
  FakeSTT.type r = FakeSTT.partial /\
  exists p, FakeSTT.text r = Some p /\ String.prefix p full = true.

(** [r] is the final transcript [full]. *)
Definition isFinalOf (full : string) (r : FakeSTT.Result) : Prop :=
  FakeSTT.type r = FakeSTT.final /\ FakeSTT.text r = Some full.

(** Partial transcripts of [full] whose text lengths never decrease and
    start at [least] or above. *)
Definition partialsFrom (full : string) (least : nat)
    (ps : list FakeSTT.Result) : Prop :=
  Forall (isPartialOf full) ps /\
  Forall (le least) (map textLength ps) /\
  StronglySorted le (map textLength ps).

(** The events of one utterance: [Partial* Final], the partial texts being
    prefixes of the final text, of non-decreasing length. *)
Inductive utterance : list FakeSTT.Result -> Prop :=
| utterance_intro (full : string) (ps : list FakeSTT.Result)
    (f : FakeSTT.Result) :
    partialsFrom full 0 ps -> isFinalOf full f -> utterance (ps ++ [f]).

(** The events of an utterance that has not ended yet. *)
Definition unfinished (ps : list FakeSTT.Result) : Prop :=
  exists full, partialsFrom full 0 ps.

(** The event stream of a recognizer that is inside an utterance of text
    [full] whose last partial had length [least]. *)
Inductive shape : string -> nat -> list FakeSTT.Result -> Prop :=
| shape_nil full least : shape full least []
| shape_partial full least r p evs :
    FakeSTT.type r = FakeSTT.partial -> FakeSTT.text r = Some p ->
    String.prefix p full = true -> (least <= String.length p)%nat ->
    shape full (String.length p) evs -> shape full least (r :: evs)
| shape_final full least r full' evs :
    isFinalOf full r -> shape full' 0 evs -> shape full least (r :: evs).

(** The response the recognizer is about to recognize. *)
Definition pendingText (s : FakeSTT.t) : string :=
  default ""%string (FakeSTT.getNextResponse s).

(** What holds of the recognizer between two frames. *)
Definition sttInv (s : FakeSTT.t) : Prop :=
  (0 <= FakeSTT.responseIndex s < 5)%Z /\
  (FakeSTT.isProcessing s = false ->
     FakeSTT.partialText s = ""%string /\ (0 <= FakeSTT.voiceFrames s < 25)%Z) /\
  (FakeSTT.isProcessing s = true ->
     (25 <= FakeSTT.voiceFrames s)%Z /\
     (Z.of_nat (String.length (FakeSTT.partialText s))
        <= Z.max 3 (FakeSTT.voiceFrames s - 25))%Z /\
     (String.length (FakeSTT.partialText s)
        <= String.length (pendingText s))%nat).

(** One frame: what the recognizer returns and where it goes. *)
Inductive sttStep (s : FakeSTT.t) : option FakeSTT.Result -> FakeSTT.t -> Prop :=
| step_quiet s1 :
    pendingText s1 = pendingText s ->
    FakeSTT.partialText s1 = FakeSTT.partialText s ->
    sttStep s None s1
| step_partial r p s1 :
    FakeSTT.type r = FakeSTT.partial -> FakeSTT.text r = Some p ->
    String.prefix p (pendingText s) = true ->
    (String.length (FakeSTT.partialText s) <= String.length p)%nat ->
    pendingText s1 = pendingText s ->
    FakeSTT.partialText s1 = p ->
    sttStep s (Some r) s1
| step_final r s1 :
    isFinalOf (pendingText s) r ->
    FakeSTT.partialText s1 = ""%string ->
    sttStep s (Some r) s1.

(** The frames emitted, the frames generated, and the frame the generator
    holds while it waits in its delay. *)
Definition emittedFrames (os : list Producer.Obs) : list Buf.t :=
  flat_map (fun o => match o with Producer.Emitted f => [f] | _ => [] end) os.
Definition generatedFrames (os : list Producer.Obs) : list Buf.t :=
  flat_map (fun o => match o with Producer.Generated f => [f] | _ => [] end) os.
Definition inFlight {sine : FakeTTS.Sine} (st : Producer.State) : list Buf.t :=
  match Producer.generator st with
  | FakeTTS.AwaitingDelay _ f => [f]
  | _ => []
  end.

(** One step: the observations are the trip, or a frame generated (now in
    flight), or the frame in flight emitted, or the end, or nothing. *)
Inductive stepCase {sine : FakeTTS.Sine} (st : Producer.State)
    : Producer.Event -> list Producer.Obs -> Producer.State -> Prop :=
| case_trip :
    stepCase st Producer.Trip [Producer.Tripped]
      (Producer.mk (Producer.generator st) (Producer.tts st) true)
| case_generated f st1 :
    Producer.aborted st = false -> inFlight st = [] -> inFlight st1 = [f] ->
    Producer.aborted st1 = false ->
    stepCase st Producer.Step [Producer.Generated f] st1
| case_emitted f st1 :
    inFlight st = [f] -> inFlight st1 = [] ->
    Producer.aborted st1 = Producer.aborted st ->
    stepCase st Producer.Step [Producer.Emitted f] st1
| case_ended st1 :
    inFlight st = [] -> inFlight st1 = [] ->
    Producer.aborted st1 = Producer.aborted st ->
    stepCase st Producer.Step [Producer.Ended] st1
| case_idle :
    inFlight st = [] -> stepCase st Producer.Step [] st.

(** Running a session operation; an exception leaves the world as it
    was. *)
Definition runM {sine : FakeTTS.Sine} {A : Type} (m : Session.M A)
    (w : Session.World) : Session.World :=
  match m w with
  | Some (_, w') => w'
  | None => w
  end.

(** A session that was started and heard 30 voiced, then 15 silent frames:
    it is speaking its first reply. *)
Definition speakingWorld : Session.World :=
  fold_left (fun w frame => runM (Session.processAudioFrame frame) w)
    (repeat voicedFrame 30 ++ repeat silentFrame 15)
    (runM Session.start (Session.newWorld true true (fun n => Z.of_nat n))).

(** The inputs of a session: the calls made by the server and the timers
    of its suspended replies. *)
Inductive Input : Set :=
| InStart
| InFrame (audioFrame : Buf.t)
| InTimer (i : nat)
| InClose.

Definition handle {sine : FakeTTS.Sine} (i : Input) : Session.M unit :=
  match i with
  | InStart => Session.start
  | InFrame audioFrame => Session.processAudioFrame audioFrame
  | InTimer i => Session.timerFired i
  | InClose => Session.close
  end.

Definition runInputs {sine : FakeTTS.Sine} (inputs : list Input)
    (w : Session.World) : Session.World :=
  fold_left (fun w i => runM (handle i) w) inputs w.

Definition stateOf {sine : FakeTTS.Sine} (w : Session.World)
    : StateMachine.SessionState :=
  StateMachine.state (Session.stateMachine (Session.self w)).

(** The controller of the session, if any, is in the store. *)
Definition handleAllocated {sine : FakeTTS.Sine} (w : Session.World) : Prop :=
  forall h, Session.ttsAbortController (Session.self w) = Some h ->
            (h < List.length (Session.signals w))%nat.

(** While the session speaks it has a controller. *)
Definition handleValid {sine : FakeTTS.Sine} (w : Session.World) : Prop :=
  handleAllocated w /\
  (stateOf w = StateMachine.SPEAKING ->
   Session.ttsAbortController (Session.self w) <> None).

(** An operation that leaves the controller and the store size alone and
    does not enter [SPEAKING]. *)
Definition quiet {sine : FakeTTS.Sine} {A : Type} (m : Session.M A) : Prop :=
  forall w a w',
    m w = Some (a, w') ->
    Session.ttsAbortController (Session.self w')
      = Session.ttsAbortController (Session.self w) /\
    List.length (Session.signals w') = List.length (Session.signals w) /\
    (stateOf w' = stateOf w \/ stateOf w' <> StateMachine.SPEAKING).

(** The bytes of a buffer are in [0, 255]. *)
Definition isByte (x : Z) : Prop := (0 <= x < 256)%Z.

(** * server/session-manager.js: the session manager

    Sessions are objects: the connection closure of server/index.js keeps a
    reference to its session while the manager keeps another in its [Map].
    The sessions live in a heap and are named by their index; the map
    sends a session id to such a reference and keeps the insertion order. *)

Module SessionManager.

Section WithSine.
Context {sine : FakeTTS.Sine}.

(** [Map.prototype.get], [has], [set] and [delete] on string keys. *)
Fixpoint map_get (key : string) (m : list (string * nat)) : option nat :=
  match m with
  | [] => None
  | (k, v) :: m' => if String.eqb k key then Some v else map_get key m'
  end.

Definition map_has (key : string) (m : list (string * nat)) : bool :=
  match map_get key m with Some _ => true | None => false end.

Fixpoint map_set (key : string) (v : nat) (m : list (string * nat))
    : list (string * nat) :=
  match m with
  | [] => [(key, v)]
  | (k, x) :: m' =>
      if String.eqb k key then (k, v) :: m' else (k, x) :: map_set key v m'
  end.

Fixpoint map_delete (key : string) (m : list (string * nat))
    : list (string * nat) :=
  match m with
  | [] => []
  | (k, x) :: m' =>
      if String.eqb k key then m' else (k, x) :: map_delete key m'
  end.

(** The manager and the session objects created so far. *)
Record t : Type := mk {
  heap : list Session.World;
  sessions : list (string * nat)
}.

(** [constructor]. *)
Definition new : t := mk [] [].

(** [createSession(sessionId, peerConnection, audioHandler)]: the session
    returned and the manager afterwards.  [clock] is the clock the new
    session will read. *)
Definition createSession (sessionId : string)
    (peerConnection audioHandler : bool) (clock : nat -> Z) (m : t)
    : option nat * t :=
  if map_has sessionId (sessions m) then (map_get sessionId (sessions m), m)
  else
    let session := List.length (heap m) in
    (Some session,
     mk (heap m ++ [Session.newWorld peerConnection audioHandler clock])
        (map_set sessionId session (sessions m))).

(** [getSession(sessionId)]: [None] is [undefined]. *)
Definition getSession (sessionId : string) (m : t) : option nat :=
  map_get sessionId (sessions m).

(** [removeSession(sessionId)]: [None] when [session.close()] throws or
    the reference does not name a session. *)
Definition removeSession (sessionId : string) (m : t) : option t :=
  match map_get sessionId (sessions m) with
  | Some session =>
      do w <- heap m !! session;
      do '(_, w') <- Session.close w;
      Some (mk (<[session := w']> (heap m))
               (map_delete sessionId (sessions m)))
  | None => Some m
  end.

(** [getAllSessions()]: the values of the map, in insertion order. *)
Definition getAllSessions (m : t) : list nat := map snd (sessions m).

(** [getSessionCount()]: [this.sessions.size]. *)
Definition getSessionCount (m : t) : Z := Z.of_nat (List.length (sessions m)).

(** The route [/metrics/:sessionId] of server/index.js: the status and,
    with status 200, the body. *)
Definition metricsRoute (sessionId : string) (m : t)
    : Z * option (StateMachine.SessionState * list StateMachine.Transition
                  * list PerformanceLogger.Log) :=
  match getSession sessionId m with
  | Some session => (200%Z, option_map Session.getMetrics (heap m !! session))
  | None => (404%Z, None)
  end.

End WithSine.

End SessionManager.

(** * server/webrtc-audio-handler.js: the audio handler

    [RTCAudioSource] and [RTCAudioSink] belong to the wrtc package.  Of the
    source the model keeps the arguments of the calls of [onData], in order;
    whether a call returns or throws is decided by [accepts]. *)

Module WebRTCAudioHandler.

(** The argument of [audioSource.onData]. *)
Record AudioData : Set := mkAudioData {
  samples : list Z;
  sampleRate : Z;
  bitsPerSample : Z;
  channelCount : Z;
  numberOfFrames : Z
}.

(** The fields of the handler: [audioSource] is [None] when it is [null],
    [audioSink] and [onAudioDataCallback] say whether the field is set. *)
Record t : Set := mk {
  audioSource : option (list AudioData);
  audioSink : bool;
  onAudioDataCallback : bool;
  sentDebugCount : Z
}.

(** [constructor]. *)
Definition new : t := mk None false false 0.

(** [createAudioSource()]. *)
Definition createAudioSource (h : t) : t :=
  mk (Some []) (audioSink h) (onAudioDataCallback h) (sentDebugCount h).

(** [attachAudioSink(track, onAudioData)]. *)
Definition attachAudioSink (h : t) : t :=
  mk (audioSource h) true true (sentDebugCount h).

(** The [ondata] handler of the sink: whether it calls the callback. *)
Definition ondata (h : t) : bool := onAudioDataCallback h.

Definition CHUNK_SIZE : nat := 160.

(** [samples.slice(from, to)] for [from <= to <= samples.length]. *)
Definition slice (from to : nat) (samples : list Z) : list Z :=
  take (to - from) (drop from samples).

Section WithSource.

(** [accepts data] holds when [audioSource.onData(data)] returns. *)
Variable accepts : AudioData -> bool.

(** The loop of [sendAudio] from index [i] on; [fuel] bounds the number
    of iterations.  The result says whether the loop ended without an
    exception. *)
Fixpoint sendLoop (fuel : nat) (samples : list Z) (sampleRate : Z) (i : nat)
    (received : list AudioData) (debug : Z) : bool * list AudioData * Z :=
  match fuel with
  | O => (true, received, debug)
  | S fuel' =>
      if (i <? List.length samples)%nat then
        let chunk :=
          slice i (Nat.min (i + CHUNK_SIZE) (List.length samples)) samples in
        let debug' := if (debug <? 6)%Z then (debug + 1)%Z else debug in
        let data :=
          mkAudioData chunk sampleRate 16 1 (Z.of_nat (List.length chunk)) in
        if accepts data then
          sendLoop fuel' samples sampleRate (i + CHUNK_SIZE)
            (received ++ [data]) debug'
        else (false, received, debug')
      else (true, received, debug)
  end.

(** [sendAudio(samples, sampleRate)]: the boolean returned and the handler
    afterwards. *)
Definition sendAudio (samples : list Z) (sampleRate : Z) (h : t) : bool * t :=
  match audioSource h with
  | None => (false, h)
  | Some received =>
      let '(ok, received', debug') :=
        sendLoop (List.length samples) samples sampleRate 0 received
          (sentDebugCount h) in
      (ok, mk (Some received') (audioSink h) (onAudioDataCallback h) debug')
  end.

End WithSource.

(** [destroy()]. *)
Definition destroy (h : t) : t := mk None false false (sentDebugCount h).

End WebRTCAudioHandler.

(** [generateCompleteAudio(text)] of server/fake-tts.js: the chunks of the
    whole reply, concatenated. *)
Definition generateCompleteAudio {sine : FakeTTS.Sine} (text : string)
    (s : FakeTTS.t) : option (Buf.t * FakeTTS.t) :=
  do '(chunks, s') <- TestAudio.audioChunksOf text s;
  Some (List.concat chunks, s').

(** * Further predicates and drivers *)

(** The calls a user of a [StateMachine] can make. *)
Inductive Call : Set :=
| CallTransition (newState : StateMachine.SessionState)
    (md : StateMachine.Metadata) (now : Z)
| CallReset (now : Z)
| CallSubscribe (listener : nat)
| CallUnsubscribe (listener : nat).

Definition call (c : Call) (m : StateMachine.t) : StateMachine.t :=
  match c with
  | CallTransition newState md now =>
      StateMachine.machine (StateMachine.transition newState md now m)
  | CallReset now => StateMachine.reset now m
  | CallSubscribe listener => StateMachine.onStateChange listener m
  | CallUnsubscribe listener => StateMachine.unsubscribe listener m
  end.

Definition calls (cs : list Call) (m : StateMachine.t) : StateMachine.t :=
  fold_left (fun m c => call c m) cs m.

(** Following the entries of a history from state [s]: the state reached,
    or [None] when an entry does not start where the one before ended or is
    not in the table. *)
Fixpoint path (s : StateMachine.SessionState)
    (h : list StateMachine.Transition) : option StateMachine.SessionState :=
  match h with
  | [] => Some s
  | tr :: h' =>
      if StateMachine.state_eqb (StateMachine.from tr) s
         && StateMachine.isValidTransition (StateMachine.from tr)
              (StateMachine.to tr)
      then path (StateMachine.to tr) h'
      else None
  end.

(** Blocks pushed one after the other into the same processor: the frames
    of all pushes, in order. *)
Fixpoint pushAll (blocks : list Buf.t) (rate ch : Z) (p : AudioProcessor.t)
    : option (list Buf.t * AudioProcessor.t) :=
  match blocks with
  | [] => Some ([], p)
  | b :: bs =>
      do '(fs, p1) <- AudioProcessor.processAudioData b rate ch p;
      do '(gs, p2) <- pushAll bs rate ch p1;
      Some (fs ++ gs, p2)
  end.

(** The [k]-th 16-bit sample of a buffer. *)
Definition sampleAt (b : Buf.t) (k : Z) : option Z :=
  Buf.readInt16LE b (inject_Z (2 * k)).

(** The sum of the [channels] samples of frame [i] of an interleaved
    buffer. *)
Definition frameSum (input : Buf.t) (channels : nat) (i : Z) : Z :=
  fold_left Z.add
    (map (fun ch => default 0%Z
                      (sampleAt input (i * Z.of_nat channels + Z.of_nat ch)))
         (seq 0 channels))
    0%Z.

(** The texts of the final transcripts among the events. *)
Definition finalTexts (evs : list FakeSTT.Result) : list (option string) :=
  flat_map (fun r => match FakeSTT.type r with
                     | FakeSTT.final => [FakeSTT.text r]
                     | FakeSTT.partial => []
                     end) evs.

(** The number of frames of a list that the voice detector takes for
    voice. *)
Definition voicedCount (frames : list Buf.t) : Z :=
  Z.of_nat
    (List.length
       (List.filter
          (fun f => match hasVoice f with Some true => true | _ => false end)
          frames)).

(** A stretch of speech: voiced frames separated by pauses of fewer than
    15 silent frames.  It begins and ends with a voiced frame. *)
Inductive speech : list Buf.t -> Prop :=
| speech_voiced (frame : Buf.t) :
    hasVoice frame = Some true -> speech [frame]
| speech_pause (frames pause : list Buf.t) (frame : Buf.t) :
    speech frames ->
    Forall (fun f => hasVoice f = Some false) pause ->
    (List.length pause < 15)%nat ->
    hasVoice frame = Some true ->
    speech (frames ++ pause ++ [frame]).

(** A recognizer between two utterances: as it is when new, after a
    final transcript and after [reset()]. *)
Definition atRest (s : FakeSTT.t) : Prop :=
  FakeSTT.isProcessing s = false /\
  FakeSTT.voiceFrames s = 0%Z /\
  FakeSTT.partialText s = ""%string /\
  (0 <= FakeSTT.responseIndex s < 5)%Z.

(** The log entries of barge-ins. *)
Definition isBargeIn (l : PerformanceLogger.Log) : bool :=
  match PerformanceLogger.eventType l with
  | PerformanceLogger.barge_in => true
  | _ => false
  end.

(** The events and data the session controller passes to its logger. *)
Inductive sessionLogs
    : PerformanceLogger.EventType -> PerformanceLogger.Data -> Prop :=
| logs_session_start :
    sessionLogs PerformanceLogger.session_start PerformanceLogger.noData
| logs_stt_partial text :
    sessionLogs PerformanceLogger.stt_partial
      (PerformanceLogger.mkData text None None)
| logs_stt_final text :
    sessionLogs PerformanceLogger.stt_final
      (PerformanceLogger.mkData text None None)
| logs_tts_start text :
    sessionLogs PerformanceLogger.tts_start (PerformanceLogger.textData text)
| logs_tts_first_chunk latency :
    sessionLogs PerformanceLogger.tts_first_chunk
      (PerformanceLogger.latencyData latency)
| logs_tts_complete :
    sessionLogs PerformanceLogger.tts_complete PerformanceLogger.noData
| logs_barge_in latency :
    sessionLogs PerformanceLogger.barge_in
      (PerformanceLogger.latencyData latency)
| logs_session_close :
    sessionLogs PerformanceLogger.session_close PerformanceLogger.noData.

(** The single updates of the world out of which every operation of the
    session controller is made. *)
Inductive atomic {sine : FakeTTS.Sine} : Session.World -> Session.World -> Prop :=
| atomic_emit w e :
    atomic w (Session.mkWorld (Session.self w) (Session.signals w)
                (Session.clock w) (Session.ticks w) (Session.trace w ++ [e])
                (Session.tasks w))
| atomic_now w :
    atomic w (Session.mkWorld (Session.self w) (Session.signals w)
                (Session.clock w) (S (Session.ticks w)) (Session.trace w)
                (Session.tasks w))
| atomic_log w ty d n :
    sessionLogs ty d ->
    atomic w (Session.mkWorld
                (Session.set_logger
                   (PerformanceLogger.logEvent ty d n
                      (Session.logger (Session.self w)))
                   (Session.self w))
                (Session.signals w) (Session.clock w) (Session.ticks w)
                (Session.trace w) (Session.tasks w))
| atomic_transition w newState md n :
    StateMachine.isValidTransition
      (StateMachine.state (Session.stateMachine (Session.self w))) newState
      = true ->
    atomic w (Session.mkWorld
                (Session.set_stateMachine
                   (StateMachine.machine
                      (StateMachine.transition newState md n
                         (Session.stateMachine (Session.self w))))
                   (Session.self w))
                (Session.signals w) (Session.clock w) (Session.ticks w)
                (Session.trace w) (Session.tasks w))
| atomic_isProcessingAudio w b :
    atomic w (Session.mkWorld (Session.set_isProcessingAudio b (Session.self w))
                (Session.signals w) (Session.clock w) (Session.ticks w)
                (Session.trace w) (Session.tasks w))
| atomic_alloc w :
    atomic w (Session.mkWorld (Session.self w) (Session.signals w ++ [false])
                (Session.clock w) (Session.ticks w) (Session.trace w)
                (Session.tasks w))
| atomic_controller w h :
    (h < List.length (Session.signals w))%nat ->
    atomic w (Session.mkWorld
                (Session.set_ttsAbortController (Some h) (Session.self w))
                (Session.signals w) (Session.clock w) (Session.ticks w)
                (Session.trace w) (Session.tasks w))
| atomic_flush w :
    atomic w (Session.mkWorld (Session.set_audioBuffer [] (Session.self w))
                (Session.signals w) (Session.clock w) (Session.ticks w)
                (Session.trace w) (Session.tasks w))
| atomic_tts w x :
    atomic w (Session.mkWorld (Session.set_tts x (Session.self w))
                (Session.signals w) (Session.clock w) (Session.ticks w)
                (Session.trace w) (Session.tasks w))
| atomic_stt w x :
    atomic w (Session.mkWorld (Session.set_stt x (Session.self w))
                (Session.signals w) (Session.clock w) (Session.ticks w)
                (Session.trace w) (Session.tasks w))
| atomic_abort w h :
    atomic w (Session.mkWorld (Session.self w)
                (Abort.abort h (Session.signals w)) (Session.clock w)
                (Session.ticks w) (Session.trace w) (Session.tasks w))
| atomic_push w k :
    atomic w (Session.mkWorld (Session.self w) (Session.signals w)
                (Session.clock w) (Session.ticks w) (Session.trace w)
                (Session.tasks w ++ [k]))
| atomic_pop w i :
    atomic w (Session.mkWorld (Session.self w) (Session.signals w)
                (Session.clock w) (Session.ticks w) (Session.trace w)
                (delete i (Session.tasks w))).

(** An operation that is a sequence of such updates. *)
Definition stepwise {sine : FakeTTS.Sine} {A : Type} (m : Session.M A) : Prop :=
  forall w a w', m w = Some (a, w') -> rtc atomic w w'.

(** The number of occurrences of a character in a string. *)
Fixpoint countChar (c : ascii) (str : string) : nat :=
  match str with
  | EmptyString => 0
  | String c' rest =>
      (if Ascii.eqb c' c then 1 else 0) + countChar c rest
  end.

(** The frames handed to the audio handler, in order. *)
Definition sentFrames (trace : list Session.Effect) : list Buf.t :=
  flat_map (fun e => match e with Session.Sent f => [f] | _ => [] end) trace.

(** The records a session keeps, compared between two worlds. *)
Definition grows {sine : FakeTTS.Sine} (w w' : Session.World) : Prop :=
  PerformanceLogger.logs (Session.logger (Session.self w))
    `prefix_of` PerformanceLogger.logs (Session.logger (Session.self w')) /\
  StateMachine.history (Session.stateMachine (Session.self w))
    `prefix_of` StateMachine.history (Session.stateMachine (Session.self w')) /\
  (List.length (Session.signals w) <= List.length (Session.signals w'))%nat /\
  (Session.ticks w <= Session.ticks w')%nat /\
  Session.peerConnection (Session.self w') = Session.peerConnection (Session.self w) /\
  Session.audioHandler (Session.self w') = Session.audioHandler (Session.self w).

(** What the logger of a session satisfies. *)
Definition loggerInv {sine : FakeTTS.Sine} (w : Session.World) : Prop :=
  PerformanceLogger.sttLatencies
    (PerformanceLogger.metrics (Session.logger (Session.self w))) = [] /\
  List.length
    (PerformanceLogger.bargeInLatencies
       (PerformanceLogger.metrics (Session.logger (Session.self w))))
  = List.length
      (List.filter isBargeIn
         (PerformanceLogger.logs (Session.logger (Session.self w)))) /\
  Forall is_Some
    (PerformanceLogger.bargeInLatencies
       (PerformanceLogger.metrics (Session.logger (Session.self w)))) /\
  Session.audioBuffer (Session.self w) = [].

(** * The state machine *)

Lemma in_spec_table_In (s t : StateMachine.SessionState) :
  StateMachine.in_spec_table s t = true <-> In (s, t) StateMachine.spec_table.
Proof.
  split.
  - destruct s, t; simpl; intros H; try discriminate; tauto.
  - intros H. simpl in H.
    repeat (destruct H as [H | H]; [inversion H; reflexivity |]).
    contradiction.
Qed.

(** The table in [isValidTransition] is the table of the specification. *)
Lemma isValidTransition_spec_table (s t : StateMachine.SessionState) :
  StateMachine.isValidTransition s t = StateMachine.in_spec_table s t.
Proof. destruct s, t; reflexivity. Qed.

(** C4.  For every current state and every requested state, [transition]
    returns a result (it cannot throw).  When the pair is in the table of
    valid transitions of the specification it returns [true], moves to the
    requested state and appends exactly one entry to the history; otherwise
    it returns [false], calls no listener and leaves the machine (state and
    history) as it was. *)
Theorem transition_succeeds_iff_in_spec_table
    (m : StateMachine.t) (newState : StateMachine.SessionState)
    (md : StateMachine.Metadata) (now : Z) :
  StateMachine.transition newState md now m =
    if StateMachine.in_spec_table (StateMachine.state m) newState
    then
      let tr := StateMachine.mkTransition (StateMachine.state m) newState now md in
      StateMachine.mkOutcome true
        (map (fun l => (l, tr)) (StateMachine.listeners m))
        (StateMachine.mk newState (StateMachine.history m ++ [tr])
           (StateMachine.listeners m))
    else StateMachine.mkOutcome false [] m.
Proof.
  unfold StateMachine.transition.
  rewrite isValidTransition_spec_table.
  destruct (StateMachine.in_spec_table (StateMachine.state m) newState);
    reflexivity.
Qed.

(** The scenario of the specification: from [IDLE], a request for
    [SPEAKING] fails and changes nothing. *)
Example idle_to_speaking_rejected (now : Z) :
  StateMachine.transition StateMachine.SPEAKING StateMachine.MdNone now
    StateMachine.new
  = StateMachine.mkOutcome false [] StateMachine.new.
Proof. reflexivity. Qed.

(** * The frame normalizer: framing *)

Lemma bytesPerFrame_640 : AudioProcessor.bytesPerFrame = 640%Z.
Proof. reflexivity. Qed.

(** The [while] loop cuts the buffer into 640-byte frames, in order, and
    stops with fewer than 640 bytes left, when it is given enough fuel. *)
Lemma extractFrames_framed (fuel : nat) :
  forall buffer : Buf.t,
    (List.length buffer <= fuel)%nat ->
    framed (fst (AudioProcessor.extractFrames fuel buffer))
           (snd (AudioProcessor.extractFrames fuel buffer)) /\
    List.concat (fst (AudioProcessor.extractFrames fuel buffer))
      ++ snd (AudioProcessor.extractFrames fuel buffer) = buffer.
Proof.
  induction fuel as [| fuel IH]; intros buffer Hlen.
  - assert (buffer = []) as -> by (destruct buffer; simpl in *; [easy | lia]).
    simpl. repeat split; [constructor | lia].
  - cbn [AudioProcessor.extractFrames]. rewrite bytesPerFrame_640.
    unfold Buf.length, Buf.slice_to, Buf.slice_from.
    change (Z.to_nat 640) with 640%nat.
    destruct (640 <=? Z.of_nat (List.length buffer))%Z eqn:Hge.
    + apply Z.leb_le in Hge.
      specialize (IH (drop 640 buffer)).
      destruct (AudioProcessor.extractFrames fuel (drop 640 buffer))
        as [frames rest].
      cbn [fst snd] in *.
      destruct IH as [[Hall Hrest] Hcat].
      { rewrite length_drop. lia. }
      repeat split.
      * constructor; [| exact Hall]. rewrite length_take. lia.
      * exact Hrest.
      * cbn [List.concat]. rewrite <- app_assoc, Hcat. apply take_drop.
    + apply Z.leb_gt in Hge. cbn [fst snd List.concat app].
      repeat split; [constructor | lia].
Qed.

(** Framing is unique: a byte sequence has one decomposition into 640-byte
    frames followed by a shorter residual. *)
Lemma framed_unique (fs : list Buf.t) :
  forall (fs' : list Buf.t) (r r' : Buf.t),
    framed fs r -> framed fs' r' ->
    List.concat fs ++ r = List.concat fs' ++ r' ->
    fs = fs' /\ r = r'.
Proof.
  induction fs as [| f fs IH]; intros fs' r r' H1 H2 Heq;
    destruct H1 as [Hfs Hr]; destruct H2 as [Hfs' Hr'].
  - destruct fs' as [| f' fs']; simpl in Heq.
    + split; [reflexivity | exact Heq].
    + pose proof (Forall_inv Hfs') as Hf'. simpl in Hf'.
      apply (f_equal (@List.length Z)) in Heq.
      rewrite <- app_assoc in Heq. rewrite !length_app in Heq. lia.
  - pose proof (Forall_inv Hfs) as Hf. pose proof (Forall_inv_tail Hfs) as Hfs0.
    simpl in Hf.
    destruct fs' as [| f' fs']; simpl in Heq.
    + apply (f_equal (@List.length Z)) in Heq.
      rewrite <- app_assoc in Heq. rewrite !length_app in Heq. lia.
    + pose proof (Forall_inv Hfs') as Hf'.
      pose proof (Forall_inv_tail Hfs') as Hfs0'. simpl in Hf'.
      rewrite <- !app_assoc in Heq.
      apply app_inj_1 in Heq; [| congruence].
      destruct Heq as [Hff Heq].
      destruct (IH fs' r r') as [Hfs_eq Hr_eq];
        [split; assumption | split; assumption | assumption |].
      split; congruence.
Qed.

Lemma framed_count (fs : list Buf.t) (r : Buf.t) :
  framed fs r ->
  Z.of_nat (List.length fs)
    = (Z.of_nat (List.length (List.concat fs ++ r)) / 640)%Z /\
  Z.of_nat (List.length r)
    = (Z.of_nat (List.length (List.concat fs ++ r)) mod 640)%Z.
Proof.
  intros [Hfs Hr].
  assert (List.length (List.concat fs) = (640 * List.length fs)%nat) as Hc.
  { induction Hfs as [| f fs Hf Hfs IH]; simpl; [reflexivity |].
    rewrite length_app, IH, Hf. lia. }
  rewrite length_app, Hc.
  replace (Z.of_nat (640 * List.length fs + List.length r))
    with (Z.of_nat (List.length r) + Z.of_nat (List.length fs) * 640)%Z by lia.
  rewrite Z.div_add, Z.mod_add by lia.
  rewrite Z.div_small, Z.mod_small by lia.
  lia.
Qed.

(** Whenever the conversion of the block returns, [processAudioData]
    returns the frames of [residual ++ converted]: exactly
    [floor((residual + converted) / 640)] frames of 640 bytes, with the
    remainder, shorter than a frame, as the new residual. *)
Lemma processAudioData_frames (audioData converted : Buf.t) (rate ch : Z)
    (p : AudioProcessor.t) :
  AudioProcessor.convert audioData rate ch = Some converted ->
  exists frames rest,
    AudioProcessor.processAudioData audioData rate ch p
      = Some (frames, AudioProcessor.mk rest) /\
    framed frames rest /\
    List.concat frames ++ rest = AudioProcessor.buffer p ++ converted /\
    Z.of_nat (List.length frames)
      = Spec.framesEmitted (Buf.length (AudioProcessor.buffer p))
          (Buf.length converted) /\
    Buf.length rest
      = ((Buf.length (AudioProcessor.buffer p) + Buf.length converted) mod 640)%Z.
Proof.
  intros Hconv. unfold AudioProcessor.processAudioData. rewrite Hconv. simpl.
  unfold Buf.concat.
  set (buffer := AudioProcessor.buffer p ++ converted).
  destruct (extractFrames_framed (List.length buffer) buffer (le_n _))
    as [Hframed Hcat].
  destruct (AudioProcessor.extractFrames (List.length buffer) buffer)
    as [frames rest].
  simpl in *. exists frames, rest.
  destruct (framed_count frames rest Hframed) as [Hn Hr].
  rewrite Hcat in Hn, Hr. subst buffer. rewrite length_app in Hn, Hr.
  unfold Spec.framesEmitted, Buf.length.
  repeat split; try assumption; try apply Hframed.
  - rewrite Hn. f_equal. lia.
  - rewrite Hr. f_equal. lia.
Qed.

(** * The frame normalizer: what a push does *)

(** C5.  A block of five stereo sample pairs (20 bytes, an even length) at
    48 kHz: the resampler leaves 3 samples, [convertToMono] computes
    [sampleCount = 1.5], runs its loop for [i = 1] and reads the second
    channel of a pair that is not there.  [readInt16LE] throws, so the push
    emits no frames and retains nothing: it does not return. *)
Theorem processAudioData_stereo_block_throws :
  List.length stereoBlock = 20%nat /\
  AudioProcessor.simpleResample stereoBlock 48000 16000
    = Some [0; 1; 6; 7; 12; 13]%Z /\
  AudioProcessor.convertToMono [0; 1; 6; 7; 12; 13]%Z 2 = None /\
  AudioProcessor.processAudioData stereoBlock 48000 2 AudioProcessor.new = None.
Proof. vm_compute. repeat split. Qed.

(** The same happens for a 10 ms stereo block at 22.05 kHz (440 samples). *)
Example processAudioData_22050_stereo_throws :
  AudioProcessor.processAudioData (ramp 880) 22050 2 AudioProcessor.new = None.
Proof. vm_compute. reflexivity. Qed.

(** The common case of the transport, 10 ms of 48 kHz stereo, is fine. *)
Example processAudioData_48000_stereo_10ms :
  option_map (fun r => (List.length (fst r),
                        List.length (AudioProcessor.buffer (snd r))))
    (AudioProcessor.processAudioData (ramp 1920) 48000 2 AudioProcessor.new)
  = Some (0%nat, 320%nat).
Proof. vm_compute. reflexivity. Qed.

(** At 16 kHz with one channel the block is appended as it is. *)
Lemma convert_16k_mono (audioData : Buf.t) (ch : Z) :
  (ch <= 1)%Z -> AudioProcessor.convert audioData 16000 ch = Some audioData.
Proof.
  intros Hch. unfold AudioProcessor.convert. simpl.
  destruct (1 <? ch)%Z eqn:E; [apply Z.ltb_lt in E; lia | reflexivity].
Qed.

(** Two pushes against one push, whenever the conversion of the
    concatenated block is the concatenation of the conversions. *)
Lemma push_push_of_convert_app (b1 b2 c1 c2 : Buf.t) (rate ch : Z)
    (p : AudioProcessor.t) :
  AudioProcessor.convert b1 rate ch = Some c1 ->
  AudioProcessor.convert b2 rate ch = Some c2 ->
  AudioProcessor.convert (b1 ++ b2) rate ch = Some (c1 ++ c2) ->
  exists f1 p1 f2 p2,
    AudioProcessor.processAudioData b1 rate ch p = Some (f1, p1) /\
    AudioProcessor.processAudioData b2 rate ch p1 = Some (f2, p2) /\
    AudioProcessor.processAudioData (b1 ++ b2) rate ch p = Some (f1 ++ f2, p2).
Proof.
  intros H1 H2 H12.
  destruct (processAudioData_frames b1 c1 rate ch p H1)
    as (f1 & r1 & E1 & F1 & C1 & _).
  destruct (processAudioData_frames b2 c2 rate ch (AudioProcessor.mk r1) H2)
    as (f2 & r2 & E2 & F2 & C2 & _).
  destruct (processAudioData_frames (b1 ++ b2) (c1 ++ c2) rate ch p H12)
    as (f & r & E & F & C & _).
  exists f1, (AudioProcessor.mk r1), f2, (AudioProcessor.mk r2).
  split; [exact E1 |]. split; [exact E2 |].
  rewrite E. simpl in C2.
  assert (framed (f1 ++ f2) r2) as F12.
  { destruct F1 as [A1 _], F2 as [A2 B2]. split; [| exact B2].
    apply Forall_app; split; assumption. }
  destruct (framed_unique f (f1 ++ f2) r r2 F F12) as [-> ->];
    [| reflexivity].
  rewrite C, concat_app, <- app_assoc, C2, !app_assoc, C1. reflexivity.
Qed.

(** C7 (as amended).  At 16 kHz with one channel, where a push neither
    resamples nor down-mixes, two consecutive pushes return, and the frames
    they emit, concatenated, are the frames that one push of the
    concatenated bytes emits; the residual afterwards is the same too.  This
    holds for every split and every residual. *)
Theorem push_associative_16k_mono (b1 b2 : Buf.t) (ch : Z)
    (p : AudioProcessor.t) :
  (ch <= 1)%Z ->
  exists f1 p1 f2 p2,
    AudioProcessor.processAudioData b1 16000 ch p = Some (f1, p1) /\
    AudioProcessor.processAudioData b2 16000 ch p1 = Some (f2, p2) /\
    AudioProcessor.processAudioData (b1 ++ b2) 16000 ch p = Some (f1 ++ f2, p2).
Proof.
  intros Hch.
  apply (push_push_of_convert_app b1 b2 b1 b2); apply convert_16k_mono; exact Hch.
Qed.

Lemma push_associative_16k_mono_witness :
  (1 <= 1)%Z /\
  exists f1 p1 f2 p2,
    AudioProcessor.processAudioData (ramp 700) 16000 1 AudioProcessor.new
      = Some (f1, p1) /\
    AudioProcessor.processAudioData (ramp 600) 16000 1 p1 = Some (f2, p2) /\
    AudioProcessor.processAudioData (ramp 700 ++ ramp 600) 16000 1
      AudioProcessor.new = Some (f1 ++ f2, p2).
Proof.
  split; [lia |].
  apply (push_associative_16k_mono (ramp 700) (ramp 600) 1 AudioProcessor.new).
  lia.
Defined.

(** C7 (as stated) fails at 48 kHz: one sample, then 959 samples, give no
    frame (0, then 319 resampled samples), while the 960 samples pushed at
    once give one frame. *)
Lemma push_not_associative_48k :
  exists f1 p1 f2 p2 f p,
    AudioProcessor.processAudioData (ramp 2) 48000 1 AudioProcessor.new
      = Some (f1, p1) /\
    AudioProcessor.processAudioData (ramp 1918) 48000 1 p1 = Some (f2, p2) /\
    AudioProcessor.processAudioData (ramp 2 ++ ramp 1918) 48000 1
      AudioProcessor.new = Some (f, p) /\
    List.length (f1 ++ f2) = 0%nat /\ List.length f = 1%nat /\
    f1 ++ f2 <> f.
Proof.
  vm_compute. do 6 eexists.
  repeat (split; [reflexivity |]). discriminate.
Qed.

(** C9 (as amended).  A block of odd length pushed at 16 kHz with one
    channel is appended whole: the call returns, and the frames emitted
    followed by the new residual are the old residual followed by every
    byte of the block, the final odd byte included.  The processor has no
    field besides its residual, so nothing is counted. *)
Theorem odd_block_kept_whole_16k_mono (audioData : Buf.t) (ch : Z)
    (p : AudioProcessor.t) :
  Nat.Odd (List.length audioData) ->
  (ch <= 1)%Z ->
  exists frames rest,
    AudioProcessor.processAudioData audioData 16000 ch p
      = Some (frames, AudioProcessor.mk rest) /\
    framed frames rest /\
    List.concat frames ++ rest = AudioProcessor.buffer p ++ audioData.
Proof.
  intros _ Hch.
  destruct (processAudioData_frames audioData audioData 16000 ch p
              (convert_16k_mono audioData ch Hch))
    as (frames & rest & E & F & C & _).
  exists frames, rest. repeat split; try assumption; apply F.
Qed.

Lemma odd_block_kept_whole_16k_mono_witness :
  Nat.Odd (List.length (ramp 641)) /\ (1 <= 1)%Z /\
  exists frames rest,
    AudioProcessor.processAudioData (ramp 641) 16000 1 AudioProcessor.new
      = Some (frames, AudioProcessor.mk rest) /\
    framed frames rest /\
    List.concat frames ++ rest
      = AudioProcessor.buffer AudioProcessor.new ++ ramp 641.
Proof.
  assert (Nat.Odd (List.length (ramp 641))) as Hodd by (exists 320%nat; reflexivity).
  split; [exact Hodd |]. split; [lia |].
  apply (odd_block_kept_whole_16k_mono (ramp 641) 1 AudioProcessor.new Hodd).
  lia.
Defined.

(** C9 (as stated) fails.  At 16 kHz the odd byte is not truncated: it
    stays in the residual, and the result differs from that of the
    truncated block.  At 8 kHz a one-byte block makes [readInt16LE] throw. *)
Lemma odd_block_not_truncated :
  AudioProcessor.processAudioData [0; 0; 7]%Z 16000 1 AudioProcessor.new
    = Some ([], AudioProcessor.mk [0; 0; 7]%Z) /\
  AudioProcessor.processAudioData [0; 0]%Z 16000 1 AudioProcessor.new
    = Some ([], AudioProcessor.mk [0; 0]%Z) /\
  AudioProcessor.processAudioData [7]%Z 8000 1 AudioProcessor.new = None.
Proof. vm_compute. repeat split. Qed.

(** * Reading samples from a buffer *)

Lemma is_integer_inject_Z (z : Z) : Buf.is_integer (inject_Z z) = true.
Proof.
  unfold Buf.is_integer. rewrite Qfloor_Z. apply Qeq_bool_iff. reflexivity.
Qed.

Lemma get_inject_Z (b : Buf.t) (z : Z) :
  (0 <= z)%Z -> Buf.get b (inject_Z z) = b !! Z.to_nat z.
Proof.
  intros Hz. unfold Buf.get. rewrite is_integer_inject_Z, Qfloor_Z.
  assert (Qle_bool 0 (inject_Z z) = true) as ->; [| reflexivity].
  apply Qle_bool_iff. change 0%Q with (inject_Z 0). rewrite <- Zle_Qle. exact Hz.
Qed.

Lemma get_inject_Z_succ (b : Buf.t) (z : Z) :
  (0 <= z)%Z -> Buf.get b (inject_Z z + 1) = b !! Z.to_nat (z + 1).
Proof.
  intros Hz.
  assert (inject_Z z + 1 == inject_Z (z + 1))%Q as E
    by (rewrite inject_Z_plus; reflexivity).
  unfold Buf.get, Buf.is_integer.
  rewrite (Qfloor_comp _ _ E), Qfloor_Z.
  assert (Qeq_bool (inject_Z z + 1) (inject_Z (z + 1)) = true) as ->
    by (apply Qeq_bool_iff; exact E).
  assert (Qle_bool 0 (inject_Z z + 1) = true) as ->; [| reflexivity].
  apply Qle_bool_iff. rewrite E. change 0%Q with (inject_Z 0).
  rewrite <- Zle_Qle. lia.
Qed.

Lemma readInt16LE_in_range (b : Buf.t) (z : Z) :
  (0 <= z)%Z -> (z + 2 <= Buf.length b)%Z ->
  is_Some (Buf.readInt16LE b (inject_Z z)).
Proof.
  intros Hz Hlen. unfold Buf.readInt16LE, Buf.length in *.
  rewrite get_inject_Z, get_inject_Z_succ by exact Hz.
  destruct (lookup_lt_is_Some_2 b (Z.to_nat z)) as [x ->]; [lia |].
  destruct (lookup_lt_is_Some_2 b (Z.to_nat (z + 1))) as [y ->]; [lia |].
  eexists; reflexivity.
Qed.

Lemma rmsLoop_in_range (pcmData : Buf.t) (n : nat) :
  forall (i : Z) (sum : Q),
    (0 <= i)%Z -> (2 * (i + Z.of_nat n) <= Buf.length pcmData)%Z ->
    is_Some (FakeSTT.rmsLoop pcmData n i sum).
Proof.
  induction n as [| n IH]; intros i sum Hi Hlen; simpl.
  - eexists; reflexivity.
  - destruct (readInt16LE_in_range pcmData (i * 2)) as [v Hv]; [lia | lia |].
    rewrite Hv. simpl. apply IH; lia.
Qed.

Lemma calculateRMS_even (pcmData : Buf.t) :
  Nat.Even (List.length pcmData) -> is_Some (FakeSTT.calculateRMS pcmData).
Proof.
  intros [k Hk]. unfold FakeSTT.calculateRMS.
  assert (inject_Z (Buf.length pcmData) / 2 == inject_Z (Z.of_nat k))%Q as E.
  { unfold Buf.length. rewrite Hk, Nat2Z.inj_mul, inject_Z_mult. simpl. field. }
  rewrite (Qceiling_comp _ _ E), Qceiling_Z, Nat2Z.id.
  destruct (rmsLoop_in_range pcmData k 0 0) as [sum Hsum];
    [lia | unfold Buf.length; lia |].
  rewrite Hsum. simpl. eexists; reflexivity.
Qed.

(** * The recognizer *)

Lemma processFrame_hasVoice (frame : Buf.t) (now : Z) (s : FakeSTT.t) :
  FakeSTT.processFrame frame now s
  = bindo (hasVoice frame) (fun b => FakeSTT.processVoice b now s).
Proof.
  unfold FakeSTT.processFrame, hasVoice.
  destruct (FakeSTT.calculateRMS frame); reflexivity.
Qed.

Lemma prefix_substring0 (str : string) :
  forall n : nat, String.prefix (String.substring 0 n str) str = true.
Proof.
  induction str as [| c str IH]; intros [| n]; simpl; try reflexivity.
  rewrite IH. destruct (ascii_dec c c); [reflexivity | congruence].
Qed.

Lemma length_substring0 (str : string) :
  forall n : nat,
    String.length (String.substring 0 n str) = Nat.min n (String.length str).
Proof.
  induction str as [| c str IH]; intros [| n]; simpl; try reflexivity.
  rewrite IH. reflexivity.
Qed.

Lemma getNextResponse_in_range (s : FakeSTT.t) :
  (0 <= FakeSTT.responseIndex s < 5)%Z ->
  FakeSTT.getNextResponse s = Some (pendingText s).
Proof.
  intros H. unfold pendingText, FakeSTT.getNextResponse.
  destruct (FakeSTT.responseIndex s <? 0)%Z eqn:E; [apply Z.ltb_lt in E; lia |].
  assert (Z.to_nat (FakeSTT.responseIndex s) < 5)%nat as Hn by lia.
  destruct (Z.to_nat (FakeSTT.responseIndex s)) as [| [| [| [| [| n]]]]];
    try reflexivity; lia.
Qed.

Lemma pendingText_idx (s s1 : FakeSTT.t) :
  FakeSTT.responseIndex s1 = FakeSTT.responseIndex s ->
  pendingText s1 = pendingText s.
Proof. intros H. unfold pendingText, FakeSTT.getNextResponse. rewrite H. reflexivity. Qed.

Ltac fold_pending s :=
  repeat match goal with
  | |- context [pendingText (FakeSTT.mk ?a ?b ?c ?d ?e (FakeSTT.responseIndex s))] =>
      change (pendingText (FakeSTT.mk a b c d e (FakeSTT.responseIndex s)))
        with (pendingText s)
  end.

Lemma processVoice_step (b : bool) (now : Z) (s : FakeSTT.t) :
  sttInv s ->
  exists r s1,
    FakeSTT.processVoice b now s = Some (r, s1) /\ sttInv s1 /\ sttStep s r s1.
Proof.
  intros (Hidx & Hidle & Hbusy).
  pose proof (getNextResponse_in_range s Hidx) as Hresp.
  unfold FakeSTT.processVoice.
  destruct b.
  - (* a voiced frame *)
    set (s1 := FakeSTT.mk (FakeSTT.isProcessing s) (FakeSTT.voiceBuffer s) 0
                 (FakeSTT.voiceFrames s + 1) (FakeSTT.partialText s)
                 (FakeSTT.responseIndex s)).
    assert (pendingText s1 = pendingText s) as Hp1 by (apply pendingText_idx; reflexivity).
    assert (FakeSTT.getNextResponse s1 = Some (pendingText s)) as Hresp1
      by (rewrite <- Hp1; apply getNextResponse_in_range; exact Hidx).
    cbn [FakeSTT.voiceFrames FakeSTT.isProcessing FakeSTT.voiceBuffer
         FakeSTT.silenceFrames FakeSTT.partialText FakeSTT.responseIndex s1]
      in *.
    fold s1. rewrite Hresp1. cbn [bindo].
    unfold FakeSTT.VOICE_START_FRAMES, FakeSTT.substring0.
    destruct (FakeSTT.isProcessing s) eqn:Hproc.
    + destruct (Hbusy eq_refl) as (Hv & Hpt & Hle).
      rewrite andb_false_r. cbn [andb].
      destruct (Z.rem (FakeSTT.voiceFrames s + 1) 10 =? 0)%Z eqn:Hrem.
      * apply Z.eqb_eq in Hrem.
        assert (30 <= FakeSTT.voiceFrames s + 1)%Z as H30.
        { apply Z.rem_divide in Hrem; [| lia]. destruct Hrem as [k Hk]. lia. }
        eexists _, _. split; [reflexivity |]. split.
        -- split; [exact Hidx |]. split; [discriminate |].
           intros _. cbn. rewrite length_substring0.
           fold_pending s; rewrite ?Hp1. lia.
        -- eapply step_partial; cbn; try reflexivity.
           ++ apply prefix_substring0.
           ++ rewrite length_substring0. lia.
      * eexists _, _. split; [reflexivity |]. split.
        -- split; [exact Hidx |]. split; [discriminate |].
           intros _. cbn. fold_pending s; rewrite ?Hp1. lia.
        -- apply step_quiet; reflexivity.
    + destruct (Hidle eq_refl) as (Hpt & Hv).
      cbn [negb andb].
      destruct (FakeSTT.voiceFrames s + 1 =? 25)%Z eqn:H25.
      * apply Z.eqb_eq in H25. cbn [andb].
        eexists _, _. split; [reflexivity |]. split.
        -- split; [exact Hidx |]. split; [discriminate |].
           intros _. cbn. rewrite length_substring0.
           fold_pending s; rewrite ?Hp1. lia.
        -- eapply step_partial; cbn; try reflexivity.
           ++ apply prefix_substring0.
           ++ rewrite Hpt. cbn. lia.
      * apply Z.eqb_neq in H25. cbn [andb].
        eexists _, _. split; [reflexivity |]. split.
        -- split; [exact Hidx |]. split; [| discriminate].
           intros _. cbn. split; [exact Hpt | lia].
        -- apply step_quiet; reflexivity.
  - (* a silent frame *)
    destruct (FakeSTT.isProcessing s) eqn:Hproc.
    + destruct (Hbusy eq_refl) as (Hv & Hpt & Hle).
      cbn [FakeSTT.voiceFrames FakeSTT.isProcessing FakeSTT.voiceBuffer
           FakeSTT.silenceFrames FakeSTT.partialText FakeSTT.responseIndex].
      destruct (FakeSTT.SILENCE_END_FRAMES <=? FakeSTT.silenceFrames s + 1)%Z.
      * eexists _, _. split; [reflexivity |]. split.
        -- split.
           ++ cbn. change (Z.of_nat (List.length FakeSTT.responses)) with 5%Z.
              pose proof (Z.rem_bound_pos (FakeSTT.responseIndex s + 1) 5).
              lia.
           ++ split; [| discriminate]. intros _. cbn. split; [reflexivity | lia].
        -- apply step_final; [| reflexivity].
           split; [reflexivity |]. cbn.
           rewrite <- Hresp. reflexivity.
      * eexists _, _. split; [reflexivity |]. split.
        -- split; [exact Hidx |]. split; [discriminate |].
           intros _. cbn. fold_pending s; rewrite ?Hp1. lia.
        -- apply step_quiet; reflexivity.
    + eexists _, _. split; [reflexivity |]. split.
      * split; [exact Hidx |]. split; intros E.
        -- apply Hidle. reflexivity.
        -- rewrite Hproc in E. discriminate.
      * apply step_quiet; reflexivity.
Qed.

Lemma shape_of_transcribe (frames : list Buf.t) :
  forall (clock : nat -> Z) (i : nat) (s : FakeSTT.t),
    sttInv s ->
    Forall (fun f => List.length f = 640%nat) frames ->
    exists evs s',
      TestAudio.transcribe frames clock i s = Some (evs, s') /\
      sttInv s' /\
      shape (pendingText s) (String.length (FakeSTT.partialText s)) evs.
Proof.
  induction frames as [| frame frames IH]; intros clock i s Hinv Hall.
  - exists [], s. split; [reflexivity |]. split; [exact Hinv | constructor].
  - pose proof (Forall_inv Hall) as Hlen. pose proof (Forall_inv_tail Hall) as Hall'.
    cbn [TestAudio.transcribe]. rewrite processFrame_hasVoice.
    destruct (calculateRMS_even frame) as [rms Hrms].
    { exists 320%nat. rewrite Hlen. reflexivity. }
    unfold hasVoice. rewrite Hrms. cbn [option_map bindo].
    destruct (processVoice_step (FakeSTT.exceeds rms FakeSTT.VOICE_THRESHOLD)
                (clock i) s Hinv) as (r & s1 & E & Hinv1 & Hstep).
    rewrite E. cbn [bindo].
    destruct (IH clock (S i) s1 Hinv1 Hall') as (evs & s' & E' & Hinv' & Hshape).
    rewrite E'. cbn [bindo].
    eexists _, s'. split; [reflexivity |]. split; [exact Hinv' |].
    destruct Hstep as [s1 Hp Ht | r p s1 Hty Htx Hpre Hle Hp Ht | r s1 Hfin Ht].
    + rewrite <- Hp, <- Ht. exact Hshape.
    + rewrite Hp, Ht in Hshape.
      eapply shape_partial; eassumption.
    + rewrite Ht in Hshape. eapply shape_final; eassumption.
Qed.

Lemma partialsFrom_nil (full : string) (least : nat) : partialsFrom full least [].
Proof. repeat split; constructor. Qed.

Lemma partialsFrom_cons (full : string) (least : nat) (r : FakeSTT.Result)
    (p : string) (ps : list FakeSTT.Result) :
  FakeSTT.type r = FakeSTT.partial -> FakeSTT.text r = Some p ->
  String.prefix p full = true -> (least <= String.length p)%nat ->
  partialsFrom full (String.length p) ps ->
  partialsFrom full least (r :: ps).
Proof.
  intros Hty Htx Hpre Hle (Hall & Hge & Hsorted).
  assert (textLength r = String.length p) as Hlen
    by (unfold textLength; rewrite Htx; reflexivity).
  split; [| split].
  - constructor; [| exact Hall]. split; [exact Hty |]. exists p. split; assumption.
  - cbn [map]. rewrite Hlen. constructor; [exact Hle |].
    eapply Forall_impl; [exact Hge |]. cbn. intros n Hn. lia.
  - cbn [map]. rewrite Hlen. constructor; assumption.
Qed.

Lemma partialsFrom_weaken (full : string) (least : nat) (ps : list FakeSTT.Result) :
  partialsFrom full least ps -> partialsFrom full 0 ps.
Proof.
  intros (Hall & Hge & Hsorted). split; [exact Hall |]. split; [| exact Hsorted].
  eapply Forall_impl; [exact Hge |]. cbn. intros n Hn. lia.
Qed.

Lemma shape_utterances (full : string) (least : nat) (evs : list FakeSTT.Result) :
  shape full least evs ->
  partialsFrom full least evs \/
  exists ps f us tail,
    evs = (ps ++ [f]) ++ List.concat us ++ tail /\
    partialsFrom full least ps /\ isFinalOf full f /\
    Forall utterance us /\ unfinished tail.
Proof.
  induction 1 as [full least
                 | full least r p evs Hty Htx Hpre Hle Hshape IH
                 | full least r full' evs Hfin Hshape IH].
  - left. apply partialsFrom_nil.
  - destruct IH as [Hps | (ps & f & us & tail & -> & Hps & Hf & Hus & Htail)].
    + left. eapply partialsFrom_cons; eassumption.
    + right. exists (r :: ps), f, us, tail.
      split; [reflexivity |]. split; [| auto].
      eapply partialsFrom_cons; eassumption.
  - right.
    destruct IH as [Hps | (ps & f & us & tail & -> & Hps & Hf & Hus & Htail)].
    + exists [], r, [], evs. split; [reflexivity |].
      split; [apply partialsFrom_nil |]. split; [exact Hfin |].
      split; [constructor |]. exists full'. exact Hps.
    + exists [], r, ((ps ++ [f]) :: us), tail.
      split; [cbn [List.concat]; rewrite <- !app_assoc; reflexivity |].
      split; [apply partialsFrom_nil |]. split; [exact Hfin |].
      split; [| exact Htail].
      constructor; [| exact Hus]. econstructor; eassumption.
Qed.

Lemma sttInv_new : sttInv FakeSTT.new.
Proof.
  split; [cbn; lia |]. split; [| discriminate].
  intros _. cbn. split; [reflexivity | lia].
Qed.

(** * One utterance, from its first frame to its final transcript *)

Lemma processFrame_of_hasVoice (frame : Buf.t) (b : bool) (now : Z) (s : FakeSTT.t) :
  hasVoice frame = Some b ->
  FakeSTT.processFrame frame now s = FakeSTT.processVoice b now s.
Proof. intros H. rewrite processFrame_hasVoice, H. reflexivity. Qed.

Lemma transcribe_app (frames1 frames2 : list Buf.t) :
  forall (clock : nat -> Z) (i : nat) (s : FakeSTT.t),
    TestAudio.transcribe (frames1 ++ frames2) clock i s
    = bindo (TestAudio.transcribe frames1 clock i s)
        (fun '(evs1, s1) =>
           bindo (TestAudio.transcribe frames2 clock (List.length frames1 + i) s1)
             (fun '(evs2, s2) => Some (evs1 ++ evs2, s2))).
Proof.
  induction frames1 as [| f frames1 IH]; intros clock i s.
  - cbn. destruct (TestAudio.transcribe frames2 clock i s) as [[evs2 s2] |];
      reflexivity.
  - cbn [app TestAudio.transcribe List.length].
    destruct (FakeSTT.processFrame f (clock i) s) as [[r s1] |]; [| reflexivity].
    cbn [bindo]. rewrite IH.
    replace (List.length frames1 + S i)%nat with (S (List.length frames1) + i)%nat by lia.
    destruct (TestAudio.transcribe frames1 clock (S i) s1) as [[evs1 s1'] |];
      [| reflexivity].
    cbn [bindo].
    destruct (TestAudio.transcribe frames2 clock _ s1') as [[evs2 s2] |];
      [| reflexivity].
    cbn [bindo]. destruct r; reflexivity.
Qed.

(** The events of a run that returns, whatever the frames: see [shape]. *)
Lemma shape_of_run (frames : list Buf.t) :
  forall (clock : nat -> Z) (i : nat) (s : FakeSTT.t)
         (evs : list FakeSTT.Result) (s' : FakeSTT.t),
    sttInv s ->
    TestAudio.transcribe frames clock i s = Some (evs, s') ->
    sttInv s' /\
    shape (pendingText s) (String.length (FakeSTT.partialText s)) evs.
Proof.
  induction frames as [| frame frames IH]; intros clock i s evs s' Hinv H.
  - cbn in H. injection H as <- <-. split; [exact Hinv | constructor].
  - cbn [TestAudio.transcribe] in H. rewrite processFrame_hasVoice in H.
    destruct (hasVoice frame) as [b |]; [| discriminate]. cbn [bindo] in H.
    destruct (processVoice_step b (clock i) s Hinv) as (r & s1 & E & Hinv1 & Hstep).
    rewrite E in H. cbn [bindo] in H.
    destruct (TestAudio.transcribe frames clock (S i) s1) as [[evs1 s2] |] eqn:E';
      [| discriminate].
    cbn [bindo] in H. injection H as <- <-.
    destruct (IH clock (S i) s1 evs1 s2 Hinv1 E') as [Hinv' Hshape].
    split; [exact Hinv' |].
    destruct Hstep as [s1 Hp Ht | r p s1 Hty Htx Hpre Hle Hp Ht | r s1 Hfin Ht].
    + rewrite <- Hp, <- Ht. exact Hshape.
    + rewrite Hp, Ht in Hshape.
      eapply shape_partial; eassumption.
    + rewrite Ht in Hshape. eapply shape_final; eassumption.
Qed.

Lemma finalTexts_app (evs1 evs2 : list FakeSTT.Result) :
  finalTexts (evs1 ++ evs2) = finalTexts evs1 ++ finalTexts evs2.
Proof. unfold finalTexts. apply flat_map_app. Qed.

(** Events without a final transcript are the partial transcripts of the
    pending text. *)
Lemma shape_without_final (full : string) (least : nat)
    (evs : list FakeSTT.Result) :
  shape full least evs -> finalTexts evs = [] -> partialsFrom full least evs.
Proof.
  induction 1 as [full least | full least r p evs Hty Htx Hpre Hle _ IH
                  | full least r full' evs [Hty Htx] _ _]; intros Hnone.
  - apply partialsFrom_nil.
  - eapply partialsFrom_cons; try eassumption.
    apply IH. unfold finalTexts in Hnone |- *. cbn [flat_map] in Hnone.
    rewrite Hty in Hnone. exact Hnone.
  - unfold finalTexts in Hnone. cbn [flat_map] in Hnone.
    rewrite Hty in Hnone. discriminate.
Qed.

(** A voiced frame heard by a recognizer that is not inside an utterance
    and has not yet counted 24 voiced frames. *)
Lemma processVoice_counting (now : Z) (s : FakeSTT.t) :
  FakeSTT.isProcessing s = false -> (FakeSTT.voiceFrames s + 1 <> 25)%Z ->
  FakeSTT.processVoice true now s
  = Some (None, FakeSTT.mk false (FakeSTT.voiceBuffer s) 0
                  (FakeSTT.voiceFrames s + 1) (FakeSTT.partialText s)
                  (FakeSTT.responseIndex s)).
Proof.
  intros Hproc Hv. unfold FakeSTT.processVoice.
  cbn [FakeSTT.voiceFrames FakeSTT.isProcessing FakeSTT.voiceBuffer
       FakeSTT.silenceFrames FakeSTT.partialText FakeSTT.responseIndex].
  rewrite Hproc. unfold FakeSTT.VOICE_START_FRAMES.
  assert ((FakeSTT.voiceFrames s + 1 =? 25)%Z = false) as ->
    by (apply Z.eqb_neq; exact Hv).
  reflexivity.
Qed.

Lemma voicedCount_cons (f : Buf.t) (frames : list Buf.t) :
  voicedCount (f :: frames)
  = ((match hasVoice f with Some true => 1 | _ => 0 end) + voicedCount frames)%Z.
Proof.
  unfold voicedCount. cbn [List.filter].
  destruct (hasVoice f) as [[|] |]; cbn [List.length]; lia.
Qed.

Lemma voicedCount_nonneg (frames : list Buf.t) : (0 <= voicedCount frames)%Z.
Proof. unfold voicedCount. lia. Qed.

(** Before the onset: the recognizer counts the voiced frames, silent
    frames change nothing, and nothing is returned. *)
Lemma transcribe_counting (frames : list Buf.t) :
  forall (clock : nat -> Z) (i : nat) (s : FakeSTT.t),
    FakeSTT.isProcessing s = false ->
    Forall (fun f => is_Some (hasVoice f)) frames ->
    (FakeSTT.voiceFrames s + voicedCount frames < 25)%Z ->
    exists s',
      TestAudio.transcribe frames clock i s = Some ([], s') /\
      FakeSTT.isProcessing s' = false /\
      FakeSTT.voiceFrames s' = (FakeSTT.voiceFrames s + voicedCount frames)%Z /\
      FakeSTT.partialText s' = FakeSTT.partialText s /\
      FakeSTT.responseIndex s' = FakeSTT.responseIndex s.
Proof.
  induction frames as [| f frames IH]; intros clock i s Hproc Hall Hcount.
  - exists s. cbn. split; [reflexivity |]. split; [exact Hproc |].
    split; [unfold voicedCount; cbn; lia |]. split; reflexivity.
  - pose proof (Forall_inv Hall) as [b Hb].
    pose proof (Forall_inv_tail Hall) as Hall'.
    rewrite voicedCount_cons, Hb in Hcount |- *.
    pose proof (voicedCount_nonneg frames) as Hnn.
    cbn [TestAudio.transcribe].
    rewrite (processFrame_of_hasVoice f b _ _ Hb).
    destruct b.
    + rewrite processVoice_counting by (assumption || lia).
      cbn [bindo].
      destruct (IH clock (S i)
                  (FakeSTT.mk false (FakeSTT.voiceBuffer s) 0
                     (FakeSTT.voiceFrames s + 1) (FakeSTT.partialText s)
                     (FakeSTT.responseIndex s)) eq_refl Hall')
        as (s' & E & Hp' & Hv' & Ht' & Hi').
      { cbn [FakeSTT.voiceFrames]. lia. }
      rewrite E. cbn [bindo]. exists s'. split; [reflexivity |].
      split; [exact Hp' |].
      cbn [FakeSTT.voiceFrames FakeSTT.responseIndex FakeSTT.partialText]
        in Hv', Hi', Ht'.
      split; [lia |]. split; assumption.
    + assert (FakeSTT.processVoice false (clock i) s = Some (None, s)) as ->
        by (unfold FakeSTT.processVoice; rewrite Hproc; reflexivity).
      cbn [bindo].
      destruct (IH clock (S i) s Hproc Hall') as (s' & E & Hp' & Hv' & Ht' & Hi');
        [lia |].
      rewrite E. cbn [bindo]. exists s'. split; [reflexivity |].
      split; [exact Hp' |]. split; [lia |]. split; assumption.
Qed.

(** A silent frame inside an utterance that does not yet end it. *)
Lemma processVoice_waiting (now : Z) (s : FakeSTT.t) :
  FakeSTT.isProcessing s = true -> (FakeSTT.silenceFrames s + 1 < 15)%Z ->
  FakeSTT.processVoice false now s
  = Some (None, FakeSTT.mk true (FakeSTT.voiceBuffer s)
                  (FakeSTT.silenceFrames s + 1) (FakeSTT.voiceFrames s)
                  (FakeSTT.partialText s) (FakeSTT.responseIndex s)).
Proof.
  intros Hproc Hs. unfold FakeSTT.processVoice.
  cbn [FakeSTT.voiceFrames FakeSTT.isProcessing FakeSTT.voiceBuffer
       FakeSTT.silenceFrames FakeSTT.partialText FakeSTT.responseIndex].
  rewrite Hproc. unfold FakeSTT.SILENCE_END_FRAMES.
  assert ((15 <=? FakeSTT.silenceFrames s + 1)%Z = false) as ->
    by (apply Z.leb_gt; exact Hs).
  reflexivity.
Qed.

(** A pause inside an utterance: nothing is returned, the silent frames
    are counted. *)
Lemma transcribe_waiting (frames : list Buf.t) :
  forall (clock : nat -> Z) (i : nat) (s : FakeSTT.t),
    FakeSTT.isProcessing s = true ->
    Forall (fun f => hasVoice f = Some false) frames ->
    (FakeSTT.silenceFrames s + Z.of_nat (List.length frames) < 15)%Z ->
    TestAudio.transcribe frames clock i s
    = Some ([], FakeSTT.mk true (FakeSTT.voiceBuffer s)
                  (FakeSTT.silenceFrames s + Z.of_nat (List.length frames))
                  (FakeSTT.voiceFrames s) (FakeSTT.partialText s)
                  (FakeSTT.responseIndex s)).
Proof.
  induction frames as [| f frames IH]; intros clock i s Hproc Hall Hcount.
  - cbn. rewrite Z.add_0_r. destruct s; cbn in *; subst; reflexivity.
  - pose proof (Forall_inv Hall) as Hf.
    pose proof (Forall_inv_tail Hall) as Hall'.
    cbn [TestAudio.transcribe List.length] in *.
    rewrite (processFrame_of_hasVoice f false _ _ Hf).
    rewrite processVoice_waiting by (assumption || lia).
    cbn [bindo]. rewrite IH; [| reflexivity | exact Hall' |
      cbn [FakeSTT.silenceFrames]; lia].
    cbn [bindo FakeSTT.voiceBuffer FakeSTT.silenceFrames FakeSTT.voiceFrames
         FakeSTT.partialText FakeSTT.responseIndex].
    do 3 f_equal. lia.
Qed.

(** The silent frame that brings the count of silent frames to 15. *)
Lemma processVoice_ending (now : Z) (s : FakeSTT.t) :
  FakeSTT.isProcessing s = true -> (0 <= FakeSTT.responseIndex s < 5)%Z ->
  (FakeSTT.silenceFrames s + 1 = 15)%Z ->
  FakeSTT.processVoice false now s
  = Some (Some (FakeSTT.mkResult FakeSTT.final (Some (pendingText s)) now),
          FakeSTT.mk false [] 0 0 "" ((FakeSTT.responseIndex s + 1) mod 5)).
Proof.
  intros Hproc Hidx Hs. unfold FakeSTT.processVoice.
  cbn [FakeSTT.voiceFrames FakeSTT.isProcessing FakeSTT.voiceBuffer
       FakeSTT.silenceFrames FakeSTT.partialText FakeSTT.responseIndex].
  rewrite Hproc, Hs. unfold FakeSTT.SILENCE_END_FRAMES.
  change (15 <=? 15)%Z with true.
  cbn [FakeSTT.reset FakeSTT.responseIndex].
  change (Z.of_nat (List.length FakeSTT.responses)) with 5%Z.
  rewrite Z.rem_mod_nonneg by lia.
  rewrite getNextResponse_in_range by exact Hidx.
  rewrite (pendingText_idx s) by reflexivity.
  reflexivity.
Qed.

(** A voiced frame inside an utterance: no final transcript, and the
    count of silent frames starts again. *)
Lemma processVoice_speaking (now : Z) (s : FakeSTT.t) :
  FakeSTT.isProcessing s = true -> (0 <= FakeSTT.responseIndex s < 5)%Z ->
  exists r s',
    FakeSTT.processVoice true now s = Some (r, s') /\
    finalTexts (match r with Some e => [e] | None => [] end) = [] /\
    FakeSTT.isProcessing s' = true /\
    FakeSTT.silenceFrames s' = 0%Z /\
    FakeSTT.voiceFrames s' = (FakeSTT.voiceFrames s + 1)%Z /\
    FakeSTT.responseIndex s' = FakeSTT.responseIndex s.
Proof.
  intros Hproc Hidx. unfold FakeSTT.processVoice.
  cbn [FakeSTT.voiceFrames FakeSTT.isProcessing FakeSTT.voiceBuffer
       FakeSTT.silenceFrames FakeSTT.partialText FakeSTT.responseIndex].
  rewrite Hproc, andb_false_r. cbn [andb negb].
  destruct (Z.rem (FakeSTT.voiceFrames s + 1) 10 =? 0)%Z.
  - rewrite getNextResponse_in_range by exact Hidx.
    cbn [bindo]. eexists _, _. split; [reflexivity |]. cbn. auto.
  - eexists _, _. split; [reflexivity |]. cbn. auto.
Qed.

(** The frame that brings the count of voiced frames to 25. *)
Lemma processVoice_onset (now : Z) (s : FakeSTT.t) :
  FakeSTT.isProcessing s = false -> (0 <= FakeSTT.responseIndex s < 5)%Z ->
  FakeSTT.voiceFrames s = 24%Z ->
  FakeSTT.processVoice true now s
  = Some (Some (FakeSTT.mkResult FakeSTT.partial
                  (Some (FakeSTT.substring0 3 (pendingText s))) now),
          FakeSTT.mk true (FakeSTT.voiceBuffer s) 0 25
            (FakeSTT.substring0 3 (pendingText s)) (FakeSTT.responseIndex s)).
Proof.
  intros Hproc Hidx Hv. unfold FakeSTT.processVoice.
  cbn [FakeSTT.voiceFrames FakeSTT.isProcessing FakeSTT.voiceBuffer
       FakeSTT.silenceFrames FakeSTT.partialText FakeSTT.responseIndex].
  rewrite Hproc, Hv. unfold FakeSTT.VOICE_START_FRAMES.
  change (24 + 1 =? 25)%Z with true. cbn [andb negb].
  rewrite getNextResponse_in_range by exact Hidx.
  rewrite (pendingText_idx s) by reflexivity.
  reflexivity.
Qed.

(** A stretch of speech heard by a recognizer that has counted 24 voiced
    frames: the first frame gives the first partial transcript, no frame
    gives a final one, and at the end the recognizer is inside the
    utterance with no silent frame counted. *)
Lemma transcribe_speech (frames : list Buf.t) :
  speech frames ->
  forall (clock : nat -> Z) (i : nat) (s : FakeSTT.t),
    FakeSTT.isProcessing s = false -> (0 <= FakeSTT.responseIndex s < 5)%Z ->
    FakeSTT.voiceFrames s = 24%Z ->
    exists evs s',
      TestAudio.transcribe frames clock i s
        = Some (FakeSTT.mkResult FakeSTT.partial
                  (Some (FakeSTT.substring0 3 (pendingText s))) (clock i)
                :: evs, s') /\
      finalTexts evs = [] /\
      FakeSTT.isProcessing s' = true /\
      FakeSTT.silenceFrames s' = 0%Z /\
      FakeSTT.responseIndex s' = FakeSTT.responseIndex s.
Proof.
  induction 1 as [frame Hv | frames pause frame _ IH Hpause Hlen Hv];
    intros clock i s Hproc Hidx Hcount.
  - cbn [TestAudio.transcribe].
    rewrite (processFrame_of_hasVoice frame true _ _ Hv).
    rewrite processVoice_onset by assumption.
    cbn [bindo]. eexists [], _. split; [reflexivity |]. cbn. auto.
  - destruct (IH clock i s Hproc Hidx Hcount)
      as (evs & s1 & E1 & Hnone & Hp1 & Hs1 & Hi1).
    rewrite transcribe_app, E1. cbn [bindo].
    rewrite transcribe_app.
    rewrite transcribe_waiting by (assumption || lia).
    cbn [bindo TestAudio.transcribe].
    rewrite (processFrame_of_hasVoice frame true _ _ Hv).
    destruct (processVoice_speaking
                (clock (List.length pause + (List.length frames + i))%nat)
                (FakeSTT.mk true (FakeSTT.voiceBuffer s1)
                   (FakeSTT.silenceFrames s1 + Z.of_nat (List.length pause))
                   (FakeSTT.voiceFrames s1) (FakeSTT.partialText s1)
                   (FakeSTT.responseIndex s1)))
      as (r & s2 & E2 & Hr & Hp2 & Hs2 & _ & Hi2);
      [reflexivity | cbn [FakeSTT.responseIndex]; rewrite Hi1; exact Hidx |].
    rewrite E2. cbn [bindo app].
    exists (evs ++ match r with Some e => [e] | None => [] end), s2.
    split; [destruct r; reflexivity |].
    split; [rewrite finalTexts_app, Hnone, Hr; reflexivity |].
    split; [exact Hp2 |]. split; [exact Hs2 |].
    rewrite Hi2. exact Hi1.
Qed.

Lemma atRest_sttInv (s : FakeSTT.t) : atRest s -> sttInv s.
Proof.
  intros (Hproc & Hv & Ht & Hidx). split; [exact Hidx |]. split.
  - intros _. rewrite Ht, Hv. split; [reflexivity | lia].
  - intros Hp. rewrite Hproc in Hp. discriminate.
Qed.

(** C6.  An utterance is heard frame by frame by a recognizer that is at
    rest: first any frames among which 24 are voiced ([lead]), then a
    stretch of speech that begins with the 25th voiced frame and whose
    pauses are shorter than 15 frames ([sp]), then 15 silent frames
    ([silence]).  The recognizer returns for every frame.  The events it
    returns are one or more partial transcripts, the first with the 25th
    voiced frame, then exactly one final transcript, with the last frame
    and not before.  The partial texts are prefixes of the final text and
    their lengths never decrease.  The final text is the pending response,
    and the recognizer is at rest again, ready for the next utterance. *)
Theorem utterance_gives_partials_then_one_final (lead sp silence : list Buf.t)
    (clock : nat -> Z) (i : nat) (s : FakeSTT.t) :
  atRest s ->
  Forall (fun f => is_Some (hasVoice f)) lead ->
  voicedCount lead = 24%Z ->
  speech sp ->
  Forall (fun f => hasVoice f = Some false) silence ->
  List.length silence = 15%nat ->
  let frames := lead ++ sp ++ silence in
  let full := pendingText s in
  exists ps s1 s',
    TestAudio.transcribe (removelast frames) clock i s = Some (ps, s1) /\
    TestAudio.transcribe frames clock i s
      = Some (ps ++ [FakeSTT.mkResult FakeSTT.final (Some full)
                       (clock (List.length frames - 1 + i)%nat)], s') /\
    hd_error ps
      = Some (FakeSTT.mkResult FakeSTT.partial
                (Some (FakeSTT.substring0 3 full))
                (clock (List.length lead + i)%nat)) /\
    partialsFrom full 0 ps /\
    atRest s' /\
    FakeSTT.responseIndex s' = ((FakeSTT.responseIndex s + 1) mod 5)%Z.
Proof.
  intros Hrest Hlead Hcount Hsp Hsil Hlen frames full.
  pose proof Hrest as (Hproc & Hv & Ht & Hidx).
  (* the last frame apart *)
  assert (silence <> []) as Hne by (intros ->; discriminate).
  destruct (exists_last Hne) as (silence14 & last & ->).
  rewrite length_app in Hlen. cbn [List.length] in Hlen.
  apply Forall_app in Hsil as [Hsil14 Hlast]. apply Forall_inv in Hlast.
  assert (frames = (lead ++ sp ++ silence14) ++ [last]) as Hframes
    by (subst frames; rewrite <- !app_assoc; reflexivity).
  assert (removelast frames = lead ++ sp ++ silence14) as Hremove
    by (rewrite Hframes; apply removelast_last).
  (* the lead *)
  destruct (transcribe_counting lead clock i s Hproc Hlead ltac:(lia))
    as (s0 & E0 & Hp0 & Hv0 & Ht0 & Hi0).
  (* the speech *)
  destruct (transcribe_speech sp Hsp clock (List.length lead + i)%nat s0 Hp0)
    as (evs & s1 & E1 & Hnone & Hp1 & Hs1 & Hi1);
    [rewrite Hi0; exact Hidx | lia |].
  assert (pendingText s0 = full) as Hfull0 by (apply pendingText_idx; exact Hi0).
  rewrite Hfull0 in E1.
  set (onset := FakeSTT.mkResult FakeSTT.partial
                  (Some (FakeSTT.substring0 3 full))
                  (clock (List.length lead + i)%nat)) in *.
  (* the silence but for its last frame *)
  assert (TestAudio.transcribe (lead ++ sp ++ silence14) clock i s
          = Some (onset :: evs,
                  FakeSTT.mk true (FakeSTT.voiceBuffer s1)
                    (FakeSTT.silenceFrames s1 + Z.of_nat (List.length silence14))
                    (FakeSTT.voiceFrames s1) (FakeSTT.partialText s1)
                    (FakeSTT.responseIndex s1))) as E14.
  { rewrite transcribe_app, E0. cbn [bindo].
    rewrite transcribe_app, E1. cbn [bindo].
    rewrite transcribe_waiting by (assumption || lia).
    cbn [bindo app]. rewrite app_nil_r. reflexivity. }
  set (s14 := FakeSTT.mk true _ _ _ _ _) in E14.
  assert (pendingText s14 = full) as Hfull14.
  { apply pendingText_idx. cbn [s14 FakeSTT.responseIndex]. congruence. }
  exists (onset :: evs), s14,
    (FakeSTT.mk false [] 0 0 "" ((FakeSTT.responseIndex s + 1) mod 5)).
  split; [rewrite Hremove; exact E14 |].
  split.
  { rewrite Hframes, transcribe_app, E14. cbn [bindo TestAudio.transcribe].
    rewrite (processFrame_of_hasVoice last false _ _ Hlast).
    rewrite processVoice_ending;
      [| reflexivity
       | cbn [s14 FakeSTT.responseIndex]; rewrite Hi1, Hi0; exact Hidx
       | cbn [s14 FakeSTT.silenceFrames]; lia].
    cbn [bindo]. rewrite Hfull14.
    cbn [s14 FakeSTT.responseIndex]. rewrite Hi1, Hi0.
    assert (List.length ((lead ++ sp ++ silence14) ++ [last]) - 1 + i
            = List.length (lead ++ sp ++ silence14) + i)%nat as ->
      by (rewrite (length_app (lead ++ sp ++ silence14)); cbn [List.length]; lia).
    reflexivity. }
  split; [reflexivity |].
  split.
  { destruct (shape_of_run _ _ _ _ _ _ (atRest_sttInv s Hrest) E14) as [_ Hshape].
    rewrite Ht in Hshape. cbn [String.length] in Hshape.
    apply shape_without_final; [exact Hshape |].
    unfold finalTexts in Hnone |- *. cbn [flat_map onset FakeSTT.type app].
    exact Hnone. }
  split.
  { repeat split; cbn; try reflexivity.
    - pose proof (Z.mod_pos_bound (FakeSTT.responseIndex s + 1) 5). lia.
    - pose proof (Z.mod_pos_bound (FakeSTT.responseIndex s + 1) 5). lia. }
  reflexivity.
Qed.

Lemma voicedCount_repeat (frame : Buf.t) (n : nat) :
  hasVoice frame = Some true -> voicedCount (repeat frame n) = Z.of_nat n.
Proof.
  intros H. induction n as [| n IH]; [reflexivity |].
  cbn [repeat]. rewrite voicedCount_cons, H, IH. lia.
Qed.

Lemma speech_repeat (frame : Buf.t) (n : nat) :
  hasVoice frame = Some true -> speech (repeat frame (S n)).
Proof.
  intros H. induction n as [| n IH]; [apply speech_voiced; exact H |].
  replace (repeat frame (S (S n))) with (repeat frame (S n) ++ [] ++ [frame]).
  - apply speech_pause; [exact IH | constructor | cbn; lia | exact H].
  - cbn [app]. rewrite <- repeat_cons. reflexivity.
Qed.

Lemma utterance_gives_partials_then_one_final_witness :
  atRest FakeSTT.new /\
  Forall (fun f => is_Some (hasVoice f)) (repeat voicedFrame 24) /\
  voicedCount (repeat voicedFrame 24) = 24%Z /\
  speech (repeat voicedFrame 6) /\
  Forall (fun f => hasVoice f = Some false) (repeat silentFrame 15) /\
  List.length (repeat silentFrame 15) = 15%nat /\
  exists ps s1 s',
    TestAudio.transcribe
      (removelast (repeat voicedFrame 24 ++ repeat voicedFrame 6
                   ++ repeat silentFrame 15))
      (fun n => Z.of_nat n) 0 FakeSTT.new = Some (ps, s1) /\
    TestAudio.transcribe
      (repeat voicedFrame 24 ++ repeat voicedFrame 6 ++ repeat silentFrame 15)
      (fun n => Z.of_nat n) 0 FakeSTT.new
      = Some (ps ++ [FakeSTT.mkResult FakeSTT.final (Some "hello"%string) 44%Z],
              s') /\
    hd_error ps
      = Some (FakeSTT.mkResult FakeSTT.partial (Some "hel"%string) 24%Z) /\
    partialsFrom "hello" 0 ps /\
    atRest s' /\
    FakeSTT.responseIndex s' = 1%Z.
Proof.
  assert (hasVoice voicedFrame = Some true) as Hv by (vm_compute; reflexivity).
  assert (hasVoice silentFrame = Some false) as Hs by (vm_compute; reflexivity).
  assert (atRest FakeSTT.new) as Hrest by (repeat split; cbn; lia).
  assert (Forall (fun f => is_Some (hasVoice f)) (repeat voicedFrame 24)) as Hlead.
  { apply Forall_forall. intros f Hf. apply list_elem_of_In, repeat_spec in Hf.
    subst f. rewrite Hv. eexists; reflexivity. }
  assert (Forall (fun f => hasVoice f = Some false) (repeat silentFrame 15)) as Hsil.
  { apply Forall_forall. intros f Hf. apply list_elem_of_In, repeat_spec in Hf.
    subst f. exact Hs. }
  pose proof (voicedCount_repeat voicedFrame 24 Hv) as Hcount.
  pose proof (speech_repeat voicedFrame 5 Hv) as Hsp.
  split; [exact Hrest |]. split; [exact Hlead |]. split; [exact Hcount |].
  split; [exact Hsp |]. split; [exact Hsil |]. split; [reflexivity |].
  exact (utterance_gives_partials_then_one_final (repeat voicedFrame 24)
           (repeat voicedFrame 6) (repeat silentFrame 15) (fun n => Z.of_nat n)
           0 FakeSTT.new Hrest Hlead Hcount Hsp Hsil eq_refl).
Defined.

(** X29.  Any frames.  Fed any frames of 640 bytes one by one, a new
    recognizer returns for every frame: it never throws.  The events it
    returns are runs of partial transcripts, each run closed by a final
    transcript, and a last run that is still open.  In every run the
    lengths of the partial texts never decrease; in a closed run each
    partial text is a prefix of the text of the final transcript that
    closes it, and the partial texts of the open run are prefixes of one
    text. *)
Theorem any_run_is_a_sequence_of_utterances (frames : list Buf.t) (clock : nat -> Z) :
  Forall (fun f => List.length f = 640%nat) frames ->
  exists evs s',
    TestAudio.transcribe frames clock 0 FakeSTT.new = Some (evs, s') /\
    exists us tail,
      evs = List.concat us ++ tail /\ Forall utterance us /\ unfinished tail.
Proof.
  intros Hall.
  destruct (shape_of_transcribe frames clock 0 FakeSTT.new sttInv_new Hall)
    as (evs & s' & E & _ & Hshape).
  exists evs, s'. split; [exact E |].
  apply shape_utterances in Hshape.
  destruct Hshape as [Hps | (ps & f & us & tail & -> & Hps & Hf & Hus & Htail)].
  - exists [], evs. split; [reflexivity |]. split; [constructor |].
    eexists. eapply partialsFrom_weaken. exact Hps.
  - exists ((ps ++ [f]) :: us), tail.
    split; [cbn [List.concat]; rewrite <- !app_assoc; reflexivity |].
    split; [| exact Htail].
    constructor; [| exact Hus]. econstructor; [| exact Hf].
    eapply partialsFrom_weaken. exact Hps.
Qed.

Lemma any_run_is_a_sequence_of_utterances_witness :
  Forall (fun f => List.length f = 640%nat)
    (repeat voicedFrame 30 ++ repeat silentFrame 15) /\
  exists evs s',
    TestAudio.transcribe (repeat voicedFrame 30 ++ repeat silentFrame 15)
      (fun i => Z.of_nat i) 0 FakeSTT.new = Some (evs, s') /\
    exists us tail,
      evs = List.concat us ++ tail /\ Forall utterance us /\ unfinished tail.
Proof.
  assert (Forall (fun f => List.length f = 640%nat)
            (repeat voicedFrame 30 ++ repeat silentFrame 15)) as H.
  { apply Forall_app. split; apply Forall_forall; intros f Hf;
      apply list_elem_of_In, repeat_spec in Hf; subst f; reflexivity. }
  split; [exact H |].
  apply (any_run_is_a_sequence_of_utterances _ (fun i => Z.of_nat i) H).
Defined.

(** The scenario of the specification: 30 voiced frames, then 15 silent
    ones. *)
Example transcript_30_15 :
  option_map (fun r => map (fun e => (FakeSTT.type e, FakeSTT.text e)) (fst r))
    (TestAudio.transcribe (repeat voicedFrame 30 ++ repeat silentFrame 15)
       (fun i => Z.of_nat i) 0 FakeSTT.new)
  = Some [ (FakeSTT.partial, Some "hel"%string);
           (FakeSTT.partial, Some "hello"%string);
           (FakeSTT.final, Some "hello"%string) ].
Proof. vm_compute. reflexivity. Qed.

Lemma processFrame_silent_idle (s : FakeSTT.t) (frame : Buf.t) (now : Z) :
  FakeSTT.isProcessing s = false ->
  hasVoice frame = Some false ->
  FakeSTT.processFrame frame now s = Some (None, s).
Proof.
  intros Hidle Hsilent.
  rewrite processFrame_hasVoice, Hsilent. cbn [bindo].
  unfold FakeSTT.processVoice. rewrite Hidle. reflexivity.
Qed.

(** A run of silent frames in front of other frames is skipped by a
    recognizer that is not processing. *)
Lemma transcribe_skips_silence (s : FakeSTT.t) (silents : list Buf.t) :
  FakeSTT.isProcessing s = false ->
  Forall (fun f => hasVoice f = Some false) silents ->
  forall rest clock i,
    TestAudio.transcribe (silents ++ rest) clock i s
    = TestAudio.transcribe rest clock (List.length silents + i) s.
Proof.
  intros Hidle Hall.
  induction Hall as [| frame silents Hframe Hall IH]; intros rest clock i.
  - reflexivity.
  - cbn [app TestAudio.transcribe List.length].
    rewrite (processFrame_silent_idle s frame (clock i) Hidle Hframe).
    cbn [bindo]. rewrite IH.
    replace (List.length silents + S i)%nat with (S (List.length silents) + i)%nat
      by lia.
    destruct (TestAudio.transcribe rest clock (S (List.length silents) + i) s)
      as [[evs s'] |]; reflexivity.
Qed.

(** C10.  While [isProcessing] is false, a silent frame (one whose RMS does
    not exceed [VOICE_THRESHOLD]) makes [processFrame] return no event and
    leaves the whole recognizer state as it was, the voiced-frame counter
    included.  Hence any run of silent frames is invisible to what follows:
    the frames after it are processed from the same state, so voiced frames
    before and after the silence add up towards [VOICE_START_FRAMES]. *)
Theorem silent_frames_ignored_when_idle (s : FakeSTT.t) (silents : list Buf.t) :
  FakeSTT.isProcessing s = false ->
  Forall (fun f => hasVoice f = Some false) silents ->
  (forall frame now,
     In frame silents -> FakeSTT.processFrame frame now s = Some (None, s)) /\
  (forall rest clock i,
     TestAudio.transcribe (silents ++ rest) clock i s
     = TestAudio.transcribe rest clock (List.length silents + i) s).
Proof.
  intros Hidle Hall. split.
  - intros frame now Hin.
    apply processFrame_silent_idle; [exact Hidle |].
    rewrite Forall_forall in Hall. apply Hall, list_elem_of_In, Hin.
  - apply transcribe_skips_silence; assumption.
Qed.

Lemma silent_frames_ignored_when_idle_witness :
  let s := FakeSTT.mk false [] 0 24 "" 0 in
  FakeSTT.isProcessing s = false /\
  Forall (fun f => hasVoice f = Some false) [silentFrame; silentFrame] /\
  (forall frame now,
     In frame [silentFrame; silentFrame] ->
     FakeSTT.processFrame frame now s = Some (None, s)) /\
  (forall rest clock i,
     TestAudio.transcribe ([silentFrame; silentFrame] ++ rest) clock i s
     = TestAudio.transcribe rest clock
         (List.length [silentFrame; silentFrame] + i) s).
Proof.
  intros s.
  assert (FakeSTT.isProcessing s = false) as H1 by reflexivity.
  assert (Forall (fun f => hasVoice f = Some false) [silentFrame; silentFrame])
    as H2 by (repeat constructor).
  split; [exact H1 |]. split; [exact H2 |].
  exact (silent_frames_ignored_when_idle s [silentFrame; silentFrame] H1 H2).
Defined.

(** 24 voiced frames, any number of silent frames, one more voiced frame:
    the 25th voiced frame starts the utterance. *)
Example voiced_frames_add_up_across_silence (k : nat) (clock : nat -> Z) :
  option_map (fun r => map (fun e => (FakeSTT.type e, FakeSTT.text e)) (fst r))
    (TestAudio.transcribe
       (repeat voicedFrame 24 ++ repeat silentFrame k ++ [voicedFrame])
       clock 0 FakeSTT.new)
  = Some [ (FakeSTT.partial, Some "hel"%string) ].
Proof.
  assert (forall frames evs s1 i s,
            TestAudio.transcribe frames clock i s = Some (evs, s1) ->
            forall rest,
              TestAudio.transcribe (frames ++ rest) clock i s
              = bindo (TestAudio.transcribe rest clock (List.length frames + i) s1)
                  (fun '(evs', s2) => Some (evs ++ evs', s2))) as Happ.
  { induction frames as [| f frames IH]; intros evs s1 i s E rest.
    - cbn in E. injection E as <- <-. cbn.
      destruct (TestAudio.transcribe rest clock i s) as [[e s2] |]; reflexivity.
    - cbn [app TestAudio.transcribe] in *.
      destruct (FakeSTT.processFrame f (clock i) s) as [[r s'] |]; [| discriminate].
      cbn [bindo] in *.
      destruct (TestAudio.transcribe frames clock (S i) s') as [[es s''] |] eqn:E';
        [| discriminate].
      cbn [bindo] in E. injection E as <- <-.
      rewrite (IH es s'' (S i) s' E' rest).
      replace (List.length frames + S i)%nat
        with (List.length (f :: frames) + i)%nat by (cbn; lia).
      destruct (TestAudio.transcribe rest clock (List.length (f :: frames) + i) s'')
        as [[e s2] |]; cbn [bindo]; [| reflexivity].
      destruct r; rewrite ?app_comm_cons; reflexivity. }
  assert (exists s24,
            TestAudio.transcribe (repeat voicedFrame 24) clock 0 FakeSTT.new
              = Some ([], s24) /\ s24 = FakeSTT.mk false [] 0 24 "" 0)
    as (s24 & E24 & Hs24).
  { eexists. split; [vm_compute; reflexivity | reflexivity]. }
  rewrite (Happ _ _ _ _ _ E24). subst s24.
  rewrite (transcribe_skips_silence (FakeSTT.mk false [] 0 24 "" 0)
             (repeat silentFrame k) eq_refl).
  2: { apply Forall_forall. intros f Hf.
       apply list_elem_of_In, repeat_spec in Hf. subst f. reflexivity. } cbn [TestAudio.transcribe].
  rewrite processFrame_hasVoice.
  change (hasVoice voicedFrame) with (Some true). reflexivity.
Qed.

(** * The synthesizer *)

Lemma writeInt16LE_in_range (value offset : Z) (b : Buf.t) :
  (-32768 <= value <= 32767)%Z -> (0 <= offset)%Z ->
  (offset + 2 <= Buf.length b)%Z ->
  exists b', Buf.writeInt16LE value offset b = Some b' /\
             List.length b' = List.length b.
Proof.
  intros Hv Ho Hlen. unfold Buf.writeInt16LE.
  assert (((-32768 <=? value) && (value <=? 32767) && (0 <=? offset)
           && (offset + 1 <? Buf.length b))%Z = true) as ->.
  { repeat (apply andb_true_intro; split);
      try apply Z.leb_le; try apply Z.ltb_lt; lia. }
  eexists. split; [reflexivity |]. rewrite !length_insert. reflexivity.
Qed.

Section Synthesis.
Context {sine : FakeTTS.Sine}.

Lemma frameLoop_total (frequency : Z) (n : nat) :
  forall (i : Z) (buffer : Buf.t) (s : FakeTTS.t),
    List.length buffer = 640%nat -> (0 <= i)%Z -> (i + Z.of_nat n <= 320)%Z ->
    exists b' s',
      FakeTTS.frameLoop frequency n i buffer s = Some (b', s') /\
      List.length b' = 640%nat.
Proof.
  induction n as [| n IH]; intros i buffer s Hlen Hi Hn.
  - exists buffer, s. split; [reflexivity | exact Hlen].
  - cbn [FakeTTS.frameLoop].
    destruct (writeInt16LE_in_range (FakeTTS.intSample (FakeTTS.phase s))
                (i * 2) buffer) as (b1 & E1 & L1).
    + pose proof (FakeTTS.intSample_range (FakeTTS.phase s)). lia.
    + lia.
    + unfold Buf.length. lia.
    + rewrite E1. cbn [bindo]. apply IH; [congruence | lia | lia].
Qed.

Lemma generateFrame_total (frequency : Z) (s : FakeTTS.t) :
  exists pcmFrame s',
    FakeTTS.generateFrame frequency s = Some (pcmFrame, s') /\
    List.length pcmFrame = 640%nat.
Proof.
  unfold FakeTTS.generateFrame.
  change (Buf.alloc (inject_Z (FakeTTS.frameSize * 2)))
    with (Some (repeat 0%Z 640)).
  cbn [bindo]. apply frameLoop_total; [apply repeat_length | lia |].
  change (Z.of_nat (Z.to_nat FakeTTS.frameSize)) with 320%Z. lia.
Qed.

Lemma collect_from_yield (n : nat) :
  forall (l : FakeTTS.Locals) (s : FakeTTS.t) (acc : list Buf.t) (fuel : nat),
    Z.of_nat n = Z.max 0 (FakeTTS.totalFrames l - (FakeTTS.frameIndex l + 1)) ->
    (n < fuel)%nat ->
    exists chunks s',
      TestAudio.collect fuel (FakeTTS.SuspendedYield l) s acc
        = Some (acc ++ chunks, s') /\
      List.length chunks = n /\
      Forall (fun c => List.length c = 640%nat) chunks.
Proof.
  induction n as [| n IH]; intros l s acc fuel Hn Hfuel;
    (destruct fuel as [| fuel]; [lia |]);
    cbn [TestAudio.collect]; unfold FakeTTS.next, FakeTTS.loopHead;
    cbn [FakeTTS.frameIndex FakeTTS.totalFrames FakeTTS.frequency].
  - destruct (FakeTTS.frameIndex l + 1 <? FakeTTS.totalFrames l)%Z eqn:E;
      [apply Z.ltb_lt in E; lia |].
    cbn [bindo]. exists [], s. rewrite app_nil_r.
    split; [reflexivity |]. split; [reflexivity | constructor].
  - destruct (FakeTTS.frameIndex l + 1 <? FakeTTS.totalFrames l)%Z eqn:E;
      [| apply Z.ltb_ge in E; lia].
    apply Z.ltb_lt in E.
    destruct (generateFrame_total (FakeTTS.frequency l) s)
      as (f & s1 & Ef & Lf).
    rewrite Ef. cbn [bindo FakeTTS.delayElapsed].
    destruct (IH (FakeTTS.mkLocals (FakeTTS.totalFrames l) (FakeTTS.frequency l)
                    (FakeTTS.frameIndex l + 1)) s1 (acc ++ [f]) fuel)
      as (chunks & s' & Ec & Lc & Hall).
    + cbn. lia.
    + lia.
    + exists (f :: chunks), s'. rewrite Ec, <- app_assoc.
      split; [reflexivity |]. split; [cbn; lia |].
      constructor; assumption.
Qed.

End Synthesis.

Lemma computeTotalFrames_closed (text : string) :
  let w := Z.of_nat (List.length (split " " text)) in
  FakeTTS.computeTotalFrames text
    = Qfloor (Qmax 2 (inject_Z w / 3) * 1000 / 20) /\
  FakeTTS.computeTotalFrames text = Z.max 100 (50 * w / 3).
Proof.
  intros w. split; [reflexivity |].
  unfold FakeTTS.computeTotalFrames. fold w.
  change (inject_Z FakeTTS.frameDurationMs) with (inject_Z 20).
  change (inject_Z 3) with (3 : Q).
  destruct (Z_le_gt_dec w 6) as [Hle | Hgt].
  - assert (Qmax 2 (inject_Z w / 3) == 2)%Q as E.
    { apply Q.max_l. unfold Qle, Qdiv, Qmult, Qinv, inject_Z. simpl. lia. }
    assert (Qmax 2 (inject_Z w / 3) * 1000 / inject_Z 20 == inject_Z 100)%Q as E'.
    { rewrite E. reflexivity. }
    rewrite (Qfloor_comp _ _ E'), Qfloor_Z.
    assert (50 * w / 3 <= 100)%Z by (apply Z.div_le_upper_bound; lia). lia.
  - assert (Qmax 2 (inject_Z w / 3) == inject_Z w / 3)%Q as E.
    { apply Q.max_r. unfold Qle, Qdiv, Qmult, Qinv, inject_Z. simpl. lia. }
    assert (Qmax 2 (inject_Z w / 3) * 1000 / inject_Z 20 == (50 * w) # 3)%Q as E'.
    { rewrite E. unfold Qeq, Qdiv, Qmult, Qinv, inject_Z. simpl. lia. }
    rewrite (Qfloor_comp _ _ E'). cbn [Qfloor].
    assert (100 <= 50 * w / 3)%Z by (apply Z.div_le_lower_bound; lia). lia.
Qed.

(** Draining the generator of a reply nobody cancels gives [totalFrames]
    chunks of 640 bytes. *)
Lemma audioChunksOf_total {sine : FakeTTS.Sine} (text : string)
    (s : FakeTTS.t) :
  exists chunks s',
    TestAudio.audioChunksOf text s = Some (chunks, s') /\
    Z.of_nat (List.length chunks) = FakeTTS.computeTotalFrames text /\
    Forall (fun c => List.length c = 640%nat) chunks.
Proof.
  unfold TestAudio.audioChunksOf.
  set (n := Z.to_nat (FakeTTS.computeTotalFrames text)).
  destruct (collect_from_yield n
              (FakeTTS.mkLocals (FakeTTS.computeTotalFrames text)
                 (FakeTTS.computeFrequency text) (-1))
              s [] (S n)) as (chunks & s' & E & Hlen & Hall).
  - cbn [FakeTTS.totalFrames FakeTTS.frameIndex]. subst n. lia.
  - lia.
  - exists chunks, s'. split; [exact E |]. split; [| exact Hall].
    rewrite Hlen. subst n.
    destruct (computeTotalFrames_closed text) as [_ Hmax]. lia.
Qed.

(** C3 (as amended).  For every reply text, absent cancellation, the
    synthesizer yields exactly [floor(max(2, w / 3) * 1000 / 20)] frames,
    that is [max(100, floor(50 * w / 3))], where [w] is the number of pieces
    [text.split(' ')] gives; each frame is exactly 640 bytes, and the format
    is 16 kHz, one channel, 16 bits, 320 samples per 20 ms frame. *)
Theorem synthesizer_frame_count {sine : FakeTTS.Sine} (text : string)
    (s : FakeTTS.t) :
  let w := Z.of_nat (List.length (split " " text)) in
  exists chunks s',
    TestAudio.audioChunksOf text s = Some (chunks, s') /\
    Z.of_nat (List.length chunks)
      = Qfloor (Qmax 2 (inject_Z w / 3) * 1000 / 20) /\
    Z.of_nat (List.length chunks) = Z.max 100 (50 * w / 3) /\
    Forall (fun c => List.length c = 640%nat) chunks /\
    FakeTTS.getFormat = (16000, 1, 16, 320, 20)%Z.
Proof.
  intros w.
  destruct (computeTotalFrames_closed text) as [Hfloor Hmax].
  fold w in Hfloor, Hmax.
  destruct (audioChunksOf_total text s) as (chunks & s' & E & Hlen & Hall).
  exists chunks, s'. split; [exact E |].
  split; [rewrite Hlen; exact Hfloor |].
  split; [rewrite Hlen; exact Hmax |].
  split; [exact Hall | reflexivity].
Qed.

Section Cancellation.
Context {sine : FakeTTS.Sine}.

Lemma loopHead_aborted (l : FakeTTS.Locals) (s : FakeTTS.t) :
  FakeTTS.loopHead true l s = Some (FakeTTS.Completed, FakeTTS.Done, s).
Proof.
  unfold FakeTTS.loopHead.
  destruct (FakeTTS.frameIndex l <? FakeTTS.totalFrames l)%Z; reflexivity.
Qed.

Lemma loopHead_total (a : bool) (l : FakeTTS.Locals) (s : FakeTTS.t) :
  (exists f s', FakeTTS.loopHead a l s
                  = Some (FakeTTS.AwaitingDelay l f, FakeTTS.Pending, s') /\
                a = false) \/
  FakeTTS.loopHead a l s = Some (FakeTTS.Completed, FakeTTS.Done, s).
Proof.
  unfold FakeTTS.loopHead.
  destruct (FakeTTS.frameIndex l <? FakeTTS.totalFrames l)%Z; [| right; reflexivity].
  destruct a; [right; reflexivity |].
  destruct (generateFrame_total (FakeTTS.frequency l) s) as (f & s' & E & _).
  left. exists f, s'. rewrite E. split; reflexivity.
Qed.

Lemma step_cases (e : Producer.Event) (st : Producer.State) :
  exists o st1, Producer.step e st = Some (o, st1) /\ stepCase st e o st1.
Proof.
  destruct e.
  - destruct st as [g s a]. destruct g as [text | l f | l |]; cbn [Producer.step Producer.generator Producer.tts Producer.aborted FakeTTS.delayElapsed].
    + unfold FakeTTS.next.
      destruct (loopHead_total a
                  (FakeTTS.mkLocals (FakeTTS.computeTotalFrames text)
                     (FakeTTS.computeFrequency text) 0) s)
        as [(f & s' & E & ->) | E]; rewrite E; cbn [bindo];
        eexists _, _; (split; [reflexivity |]).
      * apply case_generated; reflexivity.
      * apply case_ended; reflexivity.
    + eexists _, _. split; [reflexivity |]. apply case_emitted; reflexivity.
    + unfold FakeTTS.next.
      destruct (loopHead_total a
                  (FakeTTS.mkLocals (FakeTTS.totalFrames l) (FakeTTS.frequency l)
                     (FakeTTS.frameIndex l + 1)) s)
        as [(f & s' & E & ->) | E]; rewrite E; cbn [bindo];
        eexists _, _; (split; [reflexivity |]).
      * apply case_generated; reflexivity.
      * apply case_ended; reflexivity.
    + eexists _, _. split; [reflexivity |]. apply case_idle. reflexivity.
  - eexists _, _. split; [reflexivity |]. apply case_trip.
Qed.

(** Every schedule runs to its end: the generator does not throw. *)
Lemma run_total (es : list Producer.Event) :
  forall st, exists os st', Producer.run es st = Some (os, st').
Proof.
  induction es as [| e es IH]; intros st.
  - exists [], st. reflexivity.
  - destruct (step_cases e st) as (o & st1 & E & _).
    destruct (IH st1) as (os & st' & E').
    exists (o ++ os), st'. cbn [Producer.run]. rewrite E. cbn [bindo].
    rewrite E'. reflexivity.
Qed.

(** Once the signal is aborted, no frame is generated any more, and the
    only frame that can still be emitted is the one in flight. *)
Lemma run_after_trip (es : list Producer.Event) :
  forall st os st',
    Producer.aborted st = true ->
    Producer.run es st = Some (os, st') ->
    generatedFrames os = [] /\
    (emittedFrames os = [] \/ emittedFrames os = inFlight st).
Proof.
  induction es as [| e es IH]; intros st os st' Hab Hrun.
  - cbn in Hrun. injection Hrun as <- <-. split; [reflexivity | left; reflexivity].
  - cbn [Producer.run] in Hrun.
    destruct (step_cases e st) as (o & st1 & E & Hcase).
    rewrite E in Hrun. cbn [bindo] in Hrun.
    destruct (Producer.run es st1) as [[os1 st2] |] eqn:E1; [| discriminate].
    cbn [bindo] in Hrun. injection Hrun as <- <-.
    unfold generatedFrames, emittedFrames in *. rewrite !flat_map_app.
    destruct Hcase as [| f st1 Ha | f st1 Hin Hout Ha1 | st1 Hin Hout Ha1 | Hin].
    + destruct (fun H => IH _ _ _ H E1) as [Hg He]; [reflexivity |].
      split; [exact Hg | exact He].
    + congruence.
    + destruct (IH _ _ _ (eq_trans Ha1 Hab) E1) as [Hg He].
      rewrite Hout in He. cbn. split; [exact Hg |].
      right. rewrite Hin. destruct He as [-> | ->]; reflexivity.
    + destruct (IH _ _ _ (eq_trans Ha1 Hab) E1) as [Hg He].
      rewrite Hout in He. cbn. split; [exact Hg |].
      left. destruct He as [-> | ->]; reflexivity.
    + destruct (IH _ _ _ Hab E1) as [Hg He]. split; [exact Hg | exact He].
Qed.

(** The frame in flight has been generated. *)
Lemma run_split_at_trip (es : list Producer.Event) :
  forall st os st' past,
    (forall f, In f (inFlight st) -> In (Producer.Generated f) past) ->
    Producer.run es st = Some (os, st') ->
    forall pre post,
      os = pre ++ Producer.Tripped :: post ->
      generatedFrames post = [] /\
      (emittedFrames post = [] \/
       exists f, emittedFrames post = [f] /\
                 In (Producer.Generated f) (past ++ pre)).
Proof.
  induction es as [| e es IH]; intros st os st' past Hpast Hrun pre post Hsplit.
  - cbn in Hrun. injection Hrun as <- <-. destruct pre; discriminate.
  - cbn [Producer.run] in Hrun.
    destruct (step_cases e st) as (o & st1 & E & Hcase).
    rewrite E in Hrun. cbn [bindo] in Hrun.
    destruct (Producer.run es st1) as [[os1 st2] |] eqn:E1; [| discriminate].
    cbn [bindo] in Hrun. injection Hrun as <- <-.
    assert (forall x pre',
              pre = x :: pre' -> o = [x] ->
              (forall f, In f (inFlight st1) -> In (Producer.Generated f) (past ++ [x])) ->
              os1 = pre' ++ Producer.Tripped :: post ->
              generatedFrames post = [] /\
              (emittedFrames post = [] \/
               exists f, emittedFrames post = [f] /\
                         In (Producer.Generated f) (past ++ pre))) as Hnext.
    { intros x pre' -> -> Hpast1 Hos1.
      destruct (IH st1 os1 st2 (past ++ [x]) Hpast1 E1 pre' post Hos1)
        as [Hg He].
      split; [exact Hg |]. rewrite <- app_assoc in He. exact He. }
    destruct Hcase as [| f st1 Ha Hin Hout Ha1 | f st1 Hin Hout Ha1
                       | st1 Hin Hout Ha1 | Hin].
    + (* the trip *)
      destruct pre as [| x pre']; cbn in Hsplit.
      * injection Hsplit as <-.
        destruct (fun H => run_after_trip es _ _ _ H E1) as [Hg He]; [reflexivity |].
        split; [exact Hg |]. rewrite app_nil_r.
        destruct He as [He | He]; [left; exact He |].
        unfold inFlight in He, Hpast. cbn [Producer.generator] in He.
        destruct (Producer.generator st) as [| l f | |];
          try (left; exact He).
        right. exists f. split; [exact He |]. apply Hpast. left. reflexivity.
      * injection Hsplit as <- Hos1.
        apply (Hnext Producer.Tripped pre' eq_refl eq_refl); [| exact Hos1].
        intros f Hf. apply in_or_app. left. apply Hpast. exact Hf.
    + destruct pre as [| x pre']; cbn in Hsplit; [discriminate |].
      injection Hsplit as <- Hos1.
      apply (Hnext _ pre' eq_refl eq_refl); [| exact Hos1].
      intros f' Hf'. rewrite Hout in Hf'. destruct Hf' as [<- | []].
      apply in_or_app. right. left. reflexivity.
    + destruct pre as [| x pre']; cbn in Hsplit; [discriminate |].
      injection Hsplit as <- Hos1.
      apply (Hnext _ pre' eq_refl eq_refl); [| exact Hos1].
      intros f' Hf'. rewrite Hout in Hf'. destruct Hf'.
    + destruct pre as [| x pre']; cbn in Hsplit; [discriminate |].
      injection Hsplit as <- Hos1.
      apply (Hnext _ pre' eq_refl eq_refl); [| exact Hos1].
      intros f' Hf'. rewrite Hout in Hf'. destruct Hf'.
    + cbn in Hsplit. exact (IH st os1 st2 past Hpast E1 pre post Hsplit).
Qed.

(** C2 (as amended).  Whenever the producer reaches its check with the
    cancel flag set, it ends without generating or emitting a frame and
    without an error.  Under every interleaving of aborts with the
    producer's steps the producer runs without an error; after an abort
    it generates no frame, and it emits at most one frame, which is the
    frame it had generated before the abort and was holding during its
    delay. *)
Theorem cancelled_producer_emits_only_frame_in_flight (text : string)
    (s : FakeTTS.t) (es : list Producer.Event) :
  (forall l s0, FakeTTS.loopHead true l s0
                = Some (FakeTTS.Completed, FakeTTS.Done, s0)) /\
  exists os st',
    Producer.run es (Producer.init text s) = Some (os, st') /\
    forall pre post,
      os = pre ++ Producer.Tripped :: post ->
      generatedFrames post = [] /\
      (emittedFrames post = [] \/
       exists f, emittedFrames post = [f] /\ In (Producer.Generated f) pre).
Proof.
  split; [apply loopHead_aborted |].
  destruct (run_total es (Producer.init text s)) as (os & st' & E).
  exists os, st'. split; [exact E |].
  intros pre post Hsplit.
  apply (run_split_at_trip es (Producer.init text s) os st' [] ltac:(intros f []) E
           pre post Hsplit).
Qed.

End Cancellation.

(** A reply of six words: 100 frames. *)
Example six_words_100_frames :
  FakeTTS.computeTotalFrames "You said: tell me a joke" = 100%Z /\
  Spec.frameCount 6 = 100%Z.
Proof. split; reflexivity. Qed.

(** C3 (as stated) fails for seven words: [Math.floor] gives 116 frames
    where the ceiling gives 117. *)
Lemma seven_words_116_frames :
  List.length (split " " "a b c d e f g") = 7%nat /\
  (exists chunks s',
     TestAudio.audioChunksOf "a b c d e f g" FakeTTS.new = Some (chunks, s') /\
     Z.of_nat (List.length chunks) = 116%Z) /\
  Spec.frameCount 7 = 117%Z.
Proof.
  split; [reflexivity |]. split; [| reflexivity].
  destruct (audioChunksOf_total "a b c d e f g" FakeTTS.new)
    as (chunks & s' & E & Hlen & _).
  exists chunks, s'. split; [exact E |]. rewrite Hlen. reflexivity.
Qed.

(** C2 (as stated) fails: an abort while the producer waits in its delay
    does not stop the frame it holds from being emitted. *)
Lemma frame_emitted_after_trip :
  exists f st',
    Producer.run [Producer.Step; Producer.Trip; Producer.Step]
      (Producer.init "hi" FakeTTS.new)
    = Some ([Producer.Generated f; Producer.Tripped; Producer.Emitted f], st').
Proof. vm_compute. eexists _, _. reflexivity. Qed.

(** * The session controller *)

Section Controller.
Context {sine : FakeTTS.Sine}.
Import StateMachine.

(** [handleBargeIn] in a speaking session, step by step. *)
Lemma handleBargeIn_effects (w : Session.World) :
  state (Session.stateMachine (Session.self w)) = SPEAKING ->
  exists w',
    Session.handleBargeIn w = Some (tt, w') /\
    Session.trace w'
      = Session.trace w
        ++ [Session.Transitioned SPEAKING INTERRUPTED]
        ++ match Session.ttsAbortController (Session.self w) with
           | Some h => [Session.Aborted h;
                        Session.Allocated (List.length (Session.signals w))]
           | None => []
           end
        ++ [Session.Flushed; Session.TtsReset;
            Session.Transitioned INTERRUPTED LISTENING;
            Session.SttReset; Session.Logged PerformanceLogger.barge_in] /\
    Session.stateMachine (Session.self w')
      = StateMachine.mk LISTENING
          (history (Session.stateMachine (Session.self w))
           ++ [mkTransition SPEAKING INTERRUPTED
                 (Session.clock w (S (Session.ticks w)))
                 (MdTimestamp (Session.clock w (Session.ticks w)));
               mkTransition INTERRUPTED LISTENING
                 (Session.clock w (S (S (Session.ticks w)))) MdNone])
          (listeners (Session.stateMachine (Session.self w))) /\
    Session.signals w'
      = match Session.ttsAbortController (Session.self w) with
        | Some h => Abort.abort h (Session.signals w) ++ [false]
        | None => Session.signals w
        end /\
    Session.stt (Session.self w') = FakeSTT.reset (Session.stt (Session.self w)) /\
    Session.tasks w' = Session.tasks w.
Proof.
  intros Hstate.
  destruct w as [s sg clk tk tr tks].
  destruct s as [sm stt tts lg ctrl ab ipa pc ah].
  destruct sm as [st hist ls].
  cbn [Session.self Session.stateMachine state] in Hstate. subst st.
  destruct ctrl as [h |].
  - lazy -[app List.length Abort.abort Z.sub PerformanceLogger.logEvent].
    eexists. split; [reflexivity |].
    unfold Abort.abort. rewrite length_insert, <- !app_assoc.
    repeat split.
  - lazy -[app List.length Abort.abort Z.sub PerformanceLogger.logEvent].
    eexists. split; [reflexivity |].
    rewrite <- !app_assoc.
    repeat split.
Qed.

(** A voiced frame in a speaking session goes to [handleBargeIn]. *)
Lemma processAudioFrame_barge_in (w : Session.World) (audioFrame : Buf.t) :
  state (Session.stateMachine (Session.self w)) = SPEAKING ->
  hasVoice audioFrame = Some true ->
  Session.processAudioFrame audioFrame w = Session.handleBargeIn w.
Proof.
  intros Hstate Hvoice.
  unfold hasVoice in Hvoice.
  destruct (FakeSTT.calculateRMS audioFrame) as [rms |] eqn:Hrms; [| discriminate].
  cbn [option_map] in Hvoice. injection Hvoice as Hvoice.
  unfold Session.processAudioFrame, Session.bind, Session.get, Session.lift, is_.
  rewrite Hstate, Hrms, Hvoice. reflexivity.
Qed.

(** C1.  A frame whose RMS exceeds the voice threshold, arriving while the
    state is [SPEAKING], is handled by [handleBargeIn] without an error.
    The state machine records exactly the two transitions
    [SPEAKING -> INTERRUPTED] and [INTERRUPTED -> LISTENING] and ends in
    [LISTENING]; the active cancellation handle is aborted (and a new one
    allocated) after the first transition and before the second; and the
    recognizer is reset, its counters back at zero, after the second. *)
Theorem barge_in_sequence (w : Session.World) (audioFrame : Buf.t) :
  state (Session.stateMachine (Session.self w)) = SPEAKING ->
  hasVoice audioFrame = Some true ->
  let t0 := Session.clock w (Session.ticks w) in
  let t1 := Session.clock w (S (Session.ticks w)) in
  let t2 := Session.clock w (S (S (Session.ticks w))) in
  let cancel :=
    match Session.ttsAbortController (Session.self w) with
    | Some h => [Session.Aborted h; Session.Allocated (List.length (Session.signals w))]
    | None => []
    end in
  exists w',
    Session.processAudioFrame audioFrame w = Some (tt, w') /\
    Session.trace w'
      = Session.trace w
        ++ [Session.Transitioned SPEAKING INTERRUPTED] ++ cancel
        ++ [Session.Flushed; Session.TtsReset;
            Session.Transitioned INTERRUPTED LISTENING;
            Session.SttReset; Session.Logged PerformanceLogger.barge_in] /\
    history (Session.stateMachine (Session.self w'))
      = history (Session.stateMachine (Session.self w))
        ++ [mkTransition SPEAKING INTERRUPTED t1 (MdTimestamp t0);
            mkTransition INTERRUPTED LISTENING t2 MdNone] /\
    state (Session.stateMachine (Session.self w')) = LISTENING /\
    Session.signals w'
      = match Session.ttsAbortController (Session.self w) with
        | Some h => Abort.abort h (Session.signals w) ++ [false]
        | None => Session.signals w
        end /\
    Session.stt (Session.self w') = FakeSTT.reset (Session.stt (Session.self w)) /\
    FakeSTT.voiceFrames (Session.stt (Session.self w')) = 0%Z /\
    FakeSTT.silenceFrames (Session.stt (Session.self w')) = 0%Z /\
    Session.tasks w' = Session.tasks w.
Proof.
  intros Hstate Hvoice t0 t1 t2 cancel. subst t0 t1 t2 cancel.
  rewrite (processAudioFrame_barge_in w audioFrame Hstate Hvoice).
  destruct (handleBargeIn_effects w Hstate)
    as (w' & E & Htrace & Hsm & Hsig & Hstt & Htasks).
  exists w'. split; [exact E |]. split; [exact Htrace |].
  rewrite Hsm, Hstt. cbn [history state FakeSTT.reset FakeSTT.voiceFrames
                           FakeSTT.silenceFrames].
  repeat split; assumption.
Qed.

(** C8 (as amended).  [close()] returns; it aborts the active cancellation
    handle if there is one, closes the peer connection if there is one,
    stops audio processing (the flag is cleared, and the audio callback of
    the connection then drops every block), and records a [session_close]
    event.  It leaves the state machine as it was. *)
Theorem close_effects (w : Session.World) :
  let ctrl := Session.ttsAbortController (Session.self w) in
  exists w',
    Session.close w = Some (tt, w') /\
    Session.trace w'
      = Session.trace w
        ++ match ctrl with Some h => [Session.Aborted h] | None => [] end
        ++ (if Session.peerConnection (Session.self w)
            then [Session.PeerClosed] else [])
        ++ [Session.AudioProcessing false;
            Session.Logged PerformanceLogger.session_close] /\
    Session.signals w'
      = match ctrl with
        | Some h => Abort.abort h (Session.signals w)
        | None => Session.signals w
        end /\
    Session.isProcessingAudio (Session.self w') = false /\
    PerformanceLogger.logs (Session.logger (Session.self w'))
      = PerformanceLogger.logs (Session.logger (Session.self w))
        ++ [PerformanceLogger.mkLog PerformanceLogger.session_close
              (Session.clock w (Session.ticks w)) PerformanceLogger.noData] /\
    Session.stateMachine (Session.self w') = Session.stateMachine (Session.self w) /\
    forall pcmBuffer sampleRate channelCount p,
      Server.onAudioData pcmBuffer sampleRate channelCount (Server.mk (Some w') p)
      = Some (Server.mk (Some w') p).
Proof.
  intros ctrl. subst ctrl.
  destruct w as [s sg clk tk tr tks].
  destruct s as [sm stt tts lg ctrl ab ipa pc ah].
  destruct ctrl as [h |], pc;
    eexists;
    (split; [lazy -[app List.length Abort.abort PerformanceLogger.noData];
             reflexivity |]);
    cbn [Session.trace Session.signals Session.self Session.isProcessingAudio
         Session.logger Session.stateMachine Session.ttsAbortController
         Session.peerConnection Session.clock Session.ticks
         PerformanceLogger.logs];
    rewrite <- ?app_assoc; repeat split.
Qed.

Lemma abort_sets_flag (h : nat) (st : Abort.Store) :
  (h < List.length st)%nat -> Abort.aborted h (Abort.abort h st) = true.
Proof.
  intros H. unfold Abort.aborted, Abort.abort.
  rewrite list_lookup_insert_eq by exact H. reflexivity.
Qed.

Lemma abort_idempotent (h : nat) (st : Abort.Store) :
  Abort.abort h (Abort.abort h st) = Abort.abort h st.
Proof. unfold Abort.abort. apply list_insert_insert_eq. Qed.

(** The consumer side of a cancellation: when the timer of a cancelled
    [generateResponse] call fires, the frame held by its generator is still
    sent, after which the call ends and requests no further frame. *)
Lemma timer_of_cancelled_task (w : Session.World) (i : nat) (k : Session.Task)
    (l : FakeTTS.Locals) (f : Buf.t) :
  Session.tasks w !! i = Some k ->
  Session.generator k = FakeTTS.AwaitingDelay l f ->
  Abort.aborted (Session.abortSignal k) (Session.signals w) = true ->
  exists w',
    Session.timerFired i w = Some (tt, w') /\
    Session.tasks w' = delete i (Session.tasks w) /\
    Session.signals w' = Session.signals w /\
    Session.trace w'
      = Session.trace w
        ++ (if Session.firstChunk k
            then [Session.Logged PerformanceLogger.tts_first_chunk] else [])
        ++ [if Session.audioHandler (Session.self w)
            then Session.Sent f else Session.NoHandler].
Proof.
  intros Hk Hg Ha.
  destruct w as [s sg clk tk tr tks].
  destruct s as [sm stt tts lg ctrl ab ipa pc ah].
  destruct k as [g sig t0 fc cc]. cbn in Hg, Ha, Hk. subst g.
  unfold Session.timerFired. cbn [Session.tasks]. rewrite Hk.
  cbn [Session.generator FakeTTS.delayElapsed].
  unfold Session.consumeChunk, Session.bind, Session.logEvent, Session.now,
    Session.sendAudioToBrowser, Session.aborted, Session.get, Session.modify,
    Session.emit, Session.ret, Session.bind.
  destruct fc, ah;
    cbn [Session.self Session.signals Session.clock Session.ticks Session.trace
         Session.tasks Session.firstChunk Session.abortSignal Session.audioHandler
         Session.set_logger negb];
    rewrite Ha; eexists; (split; [reflexivity |]);
    cbn [Session.tasks Session.signals Session.trace Session.self Session.audioHandler];
    rewrite <- ?app_assoc; repeat split.
Qed.

End Controller.

(** * The worlds a session can reach *)

Section Reach.
Context {sine : FakeTTS.Sine}.
Import StateMachine.

Lemma quiet_bind {A B : Type} (m : Session.M A) (f : A -> Session.M B) :
  quiet m -> (forall a, quiet (f a)) -> quiet (Session.bind m f).
Proof.
  intros Hm Hf w b w' H. unfold Session.bind in H.
  destruct (m w) as [[a w1] |] eqn:E; [| discriminate].
  destruct (Hm w a w1 E) as (Hc1 & Hl1 & Hs1).
  destruct (Hf a w1 b w' H) as (Hc2 & Hl2 & Hs2).
  split; [congruence |]. split; [congruence |].
  destruct Hs2 as [Hs2 | Hs2]; [| right; exact Hs2].
  destruct Hs1 as [Hs1 | Hs1]; [left; congruence | right; congruence].
Qed.

Ltac quiet_prim :=
  let w := fresh "w" in let a := fresh "a" in let w' := fresh "w'" in
  let H := fresh "H" in
  intros w a w' H; cbv beta delta [Session.ret Session.get Session.modify
    Session.emit Session.now Session.aborted Session.pushTask Session.abort] in H;
  injection H as <- <-; cbn;
  repeat split; try reflexivity; auto.

Lemma quiet_ret {A : Type} (a : A) : quiet (Session.ret a).
Proof. quiet_prim. Qed.
Lemma quiet_get : quiet Session.get.
Proof. quiet_prim. Qed.
Lemma quiet_emit (e : Session.Effect) : quiet (Session.emit e).
Proof. quiet_prim. Qed.
Lemma quiet_now : quiet Session.now.
Proof. quiet_prim. Qed.
Lemma quiet_aborted (h : nat) : quiet (Session.aborted h).
Proof. quiet_prim. Qed.
Lemma quiet_pushTask (k : Session.Task) : quiet (Session.pushTask k).
Proof. quiet_prim. Qed.
Lemma quiet_abort (h : nat) : quiet (Session.abort h).
Proof.
  intros w a w' H. unfold Session.abort in H. injection H as <- <-. cbn.
  unfold Abort.abort. rewrite length_insert. auto.
Qed.
Lemma quiet_lift {A : Type} (o : option A) : quiet (Session.lift o).
Proof.
  intros w a w' H. unfold Session.lift in H.
  destruct o; [| discriminate]. injection H as <- <-. auto.
Qed.
Lemma quiet_modify (f : Session.t -> Session.t) :
  (forall s, Session.ttsAbortController (f s) = Session.ttsAbortController s) ->
  (forall s, Session.stateMachine (f s) = Session.stateMachine s) ->
  quiet (Session.modify f).
Proof.
  intros Hc Hs w a w' H. unfold Session.modify in H. injection H as <- <-.
  unfold stateOf. cbn. rewrite Hc, Hs. auto.
Qed.

Lemma quiet_logEvent ty d : quiet (Session.logEvent ty d).
Proof.
  unfold Session.logEvent.
  apply quiet_bind; [apply quiet_now | intros n].
  apply quiet_bind; [| intros _; apply quiet_emit].
  apply quiet_modify; reflexivity.
Qed.

Lemma quiet_transition (t : SessionState) (md : Metadata) :
  t <> SPEAKING -> quiet (Session.transition t md).
Proof.
  intros Ht w a w' H. unfold Session.transition, Session.bind, Session.get in H.
  destruct (isValidTransition _ t) eqn:Hv.
  - unfold Session.now, Session.modify, Session.emit, Session.ret in H.
    injection H as <- <-. unfold stateOf. cbn.
    split; [reflexivity |]. split; [reflexivity |].
    unfold StateMachine.transition. rewrite Hv. cbn. right. exact Ht.
  - unfold Session.emit, Session.ret in H. injection H as <- <-.
    unfold stateOf. cbn. auto.
Qed.

Lemma quiet_finishedSpeaking : quiet Session.finishedSpeaking.
Proof.
  unfold Session.finishedSpeaking.
  apply quiet_bind; [apply quiet_logEvent | intros _].
  apply quiet_bind; [apply quiet_transition; discriminate | intros _].
  apply quiet_bind; [apply quiet_modify; reflexivity | intros _].
  apply quiet_emit.
Qed.

Lemma quiet_requestChunk (k : Session.Task) : quiet (Session.requestChunk k).
Proof.
  unfold Session.requestChunk.
  apply quiet_bind; [apply quiet_get | intros s].
  apply quiet_bind; [apply quiet_aborted | intros a].
  destruct (FakeTTS.next a (Session.generator k) (Session.tts s))
    as [[[g' reply] tts'] |]; [| apply quiet_ret].
  apply quiet_bind; [apply quiet_modify; reflexivity | intros _].
  destruct reply; try apply quiet_pushTask. apply quiet_finishedSpeaking.
Qed.

Lemma quiet_sendAudioToBrowser (pcm : Buf.t) : quiet (Session.sendAudioToBrowser pcm).
Proof.
  unfold Session.sendAudioToBrowser.
  apply quiet_bind; [apply quiet_get | intros s].
  destruct (negb (Session.audioHandler s)); apply quiet_emit.
Qed.

Lemma quiet_consumeChunk (k : Session.Task) (pcm : Buf.t) :
  quiet (Session.consumeChunk k pcm).
Proof.
  unfold Session.consumeChunk.
  apply quiet_bind.
  - destruct (Session.firstChunk k); [| apply quiet_ret].
    apply quiet_bind; [apply quiet_now | intros n]. apply quiet_logEvent.
  - intros _. apply quiet_bind; [apply quiet_sendAudioToBrowser | intros _].
    apply quiet_bind; [apply quiet_aborted | intros a].
    destruct a; [apply quiet_ret | apply quiet_requestChunk].
Qed.

Lemma quiet_timerFired (i : nat) : quiet (Session.timerFired i).
Proof.
  intros w a w' H. unfold Session.timerFired in H.
  destruct (Session.tasks w !! i) as [k |].
  - destruct (FakeTTS.delayElapsed (Session.generator k)) as [g' [| pcm |]];
      try (injection H as <- <-; auto).
    apply quiet_consumeChunk in H. exact H.
  - injection H as <- <-. auto.
Qed.

Lemma quiet_start : quiet Session.start.
Proof.
  unfold Session.start, Session.startAudioProcessing.
  apply quiet_bind; [apply quiet_logEvent | intros _].
  apply quiet_bind; [apply quiet_transition; discriminate | intros _].
  apply quiet_bind; [apply quiet_modify; reflexivity | intros _].
  apply quiet_emit.
Qed.

Lemma quiet_close : quiet Session.close.
Proof.
  unfold Session.close.
  apply quiet_bind; [apply quiet_get | intros s].
  apply quiet_bind.
  { destruct (Session.ttsAbortController s); [apply quiet_abort | apply quiet_ret]. }
  intros _. apply quiet_bind.
  { destruct (Session.peerConnection s); [apply quiet_emit | apply quiet_ret]. }
  intros _. apply quiet_bind; [apply quiet_modify; reflexivity | intros _].
  apply quiet_bind; [apply quiet_emit | intros _]. apply quiet_logEvent.
Qed.

Lemma quiet_handleValid {A : Type} (m : Session.M A) (w w' : Session.World) (a : A) :
  quiet m -> m w = Some (a, w') -> handleValid w -> handleValid w'.
Proof.
  intros Hq H [Halloc Hspeak]. destruct (Hq w a w' H) as (Hc & Hl & Hs).
  split.
  - intros h Hh. rewrite Hc in Hh. rewrite Hl. apply Halloc. exact Hh.
  - intros Hst. rewrite Hc. apply Hspeak.
    destruct Hs as [Hs | Hs]; [congruence | contradiction].
Qed.

Lemma bind_inv {A B : Type} (m : Session.M A) (f : A -> Session.M B)
    (w w' : Session.World) (b : B) :
  Session.bind m f w = Some (b, w') ->
  exists a w1, m w = Some (a, w1) /\ f a w1 = Some (b, w').
Proof.
  unfold Session.bind. intros H.
  destruct (m w) as [[a w1] |]; [| discriminate]. exists a, w1. auto.
Qed.

(** Operations that leave the controller and the store size alone. *)
Lemma transition_handles (t : SessionState) (md : Metadata)
    (w w' : Session.World) (a : bool) :
  Session.transition t md w = Some (a, w') ->
  Session.ttsAbortController (Session.self w')
    = Session.ttsAbortController (Session.self w) /\
  Session.signals w' = Session.signals w.
Proof.
  unfold Session.transition, Session.bind, Session.get, Session.now,
    Session.modify, Session.emit, Session.ret.
  destruct (isValidTransition _ t); intros H; injection H as <- <-; auto.
Qed.

(** After [generateResponse] the session has a controller, and it is in the
    store. *)
Lemma generateResponse_handle (userText : option string)
    (w w' : Session.World) (a : unit) :
  Session.generateResponse userText w = Some (a, w') ->
  handleAllocated w' /\
  Session.ttsAbortController (Session.self w') <> None.
Proof.
  unfold Session.generateResponse. intros H.
  apply bind_inv in H as (? & w1 & _ & H).
  apply bind_inv in H as (? & w2 & _ & H).
  apply bind_inv in H as (h & w3 & H3 & H).
  apply bind_inv in H as (? & w4 & H4 & H).
  apply bind_inv in H as (t0 & w5 & H5 & H).
  apply quiet_requestChunk in H as (Hc & Hl & _).
  unfold Session.newAbortController in H3. cbn in H3. injection H3 as <- <-.
  unfold Session.modify in H4. injection H4 as _ <-.
  unfold Session.now in H5. injection H5 as _ <-.
  cbn in Hc, Hl. rewrite length_app in Hl. cbn in Hl.
  split.
  - intros h Hh. rewrite Hc in Hh. injection Hh as <-. lia.
  - rewrite Hc. discriminate.
Qed.

Lemma handleBargeIn_handleValid (w w' : Session.World) (a : unit) :
  Session.handleBargeIn w = Some (a, w') -> handleValid w -> handleValid w'.
Proof.
  unfold Session.handleBargeIn. intros H Hvalid.
  apply bind_inv in H as (t0 & w1 & H1 & H).
  apply bind_inv in H as (? & w2 & H2 & H).
  apply bind_inv in H as (s & w3 & H3 & H).
  apply bind_inv in H as (? & w4 & H4 & H).
  assert (quiet (fun w => Session.bind Session.now
                   (fun bargeInStart =>
                      Session.bind (Session.transition INTERRUPTED (MdTimestamp bargeInStart))
                        (fun _ => Session.get)) w)) as Hq1.
  { apply quiet_bind; [apply quiet_now | intros ?].
    apply quiet_bind; [apply quiet_transition; discriminate | intros ?].
    apply quiet_get. }
  assert (Session.bind Session.now
            (fun bargeInStart =>
               Session.bind (Session.transition INTERRUPTED (MdTimestamp bargeInStart))
                 (fun _ => Session.get)) w = Some (s, w3)) as E13.
  { unfold Session.bind at 1. rewrite H1. unfold Session.bind. rewrite H2. exact H3. }
  pose proof (quiet_handleValid _ _ _ _ Hq1 E13 Hvalid) as Hvalid3.
  assert (s = Session.self w3) as ->
    by (unfold Session.get in H3; injection H3 as <- <-; reflexivity).
  assert (quiet (fun w : Session.World =>
            Session.bind (Session.modify (Session.set_audioBuffer []))
              (fun _ => Session.bind (Session.emit Session.Flushed)
                (fun _ => Session.bind
                   (Session.modify (fun s => Session.set_tts (FakeTTS.reset (Session.tts s)) s))
                   (fun _ => Session.bind (Session.emit Session.TtsReset)
                     (fun _ => Session.bind (Session.transition LISTENING MdNone)
                       (fun _ => Session.bind
                          (Session.modify (fun s => Session.set_stt (FakeSTT.reset (Session.stt s)) s))
                          (fun _ => Session.bind (Session.emit Session.SttReset)
                            (fun _ => Session.bind Session.now
                              (fun n => Session.logEvent PerformanceLogger.barge_in
                                 (PerformanceLogger.latencyData (n - t0)%Z))))))))) w))
    as Hq2.
  { apply quiet_bind; [apply quiet_modify; reflexivity | intros ?].
    apply quiet_bind; [apply quiet_emit | intros ?].
    apply quiet_bind; [apply quiet_modify; reflexivity | intros ?].
    apply quiet_bind; [apply quiet_emit | intros ?].
    apply quiet_bind; [apply quiet_transition; discriminate | intros ?].
    apply quiet_bind; [apply quiet_modify; reflexivity | intros ?].
    apply quiet_bind; [apply quiet_emit | intros ?].
    apply quiet_bind; [apply quiet_now | intros ?].
    apply quiet_logEvent. }
  apply (quiet_handleValid _ _ _ _ Hq2 H). clear H Hq2.
  destruct (Session.ttsAbortController (Session.self w3)) as [h |] eqn:Hctrl.
  - apply bind_inv in H4 as (? & w5 & H5 & H4).
    apply bind_inv in H4 as (h' & w6 & H6 & H4).
    unfold Session.abort in H5. injection H5 as _ <-.
    unfold Session.newAbortController in H6. cbn in H6. injection H6 as <- <-.
    unfold Session.modify in H4. injection H4 as _ <-.
    split.
    + intros h0 Hh0. cbn in Hh0. injection Hh0 as <-. cbn.
      rewrite length_app. cbn. lia.
    + intros _. cbn. discriminate.
  - unfold Session.ret in H4. injection H4 as _ <-. exact Hvalid3.
Qed.

Lemma processAudioFrame_handleValid (audioFrame : Buf.t)
    (w w' : Session.World) (a : unit) :
  Session.processAudioFrame audioFrame w = Some (a, w') ->
  handleValid w -> handleValid w'.
Proof.
  unfold Session.processAudioFrame. intros H Hvalid.
  apply bind_inv in H as (s & w1 & H1 & H).
  unfold Session.get in H1. injection H1 as <- <-.
  destruct (is_ SPEAKING (Session.stateMachine (Session.self w))).
  - apply bind_inv in H as (rms & w1 & H1 & H).
    unfold Session.lift in H1.
    destruct (FakeSTT.calculateRMS audioFrame); [| discriminate].
    injection H1 as <- <-.
    destruct (FakeSTT.exceeds _ _).
    + eapply handleBargeIn_handleValid; eassumption.
    + unfold Session.ret in H. injection H as _ <-. exact Hvalid.
  - destruct (negb (is_ LISTENING (Session.stateMachine (Session.self w)))).
    + unfold Session.ret in H. injection H as _ <-. exact Hvalid.
    + destruct (FakeSTT.processFrame audioFrame _ _) as [[[result |] stt'] |];
        [| | discriminate].
      * set (w1 := Session.mkWorld _ _ _ _ _ _) in H.
        assert (handleValid w1) as Hvalid1 by exact Hvalid.
        destruct (FakeSTT.type result).
        -- eapply quiet_handleValid; [apply quiet_logEvent | exact H | exact Hvalid1].
        -- apply bind_inv in H as (? & w2 & _ & H).
           apply bind_inv in H as (? & w3 & _ & H).
           apply generateResponse_handle in H as [Ha Hc].
           split; [exact Ha | intros _; exact Hc].
      * injection H as _ <-. exact Hvalid.
Qed.

(** In every world a session can reach, a session that speaks has a
    controller, and the controller is in the store. *)
Lemma reachable_handleValid (inputs : list Input) :
  forall w, handleValid w -> handleValid (runInputs inputs w).
Proof.
  induction inputs as [| i inputs IH]; intros w Hvalid; [exact Hvalid |].
  cbn [runInputs fold_left]. apply IH.
  unfold runM. destruct (handle i w) as [[a w'] |] eqn:E; [| exact Hvalid].
  destruct i; cbn [handle] in E.
  - eapply quiet_handleValid; [apply quiet_start | exact E | exact Hvalid].
  - eapply processAudioFrame_handleValid; eassumption.
  - eapply quiet_handleValid; [apply quiet_timerFired | exact E | exact Hvalid].
  - eapply quiet_handleValid; [apply quiet_close | exact E | exact Hvalid].
Qed.

Lemma newWorld_handleValid (pc ah : bool) (clock : nat -> Z) :
  handleValid (Session.newWorld pc ah clock).
Proof. split; [intros h Hh; discriminate | intros Hs; discriminate]. Qed.

(** A barge-in in a world the session has reached: there is an active
    handle, and afterwards its signal is aborted. *)
Lemma barge_in_trips_active_handle (inputs : list Input) (pc ah : bool)
    (clock : nat -> Z) (audioFrame : Buf.t) :
  let w := runInputs inputs (Session.newWorld pc ah clock) in
  stateOf w = SPEAKING ->
  hasVoice audioFrame = Some true ->
  exists h w',
    Session.ttsAbortController (Session.self w) = Some h /\
    Session.processAudioFrame audioFrame w = Some (tt, w') /\
    Abort.aborted h (Session.signals w') = true /\
    stateOf w' = LISTENING.
Proof.
  intros w Hstate Hvoice.
  destruct (reachable_handleValid inputs _ (newWorld_handleValid pc ah clock))
    as [Halloc Hctrl].
  fold w in Halloc, Hctrl.
  destruct (Session.ttsAbortController (Session.self w)) as [h |] eqn:Hh;
    [| exfalso; apply (Hctrl Hstate); reflexivity].
  rewrite (processAudioFrame_barge_in w audioFrame Hstate Hvoice).
  destruct (handleBargeIn_effects w Hstate)
    as (w' & E & _ & Hsm & Hsig & _).
  exists h, w'. split; [reflexivity |]. split; [exact E |].
  rewrite Hh in Hsig. split.
  - rewrite Hsig. unfold Abort.aborted.
    rewrite lookup_app_l
      by (unfold Abort.abort; rewrite length_insert; apply Halloc, Hh).
    apply abort_sets_flag, Halloc, Hh.
  - unfold stateOf. rewrite Hsm. reflexivity.
Qed.

End Reach.


Lemma barge_in_sequence_witness :
  StateMachine.state (Session.stateMachine (Session.self speakingWorld))
    = StateMachine.SPEAKING /\
  hasVoice voicedFrame = Some true /\
  exists w',
    Session.processAudioFrame voicedFrame speakingWorld = Some (tt, w') /\
    StateMachine.state (Session.stateMachine (Session.self w'))
      = StateMachine.LISTENING /\
    FakeSTT.voiceFrames (Session.stt (Session.self w')) = 0%Z.
Proof.
  assert (StateMachine.state (Session.stateMachine (Session.self speakingWorld))
            = StateMachine.SPEAKING) as H1 by (vm_compute; reflexivity).
  assert (hasVoice voicedFrame = Some true) as H2 by (vm_compute; reflexivity).
  split; [exact H1 |]. split; [exact H2 |].
  destruct (barge_in_sequence speakingWorld voicedFrame H1 H2)
    as (w' & E & _ & _ & Hstate & _ & _ & Hvoice & _).
  exists w'. split; [exact E |]. split; [exact Hstate | exact Hvoice].
Defined.

(** C8 (as stated) fails: a session closed while it listens stays in
    [LISTENING]; [close()] does not touch the state machine. *)
Lemma close_leaves_listening :
  exists w1 w2,
    Session.start (Session.newWorld true true (fun _ => 0%Z)) = Some (tt, w1) /\
    Session.close w1 = Some (tt, w2) /\
    StateMachine.state (Session.stateMachine (Session.self w2))
      = StateMachine.LISTENING /\
    StateMachine.state (Session.stateMachine (Session.self w2))
      <> StateMachine.IDLE.
Proof.
  eexists _, _.
  split; [vm_compute; reflexivity |].
  split; [vm_compute; reflexivity |].
  split; [vm_compute; reflexivity |].
  vm_compute. discriminate.
Qed.

(** The session after a barge-in: the timer of the cancelled reply still
    sends the frame that was waiting, and nothing after it. *)
Example frame_sent_after_barge_in :
  let w1 := runM (Session.timerFired 0) speakingWorld in
  let w2 := runM (Session.processAudioFrame voicedFrame) w1 in
  let w3 := runM (Session.timerFired 0) w2 in
  map (fun e => match e with Session.Sent _ => Session.Sent [] | _ => e end)
    (drop 10 (Session.trace w3))
  = [ Session.Logged PerformanceLogger.tts_first_chunk; Session.Sent [];
      Session.Transitioned StateMachine.SPEAKING StateMachine.INTERRUPTED;
      Session.Aborted 0; Session.Allocated 1; Session.Flushed; Session.TtsReset;
      Session.Transitioned StateMachine.INTERRUPTED StateMachine.LISTENING;
      Session.SttReset; Session.Logged PerformanceLogger.barge_in;
      Session.Sent [] ] /\
  Session.tasks w3 = [].
Proof. vm_compute. split; reflexivity. Qed.

(** * The frame normalizer: resampling a mono block *)

Lemma get_comp (b : Buf.t) (x y : Q) : (x == y)%Q -> Buf.get b x = Buf.get b y.
Proof.
  intros E. unfold Buf.get, Buf.is_integer.
  rewrite (Qfloor_comp _ _ E).
  assert (Qeq_bool x (inject_Z (Qfloor y)) = Qeq_bool y (inject_Z (Qfloor y))) as ->.
  { destruct (Qeq_bool y (inject_Z (Qfloor y))) eqn:E1.
    - apply Qeq_bool_iff. apply Qeq_bool_iff in E1. rewrite E. exact E1.
    - apply not_true_is_false. intros E2. apply Qeq_bool_iff in E2.
      rewrite E in E2. apply Qeq_bool_iff in E2. congruence. }
  assert (Qle_bool 0 x = Qle_bool 0 y) as ->; [| reflexivity].
  destruct (Qle_bool 0 y) eqn:E1.
  - apply Qle_bool_iff. apply Qle_bool_iff in E1. rewrite E. exact E1.
  - apply not_true_is_false. intros E2. apply Qle_bool_iff in E2.
    rewrite E in E2. apply Qle_bool_iff in E2. congruence.
Qed.

Lemma readInt16LE_comp (b : Buf.t) (x y : Q) :
  (x == y)%Q -> Buf.readInt16LE b x = Buf.readInt16LE b y.
Proof.
  intros E. unfold Buf.readInt16LE.
  rewrite (get_comp b x y E).
  rewrite (get_comp b (x + 1) (y + 1)) by (rewrite E; reflexivity).
  reflexivity.
Qed.

Lemma sign_extend_range (val : Z) :
  (0 <= val < 65536)%Z ->
  (-32768 <= (if Z.testbit val 15 then val - 65536 else val) <= 32767)%Z.
Proof.
  intros Hval.
  destruct (Z.testbit val 15) eqn:Hbit.
  - apply Z.testbit_true in Hbit; [| lia]. change (2 ^ 15)%Z with 32768%Z in Hbit.
    assert (val / 32768 <> 0)%Z as Hq by (intros Hq; rewrite Hq in Hbit; discriminate).
    assert (32768 <= val)%Z.
    { destruct (Z_lt_le_dec val 32768) as [Hlt | Hge]; [| exact Hge].
      exfalso. apply Hq. apply Z.div_small. lia. }
    lia.
  - assert (val < 32768)%Z.
    { destruct (Z_lt_le_dec val 32768) as [Hlt | Hge]; [exact Hlt |].
      exfalso.
      assert (Z.testbit val 15 = true); [| congruence].
      apply Z.testbit_true; [lia |]. change (2 ^ 15)%Z with 32768%Z.
      assert (val / 32768 = 1)%Z as ->; [| reflexivity].
      symmetry. apply Z.div_unique with (r := (val - 32768)%Z); lia. }
    lia.
Qed.

Lemma readInt16LE_range (b : Buf.t) (z v : Z) :
  Forall isByte b -> (0 <= z)%Z ->
  Buf.readInt16LE b (inject_Z z) = Some v -> (-32768 <= v <= 32767)%Z.
Proof.
  intros Hb Hz. unfold Buf.readInt16LE.
  rewrite get_inject_Z, get_inject_Z_succ by exact Hz.
  destruct (b !! Z.to_nat z) as [first |] eqn:E1; [| discriminate].
  destruct (b !! Z.to_nat (z + 1)) as [last |] eqn:E2; [| discriminate].
  rewrite Forall_forall in Hb.
  assert (isByte first) as [? ?] by (apply Hb; eapply list_elem_of_lookup_2; exact E1).
  assert (isByte last) as [? ?] by (apply Hb; eapply list_elem_of_lookup_2; exact E2).
  pose proof (sign_extend_range (first + last * 2 ^ 8)) as Hrange.
  intros Hv. injection Hv as <-. apply Hrange.
  change (2 ^ 8)%Z with 256%Z. lia.
Qed.

Lemma Qfloor_quotient (a c : Z) :
  (0 < c)%Z -> Qfloor (inject_Z a / inject_Z c) = (a / c)%Z.
Proof.
  intros Hc. destruct c as [| c | c]; try lia.
  assert (inject_Z a / inject_Z (Z.pos c) == a # c)%Q as E.
  { unfold Qeq, Qdiv, Qmult, Qinv, inject_Z. simpl. lia. }
  rewrite (Qfloor_comp _ _ E). reflexivity.
Qed.

Lemma Math_round_between (lo hi : Z) (x : Q) :
  (inject_Z lo <= x)%Q -> (x <= inject_Z hi)%Q ->
  (lo <= Math_round x <= hi)%Z.
Proof.
  intros Hlo Hhi. unfold Math_round.
  pose proof (Qfloor_le (x + (1 # 2))) as H1.
  pose proof (Qlt_floor (x + (1 # 2))) as H2.
  rewrite inject_Z_plus in H2. change (inject_Z 1) with 1%Q in H2.
  split.
  - assert (inject_Z lo < inject_Z (Qfloor (x + (1 # 2))) + 1)%Q as H by lra.
    rewrite <- (inject_Z_plus _ 1) in H. rewrite <- Zlt_Qlt in H. lia.
  - assert (inject_Z (Qfloor (x + (1 # 2))) < inject_Z hi + 1)%Q as H by lra.
    rewrite <- (inject_Z_plus _ 1) in H. rewrite <- Zlt_Qlt in H. lia.
Qed.

(** * Rounding to a double *)

Lemma two_power_pos (k : Z) : (0 < 2 ^ k)%Q.
Proof. apply Qpower_0_lt. reflexivity. Qed.

Lemma two_power_plus (a b : Z) : (2 ^ (a + b) == 2 ^ a * 2 ^ b)%Q.
Proof. apply Qpower_plus. discriminate. Qed.

Lemma two_power_Z (k : Z) : (0 <= k)%Z -> (inject_Z (2 ^ k) == 2 ^ k)%Q.
Proof. intros Hk. apply (Zpower_Qpower 2 k Hk). Qed.

Lemma two_power_opp (k : Z) : (2 ^ k * 2 ^ (- k) == 1)%Q.
Proof.
  rewrite <- two_power_plus. rewrite Z.add_opp_diag_r. reflexivity.
Qed.

(** [2 ^ exponent n d <= n / d]. *)
Lemma exponent_le (n d : Z) :
  (0 < n)%Z -> (0 < d)%Z ->
  (2 ^ Double.exponent n d * inject_Z d <= inject_Z n)%Q.
Proof.
  intros Hn Hd. unfold Double.exponent.
  destruct (Z.log2_spec n Hn) as [Ha _].
  destruct (Z.log2_spec d Hd) as [_ Hb].
  pose proof (Z.log2_nonneg n) as Ha0. pose proof (Z.log2_nonneg d) as Hb0.
  set (a := Z.log2 n) in *. set (b := Z.log2 d) in *.
  assert (2 ^ (a - b - 1) * inject_Z d <= inject_Z n)%Q as Hlow.
  { assert (inject_Z d <= 2 ^ (b + 1))%Q as Hd'.
    { rewrite <- two_power_Z by lia. rewrite <- Zle_Qle. lia. }
    assert (2 ^ a <= inject_Z n)%Q as Hn'.
    { rewrite <- two_power_Z by lia. rewrite <- Zle_Qle. lia. }
    assert (2 ^ a == 2 ^ (a - b - 1) * 2 ^ (b + 1))%Q as E.
    { rewrite <- two_power_plus. f_equiv. lia. }
    pose proof (two_power_pos (a - b - 1)) as Hp.
    rewrite E in Hn'. nra. }
  destruct (0 <=? a - b)%Z eqn:Hk.
  - apply Z.leb_le in Hk.
    destruct (n <? d * 2 ^ (a - b))%Z eqn:Ht; [exact Hlow |].
    apply Z.ltb_ge in Ht.
    rewrite <- two_power_Z by lia. rewrite <- inject_Z_mult, <- Zle_Qle. lia.
  - apply Z.leb_gt in Hk.
    destruct (n * 2 ^ (- (a - b)) <? d)%Z eqn:Ht; [exact Hlow |].
    apply Z.ltb_ge in Ht.
    assert (inject_Z d <= inject_Z n * 2 ^ (- (a - b)))%Q as Ht'.
    { rewrite <- two_power_Z by lia. rewrite <- inject_Z_mult, <- Zle_Qle. lia. }
    pose proof (two_power_opp (a - b)) as E.
    pose proof (two_power_pos (a - b)) as Hp.
    pose proof (two_power_pos (- (a - b))) as Hq.
    assert (2 ^ (a - b) * inject_Z d
            <= 2 ^ (a - b) * (inject_Z n * 2 ^ (- (a - b))))%Q as H
      by (apply Qmult_le_l; assumption).
    assert (2 ^ (a - b) * (inject_Z n * 2 ^ (- (a - b))) == inject_Z n)%Q as E'
      by (rewrite Qmult_comm, <- Qmult_assoc, (Qmult_comm (2 ^ (- (a - b)))), E;
          ring).
    rewrite E' in H. exact H.
Qed.

Lemma nearestEven_ge (n d w : Z) :
  (0 < d)%Z -> (w * d <= n)%Z -> (w <= Double.nearestEven n d)%Z.
Proof.
  intros Hd Hw. unfold Double.nearestEven.
  assert (w <= n / d)%Z by (apply Z.div_le_lower_bound; lia).
  destruct (2 * (n mod d) ?= d)%Z; [destruct (Z.even (n / d)) | |]; lia.
Qed.

Lemma nearestEven_le (n d w : Z) :
  (0 < d)%Z -> (n <= w * d)%Z -> (Double.nearestEven n d <= w)%Z.
Proof.
  intros Hd Hw. unfold Double.nearestEven.
  pose proof (Z.div_mod n d ltac:(lia)) as E.
  pose proof (Z.mod_pos_bound n d Hd) as Hr.
  assert (n / d <= w)%Z as Hf by (apply Z.div_le_upper_bound; lia).
  destruct (Z.eq_dec (n mod d)%Z 0%Z) as [E0 | Hne].
  - rewrite E0. change (2 * 0)%Z with 0%Z.
    destruct (Z.compare_spec 0 d); lia.
  - assert (n / d < w)%Z by nia.
    destruct (2 * (n mod d) ?= d)%Z; [destruct (Z.even (n / d)) | |]; lia.
Qed.

Lemma Q_as_quotient (x : Q) : (x == inject_Z (Qnum x) / inject_Z (Zpos (Qden x)))%Q.
Proof. destruct x as [n d]. unfold Qeq, Qdiv, Qmult, Qinv, inject_Z. simpl. lia. Qed.

Lemma Qle_div_iff (a b c : Q) : (0 < c)%Q -> (a <= b / c <-> a * c <= b)%Q.
Proof.
  intros Hc. split; intros H.
  - assert (b == b / c * c)%Q as -> by (field; lra).
    apply Qmult_le_r; assumption.
  - apply Qle_shift_div_l; assumption.
Qed.

Lemma Qdiv_le_iff (a b c : Q) : (0 < c)%Q -> (b / c <= a <-> b <= a * c)%Q.
Proof.
  intros Hc. split; intros H.
  - assert (b == b / c * c)%Q as -> by (field; lra).
    apply Qmult_le_r; assumption.
  - apply Qle_shift_div_r; assumption.
Qed.

(** [w * 2 ^ k <= x] and [x <= w * 2 ^ k] on numerators and
    denominators. *)
Lemma scaled_le_Z (x : Q) (w k : Z) :
  (inject_Z w * 2 ^ k <= x)%Q <->
  (if (0 <=? k)%Z then (w * (Zpos (Qden x) * 2 ^ k) <= Qnum x)%Z
   else (w * Zpos (Qden x) <= Qnum x * 2 ^ (- k))%Z).
Proof.
  pose proof (two_power_pos k) as Hp.
  assert (0 < inject_Z (Zpos (Qden x)))%Q as Hd by reflexivity.
  rewrite (Q_as_quotient x) at 1.
  set (n := Qnum x). set (d := Zpos (Qden x)) in *.
  rewrite (Qle_div_iff _ _ _ Hd).
  destruct (0 <=? k)%Z eqn:Hk.
  - apply Z.leb_le in Hk.
    rewrite Zle_Qle, !inject_Z_mult, two_power_Z by exact Hk.
    split; intros H; lra.
  - apply Z.leb_gt in Hk.
    rewrite Zle_Qle, !inject_Z_mult, two_power_Z by lia.
    pose proof (two_power_opp k) as E.
    pose proof (two_power_pos (- k)) as Hq.
    split; intros H.
    + assert (inject_Z w * inject_Z d
              == inject_Z w * 2 ^ k * inject_Z d * 2 ^ (- k))%Q as ->.
      { rewrite <- (Qmult_1_r (inject_Z w)) at 1. rewrite <- E. ring. }
      apply Qmult_le_r; assumption.
    + assert (inject_Z w * 2 ^ k * inject_Z d
              == inject_Z w * inject_Z d * 2 ^ k)%Q as -> by ring.
      assert (inject_Z n == inject_Z n * 2 ^ (- k) * 2 ^ k)%Q as ->.
      { rewrite <- Qmult_assoc, (Qmult_comm (2 ^ (- k))), E. ring. }
      apply Qmult_le_r; assumption.
Qed.

Lemma scaled_ge_Z (x : Q) (w k : Z) :
  (x <= inject_Z w * 2 ^ k)%Q <->
  (if (0 <=? k)%Z then (Qnum x <= w * (Zpos (Qden x) * 2 ^ k))%Z
   else (Qnum x * 2 ^ (- k) <= w * Zpos (Qden x))%Z).
Proof.
  pose proof (two_power_pos k) as Hp.
  assert (0 < inject_Z (Zpos (Qden x)))%Q as Hd by reflexivity.
  rewrite (Q_as_quotient x) at 1.
  set (n := Qnum x). set (d := Zpos (Qden x)) in *.
  rewrite (Qdiv_le_iff _ _ _ Hd).
  destruct (0 <=? k)%Z eqn:Hk.
  - apply Z.leb_le in Hk.
    rewrite Zle_Qle, !inject_Z_mult, two_power_Z by exact Hk.
    split; intros H; lra.
  - apply Z.leb_gt in Hk.
    rewrite Zle_Qle, !inject_Z_mult, two_power_Z by lia.
    pose proof (two_power_opp k) as E.
    pose proof (two_power_pos (- k)) as Hq.
    split; intros H.
    + assert (inject_Z w * inject_Z d
              == inject_Z w * 2 ^ k * inject_Z d * 2 ^ (- k))%Q as ->.
      { rewrite <- (Qmult_1_r (inject_Z w)) at 1. rewrite <- E. ring. }
      apply Qmult_le_r; assumption.
    + assert (inject_Z w * 2 ^ k * inject_Z d
              == inject_Z w * inject_Z d * 2 ^ k)%Q as -> by ring.
      assert (inject_Z n == inject_Z n * 2 ^ (- k) * 2 ^ k)%Q as ->.
      { rewrite <- Qmult_assoc, (Qmult_comm (2 ^ (- k))), E. ring. }
      apply Qmult_le_r; assumption.
Qed.

Lemma steps_ge (x : Q) (w k : Z) :
  (inject_Z w * 2 ^ k <= x)%Q -> (w <= Double.steps x k)%Z.
Proof.
  intros H. apply scaled_le_Z in H. unfold Double.steps.
  destruct (0 <=? k)%Z eqn:Hk.
  - apply Z.leb_le in Hk. apply nearestEven_ge; [| exact H].
    pose proof (Z.pow_pos_nonneg 2 k). lia.
  - apply nearestEven_ge; [lia | exact H].
Qed.

Lemma steps_le (x : Q) (w k : Z) :
  (x <= inject_Z w * 2 ^ k)%Q -> (Double.steps x k <= w)%Z.
Proof.
  intros H. apply scaled_ge_Z in H. unfold Double.steps.
  destruct (0 <=? k)%Z eqn:Hk.
  - apply Z.leb_le in Hk. apply nearestEven_le; [| exact H].
    pose proof (Z.pow_pos_nonneg 2 k). lia.
  - apply nearestEven_le; [lia | exact H].
Qed.

Lemma roundPos_eq (x : Q) :
  (Double.roundPos x
   == inject_Z (Double.steps x (Double.spacing x)) * 2 ^ Double.spacing x)%Q.
Proof. unfold Double.roundPos. apply Qred_correct. Qed.

Lemma Qnum_pos (x : Q) : (0 < x)%Q <-> (0 < Qnum x)%Z.
Proof. unfold Qlt. simpl. lia. Qed.

(** Below [2 ^ (53 + j)] the doubles are at most [2 ^ j] apart. *)
Lemma spacing_le (x : Q) (j : Z) :
  (0 < x)%Q -> (x < 2 ^ (53 + j))%Q -> (-1074 <= j)%Z ->
  (Double.spacing x <= j)%Z.
Proof.
  intros H0 Hx Hj. unfold Double.spacing.
  pose proof (exponent_le (Qnum x) (Zpos (Qden x))
                (proj1 (Qnum_pos x) H0) ltac:(lia)) as He.
  set (e := Double.exponent _ _) in *.
  assert (2 ^ e <= x)%Q as He'.
  { rewrite (Q_as_quotient x). apply Qle_div_iff; [reflexivity | exact He]. }
  assert (e < 53 + j)%Z; [| lia].
  apply (Qpower_lt_compat_l_inv 2); [| reflexivity].
  eapply Qle_lt_trans; eassumption.
Qed.

Lemma grid_point (z j k : Z) :
  (k <= j)%Z -> (inject_Z z * 2 ^ j == inject_Z (z * 2 ^ (j - k)) * 2 ^ k)%Q.
Proof.
  intros Hk. rewrite inject_Z_mult, two_power_Z by lia.
  rewrite <- Qmult_assoc, <- two_power_plus. f_equiv. f_equiv. lia.
Qed.

(** A multiple of [2 ^ j] that is a lower bound of [x] is a lower bound of
    the double nearest to [x], and likewise above. *)
Lemma roundPos_ge_grid (x : Q) (z j : Z) :
  (0 < x)%Q -> (x < 2 ^ (53 + j))%Q -> (-1074 <= j)%Z ->
  (inject_Z z * 2 ^ j <= x)%Q -> (inject_Z z * 2 ^ j <= Double.roundPos x)%Q.
Proof.
  intros H0 Hx Hj Hz. pose proof (spacing_le x j H0 Hx Hj) as Hk.
  rewrite roundPos_eq. rewrite (grid_point z j _ Hk) in Hz |- *.
  apply Qmult_le_r; [apply two_power_pos |]. rewrite <- Zle_Qle.
  apply steps_ge. exact Hz.
Qed.

Lemma roundPos_le_grid (x : Q) (z j : Z) :
  (0 < x)%Q -> (x < 2 ^ (53 + j))%Q -> (-1074 <= j)%Z ->
  (x <= inject_Z z * 2 ^ j)%Q -> (Double.roundPos x <= inject_Z z * 2 ^ j)%Q.
Proof.
  intros H0 Hx Hj Hz. pose proof (spacing_le x j H0 Hx Hj) as Hk.
  rewrite roundPos_eq. rewrite (grid_point z j _ Hk) in Hz |- *.
  apply Qmult_le_r; [apply two_power_pos |]. rewrite <- Zle_Qle.
  apply steps_le. exact Hz.
Qed.

Lemma round_cases (x : Q) :
  (x == 0 /\ Double.round x = 0)%Q \/
  (0 < x /\ Double.round x = Double.roundPos (Qred x))%Q \/
  (x < 0 /\ Double.round x = - Double.roundPos (- Qred x))%Q.
Proof.
  unfold Double.round. pose proof (Qred_correct x) as E.
  destruct (Qred x) as [n d] eqn:Er. simpl Qnum.
  destruct n as [| n | n].
  - left. split; [| reflexivity]. rewrite <- E. reflexivity.
  - right. left. split; [| reflexivity]. rewrite <- E. reflexivity.
  - right. right. split; [| reflexivity]. rewrite <- E. reflexivity.
Qed.

Lemma round_ge_grid (x : Q) (z j : Z) :
  (Qabs x < 2 ^ (53 + j))%Q -> (-1074 <= j)%Z ->
  (inject_Z z * 2 ^ j <= x)%Q -> (inject_Z z * 2 ^ j <= Double.round x)%Q.
Proof.
  intros Hx Hj Hz.
  destruct (round_cases x) as [[E ->] | [[H0 ->] | [H0 ->]]].
  - rewrite <- E. exact Hz.
  - apply roundPos_ge_grid; rewrite ?Qred_correct; try assumption.
    rewrite Qabs_pos in Hx by lra. exact Hx.
  - rewrite Qabs_neg in Hx by lra.
    assert (Double.roundPos (- Qred x) <= inject_Z (- z) * 2 ^ j)%Q as H.
    { apply roundPos_le_grid; rewrite ?Qred_correct; try assumption; [lra |].
      rewrite inject_Z_opp. lra. }
    rewrite inject_Z_opp in H. lra.
Qed.

Lemma round_le_grid (x : Q) (z j : Z) :
  (Qabs x < 2 ^ (53 + j))%Q -> (-1074 <= j)%Z ->
  (x <= inject_Z z * 2 ^ j)%Q -> (Double.round x <= inject_Z z * 2 ^ j)%Q.
Proof.
  intros Hx Hj Hz.
  destruct (round_cases x) as [[E ->] | [[H0 ->] | [H0 ->]]].
  - rewrite <- E. exact Hz.
  - apply roundPos_le_grid; rewrite ?Qred_correct; try assumption.
    rewrite Qabs_pos in Hx by lra. exact Hx.
  - rewrite Qabs_neg in Hx by lra.
    assert (inject_Z (- z) * 2 ^ j <= Double.roundPos (- Qred x))%Q as H.
    { apply roundPos_ge_grid; rewrite ?Qred_correct; try assumption; [lra |].
      rewrite inject_Z_opp. lra. }
    rewrite inject_Z_opp in H. lra.
Qed.

(** Rounding depends on the value only. *)
Lemma round_comp (x y : Q) : (x == y)%Q -> Double.round x = Double.round y.
Proof.
  intros E. unfold Double.round. rewrite (Qred_complete x y E). reflexivity.
Qed.

Lemma two_power_53 : (2 ^ 53 == inject_Z 9007199254740992)%Q.
Proof. reflexivity. Qed.

(** Between two integers below [2 ^ 53] in magnitude, rounding stays
    between them. *)
Lemma round_between (lo hi : Z) (x : Q) :
  (-9007199254740992 < lo)%Z -> (hi < 9007199254740992)%Z ->
  (inject_Z lo <= x)%Q -> (x <= inject_Z hi)%Q ->
  (inject_Z lo <= Double.round x /\ Double.round x <= inject_Z hi)%Q.
Proof.
  intros Hlo Hhi H1 H2.
  assert (Qabs x < 2 ^ (53 + 0))%Q as Hx.
  { change (53 + 0)%Z with 53%Z. rewrite two_power_53.
    assert (inject_Z hi < inject_Z 9007199254740992)%Q by (rewrite <- Zlt_Qlt; lia).
    assert (inject_Z (-9007199254740992) < inject_Z lo)%Q by (rewrite <- Zlt_Qlt; lia).
    change (inject_Z (-9007199254740992)) with (- inject_Z 9007199254740992)%Q in *.
    apply Qabs_case; intros; lra. }
  split.
  - rewrite <- (Qmult_1_r (inject_Z lo)). change 1%Q with (2 ^ 0)%Q.
    apply round_ge_grid; [exact Hx | lia |]. change (2 ^ 0)%Q with 1%Q. lra.
  - rewrite <- (Qmult_1_r (inject_Z hi)). change 1%Q with (2 ^ 0)%Q.
    apply round_le_grid; [exact Hx | lia |]. change (2 ^ 0)%Q with 1%Q. lra.
Qed.

(** Integers below [2 ^ 53] in magnitude are doubles. *)
Lemma round_integer (x : Q) (z : Z) :
  (-9007199254740992 < z < 9007199254740992)%Z ->
  (x == inject_Z z)%Q -> (Double.round x == inject_Z z)%Q.
Proof.
  intros Hz E.
  destruct (round_between z z x) as [H1 H2]; try lia; try (rewrite E; lra).
  lra.
Qed.

Lemma Qfloor_between (x : Q) (n : Z) :
  (inject_Z n <= x)%Q -> (x < inject_Z (n + 1))%Q -> Qfloor x = n.
Proof.
  intros H1 H2.
  pose proof (Qfloor_le x) as H3. pose proof (Qlt_floor x) as H4.
  assert (inject_Z n < inject_Z (Qfloor x + 1))%Q as H5 by lra.
  assert (inject_Z (Qfloor x) < inject_Z (n + 1))%Q as H6 by lra.
  rewrite <- Zlt_Qlt in H5, H6. lia.
Qed.

(** The floor of a rounded quotient of integers of realistic size is the
    integer quotient. *)
Lemma Qfloor_round_quotient (a b : Z) (x : Q) :
  (0 <= a <= 4503599627370496)%Z -> (0 < b <= 4503599627370496)%Z ->
  (x == inject_Z a / inject_Z b)%Q ->
  Qfloor (Double.round x) = (a / b)%Z.
Proof.
  intros Ha Hb E.
  assert (0 < inject_Z b)%Q as Hb'
    by (change 0%Q with (inject_Z 0); rewrite <- Zlt_Qlt; lia).
  pose proof (Z.div_mod a b ltac:(lia)) as Hdm.
  pose proof (Z.mod_pos_bound a b ltac:(lia)) as Hr.
  set (n := (a / b)%Z) in *.
  assert (0 <= n)%Z as Hn0 by (apply Z.div_pos; lia).
  assert (n <= a)%Z as Hna by nia.
  assert (inject_Z n <= x)%Q as Hlo.
  { rewrite E. apply Qle_div_iff; [exact Hb' |].
    rewrite <- inject_Z_mult, <- Zle_Qle. lia. }
  assert (x <= inject_Z a)%Q as Hxa.
  { rewrite E. apply Qdiv_le_iff; [exact Hb' |].
    rewrite <- inject_Z_mult, <- Zle_Qle. nia. }
  apply Qfloor_between.
  - apply (round_between n a x); try lia; assumption.
  - (* a double below [n + 1] that is not below [x] *)
    set (p := Z.log2_up b).
    assert (0 <= p <= 52)%Z as Hp.
    { split; [apply Z.log2_up_nonneg |].
      change 52%Z with (Z.log2_up 4503599627370496).
      apply Z.log2_up_le_mono. lia. }
    assert (b <= 2 ^ p < 2 * b)%Z as Hbp.
    { destruct (Z.eq_dec b 1%Z) as [-> | Hb1]; [subst p; change (Z.log2_up 1) with 0%Z; change (2 ^ 0)%Z with 1%Z; lia |].
      pose proof (Z.log2_up_spec b ltac:(lia)) as [H1 H2]. fold p in H1, H2.
      pose proof (Z.log2_up_pos b ltac:(lia)) as H3. fold p in H3.
      split; [exact H2 |].
      assert (2 ^ p = 2 * 2 ^ Z.pred p)%Z as ->; [| lia].
      rewrite <- Z.pow_succ_r by lia. f_equal. lia. }
    pose proof (two_power_opp p) as Epp.
    pose proof (two_power_pos (- p)) as Hpp.
    pose proof (two_power_Z p ltac:(lia)) as EpZ.
    set (z := ((n + 1) * 2 ^ p - 1)%Z).
    assert (inject_Z z * 2 ^ (- p) == inject_Z (n + 1) - 2 ^ (- p))%Q as Ez.
    { subst z. unfold Z.sub. rewrite inject_Z_plus, inject_Z_mult, EpZ.
      change (inject_Z (- (1))) with (- (1))%Q.
      assert (inject_Z (n + 1) * 2 ^ p * 2 ^ (- p) == inject_Z (n + 1))%Q as H
        by (rewrite <- Qmult_assoc, Epp; ring).
      rewrite Qmult_plus_distr_l, H. ring. }
    assert (Double.round x <= inject_Z z * 2 ^ (- p))%Q as H.
    { apply round_le_grid; [| lia |].
      - (* the size of x *)
        rewrite Qabs_pos
          by (assert (0 <= inject_Z n)%Q
                by (change 0%Q with (inject_Z 0); rewrite <- Zle_Qle; lia); lra).
        rewrite two_power_plus, two_power_53, E.
        apply Qlt_shift_div_r; [exact Hb' |].
        assert (inject_Z a * 2 ^ p < inject_Z 9007199254740992 * inject_Z b)%Q as H.
        { rewrite <- EpZ, <- !inject_Z_mult, <- Zlt_Qlt. nia. }
        assert (inject_Z a == inject_Z a * 2 ^ p * 2 ^ (- p))%Q as ->
          by (rewrite <- Qmult_assoc, Epp; ring).
        assert (inject_Z 9007199254740992 * 2 ^ (- p) * inject_Z b
                == inject_Z 9007199254740992 * inject_Z b * 2 ^ (- p))%Q as ->
          by ring.
        apply Qmult_lt_r; assumption.
      - rewrite Ez.
        (* x <= n + 1 - 1 / b <= n + 1 - 2 ^ (- p) *)
        assert (x <= inject_Z (n + 1) - / inject_Z b)%Q as Hx1.
        { rewrite E.
          apply Qdiv_le_iff; [exact Hb' |].
          assert ((inject_Z (n + 1) - / inject_Z b) * inject_Z b
                  == inject_Z ((n + 1) * b - 1))%Q as ->.
          { unfold Z.sub. rewrite (inject_Z_plus ((n + 1) * b)), inject_Z_mult.
            change (inject_Z (- (1))) with (- (1))%Q. field. lra. }
          rewrite <- Zle_Qle. lia. }
        assert (2 ^ (- p) <= / inject_Z b)%Q as Hx2.
        { apply (Qmult_le_r _ _ (inject_Z b)); [exact Hb' |].
          assert (/ inject_Z b * inject_Z b == 1)%Q as -> by (field; lra).
          rewrite <- Epp. rewrite (Qmult_comm (2 ^ p)).
          apply Qmult_le_l; [exact Hpp |].
          rewrite <- EpZ, <- Zle_Qle. lia. }
        lra. }
    rewrite Ez in H. lra.
Qed.

(** Numbers of that size are finite doubles. *)
Lemma isFinite_small (x : Q) :
  (Qabs x <= inject_Z 9007199254740992)%Q -> Double.isFinite x = true.
Proof.
  intros H. unfold Double.isFinite.
  destruct (Qle_bool (inject_Z (2 ^ 1024)) (Qabs x)) eqn:E; [| reflexivity].
  apply Qle_bool_iff in E.
  assert (inject_Z 9007199254740992 < inject_Z (2 ^ 1024))%Q as Hlt
    by (rewrite <- Zlt_Qlt; reflexivity).
  lra.
Qed.

Lemma isFinite_integer (x : Q) (z : Z) :
  (- 2 ^ 53 <= z <= 2 ^ 53)%Z -> (x == inject_Z z)%Q -> Double.isFinite x = true.
Proof.
  intros Hz E. apply isFinite_small. rewrite E.
  change (2 ^ 53)%Z with 9007199254740992%Z in Hz.
  apply Qabs_Qle_condition. change (- inject_Z 9007199254740992)%Q
    with (inject_Z (- 9007199254740992)).
  rewrite <- !Zle_Qle. lia.
Qed.

Lemma interpolated_range (s1 s2 : Z) (fraction : Q) :
  (-32768 <= s1 <= 32767)%Z -> (-32768 <= s2 <= 32767)%Z ->
  (0 <= fraction)%Q -> (fraction <= 1)%Q ->
  (-32768
   <= Math_round
        (Double.round
           (inject_Z s1 + Double.round (inject_Z (s2 - s1) * fraction)))
   <= 32767)%Z.
Proof.
  intros H1 H2 Hf0 Hf1.
  set (D := (s2 - s1)%Z).
  (* the rounded product lies between 0 and the difference *)
  destruct (round_between (Z.min 0 D) (Z.max 0 D) (inject_Z D * fraction))
    as [Hp1 Hp2]; [lia | lia | |  |].
  { destruct (Z.min_spec 0 D) as [[Hlt ->] | [Hge ->]].
    - assert (0 <= inject_Z D)%Q
        by (change 0%Q with (inject_Z 0); rewrite <- Zle_Qle; lia).
      change (inject_Z 0) with 0%Q. nra.
    - assert (inject_Z D <= 0)%Q
        by (change 0%Q with (inject_Z 0); rewrite <- Zle_Qle; lia).
      nra. }
  { destruct (Z.max_spec 0 D) as [[Hlt ->] | [Hge ->]].
    - assert (0 <= inject_Z D)%Q
        by (change 0%Q with (inject_Z 0); rewrite <- Zle_Qle; lia).
      nra.
    - assert (inject_Z D <= 0)%Q
        by (change 0%Q with (inject_Z 0); rewrite <- Zle_Qle; lia).
      change (inject_Z 0) with 0%Q. nra. }
  set (p := Double.round (inject_Z D * fraction)) in *.
  destruct (round_between (Z.min s1 s2) (Z.max s1 s2) (inject_Z s1 + p))
    as [Hq1 Hq2]; [lia | lia | |  |].
  { assert (inject_Z (Z.min s1 s2) == inject_Z s1 + inject_Z (Z.min 0 D))%Q as ->.
    { rewrite <- inject_Z_plus. f_equiv. lia. }
    lra. }
  { assert (inject_Z (Z.max s1 s2) == inject_Z s1 + inject_Z (Z.max 0 D))%Q as ->.
    { rewrite <- inject_Z_plus. f_equiv. lia. }
    lra. }
  pose proof (Math_round_between _ _ _ Hq1 Hq2). lia.
Qed.

Lemma Qmin_inject_Z (x y : Q) (a b : Z) :
  (x == inject_Z a)%Q -> (y == inject_Z b)%Q ->
  (Qmin x y == inject_Z (Z.min a b))%Q.
Proof.
  intros Hx Hy.
  destruct (Q.min_spec x y) as [[Hlt ->] | [Hle ->]].
  - rewrite Hx, Hy in Hlt. rewrite <- Zlt_Qlt in Hlt.
    rewrite Hx, Z.min_l by lia. reflexivity.
  - rewrite Hx, Hy in Hle. rewrite <- Zle_Qle in Hle.
    rewrite Hy, Z.min_r by lia. reflexivity.
Qed.

Lemma readInt16LE_sample (input : Buf.t) (n k : Z) (offset : Q) :
  Forall isByte input -> Buf.length input = (2 * n)%Z ->
  (0 <= k < n)%Z -> (offset == inject_Z (2 * k))%Q ->
  exists v, Buf.readInt16LE input offset = Some v /\ (-32768 <= v <= 32767)%Z.
Proof.
  intros Hb Hlen Hk Ho.
  rewrite (readInt16LE_comp input _ _ Ho).
  destruct (readInt16LE_in_range input (2 * k)) as [v Hv]; [lia | lia |].
  exists v. split; [exact Hv |].
  apply (readInt16LE_range input (2 * k) v Hb); [lia | exact Hv].
Qed.

(** The index of the source sample: for a block and rates of realistic
    size the doubles give the integer quotient. *)
Lemma srcIndex_floor (i inputRate : Z) :
  (0 <= i * inputRate <= 2 ^ 52)%Z ->
  let product := Double.round (inject_Z i * inject_Z inputRate) in
  Double.isFinite product = true /\
  Qfloor (Double.round (product / inject_Z 16000)) = (i * inputRate / 16000)%Z /\
  (0 <= Double.round (product / inject_Z 16000)
        - inject_Z (i * inputRate / 16000))%Q /\
  (Double.round (product / inject_Z 16000)
     - inject_Z (i * inputRate / 16000) < 1)%Q.
Proof.
  intros Hsize product.
  change (2 ^ 52)%Z with 4503599627370496%Z in Hsize.
  assert (product == inject_Z (i * inputRate))%Q as Ep.
  { apply round_integer; [lia |]. rewrite inject_Z_mult. reflexivity. }
  assert (Qfloor (Double.round (product / inject_Z 16000))
          = (i * inputRate / 16000)%Z) as Hf.
  { apply Qfloor_round_quotient; [lia | lia |]. rewrite Ep. reflexivity. }
  split.
  { apply (isFinite_integer _ (i * inputRate)); [| exact Ep].
    change (2 ^ 53)%Z with 9007199254740992%Z. lia. }
  split; [exact Hf |].
  pose proof (Qfloor_le (Double.round (product / inject_Z 16000))) as H1.
  pose proof (Qlt_floor (Double.round (product / inject_Z 16000))) as H2.
  rewrite Hf in H1, H2. rewrite inject_Z_plus in H2.
  change (inject_Z 1) with 1%Q in H2. split; lra.
Qed.

Lemma resampleLoop_total (input : Buf.t) (n inputRate : Z) (k : nat) :
  Forall isByte input -> Buf.length input = (2 * n)%Z -> (0 < inputRate)%Z ->
  (n * 16000 <= 2 ^ 52)%Z ->
  forall (i : Z) (output : Buf.t),
    (0 <= i)%Z ->
    (i + Z.of_nat k <= n * 16000 / inputRate)%Z ->
    Buf.length output = (2 * (n * 16000 / inputRate))%Z ->
    exists output',
      AudioProcessor.resampleLoop input (inject_Z (Buf.length input) / 2)
        inputRate 16000 k i output = Some output' /\
      List.length output' = List.length output.
Proof.
  intros Hb Hlen Hrate Hsize.
  induction k as [| k IH]; intros i output Hi Hk Hout.
  - exists output. split; reflexivity.
  - cbn [AudioProcessor.resampleLoop].
    assert (i < n * 16000 / inputRate)%Z as Hi' by lia.
    assert ((i + 1) * inputRate <= n * 16000)%Z as Hin.
    { assert (inputRate * (n * 16000 / inputRate) <= n * 16000)%Z
        by (apply Z.mul_div_le; lia).
      nia. }
    destruct (srcIndex_floor i inputRate) as (Hfin & Hf & Hfr0 & Hfr1); [nia |].
    set (product := Double.round (inject_Z i * inject_Z inputRate)) in *.
    rewrite Hfin. change (16000 =? 0)%Z with false. cbn [negb orb].
    set (srcIndex := Double.round (product / inject_Z 16000)) in *.
    rewrite Hf. set (f := (i * inputRate / 16000)%Z) in *.
    assert (0 <= f < n)%Z as Hfn.
    { subst f. split; [apply Z.div_pos; nia |].
      apply Z.div_lt_upper_bound; [lia |]. nia. }
    assert (inject_Z (Buf.length input) / 2 - 1 == inject_Z (n - 1))%Q as Hn1.
    { rewrite Hlen. unfold Z.sub. rewrite inject_Z_plus, inject_Z_mult.
      change (inject_Z 2) with 2%Q. change (inject_Z (- (1))) with (- (1))%Q. field. }
    destruct (readInt16LE_sample input n f (inject_Z f * 2)) as (s1 & E1 & R1);
      [assumption | assumption | lia | |].
    { rewrite inject_Z_mult. change (inject_Z 2) with 2%Q. ring. }
    rewrite E1. cbn [bindo].
    destruct (readInt16LE_sample input n (Z.min (f + 1) (n - 1))
                (Qmin (inject_Z (f + 1)) (inject_Z (Buf.length input) / 2 - 1) * 2))
      as (s2 & E2 & R2); [assumption | assumption | lia | |].
    { rewrite (Qmin_inject_Z _ _ (f + 1) (n - 1)) by (reflexivity || exact Hn1).
      rewrite inject_Z_mult. change (inject_Z 2) with 2%Q. ring. }
    rewrite E2. cbn [bindo].
    destruct (round_between 0 1 (srcIndex - inject_Z f)) as [Hr0 Hr1];
      [lia | lia | exact Hfr0 | change (inject_Z 1) with 1%Q; lra |].
    change (inject_Z 0) with 0%Q in Hr0. change (inject_Z 1) with 1%Q in Hr1.
    pose proof (interpolated_range s1 s2 _ R1 R2 Hr0 Hr1) as Hrange.
    destruct (writeInt16LE_in_range _ (i * 2) output Hrange) as (o1 & Ew & Lw);
      [lia | lia |].
    rewrite Ew. cbn [bindo].
    destruct (IH (i + 1)%Z o1) as (o2 & E & L); [lia | lia | |].
    { unfold Buf.length in *. lia. }
    exists o2. split; [exact E | congruence].
Qed.

Lemma simpleResample_mono_total (input : Buf.t) (n inputRate : Z) :
  Forall isByte input -> Buf.length input = (2 * n)%Z ->
  (0 < inputRate <= 2 ^ 52)%Z -> (n * 16000 <= 2 ^ 52)%Z ->
  exists output,
    AudioProcessor.simpleResample input inputRate 16000 = Some output /\
    Buf.length output = (2 * (n * 16000 / inputRate))%Z.
Proof.
  intros Hb Hlen Hrate Hsize. unfold AudioProcessor.simpleResample.
  destruct (inputRate =? 0)%Z eqn:E0; [apply Z.eqb_eq in E0; lia |].
  assert (0 <= n)%Z as Hn by (unfold Buf.length in Hlen; lia).
  change (2 ^ 52)%Z with 4503599627370496%Z in Hrate, Hsize.
  set (product := Double.round (inject_Z (Buf.length input) / 2 * inject_Z 16000)).
  assert (product == inject_Z (n * 16000))%Q as Ep.
  { apply round_integer; [lia |].
    rewrite Hlen, !inject_Z_mult. change (inject_Z 2) with 2%Q. field. }
  rewrite (isFinite_integer _ (n * 16000))
    by (change (2 ^ 53)%Z with 9007199254740992%Z; lia || exact Ep).
  cbn [negb].
  assert (Qfloor (Double.round (product / inject_Z inputRate))
          = (n * 16000 / inputRate)%Z) as Hout.
  { apply Qfloor_round_quotient; [lia | lia |]. rewrite Ep. reflexivity. }
  rewrite Hout.
  set (m := (n * 16000 / inputRate)%Z).
  assert (0 <= m)%Z as Hm by (subst m; apply Z.div_pos; lia).
  assert (Buf.alloc (inject_Z m * 2) = Some (repeat 0%Z (Z.to_nat (2 * m)))) as ->.
  { unfold Buf.alloc.
    assert (inject_Z m * 2 == inject_Z (2 * m))%Q as E
      by (rewrite inject_Z_mult; change (inject_Z 2) with 2%Q; ring).
    rewrite (Qfloor_comp _ _ E), Qfloor_Z.
    assert (Qle_bool 0 (inject_Z m * 2) = true) as ->; [| reflexivity].
    apply Qle_bool_iff. rewrite E. change 0%Q with (inject_Z 0).
    rewrite <- Zle_Qle. lia. }
  cbn [bindo].
  destruct (resampleLoop_total input n inputRate (Z.to_nat m) Hb Hlen
              ltac:(lia) ltac:(change (2 ^ 52)%Z with 4503599627370496%Z; lia) 0
              (repeat 0%Z (Z.to_nat (2 * m)))) as (output & E & L).
  - lia.
  - fold m. lia.
  - fold m. unfold Buf.length. rewrite repeat_length. lia.
  - exists output. split; [exact E |].
    unfold Buf.length. rewrite L, repeat_length. lia.
Qed.

Lemma convert_mono_total (audioData : Buf.t) (rate ch : Z) :
  Forall isByte audioData -> Nat.Even (List.length audioData) ->
  (0 < rate <= 2 ^ 52)%Z -> (Buf.length audioData * 8000 <= 2 ^ 52)%Z ->
  (ch <= 1)%Z ->
  exists converted,
    AudioProcessor.convert audioData rate ch = Some converted /\
    Buf.length converted
      = (if (rate =? 16000)%Z then Buf.length audioData
         else 2 * (Buf.length audioData / 2 * 16000 / rate))%Z.
Proof.
  intros Hb [n Hn] Hrate Hsize Hch. unfold AudioProcessor.convert.
  assert ((1 <? ch)%Z = false) as -> by (apply Z.ltb_ge; lia).
  change AudioProcessor.targetSampleRate with 16000%Z.
  destruct (rate =? 16000)%Z eqn:E; cbn [negb bindo].
  - exists audioData. split; reflexivity.
  - assert (Buf.length audioData = 2 * Z.of_nat n)%Z as Hlen
      by (unfold Buf.length; lia).
    destruct (simpleResample_mono_total audioData (Z.of_nat n) rate Hb Hlen Hrate)
      as (output & Eo & Lo); [lia |].
    rewrite Eo. cbn [bindo]. exists output. split; [reflexivity |].
    rewrite Lo, Hlen. f_equal. f_equal. f_equal.
    rewrite Z.mul_comm, Z.div_mul by lia. reflexivity.
Qed.

(** X30.  A mono block at any rate.  For every block of bytes of even
    length and of realistic size (up to [2 ^ 52 / 8000] bytes), at every
    positive source rate up to [2 ^ 52] and with one channel, the push
    returns: the resampler, computing in doubles, never reads outside the
    block.  The push emits exactly [floor((residual + resampled) / 640)]
    frames of 640 bytes, where [resampled] is the byte length after
    resampling, [2 * floor(samples * 16000 / rate)], and keeps the
    remainder, which is shorter than a frame. *)
Theorem push_mono_even_block (audioData : Buf.t) (rate ch : Z)
    (p : AudioProcessor.t) :
  Forall isByte audioData -> Nat.Even (List.length audioData) ->
  (0 < rate <= 2 ^ 52)%Z -> (Buf.length audioData * 8000 <= 2 ^ 52)%Z ->
  (ch <= 1)%Z ->
  let resampled :=
    (if (rate =? 16000)%Z then Buf.length audioData
     else 2 * (Buf.length audioData / 2 * 16000 / rate))%Z in
  exists frames rest,
    AudioProcessor.processAudioData audioData rate ch p
      = Some (frames, AudioProcessor.mk rest) /\
    framed frames rest /\
    Z.of_nat (List.length frames)
      = Spec.framesEmitted (Buf.length (AudioProcessor.buffer p)) resampled /\
    Buf.length rest
      = ((Buf.length (AudioProcessor.buffer p) + resampled) mod 640)%Z.
Proof.
  intros Hb Heven Hrate Hsize Hch resampled.
  destruct (convert_mono_total audioData rate ch Hb Heven Hrate Hsize Hch)
    as (converted & E & L).
  destruct (processAudioData_frames audioData converted rate ch p E)
    as (frames & rest & Ep & F & _ & Hn & Hr).
  exists frames, rest. subst resampled. rewrite <- L.
  repeat split; try assumption; apply F.
Qed.

Lemma push_mono_even_block_witness :
  Forall isByte (ramp 1764) /\ Nat.Even (List.length (ramp 1764)) /\
  (0 < 44100 <= 2 ^ 52)%Z /\ (Buf.length (ramp 1764) * 8000 <= 2 ^ 52)%Z /\
  (1 <= 1)%Z /\
  exists frames rest,
    AudioProcessor.processAudioData (ramp 1764) 44100 1 AudioProcessor.new
      = Some (frames, AudioProcessor.mk rest) /\
    framed frames rest /\
    Z.of_nat (List.length frames) = 1%Z /\
    Buf.length rest = 0%Z.
Proof.
  assert (Forall isByte (ramp 1764)) as Hb.
  { apply Forall_forall. intros x Hx. apply list_elem_of_In in Hx.
    unfold ramp in Hx. apply in_map_iff in Hx as (i & <- & _).
    unfold isByte. pose proof (Nat.mod_upper_bound i 256). lia. }
  assert (Nat.Even (List.length (ramp 1764))) as He by (exists 882%nat; reflexivity).
  assert (0 < 44100 <= 2 ^ 52)%Z as Hrate by (split; [lia | discriminate]).
  assert (Buf.length (ramp 1764) * 8000 <= 2 ^ 52)%Z as Hsize by discriminate.
  split; [exact Hb |]. split; [exact He |]. split; [exact Hrate |].
  split; [exact Hsize |]. split; [lia |].
  destruct (push_mono_even_block (ramp 1764) 44100 1 AudioProcessor.new
              Hb He Hrate Hsize ltac:(lia))
    as (frames & rest & E & Hfr & Hn & Hr).
  exists frames, rest. split; [exact E |]. split; [exact Hfr |].
  split; [exact Hn | exact Hr].
Defined.

(** A near-tie at 44.1 kHz.  Output sample 1 lies between the input
    samples 2 and 3, here 0 and -80, at the fraction 0.75625, which no
    double represents: in doubles the value is just below -60.5 and
    [Math.round] gives -61, where exact arithmetic has the tie -60.5 and
    would give -60. *)
Example simpleResample_44100_near_tie :
  AudioProcessor.simpleResample
    [0; 0; 0; 0; 0; 0; 176; 255; 0; 0; 0; 0]%Z 44100 16000
  = Some [0; 0; 195; 255]%Z /\
  Math_round (0 + inject_Z (-80 - 0) * (75625 # 100000)) = (-60)%Z.
Proof. split; vm_compute; reflexivity. Qed.

(** * Samples in a buffer: signed 16-bit little-endian *)

(** What [writeInt16LE] stores, [readInt16LE] reads back: the two bytes are
    the 16-bit two's complement of the value, low byte first. *)
Lemma readInt16LE_writeInt16LE (value offset : Z) (b b' : Buf.t) :
  Buf.writeInt16LE value offset b = Some b' ->
  Buf.readInt16LE b' (inject_Z offset) = Some value /\
  b' !! Z.to_nat offset = Some (value mod 256)%Z /\
  b' !! Z.to_nat (offset + 1) = Some (value / 256 mod 256)%Z.
Proof.
  unfold Buf.writeInt16LE.
  destruct ((-32768 <=? value) && (value <=? 32767) && (0 <=? offset)
            && (offset + 1 <? Buf.length b))%Z eqn:Hc; [| discriminate].
  apply andb_prop in Hc as [Hc Hlen]. apply andb_prop in Hc as [Hc Hoff].
  apply andb_prop in Hc as [Hlo Hhi].
  apply Z.leb_le in Hlo, Hhi, Hoff. apply Z.ltb_lt in Hlen.
  unfold Buf.length in Hlen.
  intros H. injection H as <-.
  change 255%Z with (Z.ones 8).
  rewrite !Z.land_ones, Z.shiftr_div_pow2 by lia.
  change (2 ^ 8)%Z with 256%Z.
  assert (<[Z.to_nat (offset + 1):=(value / 256 mod 256)%Z]>
            (<[Z.to_nat offset:=(value mod 256)%Z]> b) !! Z.to_nat offset
          = Some (value mod 256)%Z) as E1.
  { rewrite list_lookup_insert_ne by lia.
    apply list_lookup_insert_eq. lia. }
  assert (<[Z.to_nat (offset + 1):=(value / 256 mod 256)%Z]>
            (<[Z.to_nat offset:=(value mod 256)%Z]> b) !! Z.to_nat (offset + 1)
          = Some (value / 256 mod 256)%Z) as E2.
  { apply list_lookup_insert_eq. rewrite length_insert. lia. }
  split; [| split; assumption].
  unfold Buf.readInt16LE.
  rewrite get_inject_Z, get_inject_Z_succ by exact Hoff.
  rewrite E1, E2. f_equal.
  change (2 ^ 8)%Z with 256%Z.
  set (val := (value mod 256 + value / 256 mod 256 * 256)%Z).
  assert (val = value mod 65536)%Z as Hval.
  { subst val. change 65536%Z with (256 * 256)%Z.
    rewrite Z.rem_mul_r by lia. lia. }
  destruct (Z_lt_le_dec value 0) as [Hneg | Hpos].
  - assert (val = value + 65536)%Z as Hv.
    { rewrite Hval. symmetry. apply Z.mod_unique with (q := (-1)%Z); lia. }
    assert (Z.testbit val 15 = true) as ->; [| lia].
    apply Z.testbit_true; [lia |]. change (2 ^ 15)%Z with 32768%Z.
    assert (val / 32768 = 1)%Z as ->; [| reflexivity].
    symmetry. apply Z.div_unique with (r := (val - 32768)%Z); lia.
  - assert (val = value) as Hv.
    { rewrite Hval. apply Z.mod_small. lia. }
    assert (Z.testbit val 15 = false) as ->; [| lia].
    apply Z.testbit_false; [lia |]. change (2 ^ 15)%Z with 32768%Z.
    rewrite Z.div_small by lia. reflexivity.
Qed.

Lemma readInt16LE_writeInt16LE_other (value offset k : Z) (b b' : Buf.t) :
  Buf.writeInt16LE value offset b = Some b' ->
  (0 <= k)%Z -> (k + 2 <= offset \/ offset + 2 <= k)%Z ->
  Buf.readInt16LE b' (inject_Z k) = Buf.readInt16LE b (inject_Z k).
Proof.
  unfold Buf.writeInt16LE.
  destruct ((-32768 <=? value) && (value <=? 32767) && (0 <=? offset)
            && (offset + 1 <? Buf.length b))%Z eqn:Hc; [| discriminate].
  apply andb_prop in Hc as [Hc _]. apply andb_prop in Hc as [_ Hoff].
  apply Z.leb_le in Hoff.
  intros H Hk Hfar. injection H as <-.
  unfold Buf.readInt16LE.
  rewrite !get_inject_Z, !get_inject_Z_succ by exact Hk.
  rewrite !list_lookup_insert_ne by lia. reflexivity.
Qed.

Section Samples.
Context {sine : FakeTTS.Sine}.

Lemma frameLoop_samples (frequency : Z) (n : nat) :
  forall (i : Z) (buffer : Buf.t) (s : FakeTTS.t) (b' : Buf.t) (s' : FakeTTS.t),
    (0 <= i)%Z ->
    FakeTTS.frameLoop frequency n i buffer s = Some (b', s') ->
    (forall j : nat,
       (j < n)%nat ->
       Buf.readInt16LE b' (inject_Z ((i + Z.of_nat j) * 2))
       = Some (FakeTTS.intSample
                 (Nat.iter j (FakeTTS.advance frequency) (FakeTTS.phase s)))) /\
    (forall k : Z,
       (0 <= k < i)%Z ->
       Buf.readInt16LE b' (inject_Z (k * 2))
       = Buf.readInt16LE buffer (inject_Z (k * 2))) /\
    FakeTTS.phase s' = Nat.iter n (FakeTTS.advance frequency) (FakeTTS.phase s).
Proof.
  induction n as [| n IH]; intros i buffer s b' s' Hi H.
  - cbn in H. injection H as <- <-.
    split; [intros j Hj; lia |]. split; [intros; reflexivity | reflexivity].
  - cbn [FakeTTS.frameLoop] in H.
    destruct (Buf.writeInt16LE (FakeTTS.intSample (FakeTTS.phase s)) (i * 2) buffer)
      as [b1 |] eqn:Ew; [| discriminate].
    cbn [bindo] in H.
    destruct (IH (i + 1)%Z b1 _ b' s' ltac:(lia) H) as (Hnew & Hold & Hphase).
    cbn [FakeTTS.phase] in Hnew, Hphase.
    split; [| split].
    + intros [| j] Hj.
      * rewrite Z.add_0_r, (Hold i) by lia.
        apply (readInt16LE_writeInt16LE _ _ _ _ Ew).
      * rewrite Nat.iter_succ_r.
        replace ((i + Z.of_nat (S j)) * 2)%Z with ((i + 1 + Z.of_nat j) * 2)%Z by lia.
        apply Hnew. lia.
    + intros k Hk. rewrite (Hold k) by lia.
      apply (readInt16LE_writeInt16LE_other _ _ _ _ _ Ew); lia.
    + rewrite Nat.iter_succ_r. exact Hphase.
Qed.

(** A generated frame is 320 samples of signed 16-bit little-endian PCM:
    sample [j] is the one the phase gives after [j] advances. *)
Lemma generateFrame_samples (frequency : Z) (s : FakeTTS.t)
    (pcmFrame : Buf.t) (s' : FakeTTS.t) (j : nat) :
  FakeTTS.generateFrame frequency s = Some (pcmFrame, s') ->
  (j < 320)%nat ->
  Buf.readInt16LE pcmFrame (inject_Z (Z.of_nat j * 2))
  = Some (FakeTTS.intSample
            (Nat.iter j (FakeTTS.advance frequency) (FakeTTS.phase s))).
Proof.
  unfold FakeTTS.generateFrame.
  change (Buf.alloc (inject_Z (FakeTTS.frameSize * 2)))
    with (Some (repeat 0%Z 640)).
  cbn [bindo]. intros H Hj.
  destruct (frameLoop_samples frequency _ 0 _ s pcmFrame s' ltac:(lia) H)
    as (Hnew & _ & _).
  apply (Hnew j). exact Hj.
Qed.

End Samples.

(** * The recognizer between utterances *)

(** After a [Final] the recognizer is in a reset state, so the [reset()] of
    a later barge-in does not change it. *)
Lemma reset_after_final (hasVoice : bool) (now : Z) (s s' : FakeSTT.t)
    (r : FakeSTT.Result) :
  FakeSTT.processVoice hasVoice now s = Some (Some r, s') ->
  FakeSTT.type r = FakeSTT.final ->
  FakeSTT.reset s' = s'.
Proof.
  unfold FakeSTT.processVoice. intros H Hfinal.
  destruct hasVoice.
  - destruct (_ && negb _).
    + destruct (FakeSTT.getNextResponse _); [| discriminate].
      cbn [bindo] in H. injection H as <- <-. discriminate.
    + destruct (_ && _).
      * destruct (FakeSTT.getNextResponse _); [| discriminate].
        cbn [bindo] in H. injection H as <- <-. discriminate.
      * discriminate.
  - destruct (FakeSTT.isProcessing s); [| discriminate].
    destruct (_ <=? _)%Z; [| discriminate].
    injection H as <- <-. reflexivity.
Qed.

(** * The state machine under arbitrary calls *)

Lemma path_app (h1 : list StateMachine.Transition) :
  forall (s s1 : StateMachine.SessionState) (h2 : list StateMachine.Transition),
    path s h1 = Some s1 -> path s (h1 ++ h2) = path s1 h2.
Proof.
  induction h1 as [| tr h1 IH]; intros s s1 h2 H; cbn [path app] in *.
  - injection H as <-. reflexivity.
  - destruct (_ && _); [| discriminate]. apply IH. exact H.
Qed.

Lemma state_eqb_refl (s : StateMachine.SessionState) :
  StateMachine.state_eqb s s = true.
Proof. destruct s; reflexivity. Qed.

Lemma transition_path (newState : StateMachine.SessionState)
    (md : StateMachine.Metadata) (now : Z) (m : StateMachine.t) :
  exists h,
    StateMachine.history
      (StateMachine.machine (StateMachine.transition newState md now m))
    = StateMachine.history m ++ h /\
    path (StateMachine.state m) h
    = Some (StateMachine.state
              (StateMachine.machine (StateMachine.transition newState md now m))).
Proof.
  unfold StateMachine.transition.
  destruct (StateMachine.isValidTransition _ _) eqn:Hv; cbn.
  - eexists. split; [reflexivity |]. cbn. rewrite state_eqb_refl, Hv. reflexivity.
  - exists []. rewrite app_nil_r. split; reflexivity.
Qed.

Lemma call_path (c : Call) (m : StateMachine.t) :
  exists h,
    StateMachine.history (call c m) = StateMachine.history m ++ h /\
    path (StateMachine.state m) h = Some (StateMachine.state (call c m)).
Proof.
  destruct c; cbn [call].
  - apply transition_path.
  - apply transition_path.
  - exists []. rewrite app_nil_r. split; reflexivity.
  - exists []. rewrite app_nil_r. split; reflexivity.
Qed.

Lemma calls_path (cs : list Call) :
  forall m : StateMachine.t,
    exists h,
      StateMachine.history (calls cs m) = StateMachine.history m ++ h /\
      path (StateMachine.state m) h = Some (StateMachine.state (calls cs m)).
Proof.
  induction cs as [| c cs IH]; intros m; cbn [calls fold_left].
  - exists []. rewrite app_nil_r. split; reflexivity.
  - destruct (call_path c m) as (h1 & Hh1 & Hp1).
    destruct (IH (call c m)) as (h2 & Hh2 & Hp2).
    exists (h1 ++ h2). unfold calls in *. rewrite Hh2, Hh1, <- app_assoc.
    split; [reflexivity |]. rewrite (path_app _ _ _ _ Hp1). exact Hp2.
Qed.

(** X1.  Whatever calls are made on a fresh state machine ([transition]
    with any target, [reset], subscribing and unsubscribing), its history
    is a chain: it starts in [IDLE], every entry starts where the one
    before ended and is a pair of the transition table, and the last entry
    ends in the current state.  Rejected calls leave no entry. *)
Theorem history_is_a_valid_path (cs : list Call) :
  path StateMachine.IDLE (StateMachine.getHistory (calls cs StateMachine.new))
  = Some (StateMachine.getState (calls cs StateMachine.new)).
Proof.
  destruct (calls_path cs StateMachine.new) as (h & Hh & Hp).
  unfold StateMachine.getHistory, StateMachine.getState.
  rewrite Hh. exact Hp.
Qed.

(** X2.  [reset()] always leaves the machine in [IDLE].  In [IDLE] the
    call is rejected by the table and changes nothing (no history entry, no
    listener called); in every other state it records one transition to
    [IDLE] with the reason "reset" and calls every listener once, in the
    order of subscription. *)
Theorem reset_ends_in_IDLE (now : Z) (m : StateMachine.t) :
  StateMachine.state (StateMachine.reset now m) = StateMachine.IDLE /\
  StateMachine.transition StateMachine.IDLE (StateMachine.MdReason "reset") now m
  = if StateMachine.is_ StateMachine.IDLE m
    then StateMachine.mkOutcome false [] m
    else
      let tr := StateMachine.mkTransition (StateMachine.state m)
                  StateMachine.IDLE now (StateMachine.MdReason "reset") in
      StateMachine.mkOutcome true
        (map (fun l => (l, tr)) (StateMachine.listeners m))
        (StateMachine.mk StateMachine.IDLE (StateMachine.history m ++ [tr])
           (StateMachine.listeners m)).
Proof.
  destruct m as [st hist ls].
  unfold StateMachine.reset, StateMachine.transition, StateMachine.is_.
  destruct st; split; reflexivity.
Qed.

Lemma notified_eq (newState : StateMachine.SessionState)
    (md : StateMachine.Metadata) (now : Z) (m : StateMachine.t) :
  map fst (StateMachine.notified (StateMachine.transition newState md now m))
  = if StateMachine.isValidTransition (StateMachine.state m) newState
    then StateMachine.listeners m else [].
Proof.
  unfold StateMachine.transition.
  destruct (StateMachine.isValidTransition _ _); cbn; [| reflexivity].
  rewrite map_map. cbn. apply map_id.
Qed.

(** X3.  Subscriptions.  A transition calls the listeners in the order in
    which they subscribed, a listener that subscribed twice being called
    twice.  After the function returned by [onStateChange(l)] has run, no
    later transition calls [l], not even for an earlier or a second
    subscription of [l], and the other listeners are called as before. *)
Theorem unsubscribed_listener_is_not_called (l : nat)
    (newState : StateMachine.SessionState) (md : StateMachine.Metadata)
    (now : Z) (m : StateMachine.t) :
  let called m' :=
    map fst (StateMachine.notified (StateMachine.transition newState md now m')) in
  ~ In l (called (StateMachine.unsubscribe l m)) /\
  called (StateMachine.unsubscribe l m)
    = List.filter (fun x => negb (Nat.eqb x l)) (called m) /\
  called (StateMachine.onStateChange l m)
    = called m ++ (if StateMachine.isValidTransition (StateMachine.state m) newState
                   then [l] else []).
Proof.
  cbv beta zeta. rewrite !notified_eq. cbn [StateMachine.unsubscribe
    StateMachine.onStateChange StateMachine.state StateMachine.listeners].
  destruct (StateMachine.isValidTransition _ _).
  - split; [| split; reflexivity].
    intros Hin. apply List.filter_In in Hin as [_ Hin].
    rewrite Nat.eqb_refl in Hin. discriminate.
  - split; [intros [] | split; [reflexivity | rewrite app_nil_r; reflexivity]].
Qed.

(** * The frame normalizer over several pushes *)

Lemma framed_app (fs gs : list Buf.t) (r1 r2 : Buf.t) :
  framed fs r1 -> framed gs r2 -> framed (fs ++ gs) r2.
Proof.
  intros [Hf _] [Hg Hr]. split; [| exact Hr].
  apply Forall_app. split; assumption.
Qed.

Lemma pushAll_converted (blocks : list Buf.t) (rate ch : Z) :
  forall (p : AudioProcessor.t) (frames : list Buf.t) (p' : AudioProcessor.t),
    (List.length (AudioProcessor.buffer p) < 640)%nat ->
    pushAll blocks rate ch p = Some (frames, p') ->
    exists cs,
      Forall2 (fun b c => AudioProcessor.convert b rate ch = Some c) blocks cs /\
      List.concat frames ++ AudioProcessor.buffer p'
        = AudioProcessor.buffer p ++ List.concat cs /\
      framed frames (AudioProcessor.buffer p').
Proof.
  induction blocks as [| b bs IH]; intros p frames p' Hp H; cbn [pushAll] in H.
  - injection H as <- <-. exists []. split; [constructor |].
    cbn. rewrite app_nil_r. split; [reflexivity |].
    split; [constructor | exact Hp].
  - destruct (AudioProcessor.processAudioData b rate ch p) as [[fs p1] |] eqn:E1;
      [| discriminate].
    cbn [bindo] in H.
    destruct (pushAll bs rate ch p1) as [[gs p2] |] eqn:E2; [| discriminate].
    cbn [bindo] in H. injection H as <- <-.
    destruct (AudioProcessor.convert b rate ch) as [c |] eqn:Ec;
      [| unfold AudioProcessor.processAudioData in E1; rewrite Ec in E1;
         discriminate].
    destruct (processAudioData_frames b c rate ch p Ec)
      as (fs' & rest & E1' & Hfr & Hcat & _).
    rewrite E1 in E1'. injection E1' as -> ->.
    destruct (IH (AudioProcessor.mk rest) gs p2 (proj2 Hfr) E2)
      as (cs & Hcs & Hcat2 & Hfr2).
    exists (c :: cs). split; [constructor; assumption |].
    split; [| eapply framed_app; eassumption].
    cbn [List.concat AudioProcessor.buffer] in *.
    rewrite concat_app, <- app_assoc, Hcat2, !app_assoc, Hcat. reflexivity.
Qed.

(** X4.  Over any sequence of pushes into one processor that all return,
    at any sample rate and channel count, no converted byte is lost,
    repeated or reordered: the frames emitted so far followed by the
    residual are the old residual followed by the converted blocks.  Every
    frame has 640 bytes and the residual stays below 640 bytes. *)
Theorem pushes_preserve_the_converted_stream (blocks : list Buf.t)
    (rate ch : Z) (p : AudioProcessor.t) (frames : list Buf.t)
    (p' : AudioProcessor.t) :
  (List.length (AudioProcessor.buffer p) < 640)%nat ->
  pushAll blocks rate ch p = Some (frames, p') ->
  exists cs,
    Forall2 (fun b c => AudioProcessor.convert b rate ch = Some c) blocks cs /\
    List.concat frames ++ AudioProcessor.buffer p'
      = AudioProcessor.buffer p ++ List.concat cs /\
    Forall (fun f => List.length f = 640%nat) frames /\
    (List.length (AudioProcessor.buffer p') < 640)%nat.
Proof.
  intros Hp H.
  destruct (pushAll_converted blocks rate ch p frames p' Hp H)
    as (cs & Hcs & Hcat & Hf & Hr).
  exists cs. auto.
Qed.

Lemma pushes_preserve_the_converted_stream_witness :
  (List.length (AudioProcessor.buffer AudioProcessor.new) < 640)%nat /\
  pushAll [ramp 6; ramp 12] 48000 1 AudioProcessor.new
    = Some ([], AudioProcessor.mk [0; 1; 0; 1; 6; 7]%Z) /\
  exists cs,
    Forall2 (fun b c => AudioProcessor.convert b 48000 1 = Some c)
      [ramp 6; ramp 12] cs /\
    List.concat (@nil Buf.t) ++ [0; 1; 0; 1; 6; 7]%Z
      = AudioProcessor.buffer AudioProcessor.new ++ List.concat cs /\
    Forall (fun f : Buf.t => List.length f = 640%nat) [] /\
    (List.length [0; 1; 0; 1; 6; 7]%Z < 640)%nat.
Proof.
  assert (List.length (AudioProcessor.buffer AudioProcessor.new) < 640)%nat
    as Hp by (cbn; lia).
  assert (pushAll [ramp 6; ramp 12] 48000 1 AudioProcessor.new
          = Some ([], AudioProcessor.mk [0; 1; 0; 1; 6; 7]%Z)) as H
    by (vm_compute; reflexivity).
  split; [exact Hp |]. split; [exact H |].
  exact (pushes_preserve_the_converted_stream _ _ _ _ _ _ Hp H).
Defined.

Lemma pushAll_16k_mono (blocks : list Buf.t) (ch : Z) :
  (ch <= 1)%Z ->
  forall p : AudioProcessor.t,
    (List.length (AudioProcessor.buffer p) < 640)%nat ->
    exists frames rest,
      pushAll blocks 16000 ch p = Some (frames, AudioProcessor.mk rest) /\
      framed frames rest /\
      List.concat frames ++ rest = AudioProcessor.buffer p ++ List.concat blocks.
Proof.
  intros Hch. induction blocks as [| b bs IH]; intros p Hp; cbn [pushAll].
  - exists [], (AudioProcessor.buffer p). destruct p as [buf]. cbn.
    rewrite app_nil_r. split; [reflexivity |]. split; [| reflexivity].
    split; [constructor | exact Hp].
  - destruct (processAudioData_frames b b 16000 ch p (convert_16k_mono b ch Hch))
      as (fs & r1 & E1 & Hfr & Hcat & _).
    rewrite E1. cbn [bindo].
    destruct (IH (AudioProcessor.mk r1) (proj2 Hfr)) as (gs & r2 & E2 & Hfr2 & Hcat2).
    rewrite E2. cbn [bindo]. exists (fs ++ gs), r2.
    split; [reflexivity |]. split; [eapply framed_app; eassumption |].
    cbn [List.concat AudioProcessor.buffer] in *.
    rewrite concat_app, <- app_assoc, Hcat2, !app_assoc, Hcat. reflexivity.
Qed.

(** X5.  At 16 kHz mono a sequence of pushes always returns, and the
    frames do not depend on how the bytes were cut into blocks: pushing the
    blocks one by one emits the same frames, and leaves the same residual,
    as pushing their concatenation in one call. *)
Theorem block_boundaries_do_not_matter_16k_mono (blocks : list Buf.t) (ch : Z)
    (p : AudioProcessor.t) :
  (ch <= 1)%Z ->
  (List.length (AudioProcessor.buffer p) < 640)%nat ->
  exists frames rest,
    pushAll blocks 16000 ch p = Some (frames, AudioProcessor.mk rest) /\
    AudioProcessor.processAudioData (List.concat blocks) 16000 ch p
      = Some (frames, AudioProcessor.mk rest) /\
    List.concat frames ++ rest = AudioProcessor.buffer p ++ List.concat blocks.
Proof.
  intros Hch Hp.
  destruct (pushAll_16k_mono blocks ch Hch p Hp) as (frames & rest & E & Hfr & Hcat).
  exists frames, rest. split; [exact E |]. split; [| exact Hcat].
  destruct (processAudioData_frames (List.concat blocks) (List.concat blocks)
              16000 ch p (convert_16k_mono _ ch Hch))
    as (fs & r & E1 & Hfr1 & Hcat1 & _).
  rewrite E1.
  destruct (framed_unique fs frames r rest Hfr1 Hfr) as [-> ->];
    [congruence | reflexivity].
Qed.

Lemma block_boundaries_do_not_matter_16k_mono_witness :
  (1 <= 1)%Z /\
  (List.length (AudioProcessor.buffer AudioProcessor.new) < 640)%nat /\
  exists frames rest,
    pushAll [ramp 300; ramp 1; ramp 400] 16000 1 AudioProcessor.new
      = Some (frames, AudioProcessor.mk rest) /\
    AudioProcessor.processAudioData (List.concat [ramp 300; ramp 1; ramp 400])
      16000 1 AudioProcessor.new
      = Some (frames, AudioProcessor.mk rest) /\
    List.concat frames ++ rest
      = AudioProcessor.buffer AudioProcessor.new
        ++ List.concat [ramp 300; ramp 1; ramp 400].
Proof.
  split; [lia |]. split; [cbn; lia |].
  apply (block_boundaries_do_not_matter_16k_mono
           [ramp 300; ramp 1; ramp 400] 1 AudioProcessor.new); [lia | cbn; lia].
Defined.

Lemma extractFrames_short (fuel : nat) (buffer : Buf.t) :
  (List.length buffer < 640)%nat ->
  AudioProcessor.extractFrames fuel buffer = ([], buffer).
Proof.
  intros H. destruct fuel; [reflexivity |]. cbn [AudioProcessor.extractFrames].
  rewrite bytesPerFrame_640. unfold Buf.length.
  destruct (640 <=? Z.of_nat (List.length buffer))%Z eqn:E; [| reflexivity].
  apply Z.leb_le in E. lia.
Qed.

(** X6.  After [clearBuffer()] the residual is gone: the next push behaves
    as on a new processor, and it emits no frame as long as the block
    converts to fewer than 640 bytes, which then form the residual. *)
Theorem no_frame_after_clearBuffer_before_640_bytes (audioData converted : Buf.t)
    (rate ch : Z) (p : AudioProcessor.t) :
  AudioProcessor.convert audioData rate ch = Some converted ->
  (List.length converted < 640)%nat ->
  AudioProcessor.processAudioData audioData rate ch (AudioProcessor.clearBuffer p)
  = Some ([], AudioProcessor.mk converted).
Proof.
  intros Hc Hlen. unfold AudioProcessor.processAudioData. rewrite Hc.
  cbn [bindo AudioProcessor.clearBuffer AudioProcessor.buffer Buf.concat app].
  rewrite extractFrames_short by exact Hlen. reflexivity.
Qed.

Lemma no_frame_after_clearBuffer_before_640_bytes_witness :
  AudioProcessor.convert (ramp 12) 48000 1 = Some [0; 1; 6; 7]%Z /\
  (List.length [0; 1; 6; 7]%Z < 640)%nat /\
  AudioProcessor.processAudioData (ramp 12) 48000 1
    (AudioProcessor.clearBuffer (AudioProcessor.mk (ramp 639)))
  = Some ([], AudioProcessor.mk [0; 1; 6; 7]%Z).
Proof.
  assert (AudioProcessor.convert (ramp 12) 48000 1 = Some [0; 1; 6; 7]%Z) as Hc
    by (vm_compute; reflexivity).
  assert (List.length [0; 1; 6; 7]%Z < 640)%nat as Hl by (cbn; lia).
  split; [exact Hc |]. split; [exact Hl |].
  exact (no_frame_after_clearBuffer_before_640_bytes _ _ _ _ _ Hc Hl).
Defined.

(** * Resampling by a whole ratio *)

Lemma Math_round_inject_Z (x : Q) (z : Z) :
  (x == inject_Z z)%Q -> Math_round x = z.
Proof.
  intros E.
  assert (z <= Math_round x <= z)%Z; [| lia].
  apply Math_round_between; rewrite E; apply Qle_refl.
Qed.

(** The two bytes under a sample that was read. *)
Lemma readInt16LE_bytes (b : Buf.t) (z v : Z) :
  Forall isByte b -> (0 <= z)%Z ->
  Buf.readInt16LE b (inject_Z z) = Some v ->
  b !! Z.to_nat z = Some (v mod 256)%Z /\
  b !! Z.to_nat (z + 1) = Some (v / 256 mod 256)%Z.
Proof.
  intros Hb Hz. unfold Buf.readInt16LE.
  rewrite get_inject_Z, get_inject_Z_succ by exact Hz.
  destruct (b !! Z.to_nat z) as [first |] eqn:E1; [| discriminate].
  destruct (b !! Z.to_nat (z + 1)) as [last |] eqn:E2; [| discriminate].
  rewrite Forall_forall in Hb.
  assert (isByte first) as [? ?] by (apply Hb; eapply list_elem_of_lookup_2; exact E1).
  assert (isByte last) as [? ?] by (apply Hb; eapply list_elem_of_lookup_2; exact E2).
  change (2 ^ 8)%Z with 256%Z.
  set (w := (if Z.testbit (first + last * 256) 15
             then first + last * 256 - 65536 else first + last * 256)%Z).
  intros Hv. assert (v = w) as -> by congruence. clear Hv.
  assert (w = first + last * 256 \/ w = first + last * 256 - 65536)%Z as Hw
    by (subst w; destruct (Z.testbit _ 15); auto).
  clearbody w.
  destruct Hw as [-> | ->].
  - rewrite Z.mod_add, Z.div_add by lia.
    rewrite (Z.mod_small first), (Z.div_small first) by lia.
    rewrite Z.add_0_l, Z.mod_small by lia. auto.
  - replace (first + last * 256 - 65536)%Z with (first + (last - 256) * 256)%Z by lia.
    rewrite Z.mod_add, Z.div_add by lia.
    rewrite (Z.mod_small first), (Z.div_small first) by lia.
    rewrite Z.add_0_l.
    replace (last - 256)%Z with (last + (-1) * 256)%Z by lia.
    rewrite Z.mod_add, Z.mod_small by lia. auto.
Qed.

Lemma writeInt16LE_lookup_other (value offset : Z) (b b' : Buf.t) (q : nat) :
  Buf.writeInt16LE value offset b = Some b' ->
  q <> Z.to_nat offset -> q <> Z.to_nat (offset + 1) ->
  b' !! q = b !! q.
Proof.
  unfold Buf.writeInt16LE. intros H H1 H2.
  destruct (_ && _); [| discriminate]. injection H as <-.
  rewrite !list_lookup_insert_ne by congruence. reflexivity.
Qed.

Lemma writeInt16LE_isByte (value offset : Z) (b b' : Buf.t) :
  Buf.writeInt16LE value offset b = Some b' ->
  Forall isByte b -> Forall isByte b'.
Proof.
  unfold Buf.writeInt16LE. intros H Hb.
  destruct (_ && _); [| discriminate]. injection H as <-.
  assert (forall x, isByte (Z.land x 255)) as Hland.
  { intros x. change 255%Z with (Z.ones 8). rewrite Z.land_ones by lia.
    unfold isByte. change (2 ^ 8)%Z with 256%Z.
    pose proof (Z.mod_pos_bound x 256). lia. }
  apply Forall_insert; [apply Forall_insert; [exact Hb |] |]; apply Hland.
Qed.

Lemma round_zero (x : Q) : (x == 0)%Q -> Double.round x = 0%Q.
Proof. intros E. rewrite (round_comp x 0 E). reflexivity. Qed.

Lemma resampleLoop_whole_ratio (input : Buf.t) (n k outputRate : Z) (cnt : nat) :
  Forall isByte input -> Buf.length input = (2 * n)%Z ->
  (1 <= k)%Z -> (0 < outputRate)%Z -> (n * outputRate <= 2 ^ 52)%Z ->
  forall (i : Z) (output : Buf.t),
    (0 <= i)%Z ->
    (i + Z.of_nat cnt <= n / k)%Z ->
    Buf.length output = (2 * (n / k))%Z ->
    exists output',
      AudioProcessor.resampleLoop input (inject_Z (Buf.length input) / 2)
        (k * outputRate) outputRate cnt i output = Some output' /\
      List.length output' = List.length output /\
      (forall j : Z,
         (i <= j < i + Z.of_nat cnt)%Z ->
         output' !! Z.to_nat (2 * j) = input !! Z.to_nat (2 * (k * j)) /\
         output' !! Z.to_nat (2 * j + 1) = input !! Z.to_nat (2 * (k * j) + 1)) /\
      (forall q : nat,
         (Z.of_nat q < 2 * i \/ 2 * (i + Z.of_nat cnt) <= Z.of_nat q)%Z ->
         output' !! q = output !! q).
Proof.
  intros Hb Hlen Hk Hrate Hsize.
  change (2 ^ 52)%Z with 4503599627370496%Z in Hsize.
  induction cnt as [| cnt IH]; intros i output Hi Hcnt Hout.
  - exists output. split; [reflexivity |]. split; [reflexivity |].
    split; [intros j Hj; lia | intros q _; reflexivity].
  - cbn [AudioProcessor.resampleLoop].
    assert (k * (n / k) <= n)%Z as Hkm by (apply Z.mul_div_le; lia).
    assert (0 <= i * k < n)%Z as Hik by nia.
    assert (i * k * outputRate <= n * outputRate)%Z as Hio by nia.
    set (product := Double.round (inject_Z i * inject_Z (k * outputRate))).
    assert (product == inject_Z (i * k * outputRate))%Q as Ep.
    { apply round_integer; [nia |]. rewrite !inject_Z_mult. ring. }
    rewrite (isFinite_integer _ (i * k * outputRate))
      by (change (2 ^ 53)%Z with 9007199254740992%Z; nia || exact Ep).
    assert ((outputRate =? 0)%Z = false) as -> by (apply Z.eqb_neq; lia).
    cbn [negb orb].
    set (srcIndex := Double.round (product / inject_Z outputRate)).
    assert (srcIndex == inject_Z (i * k))%Q as Hsrc.
    { apply round_integer; [nia |]. rewrite Ep, !inject_Z_mult. field.
      intros H0. unfold Qeq, inject_Z in H0. simpl in H0. lia. }
    set (f := Qfloor srcIndex).
    assert (f = (i * k)%Z) as Hf.
    { subst f. rewrite (Qfloor_comp _ _ Hsrc). apply Qfloor_Z. }
    assert (0 <= f < n)%Z as Hfn by lia.
    assert (inject_Z (Buf.length input) / 2 - 1 == inject_Z (n - 1))%Q as Hn1.
    { rewrite Hlen. unfold Z.sub. rewrite inject_Z_plus, inject_Z_mult.
      change (inject_Z 2) with 2%Q. change (inject_Z (- (1))) with (- (1))%Q. field. }
    assert (inject_Z f * 2 == inject_Z (2 * f))%Q as Hoff
      by (rewrite inject_Z_mult; change (inject_Z 2) with 2%Q; ring).
    destruct (readInt16LE_sample input n f (inject_Z f * 2)) as (s1 & E1 & R1);
      [assumption | assumption | lia | exact Hoff |].
    rewrite E1. cbn [bindo].
    destruct (readInt16LE_sample input n (Z.min (f + 1) (n - 1))
                (Qmin (inject_Z (f + 1)) (inject_Z (Buf.length input) / 2 - 1) * 2))
      as (s2 & E2 & R2); [assumption | assumption | lia | |].
    { rewrite (Qmin_inject_Z _ _ (f + 1) (n - 1)) by (reflexivity || exact Hn1).
      rewrite inject_Z_mult. change (inject_Z 2) with 2%Q. ring. }
    rewrite E2. cbn [bindo].
    (* the fraction is 0: nothing is interpolated *)
    rewrite (round_zero (srcIndex - inject_Z f)) by (rewrite Hsrc, Hf; ring).
    rewrite (round_zero (inject_Z (s2 - s1) * 0)) by ring.
    assert (Math_round (Double.round (inject_Z s1 + 0)) = s1) as ->.
    { apply Math_round_inject_Z. apply round_integer; [lia | ring]. }
    destruct (writeInt16LE_in_range s1 (i * 2) output R1) as (o1 & Ew & Lw);
      [lia | lia |].
    rewrite Ew. cbn [bindo].
    destruct (IH (i + 1)%Z o1) as (o2 & E & L & Hnew & Hold); [lia | lia | |].
    { unfold Buf.length in *. lia. }
    exists o2. split; [exact E |]. split; [congruence |].
    rewrite (readInt16LE_comp _ _ _ Hoff) in E1.
    destruct (readInt16LE_bytes input (2 * f) s1 Hb ltac:(lia) E1) as [B0 B1].
    destruct (readInt16LE_writeInt16LE _ _ _ _ Ew) as (_ & W0 & W1).
    split.
    + intros j Hj.
      destruct (Z.eq_dec j i) as [-> | Hne].
      * rewrite !Hold by lia.
        replace (2 * i)%Z with (i * 2)%Z by lia.
        rewrite W0, W1.
        replace (2 * (k * i))%Z with (2 * f)%Z by lia.
        rewrite B0, B1. auto.
      * apply Hnew. lia.
    + intros q Hq. rewrite Hold by lia.
      apply (writeInt16LE_lookup_other _ _ _ _ _ Ew); lia.
Qed.

Lemma simpleResample_whole_ratio (input : Buf.t) (n k outputRate : Z) :
  Forall isByte input -> Buf.length input = (2 * n)%Z ->
  (1 <= k)%Z -> (0 < outputRate)%Z ->
  (n * outputRate <= 2 ^ 52)%Z -> (k * outputRate <= 2 ^ 52)%Z ->
  exists output,
    AudioProcessor.simpleResample input (k * outputRate) outputRate = Some output /\
    Buf.length output = (2 * (n / k))%Z /\
    forall j : Z,
      (0 <= j < n / k)%Z ->
      output !! Z.to_nat (2 * j) = input !! Z.to_nat (2 * (k * j)) /\
      output !! Z.to_nat (2 * j + 1) = input !! Z.to_nat (2 * (k * j) + 1).
Proof.
  intros Hb Hlen Hk Hrate Hsize Hsize'. unfold AudioProcessor.simpleResample.
  destruct (k * outputRate =? 0)%Z eqn:E0; [apply Z.eqb_eq in E0; nia |].
  assert (0 <= n)%Z as Hn by (unfold Buf.length in Hlen; lia).
  pose proof Hsize as Hsize52.
  change (2 ^ 52)%Z with 4503599627370496%Z in Hsize, Hsize'.
  set (product := Double.round (inject_Z (Buf.length input) / 2 * inject_Z outputRate)).
  assert (product == inject_Z (n * outputRate))%Q as Ep.
  { apply round_integer; [nia |].
    rewrite Hlen, !inject_Z_mult. change (inject_Z 2) with 2%Q. field. }
  rewrite (isFinite_integer _ (n * outputRate))
    by (change (2 ^ 53)%Z with 9007199254740992%Z; nia || exact Ep).
  cbn [negb].
  assert (Qfloor (Double.round (product / inject_Z (k * outputRate)))
          = (n / k)%Z) as Hout.
  { rewrite (Qfloor_round_quotient (n * outputRate) (k * outputRate));
      [| nia | nia | rewrite Ep; reflexivity].
    rewrite Z.div_mul_cancel_r by lia. reflexivity. }
  rewrite Hout.
  set (m := (n / k)%Z).
  assert (0 <= m)%Z as Hm by (subst m; apply Z.div_pos; lia).
  assert (Buf.alloc (inject_Z m * 2) = Some (repeat 0%Z (Z.to_nat (2 * m)))) as ->.
  { unfold Buf.alloc.
    assert (inject_Z m * 2 == inject_Z (2 * m))%Q as E
      by (rewrite inject_Z_mult; change (inject_Z 2) with 2%Q; ring).
    rewrite (Qfloor_comp _ _ E), Qfloor_Z.
    assert (Qle_bool 0 (inject_Z m * 2) = true) as ->; [| reflexivity].
    apply Qle_bool_iff. rewrite E. change 0%Q with (inject_Z 0).
    rewrite <- Zle_Qle. lia. }
  cbn [bindo].
  destruct (resampleLoop_whole_ratio input n k outputRate (Z.to_nat m)
              Hb Hlen Hk Hrate Hsize52 0 (repeat 0%Z (Z.to_nat (2 * m))))
    as (output & E & L & Hnew & _).
  - lia.
  - fold m. lia.
  - fold m. unfold Buf.length. rewrite repeat_length. lia.
  - exists output. split; [exact E |]. split.
    + unfold Buf.length. rewrite L, repeat_length. lia.
    + intros j Hj. apply Hnew. lia.
Qed.

Lemma sampleAt_bytes (b b' : Buf.t) (j j' : Z) :
  (0 <= j)%Z -> (0 <= j')%Z ->
  b !! Z.to_nat (2 * j) = b' !! Z.to_nat (2 * j') ->
  b !! Z.to_nat (2 * j + 1) = b' !! Z.to_nat (2 * j' + 1) ->
  sampleAt b j = sampleAt b' j'.
Proof.
  intros Hj Hj' H0 H1. unfold sampleAt, Buf.readInt16LE.
  rewrite !get_inject_Z, !get_inject_Z_succ by lia.
  rewrite H0, H1. reflexivity.
Qed.

(** X7.  When the input rate is a whole multiple [k] of the output rate,
    [simpleResample] returns for every buffer of 16-bit samples of
    realistic size ([n * outputRate] and the input rate at most
    [2 ^ 52]), and it keeps exactly every [k]-th sample: the output has
    [floor(n / k)] samples and its sample [j] is sample [k * j] of the
    input, unchanged.  At 48 kHz this is every third sample; nothing is
    interpolated, the fraction being 0 in doubles too. *)
Theorem simpleResample_keeps_every_kth_sample (input : Buf.t)
    (n k outputRate : Z) :
  Forall isByte input -> Buf.length input = (2 * n)%Z ->
  (1 <= k)%Z -> (0 < outputRate)%Z ->
  (n * outputRate <= 2 ^ 52)%Z -> (k * outputRate <= 2 ^ 52)%Z ->
  exists output,
    AudioProcessor.simpleResample input (k * outputRate) outputRate = Some output /\
    Buf.length output = (2 * (n / k))%Z /\
    forall j : Z,
      (0 <= j < n / k)%Z -> sampleAt output j = sampleAt input (k * j).
Proof.
  intros Hb Hlen Hk Hrate Hsize Hsize'.
  destruct (simpleResample_whole_ratio input n k outputRate Hb Hlen Hk Hrate
              Hsize Hsize') as (output & E & L & Hbytes).
  exists output. split; [exact E |]. split; [exact L |].
  intros j Hj. destruct (Hbytes j Hj) as [H0 H1].
  apply sampleAt_bytes; [lia | nia | exact H0 | exact H1].
Qed.

Lemma simpleResample_keeps_every_kth_sample_witness :
  Forall isByte (ramp 14) /\ Buf.length (ramp 14) = (2 * 7)%Z /\
  (1 <= 3)%Z /\ (0 < 16000)%Z /\
  (7 * 16000 <= 2 ^ 52)%Z /\ (3 * 16000 <= 2 ^ 52)%Z /\
  exists output,
    AudioProcessor.simpleResample (ramp 14) (3 * 16000) 16000 = Some output /\
    Buf.length output = (2 * (7 / 3))%Z /\
    forall j : Z,
      (0 <= j < 7 / 3)%Z -> sampleAt output j = sampleAt (ramp 14) (3 * j).
Proof.
  assert (Forall isByte (ramp 14)) as Hb.
  { apply Forall_forall. intros x Hx. apply list_elem_of_In in Hx.
    unfold ramp in Hx. apply in_map_iff in Hx as (i & <- & _).
    unfold isByte. pose proof (Nat.mod_upper_bound i 256). lia. }
  split; [exact Hb |]. split; [reflexivity |]. split; [lia |]. split; [lia |].
  split; [discriminate |]. split; [discriminate |].
  apply (simpleResample_keeps_every_kth_sample (ramp 14) 7 3 16000);
    [exact Hb | reflexivity | lia | lia | discriminate | discriminate].
Defined.

(** X8.  With equal input and output rates [simpleResample] is the
    identity: every buffer of 16-bit samples of realistic size (the
    number of bytes times the rate at most [2 ^ 52]) comes back byte for
    byte. *)
Theorem simpleResample_same_rate_is_identity (input : Buf.t) (rate : Z) :
  Forall isByte input -> Nat.Even (List.length input) -> (0 < rate)%Z ->
  (Buf.length input * rate <= 2 ^ 52)%Z ->
  AudioProcessor.simpleResample input rate rate = Some input.
Proof.
  intros Hb [n Hn] Hrate Hsize.
  assert (Buf.length input = 2 * Z.of_nat n)%Z as Hlen
    by (unfold Buf.length; lia).
  change (2 ^ 52)%Z with 4503599627370496%Z in Hsize.
  destruct (Nat.eq_dec n 0) as [-> | Hn0].
  { destruct input; [| discriminate].
    unfold AudioProcessor.simpleResample.
    assert ((rate =? 0)%Z = false) as -> by (apply Z.eqb_neq; lia).
    rewrite (round_zero (inject_Z (Buf.length []) / 2 * inject_Z rate))
      by (unfold Buf.length, Qeq; simpl; lia).
    rewrite (round_zero (0 / inject_Z rate)) by (unfold Qeq; simpl; lia).
    reflexivity. }
  destruct (simpleResample_whole_ratio input (Z.of_nat n) 1 rate Hb Hlen
              ltac:(lia) Hrate
              ltac:(change (2 ^ 52)%Z with 4503599627370496%Z; nia)
              ltac:(change (2 ^ 52)%Z with 4503599627370496%Z; nia))
    as (output & E & L & Hbytes).
  replace (1 * rate)%Z with rate in E by lia. rewrite E. f_equal.
  rewrite Z.div_1_r in L, Hbytes.
  apply list_eq. intros q.
  destruct (Nat.lt_ge_cases q (2 * n)) as [Hq | Hq].
  - destruct (Hbytes (Z.of_nat (q / 2))) as [H0 H1].
    { split; [lia |]. apply Nat2Z.inj_lt. apply Nat.Div0.div_lt_upper_bound. lia. }
    pose proof (Nat.div_mod_eq q 2) as Hdm.
    pose proof (Nat.mod_upper_bound q 2 ltac:(lia)) as Hm.
    replace (Z.to_nat (2 * (1 * Z.of_nat (q / 2)))) with (2 * (q / 2))%nat in H0 by lia.
    replace (Z.to_nat (2 * Z.of_nat (q / 2))) with (2 * (q / 2))%nat in H0 by lia.
    replace (Z.to_nat (2 * (1 * Z.of_nat (q / 2)) + 1)) with (2 * (q / 2) + 1)%nat in H1 by lia.
    replace (Z.to_nat (2 * Z.of_nat (q / 2) + 1)) with (2 * (q / 2) + 1)%nat in H1 by lia.
    destruct (Nat.eq_dec (q mod 2) 0) as [H2 | H2].
    + replace q with (2 * (q / 2))%nat by lia. exact H0.
    + replace q with (2 * (q / 2) + 1)%nat by lia. exact H1.
  - unfold Buf.length in L.
    rewrite !lookup_ge_None_2 by lia. reflexivity.
Qed.

Lemma simpleResample_same_rate_is_identity_witness :
  Forall isByte [1; 2; 254; 255]%Z /\ Nat.Even (List.length [1; 2; 254; 255]%Z) /\
  (0 < 44100)%Z /\ (Buf.length [1; 2; 254; 255]%Z * 44100 <= 2 ^ 52)%Z /\
  AudioProcessor.simpleResample [1; 2; 254; 255]%Z 44100 44100
  = Some [1; 2; 254; 255]%Z.
Proof.
  assert (Forall isByte [1; 2; 254; 255]%Z) as Hb
    by (repeat constructor; unfold isByte; lia).
  assert (Nat.Even (List.length [1; 2; 254; 255]%Z)) as He by (exists 2%nat; reflexivity).
  split; [exact Hb |]. split; [exact He |]. split; [lia |].
  split; [discriminate |].
  apply (simpleResample_same_rate_is_identity _ 44100 Hb He); [lia | discriminate].
Defined.

(** * The down-mix *)

Lemma sumChannels_frameSum (input : Buf.t) (c s i : Z) (n : nat) :
  Forall isByte input -> Buf.length input = (2 * s)%Z ->
  (0 <= i)%Z -> (0 <= c)%Z ->
  forall (ch : nat) (sum : Z),
    (i * c + Z.of_nat ch + Z.of_nat n <= s)%Z ->
    exists total,
      AudioProcessor.sumChannels input c i n (Z.of_nat ch) sum = Some total /\
      total = fold_left Z.add
                (map (fun ch' => default 0%Z (sampleAt input (i * c + Z.of_nat ch')))
                     (seq ch n)) sum /\
      (sum - 32768 * Z.of_nat n <= total <= sum + 32767 * Z.of_nat n)%Z.
Proof.
  intros Hb Hlen Hi Hc.
  induction n as [| n IH]; intros ch sum Hch.
  - exists sum. cbn. split; [reflexivity |]. split; [reflexivity | lia].
  - cbn [AudioProcessor.sumChannels].
    replace ((i * c + Z.of_nat ch) * 2)%Z with (2 * (i * c + Z.of_nat ch))%Z by lia.
    destruct (readInt16LE_sample input s (i * c + Z.of_nat ch)
                (inject_Z (2 * (i * c + Z.of_nat ch))))
      as (v & E & R); [assumption | assumption | nia | reflexivity |].
    rewrite E. cbn [bindo].
    replace (Z.of_nat ch + 1)%Z with (Z.of_nat (S ch)) by lia.
    destruct (IH (S ch) (sum + v)%Z ltac:(lia)) as (total & Et & Hsum & Hrange).
    exists total. split; [exact Et |]. split; [| lia].
    cbn [seq map fold_left].
    assert (default 0%Z (sampleAt input (i * c + Z.of_nat ch)) = v) as ->
      by (unfold sampleAt; rewrite E; reflexivity).
    exact Hsum.
Qed.

Lemma mean_range (sum c : Z) :
  (1 <= c)%Z -> (- 32768 * c <= sum <= 32767 * c)%Z ->
  (-32768 <= Math_round (inject_Z sum / inject_Z c) <= 32767)%Z.
Proof.
  intros Hc Hsum.
  assert (0 < inject_Z c)%Q as Hc0
    by (change 0%Q with (inject_Z 0); rewrite <- Zlt_Qlt; lia).
  apply Math_round_between.
  - apply Qle_shift_div_l; [exact Hc0 |].
    rewrite <- inject_Z_mult, <- Zle_Qle. lia.
  - apply Qle_shift_div_r; [exact Hc0 |].
    rewrite <- inject_Z_mult, <- Zle_Qle. lia.
Qed.

Lemma monoLoop_samples (input : Buf.t) (c s : Z) (cnt : nat) :
  Forall isByte input -> Buf.length input = (2 * s)%Z -> (1 <= c)%Z ->
  forall (i : Z) (output : Buf.t),
    (0 <= i)%Z -> ((i + Z.of_nat cnt) * c <= s)%Z ->
    (2 * (i + Z.of_nat cnt) <= Buf.length output)%Z -> Forall isByte output ->
    exists output',
      AudioProcessor.monoLoop input c cnt i output = Some output' /\
      List.length output' = List.length output /\
      Forall isByte output' /\
      (forall j : nat,
         (j < cnt)%nat ->
         Buf.readInt16LE output' (inject_Z ((i + Z.of_nat j) * 2))
         = Some (Math_round
                   (inject_Z (frameSum input (Z.to_nat c) (i + Z.of_nat j))
                    / inject_Z c))) /\
      (forall k : Z,
         (0 <= k < i)%Z ->
         Buf.readInt16LE output' (inject_Z (k * 2))
         = Buf.readInt16LE output (inject_Z (k * 2))).
Proof.
  intros Hb Hlen Hc.
  induction cnt as [| cnt IH]; intros i output Hi Hcnt Hout Hbo.
  - exists output. split; [reflexivity |]. split; [reflexivity |].
    split; [exact Hbo |]. split; [intros j Hj; lia | intros; reflexivity].
  - cbn [AudioProcessor.monoLoop].
    destruct (sumChannels_frameSum input c s i (Z.to_nat c) Hb Hlen ltac:(lia)
                ltac:(lia) 0%nat 0%Z ltac:(nia)) as (total & Et & Hsum & Hrange).
    change (Z.of_nat 0) with 0%Z in Et. rewrite Et. cbn [bindo].
    assert (total = frameSum input (Z.to_nat c) i) as Htotal.
    { rewrite Hsum. unfold frameSum. rewrite Z2Nat.id by lia. reflexivity. }
    pose proof (mean_range total c Hc ltac:(lia)) as Hmean.
    destruct (writeInt16LE_in_range _ (i * 2) output Hmean) as (o1 & Ew & Lw);
      [lia | lia |].
    rewrite Ew. cbn [bindo].
    destruct (IH (i + 1)%Z o1) as (o2 & E & L & Hb2 & Hnew & Hold);
      [lia | lia | unfold Buf.length in *; lia
       | eapply writeInt16LE_isByte; eassumption |].
    exists o2. split; [exact E |]. split; [congruence |]. split; [exact Hb2 |].
    split.
    + intros [| j] Hj.
      * rewrite Z.add_0_r, (Hold i) by lia. rewrite <- Htotal.
        apply (readInt16LE_writeInt16LE _ _ _ _ Ew).
      * replace (i + Z.of_nat (S j))%Z with (i + 1 + Z.of_nat j)%Z by lia.
        apply Hnew. lia.
    + intros k Hk. rewrite (Hold k) by lia.
      apply (readInt16LE_writeInt16LE_other _ _ _ _ _ Ew); lia.
Qed.

Lemma Forall_isByte_zeros (n : nat) : Forall isByte (repeat 0%Z n).
Proof. apply Forall_forall. intros x Hx. apply list_elem_of_In, repeat_spec in Hx. subst x. unfold isByte. lia. Qed.

Lemma convertToMono_whole_frames (input : Buf.t) (channels : nat) (m : Z) :
  Forall isByte input -> (1 <= channels)%nat ->
  Buf.length input = (2 * (Z.of_nat channels * m))%Z ->
  exists output,
    AudioProcessor.convertToMono input (Z.of_nat channels) = Some output /\
    Buf.length output = (2 * m)%Z /\
    Forall isByte output /\
    forall i : Z,
      (0 <= i < m)%Z ->
      sampleAt output i
      = Some (Math_round (inject_Z (frameSum input channels i)
                          / inject_Z (Z.of_nat channels))).
Proof.
  intros Hb Hc Hlen. unfold AudioProcessor.convertToMono.
  set (c := Z.of_nat channels) in *.
  assert (0 <= m)%Z as Hm by (unfold Buf.length in Hlen; nia).
  assert (inject_Z (Buf.length input) / inject_Z (2 * c) == inject_Z m)%Q as Hcount.
  { rewrite Hlen, !inject_Z_mult. field.
    intros H0. unfold Qeq, inject_Z in H0. simpl in H0. lia. }
  assert (Buf.alloc (inject_Z (Buf.length input) / inject_Z (2 * c) * 2)
          = Some (repeat 0%Z (Z.to_nat (2 * m)))) as ->.
  { unfold Buf.alloc.
    assert (inject_Z (Buf.length input) / inject_Z (2 * c) * 2 == inject_Z (2 * m))%Q as E
      by (rewrite Hcount, inject_Z_mult; change (inject_Z 2) with 2%Q; ring).
    rewrite (Qfloor_comp _ _ E), Qfloor_Z.
    assert (Qle_bool 0 (inject_Z (Buf.length input) / inject_Z (2 * c) * 2) = true)
      as ->; [| reflexivity].
    apply Qle_bool_iff. rewrite E. change 0%Q with (inject_Z 0).
    rewrite <- Zle_Qle. lia. }
  cbn [bindo].
  rewrite (Qceiling_comp _ _ Hcount), Qceiling_Z.
  destruct (monoLoop_samples input c (c * m) (Z.to_nat m) Hb Hlen ltac:(lia) 0
              (repeat 0%Z (Z.to_nat (2 * m))))
    as (output & E & L & Hbo & Hnew & _).
  - lia.
  - nia.
  - unfold Buf.length. rewrite repeat_length. lia.
  - apply Forall_isByte_zeros.
  - exists output. split; [exact E |]. split.
    { unfold Buf.length. rewrite L, repeat_length. lia. }
    split; [exact Hbo |].
    intros i Hi. unfold sampleAt.
    specialize (Hnew (Z.to_nat i) ltac:(lia)).
    rewrite Z.add_0_l, Z2Nat.id in Hnew by lia.
    subst c. rewrite Nat2Z.id in Hnew.
    replace (2 * i)%Z with (i * 2)%Z by lia. exact Hnew.
Qed.

(** X9.  The down-mix of whole frames.  For a buffer that holds [m] whole
    frames of [channels] interleaved 16-bit samples, [convertToMono]
    returns [m] samples, and sample [i] is the mean of the [channels]
    samples of frame [i], rounded to the nearest integer with ties towards
    positive infinity ([Math.round]). *)
Theorem convertToMono_averages_each_frame (input : Buf.t) (channels : nat)
    (m : Z) :
  Forall isByte input -> (1 <= channels)%nat ->
  Buf.length input = (2 * (Z.of_nat channels * m))%Z ->
  exists output,
    AudioProcessor.convertToMono input (Z.of_nat channels) = Some output /\
    Buf.length output = (2 * m)%Z /\
    forall i : Z,
      (0 <= i < m)%Z ->
      sampleAt output i
      = Some (Math_round (inject_Z (frameSum input channels i)
                          / inject_Z (Z.of_nat channels))).
Proof.
  intros Hb Hc Hlen.
  destruct (convertToMono_whole_frames input channels m Hb Hc Hlen)
    as (output & E & L & _ & Hs).
  exists output. auto.
Qed.

Lemma convertToMono_averages_each_frame_witness :
  Forall isByte [1; 0; 2; 0; 255; 255; 0; 0]%Z /\ (1 <= 2)%nat /\
  Buf.length [1; 0; 2; 0; 255; 255; 0; 0]%Z = (2 * (Z.of_nat 2 * 2))%Z /\
  exists output,
    AudioProcessor.convertToMono [1; 0; 2; 0; 255; 255; 0; 0]%Z (Z.of_nat 2)
      = Some output /\
    Buf.length output = (2 * 2)%Z /\
    forall i : Z,
      (0 <= i < 2)%Z ->
      sampleAt output i
      = Some (Math_round
                (inject_Z (frameSum [1; 0; 2; 0; 255; 255; 0; 0]%Z 2 i)
                 / inject_Z (Z.of_nat 2))).
Proof.
  assert (Forall isByte [1; 0; 2; 0; 255; 255; 0; 0]%Z) as Hb
    by (repeat constructor; unfold isByte; lia).
  split; [exact Hb |]. split; [lia |]. split; [reflexivity |].
  apply (convertToMono_averages_each_frame _ 2 2 Hb); [lia | reflexivity].
Defined.

(** A mono example of the rounding: the stereo frames (1, 2) and (-1, 0)
    give 2 (1.5 rounded up) and 0 (-0.5 rounded up). *)
Example convertToMono_rounds_half_up :
  AudioProcessor.convertToMono [1; 0; 2; 0; 255; 255; 0; 0]%Z 2
  = Some [2; 0; 0; 0]%Z.
Proof. vm_compute. reflexivity. Qed.

(** X10.  With one channel [convertToMono] is the identity: every buffer
    of 16-bit samples comes back byte for byte. *)
Theorem convertToMono_one_channel_is_identity (input : Buf.t) :
  Forall isByte input -> Nat.Even (List.length input) ->
  AudioProcessor.convertToMono input 1 = Some input.
Proof.
  intros Hb [n Hn].
  assert (Buf.length input = 2 * (Z.of_nat 1 * Z.of_nat n))%Z as Hlen
    by (unfold Buf.length; lia).
  destruct (convertToMono_whole_frames input 1 (Z.of_nat n) Hb ltac:(lia) Hlen)
    as (output & E & L & Hbo & Hs).
  change (Z.of_nat 1) with 1%Z in E. rewrite E. f_equal.
  assert (forall i, (0 <= i < Z.of_nat n)%Z ->
            output !! Z.to_nat (2 * i) = input !! Z.to_nat (2 * i) /\
            output !! Z.to_nat (2 * i + 1) = input !! Z.to_nat (2 * i + 1)) as Hbytes.
  { intros i Hi. specialize (Hs i Hi).
    destruct (readInt16LE_sample input (Z.of_nat n) i (inject_Z (2 * i)))
      as (s & Es & Rs); [assumption | lia | lia | reflexivity |].
    assert (frameSum input 1 i = s) as Hsum.
    { unfold frameSum. cbn [seq map fold_left]. unfold sampleAt.
      replace (i * Z.of_nat 1 + Z.of_nat 0)%Z with i by lia.
      rewrite Es. reflexivity. }
    rewrite Hsum in Hs.
    rewrite Math_round_inject_Z with (z := s) in Hs
      by (change (inject_Z (Z.of_nat 1)) with 1%Q; field).
    unfold sampleAt in Hs.
    destruct (readInt16LE_bytes output (2 * i) s Hbo ltac:(lia) Hs) as [-> ->].
    destruct (readInt16LE_bytes input (2 * i) s Hb ltac:(lia) Es) as [-> ->].
    auto. }
  apply list_eq. intros q.
  destruct (Nat.lt_ge_cases q (2 * n)) as [Hq | Hq].
  - destruct (Hbytes (Z.of_nat (q / 2))) as [H0 H1].
    { split; [lia |]. apply Nat2Z.inj_lt. apply Nat.Div0.div_lt_upper_bound. lia. }
    pose proof (Nat.div_mod_eq q 2) as Hdm.
    pose proof (Nat.mod_upper_bound q 2 ltac:(lia)) as Hm.
    replace (Z.to_nat (2 * Z.of_nat (q / 2))) with (2 * (q / 2))%nat in H0 by lia.
    replace (Z.to_nat (2 * Z.of_nat (q / 2) + 1)) with (2 * (q / 2) + 1)%nat in H1 by lia.
    destruct (Nat.eq_dec (q mod 2) 0) as [H2 | H2].
    + replace q with (2 * (q / 2))%nat by lia. exact H0.
    + replace q with (2 * (q / 2) + 1)%nat by lia. exact H1.
  - unfold Buf.length in L.
    rewrite !lookup_ge_None_2 by lia. reflexivity.
Qed.

Lemma convertToMono_one_channel_is_identity_witness :
  Forall isByte [1; 2; 254; 255]%Z /\ Nat.Even (List.length [1; 2; 254; 255]%Z) /\
  AudioProcessor.convertToMono [1; 2; 254; 255]%Z 1 = Some [1; 2; 254; 255]%Z.
Proof.
  assert (Forall isByte [1; 2; 254; 255]%Z) as Hb
    by (repeat constructor; unfold isByte; lia).
  assert (Nat.Even (List.length [1; 2; 254; 255]%Z)) as He by (exists 2%nat; reflexivity).
  split; [exact Hb |]. split; [exact He |].
  exact (convertToMono_one_channel_is_identity _ Hb He).
Defined.

(** * Blocks of several channels *)

Lemma readInt16LE_at_end (input : Buf.t) (s k : Z) :
  Buf.length input = (2 * s)%Z -> (s <= k)%Z ->
  Buf.readInt16LE input (inject_Z (2 * k)) = None.
Proof.
  intros Hlen Hk. unfold Buf.readInt16LE, Buf.length in *.
  rewrite get_inject_Z by lia.
  rewrite lookup_ge_None_2 by lia. reflexivity.
Qed.

Lemma sumChannels_fails (input : Buf.t) (c s i : Z) (n : nat) :
  Buf.length input = (2 * s)%Z -> (0 <= i)%Z -> (0 <= c)%Z ->
  forall (ch : nat) (sum : Z),
    (i * c + Z.of_nat ch <= s)%Z -> (s < i * c + Z.of_nat ch + Z.of_nat n)%Z ->
    AudioProcessor.sumChannels input c i n (Z.of_nat ch) sum = None.
Proof.
  intros Hlen Hi Hc.
  induction n as [| n IH]; intros ch sum Hlo Hhi; [lia |].
  cbn [AudioProcessor.sumChannels].
  replace ((i * c + Z.of_nat ch) * 2)%Z with (2 * (i * c + Z.of_nat ch))%Z by lia.
  destruct (Z.eq_dec (i * c + Z.of_nat ch)%Z s) as [Heq | Hne].
  - rewrite (readInt16LE_at_end input s) by (assumption || lia). reflexivity.
  - destruct (readInt16LE_in_range input (2 * (i * c + Z.of_nat ch))) as [v Hv];
      [nia | lia |].
    rewrite Hv. cbn [bindo].
    replace (Z.of_nat ch + 1)%Z with (Z.of_nat (S ch)) by lia.
    apply IH; lia.
Qed.

Lemma monoLoop_split (input : Buf.t) (c : Z) (a b : nat) :
  forall (i : Z) (output : Buf.t),
    AudioProcessor.monoLoop input c (a + b) i output
    = bindo (AudioProcessor.monoLoop input c a i output)
        (fun o => AudioProcessor.monoLoop input c b (i + Z.of_nat a) o).
Proof.
  induction a as [| a IH]; intros i output.
  - cbn. rewrite Z.add_0_r. reflexivity.
  - cbn [Nat.add AudioProcessor.monoLoop].
    destruct (AudioProcessor.sumChannels _ _ _ _ _ _); [| reflexivity].
    cbn [bindo].
    destruct (Buf.writeInt16LE _ _ _); [| reflexivity].
    cbn [bindo]. rewrite IH.
    replace (i + 1 + Z.of_nat a)%Z with (i + Z.of_nat (S a))%Z by lia.
    reflexivity.
Qed.

Lemma convertToMono_partial_frame (input : Buf.t) (c s : Z) :
  Forall isByte input -> Buf.length input = (2 * s)%Z -> (1 <= c)%Z ->
  (s mod c <> 0)%Z ->
  AudioProcessor.convertToMono input c = None.
Proof.
  intros Hb Hlen Hc Hmod. unfold AudioProcessor.convertToMono.
  assert (0 <= s)%Z as Hs by (unfold Buf.length in Hlen; lia).
  assert (inject_Z (Buf.length input) / inject_Z (2 * c)
          == inject_Z s / inject_Z c)%Q as Hcount.
  { rewrite Hlen, !inject_Z_mult. field.
    intros H0. unfold Qeq, inject_Z in H0. simpl in H0. lia. }
  set (m := (s / c)%Z).
  assert (0 <= m)%Z as Hm by (subst m; apply Z.div_pos; lia).
  assert (c * m <= s)%Z as Hcm by (subst m; apply Z.mul_div_le; lia).
  assert (s < c * m + c)%Z as Hcm'.
  { subst m. pose proof (Z.mod_pos_bound s c ltac:(lia)).
    pose proof (Z.div_mod s c ltac:(lia)). lia. }
  assert (Qceiling (inject_Z (Buf.length input) / inject_Z (2 * c)) = (m + 1)%Z) as ->.
  { rewrite (Qceiling_comp _ _ Hcount). unfold Qceiling.
    assert (- (inject_Z s / inject_Z c) == inject_Z (- s) / inject_Z c)%Q as E.
    { rewrite inject_Z_opp. field.
      intros H0. unfold Qeq, inject_Z in H0. simpl in H0. lia. }
    rewrite (Qfloor_comp _ _ E), Qfloor_quotient by lia.
    rewrite Z.div_opp_l_nz by lia. subst m. lia. }
  set (size := Qfloor (inject_Z (Buf.length input) / inject_Z (2 * c) * 2)).
  assert (2 * m <= size)%Z as Hsize.
  { subst size.
    assert (inject_Z (Buf.length input) / inject_Z (2 * c) * 2
            == inject_Z (2 * s) / inject_Z c)%Q as E.
    { rewrite Hcount, inject_Z_mult. field.
      intros H0. unfold Qeq, inject_Z in H0. simpl in H0. lia. }
    rewrite (Qfloor_comp _ _ E), Qfloor_quotient by lia.
    apply Z.div_le_lower_bound; [lia |]. nia. }
  assert (Buf.alloc (inject_Z (Buf.length input) / inject_Z (2 * c) * 2)
          = Some (repeat 0%Z (Z.to_nat size))) as ->.
  { unfold Buf.alloc. fold size.
    assert (Qle_bool 0 (inject_Z (Buf.length input) / inject_Z (2 * c) * 2) = true)
      as ->; [| reflexivity].
    apply Qle_bool_iff. rewrite Hcount.
    apply Qmult_le_0_compat; [| discriminate].
    apply Qle_shift_div_l.
    - change 0%Q with (inject_Z 0). rewrite <- Zlt_Qlt. lia.
    - rewrite Qmult_0_l. change 0%Q with (inject_Z 0). rewrite <- Zle_Qle. lia. }
  cbn [bindo].
  replace (Z.to_nat (m + 1)) with (Z.to_nat m + 1)%nat by lia.
  rewrite monoLoop_split.
  destruct (monoLoop_samples input c s (Z.to_nat m) Hb Hlen Hc 0
              (repeat 0%Z (Z.to_nat size)))
    as (output & E & _).
  - lia.
  - nia.
  - unfold Buf.length. rewrite repeat_length. lia.
  - apply Forall_isByte_zeros.
  - rewrite E. cbn [bindo AudioProcessor.monoLoop].
    rewrite Z.add_0_l, Z2Nat.id by lia.
    pose proof (sumChannels_fails input c s m (Z.to_nat c) Hlen Hm ltac:(lia)
                  0%nat 0%Z ltac:(lia) ltac:(lia)) as Hf.
    change (Z.of_nat 0) with 0%Z in Hf. rewrite Hf. reflexivity.
Qed.

Lemma resampleLoop_isByte (input : Buf.t) (inputSamples : Q)
    (inputRate outputRate : Z) (n : nat) :
  forall (i : Z) (output output' : Buf.t),
    AudioProcessor.resampleLoop input inputSamples inputRate outputRate n i output
      = Some output' ->
    Forall isByte output -> Forall isByte output'.
Proof.
  induction n as [| n IH]; intros i output output' H Hb.
  - cbn in H. injection H as <-. exact Hb.
  - cbn [AudioProcessor.resampleLoop] in H.
    destruct (negb _ || _); [discriminate |].
    destruct (Buf.readInt16LE input _) as [s1 |]; [| discriminate].
    cbn [bindo] in H.
    destruct (Buf.readInt16LE input _) as [s2 |]; [| discriminate].
    cbn [bindo] in H.
    destruct (Buf.writeInt16LE _ _ _) as [o1 |] eqn:Ew; [| discriminate].
    cbn [bindo] in H.
    apply (IH _ _ _ H). eapply writeInt16LE_isByte; eassumption.
Qed.

Lemma simpleResample_isByte (input output : Buf.t) (inputRate outputRate : Z) :
  AudioProcessor.simpleResample input inputRate outputRate = Some output ->
  Forall isByte output.
Proof.
  unfold AudioProcessor.simpleResample. intros H.
  destruct (inputRate =? 0)%Z; [discriminate |].
  destruct (negb (Double.isFinite _)); [discriminate |].
  unfold Buf.alloc in H. destruct (Qle_bool _ _); [| discriminate].
  cbn [bindo] in H.
  apply (resampleLoop_isByte _ _ _ _ _ _ _ _ H). apply Forall_isByte_zeros.
Qed.

(** The samples left after the resampling step of [processAudioData]. *)
Lemma resampling_step (audioData : Buf.t) (rate : Z) :
  Forall isByte audioData -> Nat.Even (List.length audioData) ->
  (0 < rate <= 2 ^ 52)%Z -> (Buf.length audioData * 8000 <= 2 ^ 52)%Z ->
  let s := (if (rate =? 16000)%Z then Buf.length audioData / 2
            else Buf.length audioData / 2 * 16000 / rate)%Z in
  exists processedData,
    (if negb (rate =? AudioProcessor.targetSampleRate)%Z
     then AudioProcessor.simpleResample audioData rate
            AudioProcessor.targetSampleRate
     else Some audioData) = Some processedData /\
    Forall isByte processedData /\
    Buf.length processedData = (2 * s)%Z.
Proof.
  intros Hb [n Hn] Hrate Hsize s.
  assert (Buf.length audioData = 2 * Z.of_nat n)%Z as Hlen
    by (unfold Buf.length; lia).
  assert (Buf.length audioData / 2 = Z.of_nat n)%Z as Hhalf
    by (rewrite Hlen, Z.mul_comm, Z.div_mul by lia; reflexivity).
  change AudioProcessor.targetSampleRate with 16000%Z. subst s.
  destruct (rate =? 16000)%Z eqn:E; cbn [negb].
  - exists audioData. split; [reflexivity |]. split; [exact Hb | lia].
  - destruct (simpleResample_mono_total audioData (Z.of_nat n) rate Hb Hlen Hrate)
      as (output & Eo & Lo); [lia |].
    exists output. split; [exact Eo |].
    split; [eapply simpleResample_isByte; exact Eo |].
    rewrite Lo, Hhalf. reflexivity.
Qed.

(** X11.  Blocks of two or more channels.  For a block of 16-bit samples
    of realistic size (up to [2 ^ 52 / 8000] bytes) at a positive rate (up
    to [2 ^ 52]) with [ch >= 2] channels, let [s] be the number of samples
    left after resampling.  The push throws exactly when [s] is not
    a multiple of [ch]; otherwise it returns, the block adds [s / ch]
    samples to the stream and [floor((residual + 2 * (s / ch)) / 640)]
    frames of 640 bytes are emitted. *)
Theorem multichannel_push_throws_iff_partial_frame (audioData : Buf.t)
    (rate ch : Z) (p : AudioProcessor.t) :
  Forall isByte audioData -> Nat.Even (List.length audioData) ->
  (0 < rate <= 2 ^ 52)%Z -> (Buf.length audioData * 8000 <= 2 ^ 52)%Z ->
  (2 <= ch)%Z ->
  let s := (if (rate =? 16000)%Z then Buf.length audioData / 2
            else Buf.length audioData / 2 * 16000 / rate)%Z in
  (AudioProcessor.processAudioData audioData rate ch p = None
   <-> (s mod ch <> 0)%Z) /\
  ((s mod ch = 0)%Z ->
   exists frames rest,
     AudioProcessor.processAudioData audioData rate ch p
       = Some (frames, AudioProcessor.mk rest) /\
     framed frames rest /\
     Z.of_nat (List.length frames)
       = ((Buf.length (AudioProcessor.buffer p) + 2 * (s / ch)) / 640)%Z /\
     Buf.length rest
       = ((Buf.length (AudioProcessor.buffer p) + 2 * (s / ch)) mod 640)%Z).
Proof.
  intros Hb He Hrate Hsize Hch s.
  destruct (resampling_step audioData rate Hb He Hrate Hsize)
    as (r & Er & Hbr & Lr). fold s in Lr.
  assert (AudioProcessor.convert audioData rate ch = AudioProcessor.convertToMono r ch)
    as Hconv.
  { unfold AudioProcessor.convert. rewrite Er. cbn [bindo].
    assert ((1 <? ch)%Z = true) as -> by (apply Z.ltb_lt; lia). reflexivity. }
  destruct (Z.eq_dec (s mod ch)%Z 0%Z) as [Hmod | Hmod].
  - assert (s = ch * (s / ch))%Z as Hs
      by (pose proof (Z.div_mod s ch ltac:(lia)); lia).
    destruct (convertToMono_whole_frames r (Z.to_nat ch) (s / ch) Hbr ltac:(lia))
      as (output & E & L & _).
    { rewrite Z2Nat.id by lia. lia. }
    rewrite Z2Nat.id in E by lia.
    destruct (processAudioData_frames audioData output rate ch p)
      as (frames & rest & Ep & Hfr & _ & Hcount & Hrest).
    { rewrite Hconv. exact E. }
    rewrite L in Hcount, Hrest. unfold Spec.framesEmitted in Hcount.
    split.
    + rewrite Ep. split; [discriminate | intros H; contradiction].
    + intros _. exists frames, rest. auto.
  - assert (AudioProcessor.processAudioData audioData rate ch p = None) as Ep.
    { unfold AudioProcessor.processAudioData. rewrite Hconv.
      rewrite (convertToMono_partial_frame r ch s Hbr Lr ltac:(lia) Hmod).
      reflexivity. }
    split; [split; auto | intros H; contradiction].
Qed.

Lemma multichannel_push_throws_iff_partial_frame_witness :
  Forall isByte (ramp 24) /\ Nat.Even (List.length (ramp 24)) /\
  (0 < 48000 <= 2 ^ 52)%Z /\ (Buf.length (ramp 24) * 8000 <= 2 ^ 52)%Z /\
  (2 <= 2)%Z /\
  (AudioProcessor.processAudioData (ramp 24) 48000 2 AudioProcessor.new = None
   <-> ((Buf.length (ramp 24) / 2 * 16000 / 48000) mod 2 <> 0)%Z) /\
  AudioProcessor.processAudioData (ramp 24) 48000 2 AudioProcessor.new
    = Some ([], AudioProcessor.mk [3; 4; 15; 16]%Z).
Proof.
  assert (Forall isByte (ramp 24)) as Hb.
  { apply Forall_forall. intros x Hx. apply list_elem_of_In in Hx.
    unfold ramp in Hx. apply in_map_iff in Hx as (i & <- & _).
    unfold isByte. pose proof (Nat.mod_upper_bound i 256). lia. }
  assert (Nat.Even (List.length (ramp 24))) as He by (exists 12%nat; reflexivity).
  assert (0 < 48000 <= 2 ^ 52)%Z as Hrate by (split; [lia | discriminate]).
  assert (Buf.length (ramp 24) * 8000 <= 2 ^ 52)%Z as Hsize by discriminate.
  split; [exact Hb |]. split; [exact He |]. split; [exact Hrate |].
  split; [exact Hsize |]. split; [lia |].
  split.
  - exact (proj1 (multichannel_push_throws_iff_partial_frame (ramp 24) 48000 2
                    AudioProcessor.new Hb He Hrate Hsize ltac:(lia))).
  - vm_compute. reflexivity.
Defined.

(** X12.  What a stereo block at [k] times 16 kHz is mixed from, for a
    block and a rate of realistic size ([n * 16000] and [k * 16000] at
    most [2 ^ 52]).  The block is resampled as if it were mono, so the interleaved samples
    [0, k, 2k, ...] are kept, and the down-mix then averages neighbours of
    that sequence: output sample [i] is the rounded mean of the interleaved
    samples [2 k i] and [2 k i + k].  At 16 kHz ([k = 1]) these are the left
    and right sample of frame [i]; at 48 kHz ([k = 3]) they are the left
    sample of frame [3 i] and the right sample of frame [3 i + 1]; for an
    even [k] both are left samples and the right channel is not used. *)
Theorem stereo_block_mixes_decimated_neighbours (input : Buf.t) (n k m : Z) :
  Forall isByte input -> Buf.length input = (2 * n)%Z ->
  (1 <= k)%Z -> (n / k = 2 * m)%Z ->
  (n * 16000 <= 2 ^ 52)%Z -> (k * 16000 <= 2 ^ 52)%Z ->
  exists converted,
    AudioProcessor.convert input (k * 16000) 2 = Some converted /\
    Buf.length converted = (2 * m)%Z /\
    forall i : Z,
      (0 <= i < m)%Z ->
      exists a b,
        sampleAt input (2 * k * i) = Some a /\
        sampleAt input (2 * k * i + k) = Some b /\
        sampleAt converted i = Some (Math_round (inject_Z (a + b) / 2)).
Proof.
  intros Hb Hlen Hk Hm Hsize Hsize'.
  assert (0 <= n)%Z as Hn by (unfold Buf.length in Hlen; lia).
  assert (exists r,
            (if negb (k * 16000 =? AudioProcessor.targetSampleRate)%Z
             then AudioProcessor.simpleResample input (k * 16000)
                    AudioProcessor.targetSampleRate
             else Some input) = Some r /\
            Forall isByte r /\ Buf.length r = (2 * (n / k))%Z /\
            forall j, (0 <= j < n / k)%Z -> sampleAt r j = sampleAt input (k * j))
    as (r & Er & Hbr & Lr & Hr).
  { change AudioProcessor.targetSampleRate with 16000%Z.
    destruct (k * 16000 =? 16000)%Z eqn:E; cbn [negb].
    - apply Z.eqb_eq in E. assert (k = 1)%Z as -> by lia.
      exists input. split; [reflexivity |]. split; [exact Hb |].
      rewrite Z.div_1_r. split; [exact Hlen |].
      intros j _. rewrite Z.mul_1_l. reflexivity.
    - destruct (simpleResample_whole_ratio input n k 16000 Hb Hlen Hk ltac:(lia)
                  Hsize Hsize') as (output & Eo & Lo & Hbytes).
      exists output. split; [exact Eo |].
      split; [eapply simpleResample_isByte; exact Eo |].
      split; [exact Lo |].
      intros j Hj. destruct (Hbytes j Hj) as [H0 H1].
      apply sampleAt_bytes; [lia | nia | exact H0 | exact H1]. }
  unfold AudioProcessor.convert. rewrite Er. cbn [bindo].
  change (1 <? 2)%Z with true. cbv iota.
  destruct (convertToMono_whole_frames r 2 m Hbr ltac:(lia))
    as (converted & E & L & _ & Hs).
  { rewrite Lr, Hm. reflexivity. }
  change (Z.of_nat 2) with 2%Z in E, Hs.
  exists converted. split; [exact E |]. split; [exact L |].
  intros i Hi. specialize (Hs i Hi).
  assert (k * (n / k) <= n)%Z as Hkm by (apply Z.mul_div_le; lia).
  destruct (readInt16LE_sample input n (2 * k * i) (inject_Z (2 * (2 * k * i))))
    as (a & Ea & _); [assumption | assumption | nia | reflexivity |].
  destruct (readInt16LE_sample input n (2 * k * i + k)
              (inject_Z (2 * (2 * k * i + k))))
    as (b & Eb & _); [assumption | assumption | nia | reflexivity |].
  exists a, b. split; [exact Ea |]. split; [exact Eb |].
  rewrite Hs. f_equal. f_equal.
  unfold frameSum. cbn [seq map fold_left].
  rewrite !Hr by lia.
  replace (k * (i * Z.of_nat 2 + Z.of_nat 0))%Z with (2 * k * i)%Z by lia.
  replace (k * (i * Z.of_nat 2 + Z.of_nat 1))%Z with (2 * k * i + k)%Z by lia.
  unfold sampleAt in Ea, Eb |- *. rewrite Ea, Eb. reflexivity.
Qed.

Lemma stereo_block_mixes_decimated_neighbours_witness :
  Forall isByte (ramp 24) /\ Buf.length (ramp 24) = (2 * 12)%Z /\
  (1 <= 3)%Z /\ (12 / 3 = 2 * 2)%Z /\
  (12 * 16000 <= 2 ^ 52)%Z /\ (3 * 16000 <= 2 ^ 52)%Z /\
  exists converted,
    AudioProcessor.convert (ramp 24) (3 * 16000) 2 = Some converted /\
    Buf.length converted = (2 * 2)%Z /\
    forall i : Z,
      (0 <= i < 2)%Z ->
      exists a b,
        sampleAt (ramp 24) (2 * 3 * i) = Some a /\
        sampleAt (ramp 24) (2 * 3 * i + 3) = Some b /\
        sampleAt converted i = Some (Math_round (inject_Z (a + b) / 2)).
Proof.
  assert (Forall isByte (ramp 24)) as Hb.
  { apply Forall_forall. intros x Hx. apply list_elem_of_In in Hx.
    unfold ramp in Hx. apply in_map_iff in Hx as (i & <- & _).
    unfold isByte. pose proof (Nat.mod_upper_bound i 256). lia. }
  split; [exact Hb |]. split; [reflexivity |]. split; [lia |].
  split; [reflexivity |]. split; [discriminate |]. split; [discriminate |].
  apply (stereo_block_mixes_decimated_neighbours (ramp 24) 12 3 2 Hb);
    [reflexivity | lia | reflexivity | discriminate | discriminate].
Defined.

(** * The voice detector: frames it cannot read *)



(** * The responses, in turn *)

(** One frame: a final transcript carries the response at the current
    index and moves the index on; anything else leaves the index. *)
Lemma processVoice_index (b : bool) (now : Z) (s : FakeSTT.t)
    (r : option FakeSTT.Result) (s1 : FakeSTT.t) :
  (0 <= FakeSTT.responseIndex s < 5)%Z ->
  FakeSTT.processVoice b now s = Some (r, s1) ->
  (finalTexts (match r with Some e => [e] | None => [] end)
     = [FakeSTT.responses !! Z.to_nat (FakeSTT.responseIndex s)] /\
   FakeSTT.responseIndex s1 = ((FakeSTT.responseIndex s + 1) mod 5)%Z) \/
  (finalTexts (match r with Some e => [e] | None => [] end) = [] /\
   FakeSTT.responseIndex s1 = FakeSTT.responseIndex s).
Proof.
  intros Hidx. unfold FakeSTT.processVoice.
  destruct b.
  - cbn [FakeSTT.voiceFrames FakeSTT.isProcessing FakeSTT.voiceBuffer
         FakeSTT.silenceFrames FakeSTT.partialText FakeSTT.responseIndex].
    destruct (_ && _).
    + destruct (FakeSTT.getNextResponse _); [| discriminate].
      cbn [bindo]. intros H. injection H as <- <-. right. split; reflexivity.
    + destruct (_ && _).
      * destruct (FakeSTT.getNextResponse _); [| discriminate].
        cbn [bindo]. intros H. injection H as <- <-. right. split; reflexivity.
      * intros H. injection H as <- <-. right. split; reflexivity.
  - destruct (FakeSTT.isProcessing s).
    + cbn [FakeSTT.voiceFrames FakeSTT.isProcessing FakeSTT.voiceBuffer
           FakeSTT.silenceFrames FakeSTT.partialText FakeSTT.responseIndex].
      destruct (_ <=? _)%Z.
      * intros H. injection H as <- <-. left.
        cbn [FakeSTT.reset FakeSTT.responseIndex].
        change (Z.of_nat (List.length FakeSTT.responses)) with 5%Z.
        rewrite Z.rem_mod_nonneg by lia. split; [| reflexivity].
        unfold finalTexts. cbn. unfold FakeSTT.getNextResponse.
        cbn [FakeSTT.responseIndex].
        assert ((FakeSTT.responseIndex s <? 0)%Z = false) as ->
          by (apply Z.ltb_ge; lia).
        reflexivity.
      * intros H. injection H as <- <-. right. split; reflexivity.
    + intros H. injection H as <- <-. right. split; reflexivity.
Qed.

Lemma transcribe_round_robin (frames : list Buf.t) :
  forall (clock : nat -> Z) (i : nat) (s : FakeSTT.t)
         (evs : list FakeSTT.Result) (s' : FakeSTT.t),
    (0 <= FakeSTT.responseIndex s < 5)%Z ->
    TestAudio.transcribe frames clock i s = Some (evs, s') ->
    finalTexts evs
      = map (fun j => FakeSTT.responses
                        !! Z.to_nat ((FakeSTT.responseIndex s + Z.of_nat j) mod 5))
            (seq 0 (List.length (finalTexts evs))) /\
    FakeSTT.responseIndex s'
      = ((FakeSTT.responseIndex s + Z.of_nat (List.length (finalTexts evs))) mod 5)%Z.
Proof.
  induction frames as [| f frames IH]; intros clock i s evs s' Hidx H.
  - cbn in H. injection H as <- <-. cbn. rewrite Z.add_0_r, Z.mod_small by lia.
    auto.
  - cbn [TestAudio.transcribe] in H.
    destruct (FakeSTT.processFrame f (clock i) s) as [[r s1] |] eqn:E1;
      [| discriminate].
    cbn [bindo] in H.
    destruct (TestAudio.transcribe frames clock (S i) s1) as [[evs1 s2] |] eqn:E2;
      [| discriminate].
    cbn [bindo] in H. injection H as <- <-.
    rewrite processFrame_hasVoice in E1.
    destruct (hasVoice f) as [b |]; [| discriminate]. cbn [bindo] in E1.
    assert ((match r with Some e => e :: evs1 | None => evs1 end)
            = (match r with Some e => [e] | None => [] end) ++ evs1) as ->
      by (destruct r; reflexivity).
    rewrite finalTexts_app.
    destruct (processVoice_index b _ s r s1 Hidx E1) as [[Hf Hi1] | [Hf Hi1]];
      rewrite Hf.
    + assert (0 <= FakeSTT.responseIndex s1 < 5)%Z as Hidx1
        by (rewrite Hi1; apply Z.mod_pos_bound; lia).
      destruct (IH clock (S i) s1 evs1 s2 Hidx1 E2) as [Htexts Hi2].
      cbn [app List.length seq map]. split.
      * rewrite Z.add_0_r, Z.mod_small by lia. f_equal.
        rewrite Htexts at 1. rewrite <- seq_shift, map_map.
        apply map_ext. intros j. do 2 f_equal.
        rewrite Hi1, Zplus_mod_idemp_l. f_equal. lia.
      * rewrite Hi2, Hi1, Zplus_mod_idemp_l. f_equal. lia.
    + assert (0 <= FakeSTT.responseIndex s1 < 5)%Z as Hidx1 by (rewrite Hi1; exact Hidx).
      destruct (IH clock (S i) s1 evs1 s2 Hidx1 E2) as [Htexts Hi2].
      cbn [app]. rewrite Hi1 in Htexts, Hi2. auto.
Qed.

(** X14.  The responses are recognized in turn.  In every run of a new
    recognizer over any frames, the [j]-th final transcript (counting from
    0) carries response number [j mod 5] of the fixed list, and afterwards
    the recognizer points at response number [n mod 5], [n] being the
    number of final transcripts. *)
Theorem final_transcripts_cycle_through_responses (frames : list Buf.t)
    (clock : nat -> Z) (evs : list FakeSTT.Result) (s' : FakeSTT.t) :
  TestAudio.transcribe frames clock 0 FakeSTT.new = Some (evs, s') ->
  finalTexts evs
    = map (fun j => FakeSTT.responses !! (j mod 5)%nat)
          (seq 0 (List.length (finalTexts evs))) /\
  FakeSTT.responseIndex s'
    = Z.of_nat (List.length (finalTexts evs) mod 5).
Proof.
  intros H.
  destruct (transcribe_round_robin frames clock 0 FakeSTT.new evs s'
              ltac:(cbn; lia) H) as [Htexts Hidx].
  cbn [FakeSTT.new FakeSTT.responseIndex] in Htexts, Hidx.
  split.
  - rewrite Htexts at 1. apply map_ext. intros j. f_equal.
    rewrite Z.add_0_l. change 5%Z with (Z.of_nat 5).
    rewrite <- Nat2Z.inj_mod. apply Nat2Z.id.
  - rewrite Hidx, Z.add_0_l. change 5%Z with (Z.of_nat 5).
    rewrite <- Nat2Z.inj_mod. reflexivity.
Qed.

Lemma final_transcripts_cycle_through_responses_witness :
  let frames := repeat [0; 64]%Z 25 ++ repeat [0; 0]%Z 15 in
  exists evs s',
    TestAudio.transcribe frames (fun n => Z.of_nat n) 0 FakeSTT.new
      = Some (evs, s') /\
    finalTexts evs
      = map (fun j => FakeSTT.responses !! (j mod 5)%nat)
            (seq 0 (List.length (finalTexts evs))) /\
    FakeSTT.responseIndex s'
      = Z.of_nat (List.length (finalTexts evs) mod 5).
Proof.
  cbv zeta.
  destruct (TestAudio.transcribe (repeat [0; 64]%Z 25 ++ repeat [0; 0]%Z 15)
              (fun n => Z.of_nat n) 0 FakeSTT.new) as [[evs s'] |] eqn:E;
    [| vm_compute in E; discriminate].
  exists evs, s'. split; [reflexivity |].
  exact (final_transcripts_cycle_through_responses _ _ _ _ E).
Defined.

(** * The wave of a reply *)

Section Wave.
Context {sine : FakeTTS.Sine}.

Lemma frameLoop_isByte (frequency : Z) (n : nat) :
  forall (i : Z) (buffer : Buf.t) (s : FakeTTS.t) (b' : Buf.t) (s' : FakeTTS.t),
    FakeTTS.frameLoop frequency n i buffer s = Some (b', s') ->
    Forall isByte buffer -> Forall isByte b'.
Proof.
  induction n as [| n IH]; intros i buffer s b' s' H Hb.
  - cbn in H. injection H as <- <-. exact Hb.
  - cbn [FakeTTS.frameLoop] in H.
    destruct (Buf.writeInt16LE _ _ _) as [b1 |] eqn:Ew; [| discriminate].
    cbn [bindo] in H.
    apply (IH _ _ _ _ _ H). eapply writeInt16LE_isByte; eassumption.
Qed.

Lemma generateFrame_wave (frequency : Z) (s : FakeTTS.t) :
  exists pcmFrame s',
    FakeTTS.generateFrame frequency s = Some (pcmFrame, s') /\
    List.length pcmFrame = 640%nat /\
    Forall isByte pcmFrame /\
    (forall j : nat,
       (j < 320)%nat ->
       sampleAt pcmFrame (Z.of_nat j)
       = Some (FakeTTS.intSample
                 (Nat.iter j (FakeTTS.advance frequency) (FakeTTS.phase s)))) /\
    FakeTTS.phase s'
      = Nat.iter 320 (FakeTTS.advance frequency) (FakeTTS.phase s).
Proof.
  destruct (generateFrame_total frequency s) as (f & s' & E & L).
  exists f, s'. split; [exact E |]. split; [exact L |].
  unfold FakeTTS.generateFrame in E.
  change (Buf.alloc (inject_Z (FakeTTS.frameSize * 2)))
    with (Some (repeat 0%Z 640)) in E.
  cbn [bindo] in E.
  destruct (frameLoop_samples frequency _ 0 _ s f s' ltac:(lia) E)
    as (Hnew & _ & Hphase).
  split; [| split].
  - apply (frameLoop_isByte _ _ _ _ _ _ _ E). apply Forall_isByte_zeros.
  - intros j Hj. unfold sampleAt.
    replace (2 * Z.of_nat j)%Z with ((0 + Z.of_nat j) * 2)%Z by lia.
    apply Hnew. exact Hj.
  - exact Hphase.
Qed.

(** X15.  A frame of the synthesizer.  [generateFrame] never throws; the
    frame has 640 bytes, which are 320 signed 16-bit little-endian samples;
    sample [j] is the sample of the phase after [j] steps, and the
    synthesizer is left with the phase after 320 steps, so that the next
    frame continues the wave. *)
Theorem generateFrame_continues_the_wave (frequency : Z) (s : FakeTTS.t) :
  exists pcmFrame s',
    FakeTTS.generateFrame frequency s = Some (pcmFrame, s') /\
    List.length pcmFrame = 640%nat /\
    Forall isByte pcmFrame /\
    (forall j : nat,
       (j < 320)%nat ->
       sampleAt pcmFrame (Z.of_nat j)
       = Some (FakeTTS.intSample
                 (Nat.iter j (FakeTTS.advance frequency) (FakeTTS.phase s)))) /\
    FakeTTS.phase s'
      = Nat.iter 320 (FakeTTS.advance frequency) (FakeTTS.phase s).
Proof. apply generateFrame_wave. Qed.

Lemma collect_wave (n : nat) :
  forall (l : FakeTTS.Locals) (s : FakeTTS.t) (acc : list Buf.t) (fuel : nat),
    Z.of_nat n = Z.max 0 (FakeTTS.totalFrames l - (FakeTTS.frameIndex l + 1)) ->
    (n < fuel)%nat ->
    exists chunks s',
      TestAudio.collect fuel (FakeTTS.SuspendedYield l) s acc
        = Some (acc ++ chunks, s') /\
      List.length chunks = n /\
      Forall (fun c => List.length c = 640%nat) chunks /\
      (forall (m : nat) (c : Buf.t) (j : nat),
         chunks !! m = Some c -> (j < 320)%nat ->
         sampleAt c (Z.of_nat j)
         = Some (FakeTTS.intSample
                   (Nat.iter (320 * m + j)
                      (FakeTTS.advance (FakeTTS.frequency l)) (FakeTTS.phase s)))) /\
      FakeTTS.phase s'
        = Nat.iter (320 * n) (FakeTTS.advance (FakeTTS.frequency l))
            (FakeTTS.phase s).
Proof.
  induction n as [| n IH]; intros l s acc fuel Hn Hfuel;
    (destruct fuel as [| fuel]; [lia |]);
    cbn [TestAudio.collect]; unfold FakeTTS.next, FakeTTS.loopHead;
    cbn [FakeTTS.frameIndex FakeTTS.totalFrames FakeTTS.frequency].
  - destruct (FakeTTS.frameIndex l + 1 <? FakeTTS.totalFrames l)%Z eqn:E;
      [apply Z.ltb_lt in E; lia |].
    cbn [bindo]. exists [], s. rewrite app_nil_r.
    split; [reflexivity |]. split; [reflexivity |]. split; [constructor |].
    split; [intros m c j Hm; discriminate | reflexivity].
  - destruct (FakeTTS.frameIndex l + 1 <? FakeTTS.totalFrames l)%Z eqn:E;
      [| apply Z.ltb_ge in E; lia].
    apply Z.ltb_lt in E.
    destruct (generateFrame_wave (FakeTTS.frequency l) s)
      as (f & s1 & Ef & Lf & _ & Hf & Hp1).
    rewrite Ef. cbn [bindo FakeTTS.delayElapsed].
    destruct (IH (FakeTTS.mkLocals (FakeTTS.totalFrames l) (FakeTTS.frequency l)
                    (FakeTTS.frameIndex l + 1)) s1 (acc ++ [f]) fuel)
      as (chunks & s' & Ec & Lc & Hall & Hs & Hp).
    + cbn. lia.
    + lia.
    + cbn [FakeTTS.frequency] in Hs, Hp.
      exists (f :: chunks), s'. rewrite Ec, <- app_assoc.
      split; [reflexivity |]. split; [cbn; lia |].
      split; [constructor; assumption |]. split.
      * intros [| m] c j Hm Hj.
        -- cbn in Hm. injection Hm as <-.
           rewrite Nat.mul_0_r, Nat.add_0_l. apply Hf. exact Hj.
        -- cbn in Hm. rewrite (Hs m c j Hm Hj), Hp1, <- Nat.iter_add.
           replace (320 * m + j + 320)%nat with (320 * S m + j)%nat by lia.
           reflexivity.
      * rewrite Hp, Hp1, <- Nat.iter_add.
        replace (320 * n + 320)%nat with (320 * S n)%nat by lia.
        reflexivity.
Qed.

Lemma length_concat_640 (chunks : list Buf.t) :
  Forall (fun c => List.length c = 640%nat) chunks ->
  List.length (List.concat chunks) = (640 * List.length chunks)%nat.
Proof.
  induction 1 as [| c chunks Hc _ IH]; [reflexivity |].
  cbn [List.concat List.length]. rewrite length_app, Hc, IH. lia.
Qed.

Lemma lookup_concat_640 (chunks : list Buf.t) :
  Forall (fun c => List.length c = 640%nat) chunks ->
  forall (m : nat) (c : Buf.t) (q : nat),
    chunks !! m = Some c -> (q < 640)%nat ->
    List.concat chunks !! (640 * m + q)%nat = c !! q.
Proof.
  induction 1 as [| c0 chunks Hc _ IH]; intros m c q Hm Hq; [discriminate |].
  cbn [List.concat]. destruct m as [| m].
  - cbn in Hm. injection Hm as <-.
    rewrite Nat.mul_0_r, Nat.add_0_l, lookup_app_l by lia. reflexivity.
  - cbn in Hm. rewrite lookup_app_r by lia.
    replace (640 * S m + q - List.length c0)%nat with (640 * m + q)%nat by lia.
    apply IH; assumption.
Qed.

(** X16.  The complete audio of a reply.  [generateCompleteAudio] returns
    for every text; the buffer has [640 * totalFrames] bytes, at least
    64000 (two seconds), and it is one continuous wave: its [k]-th sample
    is the sample of the phase after [k] steps from where the synthesizer
    stood, across all frame boundaries.  The synthesizer is left with the
    phase after the last sample. *)
Theorem generateCompleteAudio_is_one_wave (text : string) (s : FakeTTS.t) :
  let total := FakeTTS.computeTotalFrames text in
  let step := FakeTTS.advance (FakeTTS.computeFrequency text) in
  exists audio s',
    generateCompleteAudio text s = Some (audio, s') /\
    Buf.length audio = (640 * total)%Z /\
    (64000 <= Buf.length audio)%Z /\
    (forall k : nat,
       (Z.of_nat k < 320 * total)%Z ->
       sampleAt audio (Z.of_nat k)
       = Some (FakeTTS.intSample (Nat.iter k step (FakeTTS.phase s)))) /\
    FakeTTS.phase s' = Nat.iter (320 * Z.to_nat total) step (FakeTTS.phase s).
Proof.
  intros total step.
  assert (100 <= total)%Z as Htotal
    by (subst total; destruct (computeTotalFrames_closed text) as [_ ->]; lia).
  unfold generateCompleteAudio, TestAudio.audioChunksOf.
  set (n := Z.to_nat total).
  destruct (collect_wave n
              (FakeTTS.mkLocals total (FakeTTS.computeFrequency text) (-1))
              s [] (S n)) as (chunks & s' & E & Hlen & Hall & Hs & Hp).
  { cbn [FakeTTS.totalFrames FakeTTS.frameIndex]. subst n. lia. }
  { lia. }
  cbn [FakeTTS.frequency] in Hs, Hp. fold step in Hs, Hp.
  change (TestAudio.collect (S n)
            (FakeTTS.SuspendedYield
               (FakeTTS.mkLocals total (FakeTTS.computeFrequency text) (-1)))
            s [])
    with (TestAudio.collect (S n) (FakeTTS.SuspendedStart text) s []) in E.
  fold total n. rewrite E. cbn [bindo app].
  exists (List.concat chunks), s'. split; [reflexivity |].
  assert (Buf.length (List.concat chunks) = 640 * total)%Z as Hbytes.
  { unfold Buf.length. rewrite length_concat_640 by exact Hall. lia. }
  split; [exact Hbytes |]. split; [lia |]. split; [| exact Hp].
  intros k Hk.
  pose proof (Nat.div_mod_eq k 320) as Hdm.
  pose proof (Nat.mod_upper_bound k 320 ltac:(lia)) as Hmod.
  destruct (lookup_lt_is_Some_2 chunks (k / 320)) as [c Hc].
  { rewrite Hlen. subst n. apply Nat.Div0.div_lt_upper_bound. lia. }
  assert (Nat.iter k step (FakeTTS.phase s)
          = Nat.iter (320 * (k / 320) + k mod 320) step (FakeTTS.phase s)) as ->
    by (rewrite <- Hdm; reflexivity).
  rewrite <- (Hs (k / 320)%nat c (k mod 320)%nat Hc Hmod).
  apply sampleAt_bytes; [lia | lia | |].
  - replace (Z.to_nat (2 * Z.of_nat k)) with (640 * (k / 320) + 2 * (k mod 320))%nat by lia.
    replace (Z.to_nat (2 * Z.of_nat (k mod 320))) with (2 * (k mod 320))%nat by lia.
    apply lookup_concat_640; [exact Hall | exact Hc | lia].
  - replace (Z.to_nat (2 * Z.of_nat k + 1)) with (640 * (k / 320) + (2 * (k mod 320) + 1))%nat by lia.
    replace (Z.to_nat (2 * Z.of_nat (k mod 320) + 1)) with (2 * (k mod 320) + 1)%nat by lia.
    apply lookup_concat_640; [exact Hall | exact Hc | lia].
Qed.

End Wave.

(** * The length and the pitch of a reply *)

Lemma split_length (text : string) :
  List.length (split " " text) = S (countChar " " text).
Proof.
  induction text as [| c rest IH]; [reflexivity |].
  cbn [split countChar]. destruct (Ascii.eqb c " ").
  - cbn [List.length]. rewrite IH. reflexivity.
  - destruct (split " " rest) as [| w ws]; [discriminate |].
    cbn [List.length] in *. lia.
Qed.

(** X17.  The parameters of a reply in closed form.  The number of words
    is one more than the number of space characters of the text (so the
    empty text has one word, and two spaces in a row count an empty word);
    the reply has [max(100, floor(50 * words / 3))] frames, never fewer than
    100; and the frequency is [440 + 10 * (length mod 20)] Hz, between 440
    and 630 Hz. *)
Theorem reply_parameters_closed_form (text : string) :
  let words := Z.of_nat (S (countChar " " text)) in
  FakeTTS.computeTotalFrames text = Z.max 100 (50 * words / 3) /\
  (100 <= FakeTTS.computeTotalFrames text)%Z /\
  FakeTTS.computeFrequency text
    = (440 + 10 * (Z.of_nat (String.length text) mod 20))%Z /\
  (440 <= FakeTTS.computeFrequency text <= 630)%Z.
Proof.
  intros words.
  destruct (computeTotalFrames_closed text) as [_ Hmax].
  cbv zeta in Hmax. rewrite split_length in Hmax. fold words in Hmax.
  assert (FakeTTS.computeFrequency text
          = 440 + 10 * (Z.of_nat (String.length text) mod 20))%Z as Hf.
  { unfold FakeTTS.computeFrequency, FakeTTS.baseFrequency. f_equal.
    rewrite Z.rem_mod_nonneg by lia.
    replace 200%Z with (Z.of_nat (String.length text) * 0 + 10 * 20)%Z by lia.
    set (len := Z.of_nat (String.length text)).
    pose proof (Z.mod_pos_bound len 20 ltac:(lia)) as Hb.
    pose proof (Z.div_mod len 20 ltac:(lia)) as Hdm.
    symmetry. apply Z.mod_unique with (q := (len / 20)%Z); lia. }
  split; [exact Hmax |]. split; [lia |]. split; [exact Hf |].
  rewrite Hf. pose proof (Z.mod_pos_bound (Z.of_nat (String.length text)) 20).
  lia.
Qed.

(** * Every operation of the session is a sequence of single updates *)

Section Steps.
Context {sine : FakeTTS.Sine}.
Import StateMachine.

Ltac atom c := match goal with |- atomic ?w0 _ => exact (c w0) end.
Ltac step c := eapply rtc_l; [atom c |].
Ltac last_step c := apply rtc_once; atom c.

Lemma stepwise_bind {A B : Type} (m : Session.M A) (f : A -> Session.M B) :
  stepwise m -> (forall a, stepwise (f a)) -> stepwise (Session.bind m f).
Proof.
  intros Hm Hf w b w' H. unfold Session.bind in H.
  destruct (m w) as [[a w1] |] eqn:E; [| discriminate].
  etrans; [exact (Hm w a w1 E) | exact (Hf a w1 b w' H)].
Qed.

Lemma stepwise_ret {A : Type} (a : A) : stepwise (Session.ret a).
Proof. intros w x w' H. injection H as <- <-. reflexivity. Qed.

Lemma stepwise_get : stepwise Session.get.
Proof. intros w x w' H. injection H as <- <-. reflexivity. Qed.

Lemma stepwise_aborted (h : nat) : stepwise (Session.aborted h).
Proof. intros w x w' H. injection H as <- <-. reflexivity. Qed.

Lemma stepwise_lift {A : Type} (o : option A) : stepwise (Session.lift o).
Proof.
  intros w x w' H. unfold Session.lift in H.
  destruct o; [| discriminate]. injection H as <- <-. reflexivity.
Qed.

Lemma stepwise_emit (e : Session.Effect) : stepwise (Session.emit e).
Proof. intros w x w' H. injection H as <- <-. last_step (fun w0 => atomic_emit w0 e). Qed.

Lemma stepwise_now : stepwise Session.now.
Proof. intros w x w' H. injection H as <- <-. last_step atomic_now. Qed.

Lemma stepwise_pushTask (k : Session.Task) : stepwise (Session.pushTask k).
Proof. intros w x w' H. injection H as <- <-. last_step (fun w0 => atomic_push w0 k). Qed.

Lemma stepwise_abort (h : nat) : stepwise (Session.abort h).
Proof.
  intros w x w' H. injection H as <- <-.
  step (fun w0 => atomic_abort w0 h).
  last_step (fun w0 => atomic_emit w0 (Session.Aborted h)).
Qed.

Lemma stepwise_set_isProcessingAudio (b : bool) :
  stepwise (Session.modify (Session.set_isProcessingAudio b)).
Proof.
  intros w x w' H. injection H as <- <-.
  last_step (fun w0 => atomic_isProcessingAudio w0 b).
Qed.

Lemma stepwise_set_audioBuffer :
  stepwise (Session.modify (Session.set_audioBuffer [])).
Proof. intros w x w' H. injection H as <- <-. last_step atomic_flush. Qed.

Lemma stepwise_set_tts (g : Session.t -> FakeTTS.t) :
  stepwise (Session.modify (fun s => Session.set_tts (g s) s)).
Proof.
  intros w x w' H. injection H as <- <-.
  last_step (fun w0 => atomic_tts w0 (g (Session.self w))).
Qed.

Lemma stepwise_set_stt (g : Session.t -> FakeSTT.t) :
  stepwise (Session.modify (fun s => Session.set_stt (g s) s)).
Proof.
  intros w x w' H. injection H as <- <-.
  last_step (fun w0 => atomic_stt w0 (g (Session.self w))).
Qed.

Lemma stepwise_logEvent (ty : PerformanceLogger.EventType)
    (d : PerformanceLogger.Data) :
  sessionLogs ty d -> stepwise (Session.logEvent ty d).
Proof.
  intros Hlog w x w' H.
  unfold Session.logEvent, Session.bind, Session.now, Session.modify,
    Session.emit in H.
  injection H as <- <-.
  step atomic_now.
  step (fun w0 => atomic_log w0 ty d (Session.clock w (Session.ticks w)) Hlog).
  last_step (fun w0 => atomic_emit w0 (Session.Logged ty)).
Qed.

Lemma stepwise_transition (newState : SessionState) (md : Metadata) :
  stepwise (Session.transition newState md).
Proof.
  intros w x w' H.
  unfold Session.transition, Session.bind, Session.get in H.
  destruct (isValidTransition _ newState) eqn:Hv.
  - unfold Session.now, Session.modify, Session.emit, Session.ret in H.
    injection H as <- <-.
    step atomic_now.
    eapply rtc_l;
      [match goal with
       | |- atomic ?w0 _ =>
           exact (atomic_transition w0 newState md
                    (Session.clock w (Session.ticks w)) Hv)
       end |].
    last_step (fun w0 => atomic_emit w0
                 (Session.Transitioned
                    (state (Session.stateMachine (Session.self w))) newState)).
  - unfold Session.emit, Session.ret in H. injection H as <- <-.
    last_step (fun w0 => atomic_emit w0
                 (Session.Rejected
                    (state (Session.stateMachine (Session.self w))) newState)).
Qed.

Lemma stepwise_new_controller {A : Type} (k : nat -> Session.M A) :
  (forall h, stepwise (k h)) ->
  stepwise (Session.bind Session.newAbortController
              (fun h => Session.bind
                          (Session.modify (Session.set_ttsAbortController (Some h)))
                          (fun _ => k h))).
Proof.
  intros Hk w x w' H.
  unfold Session.bind, Session.newAbortController, Session.modify in H.
  cbn [Abort.create] in H.
  step atomic_alloc.
  step (fun w0 => atomic_emit w0 (Session.Allocated (List.length (Session.signals w)))).
  assert (List.length (Session.signals w)
          < List.length (Session.signals w ++ [false]))%nat as Hlt
    by (rewrite length_app; cbn; lia).
  eapply rtc_l;
    [match goal with
     | |- atomic ?w0 _ =>
         exact (atomic_controller w0 (List.length (Session.signals w)) Hlt)
     end |].
  exact (Hk _ _ _ _ H).
Qed.

Lemma stepwise_replace_controller :
  stepwise (Session.bind Session.newAbortController
              (fun h => Session.modify (Session.set_ttsAbortController (Some h)))).
Proof.
  intros w x w' H.
  unfold Session.bind, Session.newAbortController, Session.modify in H.
  cbn [Abort.create] in H. injection H as <- <-.
  step atomic_alloc.
  step (fun w0 => atomic_emit w0 (Session.Allocated (List.length (Session.signals w)))).
  assert (List.length (Session.signals w)
          < List.length (Session.signals w ++ [false]))%nat as Hlt
    by (rewrite length_app; cbn; lia).
  apply rtc_once.
  match goal with
  | |- atomic ?w0 _ =>
      exact (atomic_controller w0 (List.length (Session.signals w)) Hlt)
  end.
Qed.

Lemma stepwise_start : stepwise Session.start.
Proof.
  unfold Session.start, Session.startAudioProcessing.
  apply stepwise_bind; [apply stepwise_logEvent; constructor | intros _].
  apply stepwise_bind; [apply stepwise_transition | intros _].
  apply stepwise_bind; [apply stepwise_set_isProcessingAudio | intros _].
  apply stepwise_emit.
Qed.

Lemma stepwise_finishedSpeaking : stepwise Session.finishedSpeaking.
Proof.
  unfold Session.finishedSpeaking.
  apply stepwise_bind; [apply stepwise_logEvent; constructor | intros _].
  apply stepwise_bind; [apply stepwise_transition | intros _].
  apply stepwise_bind;
    [apply (stepwise_set_tts (fun s => FakeTTS.reset (Session.tts s))) | intros _].
  apply stepwise_emit.
Qed.

Lemma stepwise_requestChunk (k : Session.Task) : stepwise (Session.requestChunk k).
Proof.
  unfold Session.requestChunk.
  apply stepwise_bind; [apply stepwise_get | intros s].
  apply stepwise_bind; [apply stepwise_aborted | intros a].
  destruct (FakeTTS.next a (Session.generator k) (Session.tts s))
    as [[[g' reply] tts'] |]; [| apply stepwise_ret].
  apply stepwise_bind; [apply (stepwise_set_tts (fun _ => tts')) | intros _].
  destruct reply; try apply stepwise_pushTask. apply stepwise_finishedSpeaking.
Qed.

Lemma stepwise_sendAudioToBrowser (pcm : Buf.t) :
  stepwise (Session.sendAudioToBrowser pcm).
Proof.
  unfold Session.sendAudioToBrowser.
  apply stepwise_bind; [apply stepwise_get | intros s].
  destruct (negb (Session.audioHandler s)); apply stepwise_emit.
Qed.

Lemma stepwise_consumeChunk (k : Session.Task) (pcm : Buf.t) :
  stepwise (Session.consumeChunk k pcm).
Proof.
  unfold Session.consumeChunk.
  apply stepwise_bind.
  - destruct (Session.firstChunk k); [| apply stepwise_ret].
    apply stepwise_bind; [apply stepwise_now | intros n].
    apply stepwise_logEvent. constructor.
  - intros _. apply stepwise_bind; [apply stepwise_sendAudioToBrowser | intros _].
    apply stepwise_bind; [apply stepwise_aborted | intros a].
    destruct a; [apply stepwise_ret | apply stepwise_requestChunk].
Qed.

Lemma stepwise_timerFired (i : nat) : stepwise (Session.timerFired i).
Proof.
  intros w a w' H. unfold Session.timerFired in H.
  destruct (Session.tasks w !! i) as [k |].
  - destruct (FakeTTS.delayElapsed (Session.generator k)) as [g' [| pcm |]];
      try (injection H as <- <-; reflexivity).
    step (fun w0 => atomic_pop w0 i).
    exact (stepwise_consumeChunk _ _ _ _ _ H).
  - injection H as <- <-. reflexivity.
Qed.

Lemma stepwise_generateResponse (userText : option string) :
  stepwise (Session.generateResponse userText).
Proof.
  unfold Session.generateResponse.
  apply stepwise_bind; [apply stepwise_logEvent; constructor | intros _].
  apply stepwise_bind; [apply stepwise_transition | intros _].
  apply (stepwise_new_controller
           (fun h => Session.bind Session.now
                       (fun ttsStartTime =>
                          Session.requestChunk
                            (Session.mkTask
                               (FakeTTS.SuspendedStart
                                  ("You said: " ++ Session.interpolate userText)%string)
                               h ttsStartTime true 0)))).
  intros h. apply stepwise_bind; [apply stepwise_now | intros t].
  apply stepwise_requestChunk.
Qed.

Lemma stepwise_handleBargeIn : stepwise Session.handleBargeIn.
Proof.
  unfold Session.handleBargeIn.
  apply stepwise_bind; [apply stepwise_now | intros t0].
  apply stepwise_bind; [apply stepwise_transition | intros _].
  apply stepwise_bind; [apply stepwise_get | intros s].
  apply stepwise_bind.
  { destruct (Session.ttsAbortController s) as [h |]; [| apply stepwise_ret].
    apply stepwise_bind; [apply stepwise_abort | intros _].
    apply stepwise_replace_controller. }
  intros _.
  apply stepwise_bind; [apply stepwise_set_audioBuffer | intros _].
  apply stepwise_bind; [apply stepwise_emit | intros _].
  apply stepwise_bind;
    [apply (stepwise_set_tts (fun s => FakeTTS.reset (Session.tts s))) | intros _].
  apply stepwise_bind; [apply stepwise_emit | intros _].
  apply stepwise_bind; [apply stepwise_transition | intros _].
  apply stepwise_bind;
    [apply (stepwise_set_stt (fun s => FakeSTT.reset (Session.stt s))) | intros _].
  apply stepwise_bind; [apply stepwise_emit | intros _].
  apply stepwise_bind; [apply stepwise_now | intros n].
  apply stepwise_logEvent. constructor.
Qed.

Lemma stepwise_processAudioFrame (audioFrame : Buf.t) :
  stepwise (Session.processAudioFrame audioFrame).
Proof.
  intros w a w' H. unfold Session.processAudioFrame in H.
  apply bind_inv in H as (s & w1 & H1 & H).
  unfold Session.get in H1. injection H1 as <- <-.
  destruct (is_ SPEAKING (Session.stateMachine (Session.self w))).
  - apply bind_inv in H as (rms & w1 & H1 & H).
    unfold Session.lift in H1.
    destruct (FakeSTT.calculateRMS audioFrame); [| discriminate].
    injection H1 as <- <-.
    destruct (FakeSTT.exceeds _ _).
    + exact (stepwise_handleBargeIn _ _ _ H).
    + injection H as _ <-. reflexivity.
  - destruct (negb (is_ LISTENING (Session.stateMachine (Session.self w)))).
    + injection H as _ <-. reflexivity.
    + destruct (FakeSTT.processFrame audioFrame _ _) as [[[result |] stt'] |];
        [| | discriminate].
      * step (fun w0 => atomic_stt w0 stt').
        step atomic_now.
        destruct (FakeSTT.type result).
        -- exact (stepwise_logEvent _ _ (logs_stt_partial _) _ _ _ H).
        -- revert H. apply stepwise_bind;
             [apply stepwise_logEvent; constructor | intros _].
           apply stepwise_bind; [apply stepwise_transition | intros _].
           apply stepwise_generateResponse.
      * injection H as _ <-. last_step (fun w0 => atomic_stt w0 stt').
Qed.

Lemma stepwise_close : stepwise Session.close.
Proof.
  unfold Session.close.
  apply stepwise_bind; [apply stepwise_get | intros s].
  apply stepwise_bind.
  { destruct (Session.ttsAbortController s); [apply stepwise_abort | apply stepwise_ret]. }
  intros _. apply stepwise_bind.
  { destruct (Session.peerConnection s); [apply stepwise_emit | apply stepwise_ret]. }
  intros _. apply stepwise_bind; [apply stepwise_set_isProcessingAudio | intros _].
  apply stepwise_bind; [apply stepwise_emit | intros _].
  apply stepwise_logEvent. constructor.
Qed.

Lemma stepwise_handle (i : Input) : stepwise (handle i).
Proof.
  destruct i; cbn [handle].
  - apply stepwise_start.
  - apply stepwise_processAudioFrame.
  - apply stepwise_timerFired.
  - apply stepwise_close.
Qed.

Lemma runInputs_steps (inputs : list Input) :
  forall w, rtc atomic w (runInputs inputs w).
Proof.
  induction inputs as [| i inputs IH]; intros w; [reflexivity |].
  cbn [runInputs fold_left]. etrans; [| apply IH].
  unfold runM. destruct (handle i w) as [[a w'] |] eqn:E; [| reflexivity].
  exact (stepwise_handle i _ _ _ E).
Qed.

End Steps.

(** * What holds in every world a session reaches *)

Section Invariants.
Context {sine : FakeTTS.Sine}.
Import StateMachine.

Lemma rtc_atomic_ind (P : Session.World -> Session.World -> Prop) :
  (forall w, P w w) ->
  (forall w1 w2 w3, P w1 w2 -> P w2 w3 -> P w1 w3) ->
  (forall w w', atomic w w' -> P w w') ->
  forall w w', rtc atomic w w' -> P w w'.
Proof.
  intros Hrefl Htrans Hstep w w' H.
  induction H as [| w1 w2 w3 H12 _ IH]; [apply Hrefl |].
  eapply Htrans; [apply Hstep; exact H12 | exact IH].
Qed.

Lemma atomic_grows (w w' : Session.World) : atomic w w' -> grows w w'.
Proof.
  intros H. unfold grows.
  destruct H; cbn [Session.self Session.signals Session.ticks Session.logger
    Session.stateMachine Session.peerConnection Session.audioHandler
    Session.set_logger Session.set_stateMachine Session.set_isProcessingAudio
    Session.set_ttsAbortController Session.set_audioBuffer Session.set_tts
    Session.set_stt PerformanceLogger.logEvent PerformanceLogger.logs];
    repeat split; try reflexivity; try lia;
    try (apply prefix_app_r; reflexivity).
  - destruct (transition_path newState md n
                (Session.stateMachine (Session.self w))) as (h & -> & _).
    apply prefix_app_r. reflexivity.
  - rewrite length_app. lia.
  - unfold Abort.abort. rewrite length_insert. lia.
Qed.

Lemma grows_refl (w : Session.World) : grows w w.
Proof. unfold grows. repeat split; reflexivity. Qed.

Lemma grows_trans (w1 w2 w3 : Session.World) :
  grows w1 w2 -> grows w2 w3 -> grows w1 w3.
Proof.
  unfold grows. intros (A1 & B1 & C1 & D1 & E1 & F1) (A2 & B2 & C2 & D2 & E2 & F2).
  split; [etrans; eassumption |]. split; [etrans; eassumption |].
  split; [lia |]. split; [lia |]. split; congruence.
Qed.

(** X18.  The records of a session are append-only.  Whatever the server
    does with a session (starting it, feeding it frames, firing its
    timers, closing it, in any order and any number of times), the log of
    performance events and the history of the state machine only grow at
    the end: no entry is ever removed or rewritten.  Abort controllers are
    never discarded, the clock is only read forwards, and the references
    to the peer connection and to the audio handler never change. *)
Theorem session_records_are_append_only (inputs : list Input)
    (w : Session.World) :
  let w' := runInputs inputs w in
  PerformanceLogger.logs (Session.logger (Session.self w))
    `prefix_of` PerformanceLogger.logs (Session.logger (Session.self w')) /\
  history (Session.stateMachine (Session.self w))
    `prefix_of` history (Session.stateMachine (Session.self w')) /\
  (List.length (Session.signals w) <= List.length (Session.signals w'))%nat /\
  (Session.ticks w <= Session.ticks w')%nat /\
  Session.peerConnection (Session.self w') = Session.peerConnection (Session.self w) /\
  Session.audioHandler (Session.self w') = Session.audioHandler (Session.self w).
Proof.
  intros w'.
  exact (rtc_atomic_ind grows grows_refl grows_trans atomic_grows _ _
           (runInputs_steps inputs w)).
Qed.

Lemma atomic_path (w w' : Session.World) :
  atomic w w' ->
  exists h,
    history (Session.stateMachine (Session.self w'))
      = history (Session.stateMachine (Session.self w)) ++ h /\
    path (state (Session.stateMachine (Session.self w))) h
      = Some (state (Session.stateMachine (Session.self w'))).
Proof.
  intros H.
  destruct H; cbn [Session.self Session.stateMachine Session.set_logger
    Session.set_stateMachine Session.set_isProcessingAudio
    Session.set_ttsAbortController Session.set_audioBuffer Session.set_tts
    Session.set_stt];
    try (exists []; rewrite app_nil_r; split; reflexivity).
  apply transition_path.
Qed.

Lemma steps_path (w w' : Session.World) :
  rtc atomic w w' ->
  exists h,
    history (Session.stateMachine (Session.self w'))
      = history (Session.stateMachine (Session.self w)) ++ h /\
    path (state (Session.stateMachine (Session.self w))) h
      = Some (state (Session.stateMachine (Session.self w'))).
Proof.
  apply (rtc_atomic_ind
           (fun w w' =>
              exists h,
                history (Session.stateMachine (Session.self w'))
                  = history (Session.stateMachine (Session.self w)) ++ h /\
                path (state (Session.stateMachine (Session.self w))) h
                  = Some (state (Session.stateMachine (Session.self w'))))).
  - intros w0. exists []. rewrite app_nil_r. split; reflexivity.
  - intros w1 w2 w3 (h1 & E1 & P1) (h2 & E2 & P2).
    exists (h1 ++ h2). rewrite E2, E1, <- app_assoc. split; [reflexivity |].
    rewrite (path_app _ _ _ _ P1). exact P2.
  - apply atomic_path.
Qed.

(** X19.  The history of a session is the path it took.  In every world a
    new session can reach, the history of its state machine starts in
    [IDLE], each entry starts in the state where the entry before ended,
    each entry is a pair of the transition table, and the last entry ends
    in the current state: the controller never records a transition the
    table forbids, and never changes state without recording it. *)
Theorem session_history_is_its_path (inputs : list Input) (pc ah : bool)
    (clock : nat -> Z) :
  let w := runInputs inputs (Session.newWorld pc ah clock) in
  path IDLE (Session.getMetrics w).1.2 = Some (Session.getMetrics w).1.1.
Proof.
  intros w.
  destruct (steps_path _ _ (runInputs_steps inputs (Session.newWorld pc ah clock)))
    as (h & Hh & Hp).
  fold w in Hh, Hp. cbn in Hh, Hp.
  unfold Session.getMetrics, getHistory, getState. cbn [fst snd].
  rewrite Hh. exact Hp.
Qed.



Lemma sumOf_defined (array : list (option Z)) :
  Forall is_Some array -> is_Some (PerformanceLogger.sumOf array).
Proof.
  unfold PerformanceLogger.sumOf.
  assert (is_Some (Some 0%Z)) as Hacc by (eexists; reflexivity).
  revert Hacc. generalize (Some 0%Z). intros acc Hacc Hall. revert acc Hacc.
  induction Hall as [| val array [y ->] _ IH]; intros acc [x ->].
  - eexists; reflexivity.
  - cbn [fold_left]. apply IH. eexists; reflexivity.
Qed.

Lemma maxOf_defined (array : list (option Z)) :
  Forall is_Some array -> is_Some (PerformanceLogger.maxOf array).
Proof.
  induction 1 as [| val array [y ->] _ [m IH]].
  - eexists; reflexivity.
  - cbn [PerformanceLogger.maxOf fold_right].
    fold (PerformanceLogger.maxOf array). rewrite IH. eexists; reflexivity.
Qed.

Lemma calculateAverage_defined (array : list (option Z)) :
  Forall is_Some array -> is_Some (PerformanceLogger.calculateAverage array).
Proof.
  intros Hall. unfold PerformanceLogger.calculateAverage.
  destruct (List.length array =? 0)%nat; [eexists; reflexivity |].
  destruct (sumOf_defined array Hall) as [x ->]. eexists; reflexivity.
Qed.

Lemma atomic_loggerInv (w w' : Session.World) :
  atomic w w' -> loggerInv w -> loggerInv w'.
Proof.
  intros H (Hstt & Hbarge & Hsome & Hbuf). unfold loggerInv.
  destruct H; cbn [Session.self Session.logger Session.audioBuffer
    Session.set_logger Session.set_stateMachine Session.set_isProcessingAudio
    Session.set_ttsAbortController Session.set_audioBuffer Session.set_tts
    Session.set_stt]; auto.
  destruct H; cbn [PerformanceLogger.logEvent PerformanceLogger.logs
    PerformanceLogger.metrics PerformanceLogger.updateMetrics
    PerformanceLogger.sttLatencies PerformanceLogger.bargeInLatencies
    PerformanceLogger.d_latency PerformanceLogger.latencyData
    PerformanceLogger.noData PerformanceLogger.textData];
    rewrite List.filter_app, length_app; cbn [List.filter isBargeIn
      PerformanceLogger.eventType List.length];
    repeat split; try assumption; try lia.
  - rewrite length_app. cbn [List.length]. lia.
  - apply Forall_app. split; [assumption |]. repeat constructor.
    eexists; reflexivity.
Qed.

(** X21.  The metrics of a session.  In every world a new session can
    reach, no speech-to-text latency has been recorded, since the
    controller logs its final transcripts without one, so the average
    speech-to-text latency reported is 0; the number of barge-ins reported
    is the number of barge-in events in the log; every barge-in was logged
    with a latency, so the average and the largest barge-in latency
    reported are numbers, not [NaN]; and the queue of outbound audio that
    a barge-in clears is empty, since nothing is ever put into it. *)
Theorem session_metrics_invariants (inputs : list Input) (pc ah : bool)
    (clock : nat -> Z) :
  let s := Session.self (runInputs inputs (Session.newWorld pc ah clock)) in
  let summary := PerformanceLogger.getMetrics (Session.logger s) in
  PerformanceLogger.sttLatencies (PerformanceLogger.summaryMetrics summary) = [] /\
  PerformanceLogger.avgSttLatency summary = Some 0%Q /\
  PerformanceLogger.bargeInCount summary
    = Z.of_nat (List.length
                  (List.filter isBargeIn
                     (PerformanceLogger.getLogs (Session.logger s)))) /\
  is_Some (PerformanceLogger.avgBargeInLatency summary) /\
  is_Some (PerformanceLogger.maxBargeInLatency summary) /\
  Session.audioBuffer s = [].
Proof.
  intros s summary.
  assert (loggerInv (runInputs inputs (Session.newWorld pc ah clock)))
    as (Hstt & Hbarge & Hsome & Hbuf).
  { apply (rtc_atomic_ind (fun w w' => loggerInv w -> loggerInv w')) with
      (w := Session.newWorld pc ah clock).
    - auto.
    - auto.
    - apply atomic_loggerInv.
    - apply runInputs_steps.
    - repeat split. constructor. }
  fold s in Hstt, Hbarge, Hsome, Hbuf. subst summary.
  unfold PerformanceLogger.getMetrics, PerformanceLogger.getLogs.
  cbn [PerformanceLogger.summaryMetrics PerformanceLogger.avgSttLatency
       PerformanceLogger.bargeInCount PerformanceLogger.avgBargeInLatency
       PerformanceLogger.maxBargeInLatency].
  rewrite Hstt, Hbarge.
  split; [reflexivity |]. split; [reflexivity |]. split; [reflexivity |].
  split; [apply calculateAverage_defined; exact Hsome |].
  split; [apply maxOf_defined; exact Hsome | exact Hbuf].
Qed.

End Invariants.


(** * Single operations of the session *)

Section Operations.
Context {sine : FakeTTS.Sine}.
Import StateMachine.

(** X22.  Frames that change nothing.  A frame that arrives while the
    session is neither [LISTENING] nor [SPEAKING] is dropped without being
    looked at, and so is a frame without voice that arrives while the
    session is [SPEAKING]: the world stays as it is.  In particular the
    recognizer hears nothing while the bot speaks. *)
Theorem frame_without_effect (audioFrame : Buf.t) (w : Session.World) :
  (stateOf w <> LISTENING /\ stateOf w <> SPEAKING) \/
  (stateOf w = SPEAKING /\ hasVoice audioFrame = Some false) ->
  Session.processAudioFrame audioFrame w = Some (tt, w).
Proof.
  unfold stateOf, Session.processAudioFrame, Session.bind, Session.get, is_.
  intros [[Hl Hs] | [Hs Hv]].
  - destruct (state (Session.stateMachine (Session.self w)));
      try reflexivity; contradiction.
  - rewrite Hs. cbn [state_eqb]. unfold hasVoice in Hv.
    unfold Session.lift.
    destruct (FakeSTT.calculateRMS audioFrame) as [rms |]; [| discriminate].
    cbn in Hv. injection Hv as ->. reflexivity.
Qed.

(** X23.  [start()] in any state.  Whatever state the session is in,
    [start()] returns, logs [session_start], and leaves the session in
    [LISTENING] with audio processing switched on.  Called on a session
    that is already [LISTENING], the transition is rejected and the
    history is unchanged; called in any other state, one transition to
    [LISTENING] is recorded.  Neither the abort signals nor the replies in
    progress are touched: a reply that is being spoken goes on. *)
Theorem start_always_ends_listening (w : Session.World) :
  exists w',
    Session.start w = Some (tt, w') /\
    stateOf w' = LISTENING /\
    Session.isProcessingAudio (Session.self w') = true /\
    Session.trace w'
      = Session.trace w
        ++ [Session.Logged PerformanceLogger.session_start;
            (if is_ LISTENING (Session.stateMachine (Session.self w))
             then Session.Rejected LISTENING LISTENING
             else Session.Transitioned (stateOf w) LISTENING);
            Session.AudioProcessing true] /\
    history (Session.stateMachine (Session.self w'))
      = history (Session.stateMachine (Session.self w))
        ++ (if is_ LISTENING (Session.stateMachine (Session.self w)) then []
            else [mkTransition (stateOf w) LISTENING
                    (Session.clock w (S (Session.ticks w))) MdNone]) /\
    Session.signals w' = Session.signals w /\
    Session.tasks w' = Session.tasks w /\
    Session.ttsAbortController (Session.self w')
      = Session.ttsAbortController (Session.self w).
Proof.
  destruct w as [s sg clk tk tr tks].
  destruct s as [sm stt tts lg ctrl ab ipa pc ah].
  destruct sm as [st hist ls].
  destruct st;
    (eexists; split;
     [lazy -[app PerformanceLogger.logEvent PerformanceLogger.noData]; reflexivity |]);
    unfold stateOf;
    cbn [Session.self Session.stateMachine Session.isProcessingAudio Session.trace
         Session.signals Session.tasks Session.ttsAbortController state history
         is_ state_eqb Session.clock Session.ticks];
    rewrite <- ?app_assoc, ?app_nil_r; repeat split.
Qed.

End Operations.

Lemma frame_without_effect_witness :
  ((stateOf (Session.newWorld true true (fun n => Z.of_nat n))
      <> StateMachine.LISTENING /\
    stateOf (Session.newWorld true true (fun n => Z.of_nat n))
      <> StateMachine.SPEAKING) \/
   (stateOf (Session.newWorld true true (fun n => Z.of_nat n))
      = StateMachine.SPEAKING /\
    hasVoice [0; 64; 7]%Z = Some false)) /\
  Session.processAudioFrame [0; 64; 7]%Z
    (Session.newWorld true true (fun n => Z.of_nat n))
  = Some (tt, Session.newWorld true true (fun n => Z.of_nat n)).
Proof.
  assert ((stateOf (Session.newWorld true true (fun n => Z.of_nat n))
             <> StateMachine.LISTENING /\
           stateOf (Session.newWorld true true (fun n => Z.of_nat n))
             <> StateMachine.SPEAKING) \/
          (stateOf (Session.newWorld true true (fun n => Z.of_nat n))
             = StateMachine.SPEAKING /\
           hasVoice [0; 64; 7]%Z = Some false)) as H
    by (left; split; discriminate).
  split; [exact H |].
  exact (frame_without_effect _ _ H).
Defined.

(** * A reply from its first to its last frame *)

Section Reply.
Context {sine : FakeTTS.Sine}.
Import StateMachine.

Lemma fresh_signal_not_aborted (st : Abort.Store) :
  Abort.aborted (List.length st) (st ++ [false]) = false.
Proof.
  unfold Abort.aborted. rewrite lookup_app_r by lia.
  rewrite Nat.sub_diag. reflexivity.
Qed.

Lemma sentFrames_app (t1 t2 : list Session.Effect) :
  sentFrames (t1 ++ t2) = sentFrames t1 ++ sentFrames t2.
Proof. unfold sentFrames. apply flat_map_app. Qed.

Lemma totalFrames_at_least_100 (text : string) :
  (100 <= FakeTTS.computeTotalFrames text)%Z.
Proof. destruct (computeTotalFrames_closed text) as [_ ->]. lia. Qed.

(** A final transcript heard by a [LISTENING] session: the steps of
    [processAudioFrame] and [generateResponse] up to the first frame. *)
Lemma processAudioFrame_final (audioFrame : Buf.t)
    (w : Session.World) (result : FakeSTT.Result) (stt' : FakeSTT.t) :
  stateOf w = LISTENING ->
  FakeSTT.processFrame audioFrame (Session.clock w (Session.ticks w))
    (Session.stt (Session.self w)) = Some (Some result, stt') ->
  FakeSTT.type result = FakeSTT.final ->
  let reply := ("You said: " ++ Session.interpolate (FakeSTT.text result))%string in
  let h := List.length (Session.signals w) in
  exists w' f,
    Session.processAudioFrame audioFrame w = Some (tt, w') /\
    stateOf w' = SPEAKING /\
    Session.trace w'
      = Session.trace w
        ++ [Session.Logged PerformanceLogger.stt_final;
            Session.Transitioned LISTENING PROCESSING;
            Session.Logged PerformanceLogger.tts_start;
            Session.Transitioned PROCESSING SPEAKING;
            Session.Allocated h] /\
    Session.ttsAbortController (Session.self w') = Some h /\
    Session.signals w' = Session.signals w ++ [false] /\
    Session.tasks w'
      = Session.tasks w
        ++ [Session.mkTask
              (FakeTTS.AwaitingDelay
                 (FakeTTS.mkLocals (FakeTTS.computeTotalFrames reply)
                    (FakeTTS.computeFrequency reply) 0) f)
              h (Session.clock w (Session.ticks w + 5)) true 0] /\
    List.length f = 640%nat /\
    Session.audioHandler (Session.self w') = Session.audioHandler (Session.self w).
Proof.
  intros Hstate Hpf Htype reply h.
  destruct w as [s sg clk tk tr tks].
  destruct s as [sm stt tts lg ctrl ab ipa pc ah].
  destruct sm as [st hist ls].
  unfold stateOf in Hstate.
  cbn [Session.self Session.stateMachine state Session.clock Session.ticks
       Session.stt Session.signals] in Hstate, Hpf, h.
  subst st.
  destruct (generateFrame_total (FakeTTS.computeFrequency reply) tts)
    as (f & tts1 & Ef & Lf).
  pose proof (totalFrames_at_least_100 reply) as Htotal.
  assert ((0 <? FakeTTS.computeTotalFrames reply)%Z = true) as Hlt
    by (apply Z.ltb_lt; lia).
  assert (FakeTTS.next false (FakeTTS.SuspendedStart reply) tts
          = Some (FakeTTS.AwaitingDelay
                    (FakeTTS.mkLocals (FakeTTS.computeTotalFrames reply)
                       (FakeTTS.computeFrequency reply) 0) f,
                  FakeTTS.Pending, tts1)) as Hnext.
  { unfold FakeTTS.next, FakeTTS.loopHead.
    cbn [FakeTTS.frameIndex FakeTTS.totalFrames FakeTTS.frequency].
    rewrite Hlt, Ef. reflexivity. }
  unfold Session.processAudioFrame, Session.bind at 1, Session.get at 1.
  cbn [Session.self Session.stateMachine is_ state state_eqb negb
       Session.clock Session.ticks Session.stt].
  rewrite Hpf, Htype.
  lazy -[app List.length FakeTTS.next FakeTTS.computeTotalFrames
         FakeTTS.computeFrequency String.append Session.interpolate
         Abort.aborted PerformanceLogger.logEvent Nat.add].
  rewrite (fresh_signal_not_aborted sg).
  match goal with
  | |- context [FakeTTS.next false (FakeTTS.SuspendedStart ?r) tts] =>
      change (FakeTTS.next false (FakeTTS.SuspendedStart r) tts)
        with (FakeTTS.next false (FakeTTS.SuspendedStart reply) tts)
  end.
  rewrite Hnext.
  lazy -[app List.length FakeTTS.computeTotalFrames
         FakeTTS.computeFrequency String.append Session.interpolate
         PerformanceLogger.logEvent Nat.add reply].
  eexists _, f. split; [reflexivity |].
  unfold stateOf.
  cbn [Session.self Session.stateMachine state Session.trace Session.signals
       Session.tasks Session.ttsAbortController Session.set_tts
       Session.audioHandler].
  rewrite <- !app_assoc.
  replace (tk + 5)%nat with (S (S (S (S (S tk))))) by lia.
  repeat split. exact Lf.
Qed.

(** X24.  A final transcript starts a reply.  When a frame makes the
    recognizer of a [LISTENING] session return a final transcript, the
    session logs it, goes to [PROCESSING] and on to [SPEAKING], allocates a
    new abort controller whose signal is not aborted, and starts the
    generator for the text "You said: " followed by the transcript: the
    first frame of 640 bytes is generated at once and waits for its
    timer. *)
Theorem final_transcript_starts_a_reply (audioFrame : Buf.t)
    (w : Session.World) (result : FakeSTT.Result) (stt' : FakeSTT.t) :
  stateOf w = LISTENING ->
  FakeSTT.processFrame audioFrame (Session.clock w (Session.ticks w))
    (Session.stt (Session.self w)) = Some (Some result, stt') ->
  FakeSTT.type result = FakeSTT.final ->
  let reply := ("You said: " ++ Session.interpolate (FakeSTT.text result))%string in
  let h := List.length (Session.signals w) in
  exists w' f,
    Session.processAudioFrame audioFrame w = Some (tt, w') /\
    stateOf w' = SPEAKING /\
    Session.trace w'
      = Session.trace w
        ++ [Session.Logged PerformanceLogger.stt_final;
            Session.Transitioned LISTENING PROCESSING;
            Session.Logged PerformanceLogger.tts_start;
            Session.Transitioned PROCESSING SPEAKING;
            Session.Allocated h] /\
    Session.ttsAbortController (Session.self w') = Some h /\
    Session.signals w' = Session.signals w ++ [false] /\
    Session.tasks w'
      = Session.tasks w
        ++ [Session.mkTask
              (FakeTTS.AwaitingDelay
                 (FakeTTS.mkLocals (FakeTTS.computeTotalFrames reply)
                    (FakeTTS.computeFrequency reply) 0) f)
              h (Session.clock w (Session.ticks w + 5)) true 0] /\
    List.length f = 640%nat /\
    Session.audioHandler (Session.self w') = Session.audioHandler (Session.self w).
Proof.
  intros Hstate Hpf Htype.
  exact (processAudioFrame_final audioFrame w result stt' Hstate Hpf Htype).
Qed.

(** One more frame of a reply that is not finished. *)
Lemma timer_sends_and_continues (w : Session.World) (k : Session.Task)
    (l : FakeTTS.Locals) (f : Buf.t) :
  Session.tasks w = [k] ->
  Session.generator k = FakeTTS.AwaitingDelay l f ->
  Abort.aborted (Session.abortSignal k) (Session.signals w) = false ->
  Session.audioHandler (Session.self w) = true ->
  (FakeTTS.frameIndex l + 1 < FakeTTS.totalFrames l)%Z ->
  exists w' f',
    Session.timerFired 0 w = Some (tt, w') /\
    Session.tasks w'
      = [Session.mkTask
           (FakeTTS.AwaitingDelay
              (FakeTTS.mkLocals (FakeTTS.totalFrames l) (FakeTTS.frequency l)
                 (FakeTTS.frameIndex l + 1)) f')
           (Session.abortSignal k) (Session.ttsStartTime k) false
           (Session.chunkCount k + 1)] /\
    List.length f' = 640%nat /\
    Session.signals w' = Session.signals w /\
    Session.audioHandler (Session.self w') = true /\
    Session.stateMachine (Session.self w') = Session.stateMachine (Session.self w) /\
    sentFrames (Session.trace w') = sentFrames (Session.trace w) ++ [f].
Proof.
  intros Htasks Hg Ha Hah Hidx.
  destruct w as [s sg clk tk tr tks].
  destruct s as [sm stt tts lg ctrl ab ipa pc ah].
  destruct k as [g sig t0 fc cc].
  cbn [Session.tasks Session.generator Session.abortSignal Session.signals
       Session.self Session.audioHandler] in Htasks, Hg, Ha, Hah.
  subst tks g ah.
  destruct (generateFrame_total (FakeTTS.frequency l) tts) as (f' & tts1 & Ef & Lf).
  assert ((FakeTTS.frameIndex l + 1 <? FakeTTS.totalFrames l)%Z = true) as Hlt
    by (apply Z.ltb_lt; exact Hidx).
  assert (FakeTTS.next false (FakeTTS.SuspendedYield l) tts
          = Some (FakeTTS.AwaitingDelay
                    (FakeTTS.mkLocals (FakeTTS.totalFrames l)
                       (FakeTTS.frequency l) (FakeTTS.frameIndex l + 1)) f',
                  FakeTTS.Pending, tts1)) as Hnext.
  { unfold FakeTTS.next, FakeTTS.loopHead.
    cbn [FakeTTS.frameIndex FakeTTS.totalFrames FakeTTS.frequency].
    rewrite Hlt, Ef. reflexivity. }
  destruct fc;
    lazy -[app List.length FakeTTS.next Abort.aborted
           PerformanceLogger.logEvent Nat.add Z.add Z.sub sentFrames];
    rewrite Ha;
    lazy -[app List.length FakeTTS.next Abort.aborted
           PerformanceLogger.logEvent Nat.add Z.add Z.sub sentFrames];
    rewrite Ha, Hnext;
    lazy -[app List.length PerformanceLogger.logEvent Nat.add Z.add Z.sub
           sentFrames FakeTTS.totalFrames FakeTTS.frequency FakeTTS.frameIndex];
    (eexists _, f'; split; [reflexivity |]);
    cbn [Session.self Session.stateMachine Session.trace Session.signals
         Session.tasks Session.audioHandler];
    rewrite ?sentFrames_app; cbn [sentFrames flat_map app];
    rewrite ?app_nil_r; repeat split; exact Lf.
Qed.

(** The last frame of a reply. *)
Lemma timer_sends_and_finishes (w : Session.World) (k : Session.Task)
    (l : FakeTTS.Locals) (f : Buf.t) :
  Session.tasks w = [k] ->
  Session.generator k = FakeTTS.AwaitingDelay l f ->
  Abort.aborted (Session.abortSignal k) (Session.signals w) = false ->
  Session.audioHandler (Session.self w) = true ->
  stateOf w = SPEAKING ->
  (FakeTTS.totalFrames l <= FakeTTS.frameIndex l + 1)%Z ->
  exists w',
    Session.timerFired 0 w = Some (tt, w') /\
    Session.tasks w' = [] /\
    stateOf w' = LISTENING /\
    Session.signals w' = Session.signals w /\
    Session.tts (Session.self w') = FakeTTS.new /\
    sentFrames (Session.trace w') = sentFrames (Session.trace w) ++ [f].
Proof.
  intros Htasks Hg Ha Hah Hstate Hidx.
  destruct w as [s sg clk tk tr tks].
  destruct s as [sm stt tts lg ctrl ab ipa pc ah].
  destruct sm as [st hist ls].
  destruct k as [g sig t0 fc cc].
  unfold stateOf in Hstate.
  cbn [Session.tasks Session.generator Session.abortSignal Session.signals
       Session.self Session.audioHandler Session.stateMachine state]
    in Htasks, Hg, Ha, Hah, Hstate.
  subst tks g ah st.
  assert ((FakeTTS.frameIndex l + 1 <? FakeTTS.totalFrames l)%Z = false) as Hlt
    by (apply Z.ltb_ge; exact Hidx).
  assert (FakeTTS.next false (FakeTTS.SuspendedYield l) tts
          = Some (FakeTTS.Completed, FakeTTS.Done, tts)) as Hnext.
  { unfold FakeTTS.next, FakeTTS.loopHead.
    cbn [FakeTTS.frameIndex FakeTTS.totalFrames FakeTTS.frequency].
    rewrite Hlt. reflexivity. }
  destruct fc;
    lazy -[app List.length FakeTTS.next Abort.aborted
           PerformanceLogger.logEvent Nat.add Z.add Z.sub sentFrames];
    rewrite Ha;
    lazy -[app List.length FakeTTS.next Abort.aborted
           PerformanceLogger.logEvent Nat.add Z.add Z.sub sentFrames];
    rewrite Ha, Hnext;
    lazy -[app List.length PerformanceLogger.logEvent Nat.add Z.add Z.sub
           sentFrames FakeTTS.totalFrames FakeTTS.frequency FakeTTS.frameIndex];
    (eexists; split; [reflexivity |]);
    unfold stateOf;
    cbn [Session.self Session.stateMachine Session.trace Session.signals
         Session.tasks Session.tts state];
    rewrite ?sentFrames_app; cbn [sentFrames flat_map app];
    rewrite ?app_nil_r; repeat split.
Qed.

Lemma reply_runs_to_its_end (n : nat) :
  forall (w : Session.World) (k : Session.Task) (l : FakeTTS.Locals) (f : Buf.t),
    Session.tasks w = [k] ->
    Session.generator k = FakeTTS.AwaitingDelay l f ->
    Abort.aborted (Session.abortSignal k) (Session.signals w) = false ->
    Session.audioHandler (Session.self w) = true ->
    stateOf w = SPEAKING ->
    List.length f = 640%nat ->
    Z.of_nat (S n) = Z.max 1 (FakeTTS.totalFrames l - FakeTTS.frameIndex l) ->
    exists frames,
      let w' := Nat.iter (S n) (runM (Session.timerFired 0)) w in
      Session.tasks w' = [] /\
      stateOf w' = LISTENING /\
      Session.signals w' = Session.signals w /\
      Session.tts (Session.self w') = FakeTTS.new /\
      sentFrames (Session.trace w') = sentFrames (Session.trace w) ++ frames /\
      List.length frames = S n /\
      Forall (fun c => List.length c = 640%nat) frames.
Proof.
  induction n as [| n IH]; intros w k l f Htasks Hg Ha Hah Hstate Hf Hn.
  - destruct (timer_sends_and_finishes w k l f Htasks Hg Ha Hah Hstate ltac:(lia))
      as (w' & E & Ht & Hs & Hsig & Htts & Hsent).
    exists [f]. cbn [Nat.iter nat_rect]. unfold runM. rewrite E.
    repeat split; try assumption. constructor; [exact Hf | constructor].
  - destruct (timer_sends_and_continues w k l f Htasks Hg Ha Hah ltac:(lia))
      as (w1 & f1 & E & Ht & Hf1 & Hsig & Hah1 & Hsm & Hsent).
    destruct (IH w1 _ _ f1 Ht eq_refl) as (frames & Hw').
    + cbn [Session.abortSignal]. rewrite Hsig. exact Ha.
    + exact Hah1.
    + unfold stateOf in *. rewrite Hsm. exact Hstate.
    + exact Hf1.
    + cbn [FakeTTS.totalFrames FakeTTS.frameIndex]. lia.
    + exists (f :: frames).
      rewrite Nat.iter_succ_r. unfold runM at 2. rewrite E.
      cbv zeta in Hw' |- *.
      destruct Hw' as (H1 & H2 & H3 & H4 & H5 & H6 & H7).
      split; [exact H1 |]. split; [exact H2 |]. split; [congruence |].
      split; [exact H4 |]. split.
      * rewrite H5, Hsent, <- app_assoc. reflexivity.
      * split; [cbn; lia | constructor; assumption].
Qed.

(** X25.  A reply that nobody interrupts.  Let a [LISTENING] session with
    an audio handler and no reply in progress hear the frame that ends an
    utterance, and let the timer of the reply then fire [totalFrames]
    times, nothing else happening in between.  Then exactly [totalFrames]
    frames of 640 bytes have been handed to the audio handler, the session
    is back in [LISTENING], no reply is left in progress, no signal has
    been aborted, and the phase of the synthesizer is reset for the next
    reply. *)
Theorem uninterrupted_reply_is_sent_completely (audioFrame : Buf.t)
    (w : Session.World) (result : FakeSTT.Result) (stt' : FakeSTT.t) :
  stateOf w = LISTENING ->
  Session.tasks w = [] ->
  Session.audioHandler (Session.self w) = true ->
  FakeSTT.processFrame audioFrame (Session.clock w (Session.ticks w))
    (Session.stt (Session.self w)) = Some (Some result, stt') ->
  FakeSTT.type result = FakeSTT.final ->
  let reply := ("You said: " ++ Session.interpolate (FakeSTT.text result))%string in
  let total := Z.to_nat (FakeTTS.computeTotalFrames reply) in
  let w' := Nat.iter total (runM (Session.timerFired 0))
              (runM (Session.processAudioFrame audioFrame) w) in
  exists frames,
    sentFrames (Session.trace w') = sentFrames (Session.trace w) ++ frames /\
    List.length frames = total /\
    Forall (fun c => List.length c = 640%nat) frames /\
    stateOf w' = LISTENING /\
    Session.tasks w' = [] /\
    Session.signals w' = Session.signals w ++ [false] /\
    Session.tts (Session.self w') = FakeTTS.new.
Proof.
  intros Hstate Htasks Hah Hpf Htype reply total w'.
  destruct (processAudioFrame_final audioFrame w result stt'
              Hstate Hpf Htype)
    as (w1 & f & E & Hs1 & Htr1 & Hctrl & Hsig & Ht1 & Lf & Hah1).
  fold reply in Ht1. rewrite Htasks in Ht1. cbn [app] in Ht1.
  pose proof (totalFrames_at_least_100 reply) as Htotal.
  assert (total = S (Nat.pred total)) as Hpred by lia.
  destruct (reply_runs_to_its_end (Nat.pred total) w1 _ _ f Ht1 eq_refl)
    as (frames & Hw').
  - cbn [Session.abortSignal]. rewrite Hsig. apply fresh_signal_not_aborted.
  - rewrite Hah1. exact Hah.
  - exact Hs1.
  - exact Lf.
  - cbn [FakeTTS.totalFrames FakeTTS.frameIndex]. lia.
  - cbv zeta in Hw'. rewrite <- Hpred in Hw'.
    assert (runM (Session.processAudioFrame audioFrame) w = w1) as Hrun
      by (unfold runM; rewrite E; reflexivity).
    subst w'. rewrite Hrun.
    destruct Hw' as (H1 & H2 & H3 & H4 & H5 & H6 & H7).
    exists frames. split.
    + rewrite H5, Htr1, sentFrames_app. cbn [sentFrames flat_map app].
      rewrite app_nil_r. reflexivity.
    + repeat split; try assumption. congruence.
Qed.

End Reply.

Lemma final_transcript_starts_a_reply_witness :
  let w := Session.mkWorld
             (Session.mk (StateMachine.mk StateMachine.LISTENING [] [])
                (FakeSTT.mk true [] 14 25 "hel" 0) FakeTTS.new
                PerformanceLogger.new None [] true true true)
             [] (fun n => Z.of_nat n) 0 [] [] in
  let result := FakeSTT.mkResult FakeSTT.final (Some "hello"%string) 0 in
  stateOf w = StateMachine.LISTENING /\
  FakeSTT.processFrame silentFrame (Session.clock w (Session.ticks w))
    (Session.stt (Session.self w))
  = Some (Some result, FakeSTT.mk false [] 0 0 "" 1) /\
  FakeSTT.type result = FakeSTT.final /\
  exists w' f,
    Session.processAudioFrame silentFrame w = Some (tt, w') /\
    stateOf w' = StateMachine.SPEAKING /\
    Session.signals w' = [false] /\
    Session.tasks w'
    = [Session.mkTask
         (FakeTTS.AwaitingDelay
            (FakeTTS.mkLocals (FakeTTS.computeTotalFrames "You said: hello")
               (FakeTTS.computeFrequency "You said: hello") 0) f)
         0 5 true 0] /\
    List.length f = 640%nat.
Proof.
  cbv zeta.
  set (w := Session.mkWorld
              (Session.mk (StateMachine.mk StateMachine.LISTENING [] [])
                 (FakeSTT.mk true [] 14 25 "hel" 0) FakeTTS.new
                 PerformanceLogger.new None [] true true true)
              [] (fun n => Z.of_nat n) 0 [] []).
  set (result := FakeSTT.mkResult FakeSTT.final (Some "hello"%string) 0).
  assert (stateOf w = StateMachine.LISTENING) as H1 by reflexivity.
  assert (FakeSTT.processFrame silentFrame (Session.clock w (Session.ticks w))
            (Session.stt (Session.self w))
          = Some (Some result, FakeSTT.mk false [] 0 0 "" 1)) as H2
    by (vm_compute; reflexivity).
  assert (FakeSTT.type result = FakeSTT.final) as H3 by reflexivity.
  split; [exact H1 |]. split; [exact H2 |]. split; [exact H3 |].
  destruct (final_transcript_starts_a_reply silentFrame w result _ H1 H2 H3)
    as (w' & f & E & Hs & _ & _ & Hsig & Ht & Hf & _).
  exists w', f. split; [exact E |]. split; [exact Hs |].
  split; [exact Hsig |]. split; [exact Ht | exact Hf].
Defined.

Lemma uninterrupted_reply_is_sent_completely_witness :
  let w := Session.mkWorld
             (Session.mk (StateMachine.mk StateMachine.LISTENING [] [])
                (FakeSTT.mk true [] 14 25 "hel" 0) FakeTTS.new
                PerformanceLogger.new None [] true true true)
             [] (fun n => Z.of_nat n) 0 [] [] in
  let result := FakeSTT.mkResult FakeSTT.final (Some "hello"%string) 0 in
  stateOf w = StateMachine.LISTENING /\
  Session.tasks w = [] /\
  Session.audioHandler (Session.self w) = true /\
  FakeSTT.processFrame silentFrame (Session.clock w (Session.ticks w))
    (Session.stt (Session.self w))
  = Some (Some result, FakeSTT.mk false [] 0 0 "" 1) /\
  FakeSTT.type result = FakeSTT.final /\
  let w' := Nat.iter (Z.to_nat (FakeTTS.computeTotalFrames "You said: hello"))
              (runM (Session.timerFired 0))
              (runM (Session.processAudioFrame silentFrame) w) in
  exists frames,
    sentFrames (Session.trace w') = frames /\
    List.length frames = Z.to_nat (FakeTTS.computeTotalFrames "You said: hello") /\
    Forall (fun c => List.length c = 640%nat) frames /\
    stateOf w' = StateMachine.LISTENING /\
    Session.tasks w' = [].
Proof.
  cbv zeta.
  set (w := Session.mkWorld
              (Session.mk (StateMachine.mk StateMachine.LISTENING [] [])
                 (FakeSTT.mk true [] 14 25 "hel" 0) FakeTTS.new
                 PerformanceLogger.new None [] true true true)
              [] (fun n => Z.of_nat n) 0 [] []).
  set (result := FakeSTT.mkResult FakeSTT.final (Some "hello"%string) 0).
  assert (stateOf w = StateMachine.LISTENING) as H1 by reflexivity.
  assert (Session.tasks w = []) as H0 by reflexivity.
  assert (Session.audioHandler (Session.self w) = true) as Hah by reflexivity.
  assert (FakeSTT.processFrame silentFrame (Session.clock w (Session.ticks w))
            (Session.stt (Session.self w))
          = Some (Some result, FakeSTT.mk false [] 0 0 "" 1)) as H2
    by (vm_compute; reflexivity).
  assert (FakeSTT.type result = FakeSTT.final) as H3 by reflexivity.
  split; [exact H1 |]. split; [exact H0 |]. split; [exact Hah |].
  split; [exact H2 |]. split; [exact H3 |].
  destruct (uninterrupted_reply_is_sent_completely silentFrame w result _
              H1 H0 Hah H2 H3)
    as (frames & Hsent & Hlen & Hall & Hs & Ht & _).
  exists frames. split; [exact Hsent |]. split; [exact Hlen |].
  split; [exact Hall |]. split; [exact Hs | exact Ht].
Defined.

(** * The session manager *)

Section Manager.
Context {sine : FakeTTS.Sine}.

Lemma map_get_set_eq (key : string) (v : nat) (m : list (string * nat)) :
  SessionManager.map_get key (SessionManager.map_set key v m) = Some v.
Proof.
  induction m as [| [k x] m IH]; cbn [SessionManager.map_set SessionManager.map_get].
  - rewrite String.eqb_refl. reflexivity.
  - destruct (String.eqb k key) eqn:E; cbn [SessionManager.map_get]; rewrite E.
    + reflexivity.
    + exact IH.
Qed.

Lemma map_get_set_ne (key other : string) (v : nat) (m : list (string * nat)) :
  other <> key ->
  SessionManager.map_get other (SessionManager.map_set key v m)
  = SessionManager.map_get other m.
Proof.
  intros Hne.
  induction m as [| [k x] m IH]; cbn [SessionManager.map_set SessionManager.map_get].
  - destruct (String.eqb key other) eqn:E; [| reflexivity].
    apply String.eqb_eq in E. congruence.
  - destruct (String.eqb k key) eqn:E; cbn [SessionManager.map_get].
    + apply String.eqb_eq in E. subst k.
      destruct (String.eqb key other) eqn:E'; [| reflexivity].
      apply String.eqb_eq in E'. congruence.
    + rewrite IH. reflexivity.
Qed.

Lemma map_set_absent (key : string) (v : nat) (m : list (string * nat)) :
  SessionManager.map_get key m = None ->
  SessionManager.map_set key v m = m ++ [(key, v)].
Proof.
  induction m as [| [k x] m IH]; cbn [SessionManager.map_set SessionManager.map_get app];
    [reflexivity |].
  destruct (String.eqb k key); [discriminate |].
  intros H. rewrite (IH H). reflexivity.
Qed.

Lemma map_get_In (key : string) (v : nat) (m : list (string * nat)) :
  SessionManager.map_get key m = Some v -> In (key, v) m.
Proof.
  induction m as [| [k x] m IH]; cbn [SessionManager.map_get]; [discriminate |].
  destruct (String.eqb k key) eqn:E.
  - apply String.eqb_eq in E. intros H. injection H as ->. left. congruence.
  - intros H. right. apply IH. exact H.
Qed.

Lemma map_get_None (key : string) (m : list (string * nat)) :
  SessionManager.map_get key m = None <-> ~ In key (map fst m).
Proof.
  induction m as [| [k x] m IH]; cbn [SessionManager.map_get map fst In].
  - split; [intros _ [] | reflexivity].
  - destruct (String.eqb k key) eqn:E.
    + apply String.eqb_eq in E. split; [discriminate | intros H; exfalso; auto].
    + apply String.eqb_neq in E. rewrite IH. split; [intros H [? | ?]; auto | auto].
Qed.

Lemma map_get_delete_eq (key : string) (m : list (string * nat)) :
  NoDup (map fst m) ->
  SessionManager.map_get key (SessionManager.map_delete key m) = None.
Proof.
  induction m as [| [k x] m IH]; cbn [SessionManager.map_delete map fst];
    [reflexivity |].
  intros Hnd. apply NoDup_cons in Hnd as [Hk Hnd].
  destruct (String.eqb k key) eqn:E.
  - apply String.eqb_eq in E. subst k. apply map_get_None.
    intros H. apply Hk. apply list_elem_of_In. exact H.
  - cbn [SessionManager.map_get]. rewrite E. apply IH. exact Hnd.
Qed.

Lemma map_get_delete_ne (key other : string) (m : list (string * nat)) :
  other <> key ->
  SessionManager.map_get other (SessionManager.map_delete key m)
  = SessionManager.map_get other m.
Proof.
  intros Hne.
  induction m as [| [k x] m IH]; cbn [SessionManager.map_delete]; [reflexivity |].
  destruct (String.eqb k key) eqn:E; cbn [SessionManager.map_get].
  - apply String.eqb_eq in E. subst k.
    destruct (String.eqb key other) eqn:E'; [| reflexivity].
    apply String.eqb_eq in E'. congruence.
  - rewrite IH. reflexivity.
Qed.

Lemma map_delete_length (key : string) (v : nat) (m : list (string * nat)) :
  SessionManager.map_get key m = Some v ->
  S (List.length (SessionManager.map_delete key m)) = List.length m.
Proof.
  induction m as [| [k x] m IH];
    cbn [SessionManager.map_delete SessionManager.map_get]; [discriminate |].
  destruct (String.eqb k key); [reflexivity |].
  intros H. cbn [List.length]. rewrite (IH H). reflexivity.
Qed.

Lemma map_delete_keys (key : string) (m : list (string * nat)) :
  NoDup (map fst m) -> NoDup (map fst (SessionManager.map_delete key m)).
Proof.
  induction m as [| [k x] m IH]; cbn [SessionManager.map_delete map fst];
    [auto |].
  intros Hnd. apply NoDup_cons in Hnd as [Hk Hnd].
  destruct (String.eqb k key); [exact Hnd |].
  cbn [map fst]. apply NoDup_cons. split; [| apply IH; exact Hnd].
  intros H. apply Hk. apply list_elem_of_In in H. apply list_elem_of_In.
  clear -H. induction m as [| [k' x'] m IH]; [destruct H |].
  cbn [SessionManager.map_delete] in H.
  destruct (String.eqb k' key); cbn [map fst In] in *; [auto |].
  destruct H as [H | H]; auto.
Qed.

(** [close()] returns, whatever the session. *)
Lemma close_returns (w : Session.World) :
  exists w',
    Session.close w = Some (tt, w') /\
    Session.isProcessingAudio (Session.self w') = false /\
    Session.stateMachine (Session.self w') = Session.stateMachine (Session.self w) /\
    last (Session.trace w') = Some (Session.Logged PerformanceLogger.session_close).
Proof.
  destruct w as [s sg clk tk tr tks].
  destruct s as [sm stt tts lg ctrl ab ipa pc ah].
  destruct ctrl as [h |], pc;
    eexists;
    (split; [lazy -[app List.length Abort.abort PerformanceLogger.noData];
             reflexivity |]);
    cbn [Session.trace Session.self Session.isProcessingAudio
         Session.stateMachine];
    repeat split; apply last_snoc.
Qed.

(** X26.  One session per id.  [createSession] with an id the manager
    already knows returns the session registered under that id and changes
    nothing: no second session is made, and the arguments are ignored.
    With a new id it makes one new session (new state machine, recognizer,
    synthesizer and logger, in [IDLE]), registers it under the id, and
    leaves every other id and every other session as they were; the number
    of sessions grows by one, and ids stay unique. *)
Theorem createSession_registers_one_session_per_id (sessionId : string)
    (peerConnection audioHandler : bool) (clock : nat -> Z)
    (m : SessionManager.t) :
  let r := SessionManager.createSession sessionId peerConnection audioHandler
             clock m in
  match SessionManager.getSession sessionId m with
  | Some session => r = (Some session, m)
  | None =>
      let session := List.length (SessionManager.heap m) in
      fst r = Some session /\
      SessionManager.getSession sessionId (snd r) = Some session /\
      SessionManager.heap (snd r)
        = SessionManager.heap m
          ++ [Session.newWorld peerConnection audioHandler clock] /\
      SessionManager.getSessionCount (snd r)
        = (SessionManager.getSessionCount m + 1)%Z /\
      SessionManager.getAllSessions (snd r)
        = SessionManager.getAllSessions m ++ [session] /\
      (forall other, other <> sessionId ->
         SessionManager.getSession other (snd r)
         = SessionManager.getSession other m) /\
      (NoDup (map fst (SessionManager.sessions m)) ->
       NoDup (map fst (SessionManager.sessions (snd r))))
  end.
Proof.
  intros r. subst r.
  unfold SessionManager.createSession, SessionManager.getSession,
    SessionManager.map_has, SessionManager.getSessionCount,
    SessionManager.getAllSessions.
  destruct (SessionManager.map_get sessionId (SessionManager.sessions m))
    as [session |] eqn:E; [reflexivity |].
  cbn [fst snd SessionManager.heap SessionManager.sessions].
  split; [reflexivity |].
  split; [apply map_get_set_eq |].
  split; [reflexivity |].
  rewrite (map_set_absent _ _ _ E).
  split; [rewrite length_app; cbn [List.length]; lia |].
  split; [rewrite map_app; reflexivity |].
  split.
  - intros other Hne. rewrite <- (map_set_absent _ _ _ E).
    apply map_get_set_ne. exact Hne.
  - intros Hnd. rewrite map_app. cbn [map fst].
    apply NoDup_app. split; [exact Hnd |]. split.
    + intros x Hx Hin. apply list_elem_of_In in Hx.
      apply list_elem_of_In in Hin. destruct Hin as [<- | []].
      apply (proj1 (map_get_None _ _) E). exact Hx.
    + apply NoDup_singleton.
Qed.

(** X27.  Removing a session.  For a manager whose ids are unique,
    [removeSession] with the id of a session closes that session (the
    session object itself is closed, so the connection that still holds it
    sees it closed: audio processing is off and its last event is
    [session_close]), forgets the id, so that the metrics route answers 404
    for it, and leaves every other id and session as they were.  Ids stay
    unique. *)
Theorem removeSession_closes_and_forgets (sessionId : string)
    (m : SessionManager.t) (session : nat) (w : Session.World) :
  NoDup (map fst (SessionManager.sessions m)) ->
  SessionManager.getSession sessionId m = Some session ->
  SessionManager.heap m !! session = Some w ->
  exists w' m',
    SessionManager.removeSession sessionId m = Some m' /\
    Session.close w = Some (tt, w') /\
    SessionManager.heap m' = <[session := w']> (SessionManager.heap m) /\
    Session.isProcessingAudio (Session.self w') = false /\
    last (Session.trace w') = Some (Session.Logged PerformanceLogger.session_close) /\
    SessionManager.getSession sessionId m' = None /\
    SessionManager.metricsRoute sessionId m' = (404%Z, None) /\
    (SessionManager.getSessionCount m'
     = SessionManager.getSessionCount m - 1)%Z /\
    (forall other, other <> sessionId ->
       SessionManager.getSession other m'
       = SessionManager.getSession other m) /\
    (forall h, h <> session ->
       SessionManager.heap m' !! h = SessionManager.heap m !! h) /\
    NoDup (map fst (SessionManager.sessions m')).
Proof.
  intros Hnd Hget Hw.
  destruct (close_returns w) as (w' & Ec & Hipa & _ & Hlast).
  unfold SessionManager.getSession in Hget.
  exists w', (SessionManager.mk (<[session := w']> (SessionManager.heap m))
                (SessionManager.map_delete sessionId (SessionManager.sessions m))).
  assert (SessionManager.map_get sessionId
            (SessionManager.map_delete sessionId (SessionManager.sessions m))
          = None) as Hgone by (apply map_get_delete_eq; exact Hnd).
  split.
  { unfold SessionManager.removeSession. rewrite Hget, Hw. cbn [bindo].
    rewrite Ec. reflexivity. }
  split; [exact Ec |]. split; [reflexivity |]. split; [exact Hipa |].
  split; [exact Hlast |].
  unfold SessionManager.metricsRoute, SessionManager.getSession,
    SessionManager.getSessionCount.
  cbn [SessionManager.sessions SessionManager.heap].
  rewrite Hgone.
  split; [reflexivity |]. split; [reflexivity |].
  split; [pose proof (map_delete_length _ _ _ Hget); lia |].
  split; [intros other Hne; apply map_get_delete_ne; exact Hne |].
  split; [intros h Hne; apply list_lookup_insert_ne; congruence |].
  apply map_delete_keys. exact Hnd.
Qed.

End Manager.

Lemma removeSession_closes_and_forgets_witness :
  let m := snd (SessionManager.createSession "a" true true (fun n => Z.of_nat n)
                  SessionManager.new) in
  NoDup (map fst (SessionManager.sessions m)) /\
  SessionManager.getSession "a" m = Some 0%nat /\
  SessionManager.heap m !! 0%nat
    = Some (Session.newWorld true true (fun n => Z.of_nat n)) /\
  exists m',
    SessionManager.removeSession "a" m = Some m' /\
    SessionManager.getSession "a" m' = None /\
    SessionManager.metricsRoute "a" m' = (404%Z, None) /\
    SessionManager.getSessionCount m' = 0%Z.
Proof.
  cbv zeta.
  assert (NoDup (map fst (SessionManager.sessions
            (snd (SessionManager.createSession "a" true true
                    (fun n => Z.of_nat n) SessionManager.new))))) as Hnd
    by (apply NoDup_singleton).
  split; [exact Hnd |]. split; [reflexivity |]. split; [reflexivity |].
  destruct (removeSession_closes_and_forgets "a"
              (snd (SessionManager.createSession "a" true true
                      (fun n => Z.of_nat n) SessionManager.new))
              0 (Session.newWorld true true (fun n => Z.of_nat n))
              Hnd eq_refl eq_refl)
    as (w' & m' & E & _ & _ & _ & _ & Hget & Hroute & Hcount & _).
  exists m'. split; [exact E |]. split; [exact Hget |]. split; [exact Hroute |].
  exact Hcount.
Defined.

(** * The audio handler: sending a frame in chunks *)

Lemma sendLoop_accepting (rate : Z) (samples : list Z) (fuel : nat) :
  forall (i : nat) (received : list WebRTCAudioHandler.AudioData) (debug : Z),
    (List.length samples - i <= fuel)%nat ->
    exists chunks,
      WebRTCAudioHandler.sendLoop (fun _ => true) fuel samples rate i received
        debug
      = (true,
         received
         ++ map (fun c => WebRTCAudioHandler.mkAudioData c rate 16 1
                            (Z.of_nat (List.length c))) chunks,
         if (debug <? 6)%Z
         then Z.min 6 (debug + Z.of_nat (List.length chunks))
         else debug) /\
      List.concat chunks = drop i samples /\
      Forall (fun c => (0 < List.length c <= 160)%nat) chunks /\
      List.length chunks = ((List.length samples - i + 159) / 160)%nat /\
      (forall (j : nat) (c : list Z),
         chunks !! j = Some c -> (S j < List.length chunks)%nat ->
         List.length c = 160%nat).
Proof.
  induction fuel as [| fuel IH]; intros i received debug Hfuel.
  - exists []. cbn [WebRTCAudioHandler.sendLoop map List.length List.concat].
    rewrite app_nil_r, Z.add_0_r.
    replace (List.length samples - i)%nat with 0%nat by lia.
    rewrite drop_ge by lia.
    split; [destruct (debug <? 6)%Z eqn:E; [apply Z.ltb_lt in E; rewrite Z.min_r by lia |]; reflexivity |].
    split; [reflexivity |]. split; [constructor |].
    split; [reflexivity |]. intros j c H. discriminate.
  - cbn [WebRTCAudioHandler.sendLoop].
    destruct (i <? List.length samples)%nat eqn:Ei.
    + apply Nat.ltb_lt in Ei.
      set (to := Nat.min (i + WebRTCAudioHandler.CHUNK_SIZE) (List.length samples)).
      set (chunk := WebRTCAudioHandler.slice i to samples).
      set (debug' := if (debug <? 6)%Z then (debug + 1)%Z else debug).
      assert (List.length chunk = (to - i)%nat) as Hlen.
      { subst chunk. unfold WebRTCAudioHandler.slice.
        rewrite length_take, length_drop. subst to. lia. }
      assert (0 < to - i <= 160)%nat as Hto
        by (subst to; unfold WebRTCAudioHandler.CHUNK_SIZE; lia).
      destruct (IH (i + WebRTCAudioHandler.CHUNK_SIZE)%nat
                  (received
                   ++ [WebRTCAudioHandler.mkAudioData chunk rate 16 1
                         (Z.of_nat (List.length chunk))]) debug')
        as (chunks & E & Hcat & Hall & Hn & Hfull); [lia |].
      exists (chunk :: chunks). rewrite E.
      unfold WebRTCAudioHandler.CHUNK_SIZE in *.
      split.
      { cbn [map List.length]. rewrite <- app_assoc. cbn [app].
        f_equal. subst debug'.
        destruct (debug <? 6)%Z eqn:E6.
        - apply Z.ltb_lt in E6.
          destruct (debug + 1 <? 6)%Z eqn:E7.
          + apply Z.ltb_lt in E7. lia.
          + apply Z.ltb_ge in E7. lia.
        - rewrite E6. reflexivity. }
      split.
      { cbn [List.concat]. rewrite Hcat. subst chunk.
        unfold WebRTCAudioHandler.slice.
        destruct (Nat.le_gt_cases (i + 160) (List.length samples)) as [Hle | Hgt].
        - replace (to - i)%nat with 160%nat by (subst to; lia).
          rewrite <- drop_drop. apply take_drop.
        - rewrite (drop_ge samples (i + 160)) by lia.
          rewrite app_nil_r. apply take_ge. rewrite length_drop. subst to. lia. }
      split; [constructor; [lia | exact Hall] |].
      split.
      { cbn [List.length]. rewrite Hn.
        destruct (Nat.le_gt_cases (i + 160) (List.length samples)) as [Hle | Hgt].
        - replace (List.length samples - i + 159)%nat
            with (List.length samples - (i + 160) + 159 + 1 * 160)%nat by lia.
          rewrite Nat.div_add by lia. lia.
        - replace (List.length samples - (i + 160))%nat with 0%nat by lia.
          change ((0 + 159) / 160)%nat with 0%nat.
          apply Nat.div_unique with (r := (List.length samples - i - 1)%nat); lia. }
      intros j c Hj Hlast. destruct j as [| j].
      * cbn in Hj. injection Hj as <-. rewrite Hlen.
        cbn [List.length] in Hlast.
        assert (0 < List.length chunks)%nat as Hpos by lia.
        rewrite Hn in Hpos.
        assert (i + 160 < List.length samples)%nat; [| subst to; lia].
        destruct (Nat.le_gt_cases (List.length samples) (i + 160)) as [Hle | Hgt];
          [| exact Hgt].
        replace (List.length samples - (i + 160))%nat with 0%nat in Hpos by lia.
        change ((0 + 159) / 160)%nat with 0%nat in Hpos. lia.
      * cbn in Hj. apply (Hfull j c Hj). cbn [List.length] in Hlast. lia.
    + apply Nat.ltb_ge in Ei. exists [].
      cbn [map List.length List.concat]. rewrite app_nil_r, Z.add_0_r.
      replace (List.length samples - i)%nat with 0%nat by lia.
      rewrite drop_ge by lia.
      split; [destruct (debug <? 6)%Z eqn:E; [apply Z.ltb_lt in E; rewrite Z.min_r by lia |]; reflexivity |].
      split; [reflexivity |]. split; [constructor |].
      split; [reflexivity |]. intros j c H. discriminate.
Qed.

(** X28.  Sending audio in chunks of 10 ms.  When the audio source exists
    and accepts what it is given, [sendAudio] returns [true] and hands the
    samples to the source in chunks, in order and without loss: the chunks
    put together are the samples, every chunk but the last has exactly 160
    samples and the last has between 1 and 160, so there are
    [ceil(n / 160)] chunks for [n] samples and none for no sample.  Each
    chunk is passed with the sample rate given, 16 bits per sample, one
    channel and its own length as the number of frames.  The debug counter
    stops at 6.  Without an audio source [sendAudio] returns [false] and
    does nothing. *)
Theorem sendAudio_splits_into_chunks (samples : list Z) (sampleRate : Z)
    (h : WebRTCAudioHandler.t) :
  match WebRTCAudioHandler.audioSource h with
  | None =>
      WebRTCAudioHandler.sendAudio (fun _ => true) samples sampleRate h
      = (false, h)
  | Some received =>
      exists chunks,
        WebRTCAudioHandler.sendAudio (fun _ => true) samples sampleRate h
        = (true,
           WebRTCAudioHandler.mk
             (Some (received
                    ++ map (fun c =>
                              WebRTCAudioHandler.mkAudioData c sampleRate 16 1
                                (Z.of_nat (List.length c))) chunks))
             (WebRTCAudioHandler.audioSink h)
             (WebRTCAudioHandler.onAudioDataCallback h)
             (if (WebRTCAudioHandler.sentDebugCount h <? 6)%Z
              then Z.min 6 (WebRTCAudioHandler.sentDebugCount h
                            + Z.of_nat (List.length chunks))
              else WebRTCAudioHandler.sentDebugCount h)) /\
        List.concat chunks = samples /\
        Forall (fun c => (0 < List.length c <= 160)%nat) chunks /\
        List.length chunks = ((List.length samples + 159) / 160)%nat /\
        (forall (j : nat) (c : list Z),
           chunks !! j = Some c -> (S j < List.length chunks)%nat ->
           List.length c = 160%nat)
  end.
Proof.
  unfold WebRTCAudioHandler.sendAudio.
  destruct (WebRTCAudioHandler.audioSource h) as [received |]; [| reflexivity].
  destruct (sendLoop_accepting sampleRate samples (List.length samples) 0
              received (WebRTCAudioHandler.sentDebugCount h) ltac:(lia))
    as (chunks & E & Hcat & Hall & Hn & Hfull).
  exists chunks. rewrite E.
  rewrite Nat.sub_0_r in Hn. rewrite drop_0 in Hcat.
  repeat split; assumption.
Qed.

(** A frame of the synthesizer, 320 samples, goes out as two chunks of
    160 samples. *)
Example sendAudio_frame_of_320_samples :
  let h := WebRTCAudioHandler.createAudioSource WebRTCAudioHandler.new in
  WebRTCAudioHandler.sendAudio (fun _ => true) (repeat 7%Z 320) 16000 h
  = (true,
     WebRTCAudioHandler.mk
       (Some [WebRTCAudioHandler.mkAudioData (repeat 7%Z 160) 16000 16 1 160;
              WebRTCAudioHandler.mkAudioData (repeat 7%Z 160) 16000 16 1 160])
       false false 2).
Proof. vm_compute. reflexivity. Qed.
